(* ===== verification/_CoqProject ===== *)
-Q . S2P
Prelude.v
CppStd.v
Identity.v
Types.v
RoutingTable.v
RoutingTableFacts.v
RoutingTableProps.v
GrownTable.v
RoutingPaths.v
Accumulator.v
AccumulatorProps.v
PartStore.v
MessageHeader.v
Codec.v
ConcreteIO.v
Messages.v
Sentinel.v
SentinelFacts.v
SentinelProps.v
SentinelLiveness.v
SentinelOnce.v
SentinelAgreement.v
SentinelAccounts.v
ConnectionManager.v
ConnectionManagerProps.v
AsyncQueue.v
AsyncExchange.v
Connections.v
ConnectionsProps.v
ConnectionsWatch.v
RoutingNode.v
RoutingNodeProps.v
NodeSentinel.v
NodeSystem.v
NodeSystemProps.v
AccountTransferInfo.v
BootstrapHandler.v
Client.v
ClientProps.v
ConnectionsSafety.v
Conversation.v
Handshake.v
NodesMeet.v
CppString.v
ToolEnv.v
SharedResponse.v
Commands.v
CommandsFacts.v
CommandsProps.v
CommandsSending.v
Answers.v
PerformanceTest.v
SendMessagesProps.v
CommandsEdge.v
CreateBootstrap.v
ToolsMain.v
ToolConcrete.v
ToolWitness.v
