(* ===== verification/Prelude.v ===== *)
(** * MaidSafe-Routing: a verification development

    This library models the C++ sources of the repository as Rocq functions and
    proves what they promise.  A function of the source is a definition of the
    same name (with a prefix where two classes share a name), a class is a
    record of its fields, an enumeration is an inductive type.  Everything is
    executable, so the examples at the end of the files evaluate.

    ** The program and the files

    A routing node keeps connections to other nodes, orders them by XOR distance
    to itself, and accepts a message from a group only when a quorum of its
    members signed it.  From the bottom up ([S] is [src/src/maidsafe/routing],
    [I] is [src/include/maidsafe/routing]):

    - [Prelude]: outcomes of C++ code ([outcome]: a value, an exception, a
      failed assertion, undefined behaviour), state-changing code ([prog], which
      keeps the state on every exit), the build mode that decides what [assert]
      does, and the [ends] logic for such code.
    - [CppStd]: what is used of the C++ standard library: [std::map] as a list
      of pairs sorted by its comparator, [std::sort], comparisons of [std::tie],
      maps whose order is not observed, and buffers a datagram is received into,
      which hold as much of it as fits.
    - [Identity], [Types]: what comes from maidsafe-common, passport and asio as
      classes with laws, with a concrete instance (512-bit XOR metric, a toy
      signature scheme) for the witnesses; the types of [I/types.h],
      [I/node_info.h], [I/source_address.h], [I/endpoint_pair.h], [I/contact.h].
    - [RoutingTable], [RoutingTableFacts], [RoutingTableProps]:
      [S/routing_table.h], [.cc].  The table is strictly sorted by closeness,
      bounded and without us in every reachable state; [AddNode] keeps the close
      group, drops only contacts outside it, and does what [CheckNode] predicts;
      [TargetNodes] returns the close group or the closest contacts.
    - [GrownTable], [RoutingPaths]: tables that are offered contacts, and many of
      them together.  The close group is exactly that of all contacts ever
      offered, and no bucket that has a contact is emptied; so, when each table
      got a contact of each bucket early on, [TargetNodes] leads from any node to
      any other within as many hops as an identity has bits, and to the node
      closest to any address.
    - [Accumulator], [AccumulatorProps]: [S/accumulator.h], with the list nodes
      of the LRU order and the iterators into it.  It refines an abstract
      ordered list with expiry; the quorum counts every sender once.
      [PartStore] is the interface through which the sentinel changes an
      accumulator, a class with laws that the accumulator satisfies.
    - [MessageHeader], [Codec], [ConcreteIO], [Messages]: [S/message_header.h],
      [S/utils.h], [S/messages/].  Archives are pairs of an encoder and a
      decoder; every message class is read back as it was written, with its
      endpoints as [load] makes them.
    - [Sentinel], [SentinelFacts], [SentinelProps], [SentinelLiveness],
      [SentinelOnce]: [S/sentinel.h], [.cc].  [SentinelFacts] is the specification.  A message
      of a group that is returned is backed by a quorum of distinct senders whose
      signatures were verified with keys of the responses of a quorum of nodes, one of a single
      node by its signature and such a key; and a message of a group of which a
      quorum is honest gets through, in whatever order its parts and the keys
      arrive within twenty minutes, when all reported keys are right and no part
      claims to be an account transfer, as does the message of a node whose key
      is reported after it.  Each return of a message of a group uses
      up a quorum of parts, so it is not repeated.
    - [SentinelAgreement], [SentinelAccounts]: two sentinels do not accept
      different payloads for a message, as two quorums share honest members; the
      accounts of a transfer are merged.  Examples show that what this assumes of
      the keys and signatures is needed, and not ensured by the code.
    - [ConnectionManager], [ConnectionManagerProps]: [S/connection_manager.h],
      [.cc], [S/peer_node.h].  The operations under way are part of the state
      and complete in any order with any result; the invariant of the peers
      holds in every reachable state, and only the expected identity is
      connected.
    - [AsyncQueue], [AsyncExchange]: [S/async_queue.h], [S/async_exchange.h].
      The queue is first in, first out in any interleaving; an exchange calls
      its handler once whichever operation completes first.
    - [Connections], [ConnectionsProps]: [S/connections.h].  Posted lambdas and
      completion handlers are tasks that run in any order; no handler is called
      twice, none is lost but those of an exchange that brings no identity, and
      received messages are delivered in order.
      [ConnectionsWatch]: a connection a handler was told of is received from until
      its end has been reported, once.
    - [RoutingNode], [RoutingNodeProps]: [I/routing_node.h].  Whatever bytes
      arrive, handling them is never undefined and leaves the peers alone; a
      message is handled once; the authority of a node is given case by case;
      its replies pass the check of the sentinel.
    - [NodeSentinel]: the node, the codecs and the sentinel together: a reply to
      [Connect] gets through a sentinel, replies to [FindGroup] never would.
    - [NodeSystem], [NodeSystemProps]: a node in operation, from construction to
      destruction, with the lambdas posted to its two io_services, the
      completions of its connection manager and the calls of the derived class:
      nothing undefined happens before the destructor, and a peer is received
      from once.
    - [AccountTransferInfo]: [I/account_transfer_info.h], [S/...cc].
    - [BootstrapHandler]: [S/bootstrap_handler.h], [.cc], over a database that is
      a parameter: contacts that replace the stored ones are read back.
    - [Client], [ClientProps]: [I/client.h], [S/client.cc].  A message is noted
      once; no request of a client ever calls its handler.  [Get] has no definition,
      as it calls a constructor that does not exist and cannot be instantiated.
    - [ConnectionsSafety]: the tasks of [Connections] meet no failed assertion
      and nothing undefined as long as endpoints are not taken over.
    - [Conversation]: two [Connections] objects with a network between them:
      what one sends is what the handlers of the other receive, in order.
    - [Handshake]: two connection managers and the exchange between them, from
      the connection to the first object received.
    - [NodesMeet]: two whole nodes from their construction to the point where each
      has the other as a peer and has told its derived class.

    The command line tools under [S/tools]:

    - [CppString]: what they use of [std::string], streams, [atoi] and
      [boost::tokenizer], with the widths of the numbers read.
    - [ToolEnv]: code that may wait for ever ([waiting]), conversions between
      integer types, and the classes for what the tools call: the test node
      ([GenericNodeOps]), key chains, random data, files, and the answers that
      arrive after a message is sent or while its sender waits, spurious wake-ups
      included ([ArrivalOps]).
    - [SharedResponse]: [S/tools/shared_response.h], [.cc].
    - [Commands]: [S/tools/commands.h], [.cc], the shell of the test node, with
      the functors it gives to the node.  [CommandsFacts] is a logic for what a
      command leaves alone ([stays]).  [CommandsProps]: the loop of a session
      ends at [exit] only.  [CommandsSending]: the
      nodes expected to respond, the pause, and that a reply is counted for the
      node that sent it.  [Answers], [PerformanceTest], [SendMessagesProps]:
      when every message gets its answers the sender is woken, and the commands
      that send return.  [CommandsEdge]: the peer endpoint, and what goes wrong
      with some settings.
    - [CreateBootstrap]: [S/tools/create_bootstrap.cc], the menu on the lines
      typed: it stops at 0, and a list written to a file is read back.
    - [ToolsMain]: [S/tools/routing_node.cc] and [S/tools/key_helper.cc] from the
      parsed options on: a session is started with checked options only, and the
      keys one program writes are those the other loads.
    - [ToolConcrete], [ToolWitness]: a node that answers everything, files in
      memory, and the theorems about the tools applied to them.

    A node uses the connection manager, the message codecs, the sentinel's
    types and an LRU cache; the sentinel uses four accumulators; the connection
    manager and [Connections] exchange identities with [AsyncExchange].  The
    files with [Props] in their name hold the theorems that are stated of whole
    components; a theorem that is numbered ([C1], [C2], ...) is a property of
    the development, and the module at the end of its file applies it to a
    concrete state.

    ** Parameters

    Code that is not in the repository is never defined here, it is a class
    with laws that say what its documentation does: identities and the XOR
    order ([IdentityOps]), keys and signatures ([CryptoOps], [FobOps]), asio
    endpoints ([EndpointOps]), cereal archives ([ArchiveOps]), the LRU cache
    ([LruCacheOps]), the SQLite table ([DatabaseOps]), [Merge] of accounts
    ([AccountOps]), and what the tools use ([AddressText], [KeyOps],
    [GenericNodeOps], [ToolOps], [ArrivalOps], [FileOps], [KeyFileOps]).  Each class with laws has an instance that satisfies them.
    Readings of a clock are arguments, one for each reading.

    ** Bounds

    [Accumulator.expire_loop] has fuel, the length of the order plus one, of
    which each round but the last uses up an entry; [BootstrapHandler.insert_loop]
    has the number of contacts.  Running out of fuel would be [Undefined], and
    the theorems say that the functions return.  [MessageId] is an integer that
    wraps at [2 ^ 32]; ports, sizes and tags have their range as a condition
    where they are archived.  Buffers have the sizes of the source; a datagram
    that does not fit is cut, and theorems that say it arrives complete have its
    size as a condition.

    In the tools, [performance_rounds] is 13, one more than the rounds the test
    makes, which [RunPerformanceTest_rounds] proves to be enough; the fuel of
    [run_loop] and [main_loop] is the number of lines handled, and the theorems
    give how much is enough; [to_string] has the ten digits of a [uint32_t].
    Numbers keep the width of their C++ type: unsigned ones wrap, overflow of
    signed ones and division by zero are [Undefined].

    ** What is not modelled

    Mutexes and threads: a function that locks is one atomic step, and the
    io_service runs one handler at a time.  crux sockets and acceptors: what an
    operation completes with is arbitrary, except in [Conversation], where the
    datagrams of a connection arrive complete and in order.  Logging.  The templates of asio's
    completion tokens.  [RoutingNode]'s bootstrap code and [S/routing_node.cc],
    which are commented out.  Of the tools: the parsing of the command line by
    boost, prompts and the echo of the terminal, the texts of exceptions, and the
    time that pauses take; the answers to a message are run one at a time, and
    those that come in after their sender stopped waiting (a spurious wake-up can
    make it) are left out.
    [Commands::Validate] compares with [Address ()] where a parameter hides the
    type; it is read as the default address.

    The forwarding of messages is modelled as the code has it, where [GetTarget]
    of the connection manager is empty and nothing is sent on; [RoutingPaths] is
    about [RoutingTable::TargetNodes], which nothing calls at present.  Nodes that
    leave a network are not part of it.  The lines of the sources no definition
    refers to are declarations, deleted functions, comments and what is listed
    here. *)

From stdpp Require Export sorting.
From stdpp Require Export prelude.

Set Default Proof Using "Type".

(** ** C++ outcomes *)

(** Scope of the notations of this development. *)
Declare Scope routing_scope.
Delimit Scope routing_scope with routing.

(** Error codes thrown by the sources ([MakeError (CommonErrors::...)]) and by
    [std::vector::at] ([out_of_range]); [database_error] is what the SQLite wrapper
    throws, [logic_error] the command line tools' own. *)
Inductive error :=
  | invalid_identity
  | parsing_error
  | invalid_argument
  | uninitialised
  | out_of_range
  | database_error
  | logic_error.

#[export] Instance error_eq_dec : EqDecision error.
Proof. solve_decision. Defined.

(** What running a piece of C++ can give: a value, a C++ exception, a failed
    [assert] (the process aborts) or undefined behaviour. *)
Inductive outcome (A : Type) :=
  | Ok (a : A)
  | Throw (e : error)
  | AssertFailed
  | Undefined.
Arguments Ok {A} a.
Arguments Throw {A} e.
Arguments AssertFailed {A}.
Arguments Undefined {A}.

#[export] Instance outcome_ret : MRet outcome := λ A a, Ok a.
#[export] Instance outcome_bind : MBind outcome := λ A B f m,
  match m with
  | Ok a => f a
  | Throw e => Throw e
  | AssertFailed => AssertFailed
  | Undefined => Undefined
  end.

(** Code that changes an object: the object it leaves behind is kept on every
    exit, so that exception guarantees can be stated. *)
Definition prog (S A : Type) : Type := S → outcome A * S.

#[export] Instance prog_ret {S} : MRet (prog S) := λ A a s, (Ok a, s).
#[export] Instance prog_bind {S} : MBind (prog S) := λ A B f m s,
  match m s with
  | (Ok a, s') => f a s'
  | (Throw e, s') => (Throw e, s')
  | (AssertFailed, s') => (AssertFailed, s')
  | (Undefined, s') => (Undefined, s')
  end.

(** A [const] member function run inside a state-changing one. *)
Definition lift {S A} (f : S → outcome A) : prog S A := λ s, (f s, s).
Definition get {S} : prog S S := λ s, (Ok s, s).
Definition modify {S} (f : S → S) : prog S unit := λ s, (Ok tt, f s).
Definition throw {S A} (e : error) : prog S A := λ s, (Throw e, s).

(** The build: with [NDEBUG] defined, [assert] is compiled out. *)
Class BuildMode := { NDEBUG : bool }.

Definition cpp_assert `{BuildMode} (b : bool) : outcome unit :=
  if NDEBUG then Ok tt else if b then Ok tt else AssertFailed.

(** Closed goals by evaluation: an equation, compared without reading the
    values back, and a decidable proposition. *)
Ltac vm_refl := match goal with |- _ = ?b => vm_cast_no_check (@eq_refl _ b) end.
Ltac by_bool := apply (bool_decide_unpack _); vm_compute; exact I.

(** The state a run leaves need not be written out. *)
Lemma run_fst {S A} (p : prog S A) s r : (p s).1 = r → p s = (r, (p s).2).
Proof. intros <-. by destruct (p s). Qed.

Lemma cpp_assert_true `{BuildMode} : cpp_assert true = Ok tt.
Proof. unfold cpp_assert. by destruct NDEBUG. Qed.

Lemma bind_Ok {A B} (a : A) (f : A → outcome B) : (Ok a ≫= f) = f a.
Proof. done. Qed.

Lemma prog_bind_Ok {S A B} (m : prog S A) (f : A → prog S B) s s' a :
  m s = (Ok a, s') → (m ≫= f) s = f a s'.
Proof. intros Hm. unfold mbind, prog_bind. by rewrite Hm. Qed.

(** ** Sublists *)
Lemma Forall_sublist {A} (P : A → Prop) (l1 l2 : list A) :
  l1 `sublist_of` l2 → Forall P l2 → Forall P l1.
Proof.
  intros Hs Hl. apply Forall_forall. intros x Hx. rewrite Forall_forall in Hl.
  by eapply Hl, elem_of_sublist.
Qed.

Lemma sublist_filter {A} (f : A → bool) (l : list A) : List.filter f l `sublist_of` l.
Proof. induction l as [|x l IH]; cbn; [done|]. destruct (f x); by constructor. Qed.

(** ** Counting *)
Lemma NoDup_subset_length {A} (l k : list A) : NoDup l → l ⊆ k → length l ≤ length k.
Proof. intros Hnd Hsub. apply submseteq_length. by apply NoDup_submseteq. Qed.

Lemma filter_le_length {A} (f g : A → bool) (l : list A) :
  (∀ x, f x = true → g x = true) → length (List.filter f l) ≤ length (List.filter g l).
Proof.
  intros Hfg. induction l as [|x l IH]; cbn; [done|]. specialize (Hfg x).
  destruct (f x), (g x); cbn; naive_solver lia.
Qed.

Lemma filter_lt_length {A} (f g : A → bool) (l : list A) x :
  (∀ y, f y = true → g y = true) → x ∈ l → f x = false → g x = true →
  length (List.filter f l) < length (List.filter g l).
Proof.
  intros Hfg Hx Hf Hg. induction l as [|y l IH]; [by apply elem_of_nil in Hx|].
  cbn. apply elem_of_cons in Hx as [<-|Hx].
  - rewrite Hf, Hg. cbn. pose proof (filter_le_length f g l Hfg). lia.
  - specialize (IH Hx). pose proof (Hfg y). destruct (f y), (g y); cbn; naive_solver lia.
Qed.

(** Two large parts of [m] have an element in common that is not one of [bad]. *)
Lemma large_parts_meet `{EqDecision A} (l1 l2 m bad : list A) :
  NoDup l1 → NoDup l2 → l1 ⊆ m → l2 ⊆ m → length m + length bad < length l1 + length l2 →
  ∃ x, x ∈ l1 ∧ x ∈ l2 ∧ x ∉ bad.
Proof.
  intros H1 H2 Hs1 Hs2 Hlen.
  destruct (decide (Exists (λ x, x ∈ l2 ∧ x ∉ bad) l1)) as [He|Hne].
  { apply Exists_exists in He as (x & ? & ? & ?). by exists x. }
  exfalso. rewrite <-Forall_Exists_neg, Forall_forall in Hne.
  pose proof (filter_app_complement (λ x, x ∈ l1) m) as Hm. apply Permutation_length in Hm.
  rewrite length_app in Hm.
  assert (length l1 ≤ length (filter (λ x, x ∈ l1) m)) as Hl1.
  { apply NoDup_subset_length; [done|]. intros x Hx. apply list_elem_of_filter. auto. }
  assert (length l2 ≤ length (filter (λ x, x ∉ l1) m ++ bad)) as Hl2.
  { apply NoDup_subset_length; [done|]. intros x Hx. apply elem_of_app.
    destruct (decide (x ∈ bad)); [by right|left]. apply list_elem_of_filter. split; [|auto].
    intros Hx1. by apply (Hne x Hx1). }
  rewrite length_app in Hl2. lia.
Qed.

(** ** Reasoning about state-changing code

    [ends p s Q E]: run from [s], [p] returns a value and a state that satisfy
    [Q], or leaves by an exception or a failure in a state that satisfies [E]. *)
Definition ends {S A} (p : prog S A) (s : S) (Q : A → S → Prop) (E : S → Prop) : Prop :=
  match p s with
  | (Ok a, s') => Q a s'
  | (_, s') => E s'
  end.

Section ends.
Context {S : Type}.
Implicit Types (s : S) (E : S → Prop).

Lemma ends_ret {A} (a : A) s (Q : A → S → Prop) E : Q a s → ends (mret a) s Q E.
Proof. done. Qed.

Lemma ends_get s (Q : S → S → Prop) E : Q s s → ends get s Q E.
Proof. done. Qed.

Lemma ends_modify f s (Q : unit → S → Prop) E : Q tt (f s) → ends (modify f) s Q E.
Proof. done. Qed.

Lemma ends_throw {A} e s (Q : A → S → Prop) E : E s → ends (throw e) s Q E.
Proof. done. Qed.

Lemma ends_lift {A} (f : S → outcome A) s (Q : A → S → Prop) E :
  (∀ a, f s = Ok a → Q a s) → E s → ends (lift f) s Q E.
Proof. intros HQ HE. unfold ends, lift. destruct (f s); auto. Qed.

Lemma ends_lift_Ok {A} (f : S → outcome A) a s (Q : A → S → Prop) E :
  f s = Ok a → Q a s → ends (lift f) s Q E.
Proof. intros Hf HQ. unfold ends, lift. by rewrite Hf. Qed.

Lemma ends_bind {A B} (m : prog S A) (f : A → prog S B) s (Q : B → S → Prop) E :
  ends m s (λ a s', ends (f a) s' Q E) E → ends (m ≫= f) s Q E.
Proof. unfold ends, mbind, prog_bind. by destruct (m s) as [[]]. Qed.

Lemma ends_weaken {A} (m : prog S A) s (Q Q' : A → S → Prop) (E E' : S → Prop) :
  ends m s Q E → (∀ a s', Q a s' → Q' a s') → (∀ s', E s' → E' s') → ends m s Q' E'.
Proof. unfold ends. intros Hm HQ HE. destruct (m s) as [[] s']; auto. Qed.
End ends.
Create HintDb routing.
#[export] Hint Resolve ends_ret ends_get ends_modify ends_throw : routing.
