(* ===== verification/CppStd.v ===== *)
(** * The parts of the C++ standard library the sources use

    Sorting ([std::sort], [std::partial_sort]) and ordered maps
    ([std::map<K, V, Compare>]) over a boolean comparator, with the laws the
    components build on.  A map is the sequence of its pairs in iteration
    order, because the sources iterate over maps and depend on that order. *)

From S2P Require Import Prelude.

(** ** Comparators *)

(** What the standard asks of a comparator, plus the fact that two keys
    neither of which precedes the other are equal: true of every comparator
    the sources use. *)
Class StrictTotal {K : Type} (ltb : K → K → bool) : Prop := {
  ltb_irrefl : ∀ x, ltb x x = false;
  ltb_trans : ∀ x y z, ltb x y = true → ltb y z = true → ltb x z = true;
  ltb_total : ∀ x y, ltb x y = false → ltb y x = false → x = y
}.

(** [std::pair]'s [operator<]. *)
Definition pair_ltb {A B} (ltA : A → A → bool) (ltB : B → B → bool) (x y : A * B) : bool :=
  ltA x.1 y.1 || (negb (ltA y.1 x.1) && ltB x.2 y.2).

(** [boost::optional]'s [operator<]: an empty optional precedes a full one. *)
Definition option_ltb {A} (ltA : A → A → bool) (x y : option A) : bool :=
  match x, y with
  | None, Some _ => true
  | Some a, Some b => ltA a b
  | _, None => false
  end.

(** ** [std::sort]

    [sort_by f ltb l] sorts [l] by the key [f]; insertion sort, which agrees
    with every correct sort when the keys are distinct ([sort_by_unique]). *)
Fixpoint insert_by {A K} (f : A → K) (ltb : K → K → bool) (x : A) (l : list A) : list A :=
  match l with
  | [] => [x]
  | y :: l' => if ltb (f x) (f y) then x :: y :: l' else y :: insert_by f ltb x l'
  end.

Fixpoint sort_by {A K} (f : A → K) (ltb : K → K → bool) (l : list A) : list A :=
  match l with
  | [] => []
  | x :: l' => insert_by f ltb x (sort_by f ltb l')
  end.

Definition sorted_by {A K} (f : A → K) (ltb : K → K → bool) : list A → Prop :=
  StronglySorted (λ x y, ltb (f x) (f y) = true).

(** Strict sortedness of neighbours, which decides [sorted_by]. *)
Fixpoint strictly_sorted {A K} (f : A → K) (ltb : K → K → bool) (l : list A) : bool :=
  match l with
  | x :: (y :: _) as l' => ltb (f x) (f y) && strictly_sorted f ltb l'
  | _ => true
  end.

(** [std::is_sorted] *)
Fixpoint is_sorted {A K} (f : A → K) (ltb : K → K → bool) (l : list A) : bool :=
  match l with
  | x :: (y :: _) as l' => negb (ltb (f y) (f x)) && is_sorted f ltb l'
  | _ => true
  end.

(** ** [std::vector::erase] of one position *)
Definition erase_at {A} (i : nat) (l : list A) : list A := take i l ++ drop (S i) l.

(** ** [std::map] *)
Section std_map.
Context {K V : Type} (ltb : K → K → bool).

(** Two keys are the same map key when neither precedes the other. *)
Definition key_equiv (a b : K) : bool := negb (ltb a b) && negb (ltb b a).

Fixpoint map_find (k : K) (m : list (K * V)) : option V :=
  match m with
  | [] => None
  | (k', v) :: m' => if key_equiv k k' then Some v else map_find k m'
  end.

(** [map::insert] keeps the existing element; the flag says whether the pair
    was inserted. *)
Fixpoint map_insert (k : K) (v : V) (m : list (K * V)) : list (K * V) * bool :=
  match m with
  | [] => ([(k, v)], true)
  | (k', v') :: m' =>
      if ltb k k' then ((k, v) :: (k', v') :: m', true)
      else if ltb k' k then let '(m'', b) := map_insert k v m' in ((k', v') :: m'', b)
      else ((k', v') :: m', false)
  end.

(** Assignment through an iterator or [operator[]]: the element is replaced. *)
Fixpoint map_set (k : K) (v : V) (m : list (K * V)) : list (K * V) :=
  match m with
  | [] => [(k, v)]
  | (k', v') :: m' =>
      if ltb k k' then (k, v) :: (k', v') :: m'
      else if ltb k' k then (k', v') :: map_set k v m'
      else (k', v) :: m'
  end.

Definition map_erase (k : K) (m : list (K * V)) : list (K * V) :=
  List.filter (λ p, negb (key_equiv k p.1)) m.

(** [std::distance (begin, upper_bound k)]: the number of keys not after [k]. *)
Fixpoint upper_bound (k : K) (m : list (K * V)) : nat :=
  match m with
  | [] => 0
  | (k', _) :: m' => if ltb k k' then 0 else S (upper_bound k m')
  end.

Definition map_ok (m : list (K * V)) : Prop := sorted_by fst ltb m.
End std_map.

(** ** Comparators: laws *)

Section comparator_laws.
Context {K} (ltb : K → K → bool) `{!StrictTotal ltb}.

Lemma ltb_asym x y : ltb x y = true → ltb y x = false.
Proof.
  intros H. destruct (ltb y x) eqn:E; [|done].
  pose proof (ltb_trans _ _ _ H E). by rewrite ltb_irrefl in *.
Qed.

Lemma ltb_ne x y : ltb x y = true → x ≠ y.
Proof. intros H ->. by rewrite ltb_irrefl in H. Qed.

Lemma ltb_false_ne x y : ltb x y = false → x ≠ y → ltb y x = true.
Proof.
  intros H Hne. destruct (ltb y x) eqn:E; [done|].
  destruct Hne. by apply ltb_total.
Qed.

Lemma ltb_ge_trans x y z : ltb y x = false → ltb y z = true → ltb x z = true.
Proof.
  intros H1 H2. destruct (ltb x y) eqn:E.
  - by apply (ltb_trans x y z).
  - by rewrite (ltb_total x y).
Qed.

Lemma key_equiv_spec a b : key_equiv ltb a b = true ↔ a = b.
Proof.
  unfold key_equiv. rewrite andb_true_iff, !negb_true_iff. split.
  - intros []. by apply ltb_total.
  - intros ->. by rewrite ltb_irrefl.
Qed.

Lemma key_equiv_refl a : key_equiv ltb a a = true.
Proof. by apply key_equiv_spec. Qed.

Lemma key_equiv_ne a b : a ≠ b → key_equiv ltb a b = false.
Proof. intros H. apply not_true_iff_false. by rewrite key_equiv_spec. Qed.
End comparator_laws.

#[export] Instance pair_ltb_total {A B} (ltA : A → A → bool) (ltB : B → B → bool)
  `{!StrictTotal ltA, !StrictTotal ltB} : StrictTotal (pair_ltb ltA ltB).
Proof.
  split; unfold pair_ltb.
  - intros [a b]; simpl. by rewrite !ltb_irrefl.
  - intros [a1 b1] [a2 b2] [a3 b3]; simpl.
    rewrite !orb_true_iff, !andb_true_iff, !negb_true_iff.
    intros [H1|[H1 H1']] [H2|[H2 H2']].
    + left. by eapply ltb_trans.
    + left. destruct (ltA a1 a3) eqn:E; [done|].
      destruct (ltA a2 a3) eqn:E2; [by rewrite (ltb_trans _ _ _ H1 E2) in E|].
      rewrite (ltb_total a2 a3 E2 H2) in H1. congruence.
    + left. by eapply (ltb_ge_trans ltA).
    + destruct (ltA a1 a3) eqn:E; [by left|right]. split; [|by eapply ltb_trans].
      destruct (ltA a3 a1) eqn:E3; [|done].
      assert (ltA a3 a2 = true); [|congruence].
      destruct (ltA a1 a2) eqn:E1.
      * by eapply ltb_trans.
      * by rewrite <-(ltb_total a1 a2).
  - intros [a1 b1] [a2 b2]; simpl.
    rewrite !orb_false_iff. intros [H1 H1'] [H2 H2'].
    rewrite H2 in H1'. rewrite H1 in H2'. simpl in *.
    f_equal; by apply ltb_total.
Qed.

#[export] Instance option_ltb_total {A} (ltA : A → A → bool) `{!StrictTotal ltA} :
  StrictTotal (option_ltb ltA).
Proof.
  split.
  - intros [a|]; simpl; [apply ltb_irrefl|done].
  - intros [a|] [b|] [c|]; simpl; try done. apply ltb_trans.
  - intros [a|] [b|]; simpl; try done. intros. f_equal. by apply ltb_total.
Qed.

#[export] Instance N_ltb_total : StrictTotal N.ltb.
Proof.
  split.
  - apply N.ltb_irrefl.
  - intros x y z. rewrite !N.ltb_lt. lia.
  - intros x y. rewrite !N.ltb_ge. lia.
Qed.

#[export] Instance Z_ltb_total : StrictTotal Z.ltb.
Proof.
  split.
  - apply Z.ltb_irrefl.
  - intros x y z. rewrite !Z.ltb_lt. lia.
  - intros x y. rewrite !Z.ltb_ge. lia.
Qed.

(** ** Sorting: laws *)

Section sort_laws.
Context {A K : Type} (f : A → K) (ltb : K → K → bool) `{!StrictTotal ltb}.

Lemma insert_by_perm x l : insert_by f ltb x l ≡ₚ x :: l.
Proof.
  induction l as [|y l IH]; simpl; [done|]. destruct (ltb _ _); [done|].
  rewrite IH. constructor.
Qed.

Lemma sort_by_perm l : sort_by f ltb l ≡ₚ l.
Proof. induction l as [|x l IH]; simpl; [done|]. by rewrite insert_by_perm, IH. Qed.

Lemma insert_by_sorted x l :
  sorted_by f ltb l → f x ∉ f <$> l → sorted_by f ltb (insert_by f ltb x l).
Proof.
  unfold sorted_by. induction l as [|y l IH]; simpl.
  - intros. repeat constructor.
  - intros Hs Hx. apply StronglySorted_cons in Hs as [Hy Hs].
    rewrite not_elem_of_cons in Hx. destruct Hx as [Hxy Hx].
    destruct (ltb (f x) (f y)) eqn:E.
    + constructor; [by constructor|]. constructor; [done|].
      eapply Forall_impl; [exact Hy|]. intros z. by apply ltb_trans.
    + constructor; [by apply IH|]. rewrite insert_by_perm. constructor; [|done].
      by apply ltb_false_ne.
Qed.

Lemma sort_by_sorted l : NoDup (f <$> l) → sorted_by f ltb (sort_by f ltb l).
Proof.
  induction l as [|x l IH]; simpl; [constructor|].
  intros [Hx Hl]%NoDup_cons. apply insert_by_sorted; [by apply IH|].
  by rewrite sort_by_perm.
Qed.

Lemma sorted_by_NoDup l : sorted_by f ltb l → NoDup (f <$> l).
Proof.
  unfold sorted_by. induction 1 as [|x l Hl IH Hx]; simpl; constructor; [|done].
  intros (y & Hxy & Hy)%list_elem_of_fmap. rewrite Forall_forall in Hx.
  specialize (Hx _ Hy). rewrite Hxy, ltb_irrefl in Hx. done.
Qed.

(** A sorted arrangement is unique: whatever algorithm [std::sort] runs, the
    result is this one. *)
Lemma sorted_by_unique l1 l2 :
  sorted_by f ltb l1 → sorted_by f ltb l2 → l1 ≡ₚ l2 → l1 = l2.
Proof.
  intros H1 H2. apply (StronglySorted_unique_strong (λ x y, ltb (f x) (f y) = true)); [|done..].
  intros x y _ _ Hxy Hyx. apply (ltb_asym ltb) in Hxy. congruence.
Qed.

Lemma sort_by_unique l l' :
  sorted_by f ltb l' → l' ≡ₚ l → sort_by f ltb l = l'.
Proof.
  intros Hs Hp. apply sorted_by_unique; [|done|by rewrite sort_by_perm].
  apply sort_by_sorted. rewrite <-Hp. by apply sorted_by_NoDup.
Qed.

Lemma sort_by_snoc x l :
  sorted_by f ltb l → f x ∉ f <$> l → sort_by f ltb (l ++ [x]) = insert_by f ltb x l.
Proof.
  intros Hs Hx. apply sort_by_unique; [by apply insert_by_sorted|].
  rewrite insert_by_perm. apply Permutation_cons_append.
Qed.

Lemma sorted_by_sublist l1 l2 : l1 `sublist_of` l2 → sorted_by f ltb l2 → sorted_by f ltb l1.
Proof.
  unfold sorted_by. induction 1 as [|x l1 l2 Hsub IH|x l1 l2 Hsub IH]; intros Hs; [done|..];
    apply StronglySorted_cons in Hs as [Hx Hs]; [|by apply IH].
  constructor; [by apply IH|]. rewrite Forall_forall in *.
  intros y Hy. apply Hx. by eapply elem_of_submseteq, sublist_submseteq.
Qed.

Lemma sorted_by_lookup l i j x y :
  sorted_by f ltb l → l !! i = Some x → l !! j = Some y → i < j → ltb (f x) (f y) = true.
Proof.
  unfold sorted_by. intros Hs. revert i j.
  induction Hs as [|z l Hl IH Hz]; intros [|i] [|j] Hi Hj Hij; simplify_eq/=; try lia.
  - rewrite Forall_forall in Hz. apply Hz. by eapply list_elem_of_lookup_2.
  - apply (IH i j); [done..|lia].
Qed.

Lemma sorted_by_lookup_inv l i j x y :
  sorted_by f ltb l → l !! i = Some x → l !! j = Some y → ltb (f x) (f y) = true → i < j.
Proof.
  intros Hs Hi Hj Hlt. destruct (decide (i < j)) as [|Hge]; [done|exfalso].
  destruct (decide (i = j)) as [->|].
  - simplify_eq. by rewrite ltb_irrefl in Hlt.
  - assert (ltb (f y) (f x) = true) as Hyx by (eapply sorted_by_lookup; eauto with lia).
    apply (ltb_asym ltb) in Hyx. congruence.
Qed.

Lemma sorted_by_app l1 l2 x y :
  sorted_by f ltb (l1 ++ l2) → x ∈ l1 → y ∈ l2 → ltb (f x) (f y) = true.
Proof.
  unfold sorted_by. induction l1 as [|z l1 IH]; [by intros _ ?%elem_of_nil|].
  intros [Hz Hs]%StronglySorted_cons [->|Hx]%elem_of_cons Hy; [|by apply IH].
  rewrite Forall_forall in Hz. apply Hz, elem_of_app. by right.
Qed.

Lemma strictly_sorted_by l : strictly_sorted f ltb l = true → sorted_by f ltb l.
Proof.
  unfold sorted_by. induction l as [|x l IH]; [constructor|]. intros Hs.
  destruct l as [|y l]; [repeat constructor|]. cbn [strictly_sorted] in Hs.
  apply andb_true_iff in Hs as [Hxy Hs]. specialize (IH Hs).
  constructor; [done|]. constructor; [done|].
  apply StronglySorted_cons in IH as [Hy _]. eapply Forall_impl; [exact Hy|].
  simpl. intros z Hyz. by apply (ltb_trans _ (f y)).
Qed.

Lemma is_sorted_sorted_by l : sorted_by f ltb l → is_sorted f ltb l = true.
Proof.
  induction l as [|x [|y l] IH]; [done..|]. intros [Hx Hs]%StronglySorted_cons.
  apply Forall_cons in Hx as [Hxy _]. cbn [is_sorted].
  rewrite (ltb_asym ltb _ _ Hxy). by apply IH.
Qed.

(** The first element of a sorted list is minimal. *)
Lemma sorted_by_head x l y :
  sorted_by f ltb (x :: l) → y ∈ x :: l → y = x ∨ ltb (f x) (f y) = true.
Proof.
  intros [Hx _]%StronglySorted_cons [->|Hy]%elem_of_cons; [by left|right].
  rewrite Forall_forall in Hx. by apply Hx.
Qed.

Lemma insert_by_take n x l y :
  l !! n = Some y → ltb (f y) (f x) = true → sorted_by f ltb l →
  take (S n) (insert_by f ltb x l) = take (S n) l.
Proof.
  revert n. induction l as [|z l IH]; intros n Hn Hlt Hs; [done|].
  simpl. destruct (ltb (f x) (f z)) eqn:E.
  - exfalso. apply (ltb_asym ltb) in Hlt.
    destruct n as [|n]; simplify_eq/=; [congruence|].
    apply StronglySorted_cons in Hs as [Hz _]. rewrite Forall_forall in Hz.
    assert (ltb (f z) (f y) = true) by (apply Hz; by eapply list_elem_of_lookup_2).
    assert (ltb (f x) (f y) = true); [by eapply ltb_trans|congruence].
  - destruct n as [|n]; simplify_eq/=; [done|].
    f_equal. apply StronglySorted_cons in Hs as [_ Hs]. by apply IH.
Qed.
End sort_laws.

Lemma sort_by_fmap {A B K} (f : B → K) (g : A → B) (ltb : K → K → bool) (l : list A) :
  g <$> sort_by (λ x, f (g x)) ltb l = sort_by f ltb (g <$> l).
Proof.
  assert (∀ x k, g <$> insert_by (λ x, f (g x)) ltb x k = insert_by f ltb (g x) (g <$> k)) as Hi.
  { intros x k. induction k as [|y k IH]; simpl; [done|].
    destruct (ltb _ _); simpl; [done|]. f_equal. apply IH. }
  induction l as [|x l IH]; simpl; [done|]. rewrite Hi. f_equal. apply IH.
Qed.

Section erase_laws.
Context {A : Type}.
Implicit Types l : list A.

Lemma erase_at_perm i x l : l !! i = Some x → l ≡ₚ x :: erase_at i l.
Proof.
  intros Hi. unfold erase_at. rewrite <-(take_drop_middle l i x) at 1 by done.
  by rewrite Permutation_middle.
Qed.

Lemma erase_at_sublist i l : erase_at i l `sublist_of` l.
Proof.
  unfold erase_at. revert i. induction l as [|x l IH]; intros [|i]; simpl; try done.
  - rewrite drop_0. by apply sublist_cons.
  - apply sublist_skip, IH.
Qed.

Lemma take_erase_at n i l : n ≤ i → i ≤ length l → take n (erase_at i l) = take n l.
Proof.
  intros Hn Hi. unfold erase_at.
  rewrite take_app_le by (rewrite length_take; lia).
  rewrite take_take. f_equal. lia.
Qed.
End erase_laws.

(** ** Maps: laws *)

Section map_laws.
Context {K V : Type} (ltb : K → K → bool) `{!StrictTotal ltb}.
Implicit Types (m : list (K * V)) (k : K) (v : V).

Lemma map_find_None k m : map_find ltb k m = None ↔ k ∉ m.*1.
Proof.
  induction m as [|[k' v] m IH]; simpl.
  { split; [intros _; apply not_elem_of_nil|done]. }
  rewrite not_elem_of_cons, <-IH. destruct (key_equiv ltb k k') eqn:E.
  - apply (key_equiv_spec ltb) in E as ->. split; [done|]. by intros [? _].
  - split; [|by intros []]. intros. split; [|done].
    intros ->. by rewrite key_equiv_refl in E.
Qed.

Lemma map_find_elem k v m : map_find ltb k m = Some v → (k, v) ∈ m.
Proof.
  induction m as [|[k' v'] m IH]; simpl; [done|].
  destruct (key_equiv ltb k k') eqn:E; intros H.
  - apply (key_equiv_spec ltb) in E as ->. simplify_eq. by left.
  - right. by apply IH.
Qed.

Lemma map_elem_find k v m : map_ok ltb m → (k, v) ∈ m → map_find ltb k m = Some v.
Proof.
  induction m as [|[k' v'] m IH]; simpl; [by intros _ ?%elem_of_nil|].
  intros [Hx Hs]%StronglySorted_cons [Heq|Hin]%elem_of_cons.
  - simplify_eq. by rewrite key_equiv_refl.
  - rewrite Forall_forall in Hx. specialize (Hx _ Hin). simpl in Hx.
    rewrite (key_equiv_ne ltb) by (by apply not_symmetry, (ltb_ne ltb)). by apply IH.
Qed.

Lemma map_find_Some k v m : map_ok ltb m → map_find ltb k m = Some v ↔ (k, v) ∈ m.
Proof. split; [apply map_find_elem|by apply map_elem_find]. Qed.

Lemma map_ok_nil : map_ok (V:=V) ltb [].
Proof. constructor. Qed.

Lemma map_ok_NoDup m : map_ok ltb m → NoDup (m.*1).
Proof. apply sorted_by_NoDup, _. Qed.

Lemma map_find_perm k m1 m2 :
  map_ok ltb m1 → map_ok ltb m2 → m1 ≡ₚ m2 → map_find ltb k m1 = map_find ltb k m2.
Proof. intros H1 H2 Hp. by rewrite (sorted_by_unique _ _ m1 m2 H1 H2 Hp). Qed.

Lemma map_insert_length k v m : length (map_insert ltb k v m).1 ≤ S (length m).
Proof.
  induction m as [|[k1 v1] m IH]; [done|]. cbn [map_insert].
  destruct (ltb k k1); [done|]. destruct (ltb k1 k); [|cbn; lia].
  destruct (map_insert ltb k v m). cbn in *. lia.
Qed.

Lemma map_insert_present k v v' m :
  map_ok ltb m → map_find ltb k m = Some v' → map_insert ltb k v m = (m, false).
Proof.
  induction m as [|[k1 v1] m IH]; simpl; [done|].
  intros [Hx Hs]%StronglySorted_cons Hf.
  destruct (key_equiv ltb k k1) eqn:E.
  - apply (key_equiv_spec ltb) in E as ->. by rewrite ltb_irrefl.
  - assert (ltb k1 k = true) as Hlt.
    { apply map_find_elem in Hf. rewrite Forall_forall in Hx. by apply (Hx _ Hf). }
    rewrite (ltb_asym ltb _ _ Hlt), Hlt. by rewrite IH.
Qed.

Lemma map_insert_absent k v m :
  map_find ltb k m = None → map_insert ltb k v m = (insert_by fst ltb (k, v) m, true).
Proof.
  induction m as [|[k1 v1] m IH]; simpl; [done|].
  destruct (key_equiv ltb k k1) eqn:E; [done|]. intros Hf.
  destruct (ltb k k1) eqn:E1; [done|]. destruct (ltb k1 k) eqn:E2.
  - by rewrite IH.
  - unfold key_equiv in E. by rewrite E1, E2 in E.
Qed.

Lemma map_ok_insert_by k v m :
  map_ok ltb m → map_find ltb k m = None → map_ok ltb (insert_by fst ltb (k, v) m).
Proof. intros Hm Hf. apply insert_by_sorted; [done..|]. by apply map_find_None. Qed.

Lemma map_insert_ok k v m : map_ok ltb m → map_ok ltb (map_insert ltb k v m).1.
Proof.
  intros Hm. destruct (map_find ltb k m) as [v'|] eqn:E.
  - by rewrite (map_insert_present _ _ v').
  - rewrite map_insert_absent by done. by apply map_ok_insert_by.
Qed.

(** Lookup after [insert]: the first value stored under a key stays. *)
Lemma map_find_insert k v m k' :
  map_ok ltb m →
  map_find ltb k' (map_insert ltb k v m).1 =
    if key_equiv ltb k k'
    then Some (default v (map_find ltb k m)) else map_find ltb k' m.
Proof.
  intros Hm. destruct (map_find ltb k m) as [v'|] eqn:E.
  - rewrite (map_insert_present _ _ v') by done. simpl.
    destruct (key_equiv ltb k k') eqn:Ek; [|done].
    by apply (key_equiv_spec ltb) in Ek as <-.
  - rewrite map_insert_absent by done. simpl.
    pose proof (map_ok_insert_by k v m Hm E) as Hok.
    destruct (key_equiv ltb k k') eqn:Ek.
    + apply (key_equiv_spec ltb) in Ek as <-. apply map_elem_find; [done|].
      rewrite insert_by_perm. by left.
    + assert (k' ≠ k) by (intros ->; by rewrite key_equiv_refl in Ek).
      apply option_eq. intros w. rewrite !map_find_Some by done.
      rewrite insert_by_perm, elem_of_cons. naive_solver.
Qed.

Lemma map_insert_fresh k v m :
  map_ok ltb m → (map_insert ltb k v m).2 = bool_decide (map_find ltb k m = None).
Proof.
  intros Hm. destruct (map_find ltb k m) as [v'|] eqn:E.
  - rewrite (map_insert_present _ _ v') by done. by rewrite bool_decide_eq_false_2.
  - rewrite map_insert_absent by done. by rewrite bool_decide_eq_true_2.
Qed.

Lemma map_erase_sublist k m : map_erase ltb k m `sublist_of` m.
Proof. apply sublist_filter. Qed.

Lemma map_erase_ok k m : map_ok ltb m → map_ok ltb (map_erase ltb k m).
Proof. apply sorted_by_sublist, map_erase_sublist. Qed.

Lemma map_erase_elem k m p : p ∈ map_erase ltb k m ↔ p ∈ m ∧ p.1 ≠ k.
Proof.
  unfold map_erase. rewrite !list_elem_of_In, filter_In, negb_true_iff.
  rewrite <-not_true_iff_false, (key_equiv_spec ltb). naive_solver.
Qed.

Lemma map_find_erase k m k' :
  map_ok ltb m →
  map_find ltb k' (map_erase ltb k m) = if key_equiv ltb k k' then None else map_find ltb k' m.
Proof.
  intros Hm. destruct (key_equiv ltb k k') eqn:E.
  - apply (key_equiv_spec ltb) in E as <-. apply map_find_None.
    intros ([? ?] & -> & Hin)%list_elem_of_fmap. by apply map_erase_elem in Hin as [_ ?].
  - assert (k' ≠ k) by (intros ->; by rewrite key_equiv_refl in E).
    apply option_eq. intros w. rewrite !map_find_Some by (try apply map_erase_ok; done).
    rewrite map_erase_elem. naive_solver.
Qed.

Lemma map_erase_absent k m : map_find ltb k m = None → map_erase ltb k m = m.
Proof.
  intros Hk%map_find_None. unfold map_erase. induction m as [|[k' v] m IH]; simpl; [done|].
  simpl in Hk. rewrite not_elem_of_cons in Hk. destruct Hk as [Hne Hk].
  rewrite (key_equiv_ne ltb) by done. simpl. by rewrite IH.
Qed.

Lemma map_set_keys k v m v' :
  map_ok ltb m → map_find ltb k m = Some v' → (map_set ltb k v m).*1 = m.*1.
Proof.
  induction m as [|[k1 v1] m IH]; simpl; [done|].
  intros [Hx Hs]%StronglySorted_cons Hf. destruct (key_equiv ltb k k1) eqn:E.
  - apply (key_equiv_spec ltb) in E as ->. by rewrite ltb_irrefl.
  - assert (ltb k1 k = true) as Hlt.
    { apply map_find_elem in Hf. rewrite Forall_forall in Hx. by apply (Hx _ Hf). }
    rewrite (ltb_asym ltb _ _ Hlt), Hlt. simpl. f_equal. by apply IH.
Qed.

(** Replacing a value by one that looks the same. *)
Lemma map_set_fmap {B} (g : V → B) k v m v' :
  map_ok ltb m → map_find ltb k m = Some v' → g v = g v' →
  (λ p, g p.2) <$> map_set ltb k v m = (λ p, g p.2) <$> m.
Proof.
  intros Hm Hf Hg. revert Hm Hf. induction m as [|[k1 v1] m IH]; [done|].
  intros [Hx Hs]%StronglySorted_cons. cbn [map_find map_set]. unfold key_equiv.
  destruct (ltb k k1) eqn:E1; cbn [negb andb].
  - intros Hf. exfalso. apply map_find_elem in Hf. rewrite Forall_forall in Hx.
    specialize (Hx _ Hf). cbn in Hx. by rewrite (ltb_asym ltb _ _ E1) in Hx.
  - destruct (ltb k1 k); cbn [negb]; intros Hf; cbn; f_equal.
    + by apply IH.
    + injection Hf as ->. done.
Qed.

Lemma map_ok_keys m1 m2 : m1.*1 = m2.*1 → map_ok ltb m1 → map_ok ltb m2.
Proof.
  unfold map_ok, sorted_by. revert m2. induction m1 as [|p1 m1 IH]; intros [|p2 m2] Heq; try done.
  injection Heq as Hp Hm. change (m1.*1 = m2.*1) in Hm.
  intros [Hx Hs]%StronglySorted_cons. constructor; [by apply IH|].
  rewrite <-Hp. rewrite Forall_forall in *. intros q Hq.
  assert (q.1 ∈ m1.*1) as (p & -> & Hp')%list_elem_of_fmap; [|by apply Hx].
  rewrite Hm. by apply list_elem_of_fmap_2.
Qed.

Lemma map_set_absent k v m :
  map_find ltb k m = None → map_set ltb k v m = insert_by fst ltb (k, v) m.
Proof.
  induction m as [|[k1 v1] m IH]; simpl; [done|].
  destruct (key_equiv ltb k k1) eqn:E; [done|]. intros Hf.
  destruct (ltb k k1) eqn:E1; [done|]. destruct (ltb k1 k) eqn:E2.
  - by rewrite IH.
  - unfold key_equiv in E. by rewrite E1, E2 in E.
Qed.

Lemma map_set_ok k v m : map_ok ltb m → map_ok ltb (map_set ltb k v m).
Proof.
  intros Hm. destruct (map_find ltb k m) as [v'|] eqn:E.
  - eapply map_ok_keys; [|exact Hm]. symmetry. by eapply map_set_keys.
  - rewrite map_set_absent by done. by apply map_ok_insert_by.
Qed.

Lemma map_find_set k v m k' :
  map_ok ltb m →
  map_find ltb k' (map_set ltb k v m) = if key_equiv ltb k k' then Some v else map_find ltb k' m.
Proof.
  induction m as [|[k1 v1] m IH]; simpl.
  { intros _. destruct (key_equiv ltb k k') eqn:E.
    - apply (key_equiv_spec ltb) in E as ->. by rewrite key_equiv_refl.
    - destruct (key_equiv ltb k' k) eqn:E'; [|done].
      apply (key_equiv_spec ltb) in E' as ->. by rewrite key_equiv_refl in E. }
  intros [Hx Hs]%StronglySorted_cons.
  assert (key_equiv ltb k k' = key_equiv ltb k' k) as Hsym.
  { unfold key_equiv. apply andb_comm. }
  destruct (ltb k k1) eqn:E1; simpl; [by rewrite Hsym|].
  destruct (ltb k1 k) eqn:E2; simpl.
  - rewrite IH by done. destruct (key_equiv ltb k' k1) eqn:E; [|done].
    apply (key_equiv_spec ltb) in E as ->. unfold key_equiv.
    by rewrite E1, E2.
  - assert (k = k1) as -> by (by apply (ltb_total (ltb:=ltb))).
    rewrite Hsym. by destruct (key_equiv ltb k' k1).
Qed.

(** [upper_bound] counts the keys that do not come after [k]. *)
Lemma upper_bound_count k m :
  map_ok ltb m → upper_bound ltb k m = length (List.filter (λ p, negb (ltb k p.1)) m).
Proof.
  induction m as [|[k1 v1] m IH]; simpl; [done|].
  intros [Hx Hs]%StronglySorted_cons. destruct (ltb k k1) eqn:E; simpl; [|by rewrite IH].
  clear IH Hs. induction Hx as [|[k2 v2] m H2 Hx IH]; simpl in *; [done|].
  by rewrite (ltb_trans _ _ _ E H2).
Qed.
End map_laws.

(** The automation the components share: rewriting lookups of changed maps, and
    the well-formedness of changed maps. *)
#[export] Hint Resolve map_ok_nil map_insert_ok map_erase_ok map_set_ok : routing.

(** ** Maps whose order is not observed

    [find], [erase], [m[k] = v] and [insert] of a [std::map] that is never
    iterated over: a list of pairs without repeated keys. *)
Section assoc.
Context {K V : Type} `{EqDecision K}.
Implicit Types (m : list (K * V)).

Definition assoc_find (k : K) m : option V :=
  snd <$> List.find (λ p, bool_decide (p.1 = k)) m.
Definition assoc_erase (k : K) m : list (K * V) :=
  List.filter (λ p, negb (bool_decide (p.1 = k))) m.
Definition assoc_set (k : K) (v : V) m : list (K * V) := assoc_erase k m ++ [(k, v)].
Definition assoc_insert (k : K) (v : V) m : list (K * V) * bool :=
  match assoc_find k m with
  | Some _ => (m, false)
  | None => (m ++ [(k, v)], true)
  end.

Lemma assoc_find_app k m1 m2 :
  assoc_find k (m1 ++ m2) =
    match assoc_find k m1 with Some v => Some v | None => assoc_find k m2 end.
Proof.
  unfold assoc_find. induction m1 as [|[k' v'] m1 IH]; cbn; [done|]. by case_bool_decide.
Qed.

Lemma assoc_find_single k k' v :
  assoc_find k [(k', v)] = if bool_decide (k = k') then Some v else None.
Proof. unfold assoc_find. cbn. by repeat case_bool_decide; subst. Qed.

Lemma assoc_find_erase k k' m :
  assoc_find k (assoc_erase k' m) = if bool_decide (k = k') then None else assoc_find k m.
Proof.
  unfold assoc_find, assoc_erase. induction m as [|[j v] m IH]; cbn; [by case_bool_decide|].
  repeat (case_bool_decide; cbn); subst; done.
Qed.

Lemma assoc_find_set k k' v m :
  assoc_find k (assoc_set k' v m) = if bool_decide (k = k') then Some v else assoc_find k m.
Proof.
  unfold assoc_set. rewrite assoc_find_app, assoc_find_erase, assoc_find_single.
  case_bool_decide; [done|]. by destruct (assoc_find k m).
Qed.

Lemma assoc_find_insert k k' v m :
  assoc_find k (assoc_insert k' v m).1 =
    if bool_decide (k = k') then Some (default v (assoc_find k m)) else assoc_find k m.
Proof.
  unfold assoc_insert. destruct (assoc_find k' m) as [v'|] eqn:E; cbn [fst].
  - case_bool_decide; [|done]. subst. by rewrite E.
  - rewrite assoc_find_app, assoc_find_single. case_bool_decide; subst; [by rewrite E|].
    by destruct (assoc_find k m).
Qed.

Lemma assoc_find_elem k v m : assoc_find k m = Some v → (k, v) ∈ m.
Proof.
  unfold assoc_find. intros ([k' v'] & [Hin Heq]%List.find_some & ->)%fmap_Some.
  apply bool_decide_eq_true in Heq. cbn in *. subst. by apply list_elem_of_In.
Qed.
End assoc.

(** ** Comparison operators defined from [<] and [==] *)
Lemma comparisons_agree {A} (ltb eqb : A → A → bool) `{!StrictTotal ltb} a b :
  (eqb a b = true ↔ a = b) →
  negb (ltb b a) = ltb a b || eqb a b ∧ negb (ltb a b) = ltb b a || eqb a b ∧
  ltb a b && ltb b a = false.
Proof.
  intros Heq. destruct (eqb a b) eqn:E.
  - rewrite (proj1 Heq eq_refl), !(ltb_irrefl (ltb:=ltb)). done.
  - rewrite !orb_false_r. assert (a ≠ b) as Hne by naive_solver.
    destruct (ltb a b) eqn:E1; [by rewrite (ltb_asym ltb _ _ E1)|].
    by rewrite (ltb_false_ne ltb a b).
Qed.

(** ** Buffers

    What [boost::asio::buffer] is for: a datagram is written to the start of the
    buffer of a receive operation, as much of it as fits. *)
Definition write_buffer {A} (datagram buffer : list A) : list A :=
  take (length buffer) datagram ++ drop (length datagram) buffer.

(** The number of bytes received. *)
Definition bytes_transferred {A} (datagram buffer : list A) : nat :=
  min (length datagram) (length buffer).

Lemma write_buffer_length {A} (datagram buffer : list A) :
  length (write_buffer datagram buffer) = length buffer.
Proof. unfold write_buffer. rewrite length_app, length_take, length_drop. lia. Qed.

Lemma write_buffer_fits {A} (datagram buffer : list A) :
  length datagram ≤ length buffer →
  write_buffer datagram buffer = datagram ++ drop (length datagram) buffer.
Proof. intros Hlen. unfold write_buffer. by rewrite take_ge. Qed.

Lemma resize_written {A} (x : A) datagram buffer :
  resize (bytes_transferred datagram buffer) x (write_buffer datagram buffer) = take (length buffer) datagram.
Proof.
  unfold write_buffer, bytes_transferred. rewrite Nat.min_comm, <-length_take.
  by rewrite resize_app_le, resize_all by done.
Qed.
