(* ===== verification/Identity.v ===== *)
(** * What the routing code takes from maidsafe-common and passport

    [Identity] (the routing [Address]), [CloserToTarget], [CommonLeadingBits]
    and the key and fob types are declared in other repositories
    ([maidsafe/common/identity.h], [maidsafe/common/rsa.h],
    [maidsafe/passport/types.h]), so they are class parameters here, with the
    documented behaviour the routing code relies on as laws.  A concrete
    instance, the 512-bit XOR metric on [N], shows that the laws can hold and
    is the one the witnesses evaluate. *)

From S2P Require Import Prelude CppStd.

(** ** Identities *)
Class IdentityOps := {
  Identity : Type;
  #[global] Identity_eq_dec :: EqDecision Identity;
  (** a default-constructed identity *)
  Identity_default : Identity;
  IsInitialised : Identity → bool;
  (** [operator<] *)
  Identity_ltb : Identity → Identity → bool;
  (** [CloserToTarget (lhs, rhs, target)] *)
  CloserToTarget : Identity → Identity → Identity → bool;
  CommonLeadingBits : Identity → Identity → Z
}.

(** [identity_size * 8], the number of bits of an identity. *)
Definition identity_bits : Z := 512.

(** [CloserToTarget] compares XOR distances, so for a fixed target it is a
    strict total order in which the target comes first; [CommonLeadingBits] is the length of the common prefix,
    so it is below [identity_bits] for different identities and does not grow
    with the distance. *)
Class IdentityLaws `{IdentityOps} : Prop := {
  #[global] Identity_ltb_total :: StrictTotal Identity_ltb;
  #[global] CloserToTarget_total :: ∀ target, StrictTotal (λ a b, CloserToTarget a b target);
  CloserToTarget_self : ∀ a target, CloserToTarget a target target = false;
  Identity_default_uninitialised : IsInitialised Identity_default = false;
  CommonLeadingBits_range : ∀ a b,
    IsInitialised a = true → IsInitialised b = true → a ≠ b →
    (0 ≤ CommonLeadingBits a b < identity_bits)%Z;
  CommonLeadingBits_closer : ∀ a b target,
    IsInitialised a = true → IsInitialised b = true → IsInitialised target = true →
    CloserToTarget a b target = true →
    (CommonLeadingBits target b ≤ CommonLeadingBits target a)%Z
}.

(** ** Keys and fobs *)
Definition byte := Z.

Class CryptoOps `{IdentityOps} := {
  PublicKey : Type;
  Signature : Type;
  PublicPmid : Type;
  #[global] PublicKey_eq_dec :: EqDecision PublicKey;
  #[global] Signature_eq_dec :: EqDecision Signature;
  (** [operator<] of signatures *)
  Signature_ltb : Signature → Signature → bool;
  (** [PublicPmid::Name] and [PublicPmid::public_key] *)
  Pmid_Name : PublicPmid → Identity;
  Pmid_public_key : PublicPmid → PublicKey;
  (** [asymm::ValidateKey] and [asymm::CheckSignature] *)
  ValidateKey : PublicKey → bool;
  CheckSignature : list byte → Signature → PublicKey → bool
}.

Class CryptoLaws `{CryptoOps} : Prop := {
  #[global] Signature_ltb_total :: StrictTotal Signature_ltb
}.

(** ** The concrete instance: 512-bit XOR metric

    In a module of its own, so that only the witnesses see it. *)
Module Concrete.

Definition xor_bits : N := 512.

Definition xor_CommonLeadingBits (a b : N) : Z :=
  if decide (a = b) then 512%Z else (511 - Z.of_N (N.log2 (N.lxor a b)))%Z.

#[export] Instance xor_identity : IdentityOps := {|
  Identity := N;
  Identity_default := (2 ^ xor_bits)%N;
  IsInitialised := λ n, (n <? 2 ^ xor_bits)%N;
  Identity_ltb := N.ltb;
  CloserToTarget := λ a b t, (N.lxor a t <? N.lxor b t)%N;
  CommonLeadingBits := xor_CommonLeadingBits
|}.

Lemma lxor_cancel (a b t : N) : N.lxor a t = N.lxor b t → a = b.
Proof.
  intros H. apply (f_equal (λ n, N.lxor n t)) in H.
  by rewrite !N.lxor_assoc, !N.lxor_nilpotent, !N.lxor_0_r in H.
Qed.

Lemma lxor_log2_bound (a b n : N) :
  (a < 2 ^ n)%N → (b < 2 ^ n)%N → a ≠ b → (N.log2 (N.lxor a b) < n)%N.
Proof.
  intros Ha Hb Hab. assert (0 < n)%N as Hn.
  { destruct (decide (n = 0)%N) as [->|]; [|lia]. rewrite N.pow_0_r in *. lia. }
  assert (∀ x, (x < 2 ^ n)%N → (N.log2 x < n)%N) as Hlog.
  { intros x Hx. destruct (decide (x = 0)%N) as [->|]; [done|]. apply N.log2_lt_pow2; lia. }
  eapply N.le_lt_trans; [apply N.log2_lxor|].
  apply N.max_lub_lt; by apply Hlog.
Qed.

#[export] Instance xor_identity_laws : IdentityLaws.
Proof.
  split; cbn.
  - apply N_ltb_total.
  - intros t. split.
    + intros x. apply N.ltb_irrefl.
    + intros x y z. rewrite !N.ltb_lt. lia.
    + intros x y. rewrite !N.ltb_ge. intros. apply (lxor_cancel _ _ t). lia.
  - intros a t. rewrite N.lxor_nilpotent. apply N.ltb_ge. lia.
  - by rewrite N.ltb_irrefl.
  - intros a b. rewrite !N.ltb_lt. intros Ha Hb Hab. unfold xor_CommonLeadingBits, identity_bits.
    rewrite decide_False by done.
    pose proof (lxor_log2_bound _ _ _ Ha Hb Hab). unfold xor_bits in *. lia.
  - intros a b t. rewrite !N.ltb_lt. intros Ha Hb Ht Hlt.
    unfold xor_CommonLeadingBits. rewrite (N.lxor_comm t a), (N.lxor_comm t b).
    destruct (decide (t = b)) as [->|]; [rewrite N.lxor_nilpotent in Hlt; lia|].
    destruct (decide (t = a)) as [->|]; [lia|].
    assert (N.log2 (N.lxor a t) ≤ N.log2 (N.lxor b t))%N by (apply N.log2_le_mono; lia). lia.
Qed.

(** A toy signature scheme for the witnesses: a fob is its name and key, a key
    is valid when non-zero, and a signature is the key itself. *)
#[export] Instance toy_crypto : CryptoOps := {|
  PublicKey := N;
  Signature := N;
  Signature_ltb := N.ltb;
  PublicPmid := N * N;
  Pmid_Name := fst;
  Pmid_public_key := snd;
  ValidateKey := λ k, negb (k =? 0)%N;
  CheckSignature := λ _ s k, (s =? k)%N
|}.

#[export] Instance toy_crypto_laws : CryptoLaws.
Proof. split. apply N_ltb_total. Qed.

(** The release and debug builds. *)
Definition release_build : BuildMode := {| NDEBUG := true |}.
Definition debug_build : BuildMode := {| NDEBUG := false |}.
End Concrete.
