(* ===== verification/Types.v ===== *)
(** * Shared data types

    [include/maidsafe/routing/types.h], [node_info.h], [endpoint_pair.h],
    [contact.h] and [source_address.h]: constants, addresses with their
    comparisons, and contacts. *)

From S2P Require Import Prelude CppStd Identity.

(** ** [types.h] *)
Definition GroupSize : nat := 23.
Definition QuorumSize : nat := 19.

Inductive FromType :=
  | from_client_manager | from_nae_manager | from_node_manager | from_managed_client
  | from_remote_client | from_managed_node | from_node.

Inductive Authority :=
  | client_manager | nae_manager | node_manager | managed_node | node | client.

#[export] Instance Authority_eq_dec : EqDecision Authority.
Proof. solve_decision. Defined.

(** The underlying [int32_t] of the enumeration. *)
Definition Authority_value (a : Authority) : Z :=
  match a with
  | client_manager => 0 | nae_manager => 1 | node_manager => 2
  | managed_node => 3 | node => 4 | client => 5
  end.

(** [MessageId] is [uint32_t]; [++message_id_] wraps around. *)
Definition MessageId := Z.
Definition next_message_id (i : MessageId) : MessageId := ((i + 1) mod 2 ^ 32)%Z.

(** [std::vector<byte>]. *)
Definition SerialisedMessage := list byte.

(** Socket endpoints and IP addresses are asio's: [ip::udp::endpoint],
    [ip::address], [ip::address_v4] and [ip::address_v6]. *)
Class EndpointOps := {
  Endpoint : Type;
  #[global] Endpoint_eq_dec :: EqDecision Endpoint;
  Endpoint_default : Endpoint;
  IpAddress : Type;
  AddressV4 : Type;
  AddressV6 : Type;
  ep_make : IpAddress → Z → Endpoint; (* [endpoint (address, port)] *)
  ep_address : Endpoint → IpAddress;
  ep_port : Endpoint → Z;
  ip_v4 : AddressV4 → IpAddress; (* conversions to [ip::address] *)
  ip_v6 : AddressV6 → IpAddress;
  is_v4 : IpAddress → bool;
  to_v4 : IpAddress → AddressV4;
  to_v6 : IpAddress → AddressV6;
  v4_compatible : AddressV4 → AddressV6;
  is_v4_compatible : AddressV6 → bool;
  v6_to_v4 : AddressV6 → AddressV4;
  v6_to_bytes : AddressV6 → list byte;
  v6_of_bytes : list byte → AddressV6 (* with scope id 0 *)
}.

(** What asio documents of them.  The bytes of an IPv6 address do not hold its
    scope id, so they give back the address only when that is 0. *)
Class EndpointLaws `{EndpointOps} : Prop := {
  ep_make_eta : ∀ e, ep_make (ep_address e) (ep_port e) = e;
  ep_address_make : ∀ a p, ep_address (ep_make a p) = a;
  ep_port_make : ∀ a p, (0 ≤ p < 2 ^ 16)%Z → ep_port (ep_make a p) = p;
  is_v4_ip_v4 : ∀ a, is_v4 (ip_v4 a) = true;
  is_v4_ip_v6 : ∀ a, is_v4 (ip_v6 a) = false;
  ip_v4_to_v4 : ∀ a, is_v4 a = true → ip_v4 (to_v4 a) = a;
  ip_v6_to_v6 : ∀ a, is_v4 a = false → ip_v6 (to_v6 a) = a;
  to_v6_ip_v6 : ∀ a, to_v6 (ip_v6 a) = a;
  v6_to_v4_compatible : ∀ a, v6_to_v4 (v4_compatible a) = a;
  v6_bytes_length : ∀ a, length (v6_to_bytes a) = 16;
  v4_compatible_bytes : ∀ a, v6_of_bytes (v6_to_bytes (v4_compatible a)) = v4_compatible a
}.

Section addresses.
Context `{IdentityOps}.

Definition Address := Identity.
Definition Destination := Address.
Definition ReplyToAddress := Address.
Definition NodeAddress := Address.
Definition GroupAddress := Address.
Definition DestinationAddress : Type := Destination * option ReplyToAddress.
Definition FilterType : Type := NodeAddress * MessageId.
Definition CloseGroupDifference : Type := list Address * list Address.

(** ** [source_address.h] *)
Record SourceAddress := mkSource {
  node_address : NodeAddress;
  group_address : option GroupAddress;
  reply_to_address : option ReplyToAddress
}.

#[global] Instance SourceAddress_eq_dec : EqDecision SourceAddress.
Proof. solve_decision. Defined.

(** [SourceAddress ()] *)
Definition SourceAddress_default : SourceAddress := mkSource Identity_default None None.

Definition source_tie (s : SourceAddress) :=
  (node_address s, (group_address s, reply_to_address s)).

Definition source_eqb (lhs rhs : SourceAddress) : bool :=
  bool_decide (node_address lhs = node_address rhs) &&
  bool_decide (group_address lhs = group_address rhs) &&
  bool_decide (reply_to_address lhs = reply_to_address rhs).

Definition source_neb (lhs rhs : SourceAddress) : bool := negb (source_eqb lhs rhs).

(** [std::tie] compares lexicographically. *)
Definition source_ltb (lhs rhs : SourceAddress) : bool :=
  pair_ltb Identity_ltb (pair_ltb (option_ltb Identity_ltb) (option_ltb Identity_ltb))
    (source_tie lhs) (source_tie rhs).

Definition source_gtb (lhs rhs : SourceAddress) : bool := source_ltb rhs lhs.
Definition source_leb (lhs rhs : SourceAddress) : bool := negb (source_gtb lhs rhs).
Definition source_geb (lhs rhs : SourceAddress) : bool := negb (source_ltb lhs rhs).
End addresses.

(** ** [node_info.h] *)
Section node_info.
Context `{CryptoOps}.

Record NodeInfo := mkNodeInfo {
  id : Address;
  dht_fob : PublicPmid;
  connected : bool
}.

(** Comparisons of [NodeInfo] look at the identity only. *)
Definition node_eqb (a b : NodeInfo) : bool := bool_decide (id a = id b).
Definition node_neb (a b : NodeInfo) : bool := bool_decide (id a ≠ id b).
Definition node_ltb (a b : NodeInfo) : bool := Identity_ltb (id a) (id b).
End node_info.

(** ** [endpoint_pair.h] and [contact.h] *)
Section contact.
Context `{EndpointOps} `{CryptoOps}.

Record EndpointPair := mkEndpointPair { local : Endpoint; external : Endpoint }.

Definition EndpointPair_default : EndpointPair := mkEndpointPair Endpoint_default Endpoint_default.

(** [explicit EndpointPair (Endpoint both)] *)
Definition EndpointPair_both (both : Endpoint) : EndpointPair := mkEndpointPair both both.

Definition endpoint_pair_eqb (lhs rhs : EndpointPair) : bool :=
  bool_decide (local lhs = local rhs) && bool_decide (external lhs = external rhs).

Record Contact := mkContact {
  contact_id : Identity;
  endpoint_pair : EndpointPair;
  contact_public_key : PublicKey
}.

(** [Contact (Identity, Endpoint both, PublicKey)] *)
Definition Contact_both (node_id : Identity) (both : Endpoint) (key : PublicKey) : Contact :=
  mkContact node_id (EndpointPair_both both) key.
End contact.
