(* ===== verification/RoutingTable.v ===== *)
(** * The routing table

    [src/maidsafe/routing/routing_table.h] and [routing_table.cc]: the contacts
    we are connected to, kept sorted by closeness to our identity.  Every public
    function takes the table's mutex, so each is one atomic step on the table.
    Iterators into [nodes_] are positions; the end iterator is the length. *)

From S2P Require Import Prelude CppStd Identity Types.

(** ** The program *)

Section routing_table.
Context `{IO : IdentityOps} `{CO : !CryptoOps} `{BM : BuildMode}.

Definition BucketSize : nat := 1.
Definition Parallelism : nat := 4.
Definition OptimalSize : nat := 64.

Record RoutingTable := mkTable {
  our_id_ : Address;
  nodes_ : list NodeInfo
}.

Definition set_nodes (f : list NodeInfo → list NodeInfo) (t : RoutingTable) : RoutingTable :=
  mkTable (our_id_ t) (f (nodes_ t)).

(** [Validate] of the unnamed namespace. *)
Definition Validate (a : Address) : outcome unit :=
  _ ← cpp_assert (IsInitialised a);
  if IsInitialised a then Ok tt else Throw invalid_identity.

Definition RoutingTable_new (our_id : Address) : outcome RoutingTable :=
  _ ← cpp_assert (IsInitialised our_id);
  Ok (mkTable our_id []).

(** [std::vector::at] and dereferencing an iterator. *)
Definition vector_at {A} (l : list A) (i : nat) : outcome A :=
  match l !! i with Some x => Ok x | None => Throw out_of_range end.
Definition deref {A} (l : list A) (i : nat) : outcome A :=
  match l !! i with Some x => Ok x | None => Undefined end.

Definition HaveNode (t : RoutingTable) (their_id : Address) : bool :=
  existsb (λ n, bool_decide (id n = their_id)) (nodes_ t).

Definition BucketIndex (t : RoutingTable) (address : Address) : outcome Z :=
  _ ← cpp_assert (bool_decide (address ≠ our_id_ t));
  Ok (CommonLeadingBits (our_id_ t) address).

(** [Comparison (target)] on contacts. *)
Definition Comparison (target a b : Address) : bool := CloserToTarget a b target.

Definition PushBackThenSort (their_info : NodeInfo) (t : RoutingTable) : RoutingTable :=
  set_nodes (λ l, sort_by id (Comparison (our_id_ t)) (l ++ [their_info])) t.

(** The [std::find_if] of [FindCandidateForRemoval], with the variables its
    lambda captures by reference; gives the offset of the element found. *)
Fixpoint find_candidate (t : RoutingTable) (l : list NodeInfo)
    (number_in_bucket : nat) (bucket : Z) : outcome (option nat) :=
  match l with
  | [] => Ok None
  | n :: l' =>
      b ← BucketIndex t (id n);
      '(number, bkt) ←
        (if (b =? bucket)%Z then Ok (number_in_bucket, bucket)
         else b' ← BucketIndex t (id n); Ok (0, b'));
      let number := S number in
      if BucketSize <? number then Ok (Some 0)
      else o ← find_candidate t l' number bkt; Ok (option_map S o)
  end.

(** [rbegin () + size () - GroupSize] bounds the reverse search; the base of
    the reverse iterator at offset [k] is position [size - k]. *)
Definition FindCandidateForRemoval (t : RoutingTable) : outcome nat :=
  let size := length (nodes_ t) in
  _ ← cpp_assert (OptimalSize <=? size);
  if size <? GroupSize then Undefined else
  found ← find_candidate t (take (size - GroupSize) (reverse (nodes_ t))) 0 0;
  Ok (match found with None => size | Some k => size - k end).

Definition NewNodeIsBetterThanExisting (t : RoutingTable) (their_id : Address)
    (removal_candidate : nat) : outcome bool :=
  if removal_candidate =? length (nodes_ t) then Ok false else
  b ← BucketIndex t their_id;
  c ← deref (nodes_ t) removal_candidate;
  b' ← BucketIndex t (id c);
  Ok (b' <? b)%Z.

Definition AddNode (their_info : NodeInfo) : prog RoutingTable (bool * option NodeInfo) :=
  _ ← lift (λ _, Validate (id their_info));
  t ← get;
  if bool_decide (id their_info = our_id_ t) ||
     negb (ValidateKey (Pmid_public_key (dht_fob their_info)))
  then mret (false, None)
  else if HaveNode t (id their_info) then mret (false, None)
  else if length (nodes_ t) <? OptimalSize
  then _ ← modify (PushBackThenSort their_info); mret (true, None)
  else
  far ← lift (λ t, vector_at (nodes_ t) GroupSize);
  if CloserToTarget (id their_info) (id far) (our_id_ t)
  then
    _ ← modify (PushBackThenSort their_info);
    removal_candidate ← lift FindCandidateForRemoval;
    t ← get;
    if removal_candidate =? length (nodes_ t) then mret (true, None)
    else
      candidate ← lift (λ t, deref (nodes_ t) removal_candidate);
      _ ← modify (set_nodes (erase_at removal_candidate));
      mret (true, Some candidate)
  else
    removal_candidate ← lift FindCandidateForRemoval;
    better ← lift (λ t, NewNodeIsBetterThanExisting t (id their_info) removal_candidate);
    if better : bool then
      candidate ← lift (λ t, deref (nodes_ t) removal_candidate);
      _ ← modify (set_nodes (erase_at removal_candidate));
      _ ← modify (PushBackThenSort their_info);
      mret (true, Some candidate)
    else mret (false, None).

Definition CheckNode (t : RoutingTable) (their_id : Address) : outcome bool :=
  _ ← Validate their_id;
  if bool_decide (their_id = our_id_ t) then Ok false
  else if HaveNode t their_id then Ok false
  else if length (nodes_ t) <? OptimalSize then Ok true
  else
  far ← vector_at (nodes_ t) GroupSize;
  if CloserToTarget their_id (id far) (our_id_ t) then Ok true
  else
  c ← FindCandidateForRemoval t;
  NewNodeIsBetterThanExisting t their_id c.

Definition DropNode (node_to_drop : Address) : prog RoutingTable unit :=
  _ ← lift (λ _, Validate node_to_drop);
  modify (set_nodes (List.filter (λ n, negb (bool_decide (id n = node_to_drop))))).

(** [NodesItr]: a position with the contact it points to; iterators are
    compared by position. *)
Definition NodesItr : Type := nat * NodeInfo.

Definition TargetNodes (t : RoutingTable) (target : Address) : outcome (list NodeInfo) :=
  _ ← Validate target;
  let parallelism := min Parallelism (length (nodes_ t)) in
  let itrs : list NodesItr := zip (seq 0 (length (nodes_ t))) (nodes_ t) in
  let our_close_group := take GroupSize itrs in
  match sort_by (λ i, id i.2) (Comparison target) itrs with
  | [] => Ok []
  | front :: rest =>
      if existsb (λ g, g.1 =? front.1) our_close_group
      then Ok (our_close_group.*2)
      else Ok ((take parallelism (front :: rest)).*2)
  end.

Definition OurCloseGroup (t : RoutingTable) : list NodeInfo :=
  take (min GroupSize (length (nodes_ t))) (nodes_ t).

Definition GetPublicKey (t : RoutingTable) (their_id : Address) : outcome (option PublicKey) :=
  _ ← Validate their_id;
  _ ← cpp_assert (is_sorted id (Comparison (our_id_ t)) (nodes_ t));
  Ok (option_map (λ n, Pmid_public_key (dht_fob n))
      (List.find (λ n, bool_decide (id n = their_id)) (nodes_ t))).

Definition Size (t : RoutingTable) : nat := length (nodes_ t).
Definition OurId (t : RoutingTable) : Address := our_id_ t.

End routing_table.
