(* ===== verification/RoutingTableFacts.v ===== *)
(** * The routing table: lemmas

    The well-formedness invariant of the table, what the search for a removal
    candidate finds, and the outcome of [AddNode] on every branch as the
    relation [add_result], from which the properties are read off. *)

From S2P Require Import Prelude CppStd Identity Types RoutingTable.

(** ** Specification vocabulary *)

Section spec.
Context `{IO : IdentityOps} `{CO : !CryptoOps}.

(** The most contacts a table can come to hold: the close group and one contact
    in each bucket. *)
Definition max_table_size : nat := GroupSize + Z.to_nat identity_bits.

Record contact_ok (our_id : Address) (n : NodeInfo) : Prop := {
  contact_initialised : IsInitialised (id n) = true;
  contact_not_us : id n ≠ our_id;
  contact_key : ValidateKey (Pmid_public_key (dht_fob n)) = true
}.

(** The invariant without the bound on the size. *)
Record table_wf (t : RoutingTable) : Prop := {
  wf_our_id : IsInitialised (our_id_ t) = true;
  wf_sorted : sorted_by id (Comparison (our_id_ t)) (nodes_ t);
  wf_contacts : Forall (contact_ok (our_id_ t)) (nodes_ t)
}.

(** The invariant of the routing table. *)
Record table_ok (t : RoutingTable) : Prop := {
  ok_wf : table_wf t;
  ok_size : length (nodes_ t) ≤ max_table_size
}.

(** The invariant as a test. *)
Definition check_table (t : RoutingTable) : bool :=
  IsInitialised (our_id_ t) && strictly_sorted id (Comparison (our_id_ t)) (nodes_ t) &&
  forallb (λ n, IsInitialised (id n) && bool_decide (id n ≠ our_id_ t) &&
                ValidateKey (Pmid_public_key (dht_fob n))) (nodes_ t) &&
  (length (nodes_ t) <=? max_table_size).

Definition bucket (t : RoutingTable) (n : NodeInfo) : Z :=
  CommonLeadingBits (our_id_ t) (id n).

(** From position [j] on, every contact has a bucket of its own. *)
Definition distinct_buckets_from (t : RoutingTable) (j : nat) : Prop :=
  ∀ i1 i2 n1 n2, j ≤ i1 → i1 < i2 → nodes_ t !! i1 = Some n1 → nodes_ t !! i2 = Some n2 →
  (bucket t n2 < bucket t n1)%Z.

(** [c] at [j] is a contact the table may give up: it is outside the close
    group, it is the furthest contact of its bucket, a closer contact outside
    the close group shares the bucket, and no bucket further away has two
    contacts. *)
Record removable (t : RoutingTable) (j : nat) (c : NodeInfo) : Prop := {
  rem_at : nodes_ t !! j = Some c;
  rem_far : GroupSize < j;
  rem_shared : ∃ p, nodes_ t !! (j - 1) = Some p ∧ bucket t p = bucket t c;
  rem_furthest : distinct_buckets_from t j
}.

(** What [AddNode info] does to the table [t], branch by branch. *)
Inductive add_result (t : RoutingTable) (info : NodeInfo) :
    bool * option NodeInfo → RoutingTable → Prop :=
  | add_self_or_bad_key :
      id info = our_id_ t ∨ ValidateKey (Pmid_public_key (dht_fob info)) = false →
      add_result t info (false, None) t
  | add_duplicate :
      contact_ok (our_id_ t) info → id info ∈ id <$> nodes_ t →
      add_result t info (false, None) t
  | add_small :
      contact_ok (our_id_ t) info → id info ∉ id <$> nodes_ t →
      length (nodes_ t) < OptimalSize →
      add_result t info (true, None)
        (set_nodes (insert_by id (Comparison (our_id_ t)) info) t)
  | add_close far :
      contact_ok (our_id_ t) info → id info ∉ id <$> nodes_ t →
      OptimalSize ≤ length (nodes_ t) →
      nodes_ t !! GroupSize = Some far →
      CloserToTarget (id info) (id far) (our_id_ t) = true →
      let t' := set_nodes (insert_by id (Comparison (our_id_ t)) info) t in
      distinct_buckets_from t' GroupSize →
      add_result t info (true, None) t'
  | add_close_drop far j c :
      contact_ok (our_id_ t) info → id info ∉ id <$> nodes_ t →
      OptimalSize ≤ length (nodes_ t) →
      nodes_ t !! GroupSize = Some far →
      CloserToTarget (id info) (id far) (our_id_ t) = true →
      let t' := set_nodes (insert_by id (Comparison (our_id_ t)) info) t in
      removable t' j c →
      add_result t info (true, Some c) (set_nodes (erase_at j) t')
  | add_replace far j c :
      contact_ok (our_id_ t) info → id info ∉ id <$> nodes_ t →
      OptimalSize ≤ length (nodes_ t) →
      nodes_ t !! GroupSize = Some far →
      CloserToTarget (id info) (id far) (our_id_ t) = false →
      removable t j c → (bucket t c < bucket t info)%Z →
      add_result t info (true, Some c)
        (set_nodes (insert_by id (Comparison (our_id_ t)) info) (set_nodes (erase_at j) t))
  | add_refuse far :
      contact_ok (our_id_ t) info → id info ∉ id <$> nodes_ t →
      OptimalSize ≤ length (nodes_ t) →
      nodes_ t !! GroupSize = Some far →
      CloserToTarget (id info) (id far) (our_id_ t) = false →
      (distinct_buckets_from t GroupSize ∨
       ∃ j c, removable t j c ∧ (bucket t info ≤ bucket t c)%Z) →
      add_result t info (false, None) t.
End spec.

(** ** Searching for a repeated bucket *)

(** The first position whose bucket equals the one before it. *)
Fixpoint first_repeat (prev : option Z) (bs : list Z) : option nat :=
  match bs with
  | [] => None
  | b :: bs' => if decide (prev = Some b) then Some 0 else option_map S (first_repeat (Some b) bs')
  end.

Lemma first_repeat_None b bs :
  StronglySorted Z.le (b :: bs) → first_repeat (Some b) bs = None → StronglySorted Z.lt (b :: bs).
Proof.
  revert b. induction bs as [|b' bs IH]; intros b Hs Hf; [repeat constructor|].
  apply StronglySorted_cons in Hs as [Hb Hs]. simpl in Hf.
  case_decide as Hbb; [done|]. destruct (first_repeat _ bs) eqn:E; [done|].
  specialize (IH _ Hs E). constructor; [done|].
  apply Forall_cons in Hb as [Hb _]. apply StronglySorted_cons in IH as [Hb' _].
  assert (b < b')%Z by (assert (b ≠ b') by congruence; lia).
  constructor; [done|]. eapply Forall_impl; [exact Hb'|]. intros; simpl in *; lia.
Qed.

Lemma first_repeat_Some b bs k :
  StronglySorted Z.le (b :: bs) → first_repeat (Some b) bs = Some k →
  (∃ x, (b :: bs) !! k = Some x ∧ (b :: bs) !! S k = Some x) ∧
  StronglySorted Z.lt (take (S k) (b :: bs)).
Proof.
  revert b k. induction bs as [|b' bs IH]; intros b k Hs Hf; [done|].
  apply StronglySorted_cons in Hs as [Hb Hs]. simpl in Hf.
  case_decide as Hbb.
  - injection Hf as <-. injection Hbb as ->. split; [by exists b'|]. repeat constructor.
  - destruct (first_repeat _ bs) as [k'|] eqn:E; [|done]. injection Hf as <-.
    destruct (IH _ _ Hs E) as [Hx Hlt]. split; [done|].
    change (StronglySorted Z.lt (b :: take (S k') (b' :: bs))). constructor; [done|].
    apply Forall_cons in Hb as [Hb _].
    assert (b < b')%Z by (assert (b ≠ b') by congruence; lia).
    simpl in Hlt |- *. apply StronglySorted_cons in Hlt as [Hb' _].
    constructor; [done|]. eapply Forall_impl; [exact Hb'|]. intros; simpl in *; lia.
Qed.

(** Distinct bucket indices are bounded in number by the bits of an identity. *)
Lemma distinct_bounded (bs : list Z) (n : nat) :
  StronglySorted Z.lt bs → Forall (λ b, 0 ≤ b < Z.of_nat n)%Z bs → length bs ≤ n.
Proof.
  intros Hs Hb. rewrite <-(Nat2Z.id n), <-(length_seqZ 0 (Z.of_nat n)).
  apply submseteq_length, NoDup_submseteq.
  - clear Hb. induction Hs as [|b bs Hs IH Hb]; constructor; [|done].
    rewrite Forall_forall in Hb. intros Hin. specialize (Hb _ Hin). simpl in Hb. lia.
  - intros b Hin. rewrite Forall_forall in Hb. apply elem_of_seqZ. specialize (Hb _ Hin). lia.
Qed.

(** ** Lemmas about the table *)

Section facts.
Context `{IO : IdentityOps} `{IL : !IdentityLaws} `{CO : !CryptoOps} `{BM : BuildMode}.
Implicit Types (t : RoutingTable) (n info : NodeInfo).

#[export] Instance Comparison_total target : StrictTotal (Comparison target).
Proof. apply CloserToTarget_total. Qed.

Lemma check_table_ok t : check_table t = true → table_ok t.
Proof.
  unfold check_table. rewrite !andb_true_iff, List.forallb_forall, Nat.leb_le.
  intros (((Hi & Hs) & Hc) & Hlen). split; [|done].
  split; [done|by apply (strictly_sorted_by _ _)|].
  apply Forall_forall. intros n Hn%list_elem_of_In. specialize (Hc n Hn).
  rewrite !andb_true_iff, bool_decide_eq_true in Hc. by destruct Hc as [[??]?].
Qed.

Lemma HaveNode_spec t a : HaveNode t a = true ↔ a ∈ id <$> nodes_ t.
Proof.
  unfold HaveNode. rewrite existsb_exists, list_elem_of_fmap. split.
  - intros (n & Hin & Hn%bool_decide_eq_true). exists n. by rewrite list_elem_of_In.
  - intros (n & -> & Hin). exists n. by rewrite <-list_elem_of_In, bool_decide_eq_true.
Qed.

Lemma HaveNode_false t a : HaveNode t a = false ↔ a ∉ id <$> nodes_ t.
Proof. by rewrite <-not_true_iff_false, HaveNode_spec. Qed.

Lemma Validate_ok a : IsInitialised a = true → Validate a = Ok tt.
Proof. intros Ha. unfold Validate. rewrite Ha. by rewrite cpp_assert_true. Qed.

Lemma BucketIndex_ok t a :
  a ≠ our_id_ t → BucketIndex t a = Ok (CommonLeadingBits (our_id_ t) a).
Proof.
  intros Ha. unfold BucketIndex. rewrite bool_decide_eq_true_2 by done.
  by rewrite cpp_assert_true.
Qed.

Lemma contact_at t i n : table_wf t → nodes_ t !! i = Some n → contact_ok (our_id_ t) n.
Proof. intros [_ _ Hc] Hi. rewrite Forall_forall in Hc. by eapply Hc, list_elem_of_lookup_2. Qed.

(** Buckets do not grow along the table. *)
Lemma bucket_mono t i j n1 n2 :
  table_wf t → nodes_ t !! i = Some n1 → nodes_ t !! j = Some n2 → i < j →
  (bucket t n2 ≤ bucket t n1)%Z.
Proof.
  intros Hwf Hi Hj Hij. apply CommonLeadingBits_closer.
  - by apply (contact_at _ _ _ Hwf Hi).
  - by apply (contact_at _ _ _ Hwf Hj).
  - apply Hwf.
  - by apply (sorted_by_lookup id (Comparison (our_id_ t)) (nodes_ t) i j); [apply Hwf|..].
Qed.

Lemma bucket_range t n :
  IsInitialised (our_id_ t) = true → contact_ok (our_id_ t) n →
  (0 ≤ bucket t n < identity_bits)%Z.
Proof. intros Ht []. by apply CommonLeadingBits_range; [..|apply not_symmetry]. Qed.

Lemma find_candidate_pure t l number b :
  Forall (contact_ok (our_id_ t)) l → number ≤ 1 →
  find_candidate t l number b =
    Ok (first_repeat (if number =? 0 then None else Some b) (bucket t <$> l)).
Proof.
  revert number b. induction l as [|n l IH]; intros number b Hl Hn; [done|].
  apply Forall_cons in Hl as [Hc Hl]. cbn [find_candidate].
  rewrite BucketIndex_ok by apply Hc. rewrite bind_Ok. fold (bucket t n).
  destruct (Z.eqb_spec (bucket t n) b) as [Hb|Hb]; cbn [mbind outcome_bind].
  - destruct number as [|[|]]; [|simpl|lia].
    + simpl. rewrite IH by (done || lia). simpl.
      by rewrite Hb.
    + by rewrite decide_True by congruence.
  - simpl. rewrite IH by (done || lia). simpl. rewrite decide_False.
    + done.
    + destruct number as [|[|]]; simpl; congruence.
Qed.

(** The part of the table outside the close group, furthest contact first. *)
Definition far_contacts t : list NodeInfo :=
  take (length (nodes_ t) - GroupSize) (reverse (nodes_ t)).

Lemma far_contacts_lookup t i :
  i < length (nodes_ t) - GroupSize → far_contacts t !! i = nodes_ t !! (length (nodes_ t) - S i).
Proof.
  intros Hi. unfold far_contacts. rewrite lookup_take_lt by done.
  by rewrite reverse_lookup by lia.
Qed.

Lemma far_contacts_length t : length (far_contacts t) = length (nodes_ t) - GroupSize.
Proof. unfold far_contacts. rewrite length_take, length_reverse. lia. Qed.

Lemma far_contacts_lookup_Some t i n :
  far_contacts t !! i = Some n →
  i < length (nodes_ t) - GroupSize ∧ nodes_ t !! (length (nodes_ t) - S i) = Some n.
Proof.
  intros Hi. pose proof (lookup_lt_Some _ _ _ Hi) as Hlt. rewrite far_contacts_length in Hlt.
  by rewrite <-far_contacts_lookup.
Qed.

Lemma far_contacts_ok t : table_wf t → Forall (contact_ok (our_id_ t)) (far_contacts t).
Proof.
  intros Hwf. apply Forall_lookup. intros i n [_ Hi]%far_contacts_lookup_Some.
  by eapply contact_at.
Qed.

(** A list whose elements never decrease from one position to a later one. *)
Lemma StronglySorted_lookup (R : relation Z) (l : list Z) :
  (∀ i j x y, i < j → l !! i = Some x → l !! j = Some y → R x y) → StronglySorted R l.
Proof.
  induction l as [|z l IH]; intros H; constructor.
  - apply IH. intros i j x y Hij Hi Hj. by apply (H (S i) (S j)); [lia|..].
  - apply Forall_lookup. intros j y Hj. by apply (H 0 (S j)); [lia|..].
Qed.

Lemma StronglySorted_lookup_1 (R : relation Z) (l : list Z) i j x y :
  StronglySorted R l → i < j → l !! i = Some x → l !! j = Some y → R x y.
Proof.
  intros Hs. revert i j. induction Hs as [|z l Hl IH Hz]; intros [|i] [|j] Hij Hi Hj;
    simplify_eq/=; try lia.
  - rewrite Forall_lookup in Hz. by eapply Hz.
  - apply (IH i j); [lia|done..].
Qed.

Lemma far_buckets_sorted t : table_wf t → StronglySorted Z.le (bucket t <$> far_contacts t).
Proof.
  intros Hwf. apply StronglySorted_lookup. intros i j x y Hij.
  rewrite !list_lookup_fmap. intros (n1 & Hi & ->)%fmap_Some (n2 & Hj & ->)%fmap_Some.
  apply far_contacts_lookup_Some in Hi as [? Hi], Hj as [? Hj].
  by eapply bucket_mono; [done|exact Hj|exact Hi|lia].
Qed.

(** Position [i] of the table, seen from the far end. *)
Lemma nodes_far_contacts t i n :
  GroupSize ≤ i → nodes_ t !! i = Some n → far_contacts t !! (length (nodes_ t) - S i) = Some n.
Proof.
  intros Hi Hn. pose proof (lookup_lt_Some _ _ _ Hn).
  rewrite far_contacts_lookup by lia. rewrite <-Hn. f_equal. lia.
Qed.

Lemma distinct_from_far t j :
  GroupSize ≤ j → StronglySorted Z.lt (take (length (nodes_ t) - j) (bucket t <$> far_contacts t)) →
  distinct_buckets_from t j.
Proof.
  intros Hj Hs i1 i2 n1 n2 H1 H12 Hn1 Hn2.
  pose proof (lookup_lt_Some _ _ _ Hn1). pose proof (lookup_lt_Some _ _ _ Hn2).
  apply nodes_far_contacts in Hn1; [|lia]. apply nodes_far_contacts in Hn2; [|lia].
  eapply (StronglySorted_lookup_1 _ _ (length (nodes_ t) - S i2) (length (nodes_ t) - S i1) _ _ Hs).
  - lia.
  - rewrite lookup_take_lt, list_lookup_fmap, Hn2 by lia. done.
  - rewrite lookup_take_lt, list_lookup_fmap, Hn1 by lia. done.
Qed.

Lemma FindCandidateForRemoval_spec t :
  table_wf t → OptimalSize ≤ length (nodes_ t) →
  ∃ j, FindCandidateForRemoval t = Ok j ∧
    ((j = length (nodes_ t) ∧ distinct_buckets_from t GroupSize) ∨
     (j < length (nodes_ t) ∧ ∃ c, removable t j c)).
Proof.
  intros Hwf Hlen. unfold FindCandidateForRemoval.
  rewrite (proj2 (Nat.leb_le _ _) Hlen), cpp_assert_true, bind_Ok. unfold OptimalSize in Hlen.
  rewrite (proj2 (Nat.ltb_ge _ _)) by (unfold GroupSize; lia).
  fold (far_contacts t). rewrite find_candidate_pure by (lia || by apply far_contacts_ok).
  rewrite bind_Ok. simpl (if 0 =? 0 then _ else _).
  pose proof (far_buckets_sorted t Hwf) as Hs.
  pose proof (far_contacts_length t) as Hfl.
  pose proof (distinct_from_far t) as Hdist.
  assert (∀ i, (bucket t <$> far_contacts t) !! i = bucket t <$> far_contacts t !! i) as Hlk.
  { intros i. apply list_lookup_fmap. }
  assert (length (bucket t <$> far_contacts t) = length (nodes_ t) - GroupSize) as Hbl.
  { by rewrite length_fmap. }
  destruct (bucket t <$> far_contacts t) as [|b bs] eqn:Ebs.
  { simpl in Hbl. unfold GroupSize in Hbl. lia. }
  cbn [first_repeat]. rewrite decide_False by done.
  destruct (first_repeat (Some b) bs) as [k|] eqn:Ef; cbn [option_map].
  - destruct (first_repeat_Some _ _ _ Hs Ef) as [(x & Hk & HSk) Hlt].
    rewrite Hlk in Hk, HSk.
    apply fmap_Some in Hk as (c & Hk & Hc), HSk as (p & HSk & Hp).
    apply far_contacts_lookup_Some in Hk as [? Hk], HSk as [? HSk].
    exists (length (nodes_ t) - S k). split; [done|right]. split; [lia|]. exists c.
    split; [done|lia| |].
    + exists p. split; [|congruence]. rewrite <-HSk. f_equal. lia.
    + apply Hdist; [lia|]. by replace (length (nodes_ t) - (length (nodes_ t) - S k)) with (S k) by lia.
  - exists (length (nodes_ t)). split; [done|left]. split; [done|].
    apply Hdist; [done|]. rewrite take_ge by lia. by apply first_repeat_None.
Qed.

Lemma removable_not_distinct t j c i :
  removable t j c → GroupSize ≤ i → i < j → ~ distinct_buckets_from t i.
Proof.
  intros [Hat Hfar (p & Hp & Hbp) _] Hi Hij Hd.
  assert (bucket t c < bucket t p)%Z by (eapply Hd; [|..|exact Hp|exact Hat]; lia). lia.
Qed.

Lemma removable_unique t j j' c c' : removable t j c → removable t j' c' → j = j'.
Proof.
  intros H H'. pose proof (rem_far _ _ _ H). pose proof (rem_far _ _ _ H').
  destruct (lt_eq_lt_dec j j') as [[Hlt| ->]|Hlt]; [|done|]; exfalso.
  - eapply (removable_not_distinct t j' c' j); eauto using rem_furthest with lia.
  - eapply (removable_not_distinct t j c j'); eauto using rem_furthest with lia.
Qed.

(** The search finds the removable contact if there is one. *)
Lemma FindCandidateForRemoval_removable t j c :
  table_wf t → OptimalSize ≤ length (nodes_ t) → removable t j c →
  FindCandidateForRemoval t = Ok j.
Proof.
  intros Hwf Hlen Hr.
  destruct (FindCandidateForRemoval_spec t Hwf Hlen) as (j' & -> & [[_ Hd]|[_ [c' Hr']]]).
  - by destruct (removable_not_distinct t j c GroupSize Hr); [..|apply (rem_far _ _ _ Hr)|].
  - f_equal. by eapply removable_unique.
Qed.

Lemma FindCandidateForRemoval_distinct t :
  table_wf t → OptimalSize ≤ length (nodes_ t) → distinct_buckets_from t GroupSize →
  FindCandidateForRemoval t = Ok (length (nodes_ t)).
Proof.
  intros Hwf Hlen Hd.
  destruct (FindCandidateForRemoval_spec t Hwf Hlen) as (j' & -> & [[-> _]|[_ [c' Hr']]]); [done|].
  by destruct (removable_not_distinct t j' c' GroupSize Hr'); [..|apply (rem_far _ _ _ Hr')|].
Qed.

(** Where no two contacts outside the close group share a bucket, the table is
    no larger than the close group and one contact per bucket. *)
Lemma distinct_buckets_size t :
  table_wf t → distinct_buckets_from t GroupSize → length (nodes_ t) ≤ max_table_size.
Proof.
  intros Hwf Hd. unfold max_table_size.
  assert (length (bucket t <$> far_contacts t) ≤ Z.to_nat identity_bits) as Hle.
  { apply distinct_bounded.
    - apply StronglySorted_lookup. intros i j x y Hij.
      rewrite !list_lookup_fmap. intros (n1 & Hi & ->)%fmap_Some (n2 & Hj & ->)%fmap_Some.
      apply far_contacts_lookup_Some in Hi as [? Hi], Hj as [? Hj].
      eapply Hd; [|..|exact Hj|exact Hi]; lia.
    - apply Forall_fmap, (Forall_impl _ _ _ (far_contacts_ok t Hwf)). intros n Hn. simpl.
      apply bucket_range; [apply Hwf|done]. }
  rewrite length_fmap, far_contacts_length in Hle. lia.
Qed.

(** ** Changing the list of contacts *)

Lemma set_nodes_our_id g t : our_id_ (set_nodes g t) = our_id_ t.
Proof. done. Qed.

Lemma wf_insert t info :
  table_wf t → contact_ok (our_id_ t) info → id info ∉ id <$> nodes_ t →
  table_wf (set_nodes (insert_by id (Comparison (our_id_ t)) info) t).
Proof.
  intros [Ho Hs Hc] Hi Hn. split; simpl; [done|by apply insert_by_sorted, Hn; [apply _|]|].
  rewrite insert_by_perm. by constructor.
Qed.

Lemma wf_sublist t l : table_wf t → l `sublist_of` nodes_ t → table_wf (set_nodes (λ _, l) t).
Proof.
  intros [Ho Hs Hc] Hsub. split; simpl; [done|by eapply sorted_by_sublist|].
  rewrite Forall_forall in *. intros n Hn. apply Hc.
  by eapply elem_of_submseteq, sublist_submseteq.
Qed.

Lemma wf_erase t j : table_wf t → table_wf (set_nodes (erase_at j) t).
Proof. intros Hwf. by apply (wf_sublist t), erase_at_sublist. Qed.

Lemma PushBackThenSort_insert info t :
  table_wf t → id info ∉ id <$> nodes_ t →
  PushBackThenSort info t = set_nodes (insert_by id (Comparison (our_id_ t)) info) t.
Proof.
  intros Hwf Hn. unfold PushBackThenSort, set_nodes.
  rewrite (sort_by_snoc id (Comparison (our_id_ t))); [done|apply Hwf|done].
Qed.

(** ** [AddNode] and [CheckNode], branch by branch *)

Lemma removable_lt t j c : removable t j c → j < length (nodes_ t).
Proof. intros []. by eapply lookup_lt_Some. Qed.

Lemma NewNodeIsBetter_end t a : NewNodeIsBetterThanExisting t a (length (nodes_ t)) = Ok false.
Proof. unfold NewNodeIsBetterThanExisting. by rewrite Nat.eqb_refl. Qed.

Lemma NewNodeIsBetter_removable t a j c :
  table_wf t → a ≠ our_id_ t → removable t j c →
  NewNodeIsBetterThanExisting t a j = Ok (bucket t c <? CommonLeadingBits (our_id_ t) a)%Z.
Proof.
  intros Hwf Ha Hr. unfold NewNodeIsBetterThanExisting, deref.
  pose proof (removable_lt _ _ _ Hr). rewrite (proj2 (Nat.eqb_neq _ _)) by lia.
  rewrite BucketIndex_ok, bind_Ok by done. rewrite (rem_at _ _ _ Hr), bind_Ok.
  rewrite BucketIndex_ok; [done|]. apply (contact_at _ _ _ Hwf (rem_at _ _ _ Hr)).
Qed.

(** The contact [GroupSize] steps from the front exists in a full table. *)
Lemma full_table_at t :
  OptimalSize ≤ length (nodes_ t) → ∃ far, nodes_ t !! GroupSize = Some far.
Proof. intros H. apply lookup_lt_is_Some. unfold OptimalSize, GroupSize in *. lia. Qed.

Lemma AddNode_run t info :
  table_wf t → IsInitialised (id info) = true →
  ∃ r t', AddNode info t = (Ok r, t') ∧ add_result t info r t'.
Proof.
  intros Hwf Hi. unfold AddNode, lift, get, modify, mret, prog_ret, mbind, prog_bind.
  rewrite Validate_ok by done.
  case_bool_decide as Hself; cbn [orb]; [eexists _, _; split; [done|by constructor; left]|].
  destruct (ValidateKey _) eqn:Hkey; cbn [negb];
    [|eexists _, _; split; [done|by constructor; right]].
  assert (contact_ok (our_id_ t) info) as Hok by done.
  destruct (HaveNode t (id info)) eqn:Hhave.
  { apply HaveNode_spec in Hhave. eexists _, _. split; [done|by apply add_duplicate]. }
  apply HaveNode_false in Hhave.
  destruct (Nat.ltb_spec (length (nodes_ t)) OptimalSize) as [Hlen|Hlen].
  { rewrite PushBackThenSort_insert by done. eexists _, _. split; [done|by apply add_small]. }
  destruct (full_table_at t Hlen) as [far Hfar]. unfold vector_at. rewrite Hfar. cbn beta iota.
  destruct (CloserToTarget (id info) (id far) (our_id_ t)) eqn:Hclose.
  - rewrite PushBackThenSort_insert by done.
    set (t' := set_nodes _ t). pose proof (wf_insert _ _ Hwf Hok Hhave) as Hwf'. fold t' in Hwf'.
    assert (OptimalSize ≤ length (nodes_ t')) as Hlen'.
    { unfold t'. simpl. rewrite insert_by_perm. simpl. lia. }
    destruct (FindCandidateForRemoval_spec t' Hwf' Hlen') as (j & -> & [[-> Hd]|[Hj [c Hc]]]).
    + cbn beta iota. rewrite Nat.eqb_refl. eexists _, _. split; [done|by eapply add_close].
    + cbn beta iota. rewrite (proj2 (Nat.eqb_neq _ _)) by lia.
      unfold deref. rewrite (rem_at _ _ _ Hc). eexists _, _. split; [done|by eapply add_close_drop].
  - destruct (FindCandidateForRemoval_spec t Hwf Hlen) as (j & -> & [[-> Hd]|[Hj [c Hc]]]).
    + cbn beta iota. rewrite NewNodeIsBetter_end.
      eexists _, _. split; [done|by eapply add_refuse; eauto].
    + cbn beta iota. rewrite (NewNodeIsBetter_removable _ _ _ c) by done.
      destruct (Z.ltb_spec (bucket t c) (CommonLeadingBits (our_id_ t) (id info))).
      * unfold deref. rewrite (rem_at _ _ _ Hc). cbn beta iota.
        rewrite PushBackThenSort_insert, set_nodes_our_id.
        -- eexists _, _. split; [done|by eapply add_replace].
        -- by apply wf_erase.
        -- intros Hin. apply Hhave. simpl in Hin.
           eapply elem_of_submseteq; [exact Hin|].
           apply fmap_submseteq, sublist_submseteq, erase_at_sublist.
      * eexists _, _. split; [done|]. eapply add_refuse; eauto.
Qed.

Lemma CheckNode_run t a :
  table_wf t → IsInitialised a = true → ∃ b, CheckNode t a = Ok b.
Proof.
  intros Hwf Ha. unfold CheckNode. rewrite Validate_ok, bind_Ok by done.
  case_bool_decide as Hself; [by eexists|]. destruct (HaveNode t a); [by eexists|].
  destruct (Nat.ltb_spec (length (nodes_ t)) OptimalSize) as [|Hlen]; [by eexists|].
  destruct (full_table_at t Hlen) as [far Hfar]. unfold vector_at. rewrite Hfar, bind_Ok.
  destruct (CloserToTarget _ _ _); [by eexists|].
  destruct (FindCandidateForRemoval_spec t Hwf Hlen) as (j & -> & [[-> Hd]|[Hj [c Hc]]]);
    rewrite bind_Ok.
  - rewrite NewNodeIsBetter_end. by eexists.
  - rewrite (NewNodeIsBetter_removable _ _ _ c) by done. by eexists.
Qed.

(** ** Preservation of the invariant *)

Lemma set_nodes_compose g1 g2 t : nodes_ (set_nodes g1 (set_nodes g2 t)) = g1 (g2 (nodes_ t)).
Proof. done. Qed.

Lemma erase_at_length {A} (l : list A) j : j < length l → length (erase_at j l) = length l - 1.
Proof. intros Hj. unfold erase_at. rewrite length_app, length_take, length_drop. lia. Qed.

Lemma insert_length t info :
  length (insert_by id (Comparison (our_id_ t)) info (nodes_ t)) = S (length (nodes_ t)).
Proof. by rewrite insert_by_perm. Qed.

Lemma add_result_ok t info r t' : add_result t info r t' → table_ok t → table_ok t'.
Proof.
  intros Hr [Hwf Hsz]. destruct Hr as
    [|Hok Hin|Hok Hin Hlen|far Hok Hin Hlen Hfar Hcl t' Hd|far j c Hok Hin Hlen Hfar Hcl t' Hrem
    |far j c Hok Hin Hlen Hfar Hcl Hrem Hb|far Hok Hin Hlen Hfar Hcl Hx]; try done.
  - split; [by apply wf_insert|]. simpl. rewrite insert_by_perm. simpl.
    unfold max_table_size, OptimalSize, identity_bits, GroupSize in *. lia.
  - assert (table_wf t') by (by apply wf_insert). split; [done|by apply distinct_buckets_size].
  - assert (table_wf t') by (by apply wf_insert). split; [by apply wf_erase|].
    pose proof (removable_lt _ _ _ Hrem) as Hj. simpl. rewrite erase_at_length by done.
    unfold t'. simpl. rewrite insert_length. lia.
  - split.
    + apply (wf_insert (set_nodes (erase_at j) t)); [by apply wf_erase|done|]. simpl.
      intros Hin'. apply Hin. eapply elem_of_submseteq; [exact Hin'|].
      apply fmap_submseteq, sublist_submseteq, erase_at_sublist.
    + pose proof (removable_lt _ _ _ Hrem) as Hj. simpl. rewrite insert_by_perm. simpl.
      rewrite erase_at_length by done. lia.
Qed.

Lemma AddNode_invalid t info :
  IsInitialised (id info) = false →
  AddNode info t = (if NDEBUG then Throw invalid_identity else AssertFailed, t).
Proof.
  intros Hi. unfold AddNode, Validate, cpp_assert. unfold mbind at 1, prog_bind, lift.
  rewrite Hi. by destruct NDEBUG.
Qed.

Lemma AddNode_ok t info o t' : AddNode info t = (o, t') → table_ok t → table_ok t'.
Proof.
  intros Ha Ht. destruct (IsInitialised (id info)) eqn:Hi.
  - destruct (AddNode_run t info (ok_wf _ Ht) Hi) as (r & t1 & Heq & Hr).
    rewrite Heq in Ha. simplify_eq. by eapply add_result_ok.
  - rewrite AddNode_invalid in Ha by done. by simplify_eq.
Qed.

Definition drop_id (a : Address) (l : list NodeInfo) : list NodeInfo :=
  List.filter (λ n, negb (bool_decide (id n = a))) l.

Lemma drop_id_sublist a l : drop_id a l `sublist_of` l.
Proof.
  unfold drop_id. induction l as [|n l IH]; simpl; [done|]. destruct (negb _); by constructor.
Qed.

Lemma drop_id_elem a l n : n ∈ drop_id a l ↔ n ∈ l ∧ id n ≠ a.
Proof.
  unfold drop_id. rewrite !list_elem_of_In, filter_In, negb_true_iff, bool_decide_eq_false. done.
Qed.

Lemma drop_id_absent a l : a ∉ id <$> l → drop_id a l = l.
Proof.
  induction l as [|n l IH]; [done|]. intros [Hn Hl]%not_elem_of_cons. cbn.
  rewrite bool_decide_eq_false_2 by done. simpl. f_equal. by apply IH.
Qed.

Lemma DropNode_run t a :
  IsInitialised a = true → DropNode a t = (Ok tt, set_nodes (drop_id a) t).
Proof.
  intros Ha. unfold DropNode, mbind, prog_bind, lift, modify. by rewrite Validate_ok.
Qed.

Lemma DropNode_invalid t a :
  IsInitialised a = false →
  DropNode a t = (if NDEBUG then Throw invalid_identity else AssertFailed, t).
Proof.
  intros Hi. unfold DropNode, Validate, cpp_assert, mbind, prog_bind, lift.
  rewrite Hi. by destruct NDEBUG.
Qed.

Lemma DropNode_ok t a o t' : DropNode a t = (o, t') → table_ok t → table_ok t'.
Proof.
  intros Hd [Hwf Hsz]. destruct (IsInitialised a) eqn:Ha.
  - rewrite DropNode_run in Hd by done. simplify_eq. split.
    + by apply (wf_sublist t), drop_id_sublist.
    + simpl. pose proof (sublist_length _ _ (drop_id_sublist a (nodes_ t))). lia.
  - rewrite DropNode_invalid in Hd by done. by simplify_eq.
Qed.

(** ** The close group *)

Lemma take_of_take {A} k (l1 l2 : list A) : take (S k) l1 = take (S k) l2 → take k l1 = take k l2.
Proof.
  intros H. apply (f_equal (take k)) in H. by rewrite !take_take, Nat.min_l in H by lia.
Qed.

Lemma OurCloseGroup_take t : OurCloseGroup t = take GroupSize (nodes_ t).
Proof.
  unfold OurCloseGroup. destruct (decide (GroupSize ≤ length (nodes_ t))).
  - by rewrite Nat.min_l.
  - rewrite Nat.min_r by lia. by rewrite !take_ge by lia.
Qed.

Lemma far_closer t info far :
  id info ∉ id <$> nodes_ t → nodes_ t !! GroupSize = Some far →
  CloserToTarget (id info) (id far) (our_id_ t) = false →
  Comparison (our_id_ t) (id far) (id info) = true.
Proof.
  intros Hin Hfar Hcl. apply ltb_false_ne; [apply _|done|].
  intros Heq. apply Hin. rewrite Heq. apply list_elem_of_fmap_2. by eapply list_elem_of_lookup_2.
Qed.

(** Inserting a contact no closer than position [GroupSize] leaves the close
    group alone. *)
Lemma take_insert_far t info far l :
  sorted_by id (Comparison (our_id_ t)) l → l !! GroupSize = Some far →
  Comparison (our_id_ t) (id far) (id info) = true →
  take GroupSize (insert_by id (Comparison (our_id_ t)) info l) = take GroupSize l.
Proof. intros Hs Hfar Hlt. by apply take_of_take, (insert_by_take _ _ _ _ _ far). Qed.

Lemma erase_at_lookup_lt {A} (l : list A) i j : i < j → j ≤ length l → erase_at j l !! i = l !! i.
Proof.
  intros Hij Hj. unfold erase_at. rewrite lookup_app_l by (rewrite length_take; lia).
  by apply lookup_take_lt.
Qed.

Lemma add_result_close_group t info r t' :
  table_wf t → contact_ok (our_id_ t) info → id info ∉ id <$> nodes_ t →
  add_result t info r t' →
  take GroupSize (nodes_ t') =
  take GroupSize (insert_by id (Comparison (our_id_ t)) info (nodes_ t)).
Proof.
  intros Hwf Hc Hn Hr. destruct Hr as
    [Hbad|Hok Hin|Hok Hin Hlen|far Hok Hin Hlen Hfar Hcl t' Hd|far j c Hok Hin Hlen Hfar Hcl t' Hrem
    |far j c Hok Hin Hlen Hfar Hcl Hrem Hb|far Hok Hin Hlen Hfar Hcl Hx]; try done.
  - destruct Hc as [_ ? ?], Hbad; congruence.
  - simpl. pose proof (removable_lt _ _ _ Hrem). pose proof (rem_far _ _ _ Hrem).
    by apply take_erase_at; [lia|unfold t' in *; simpl in *; lia].
  - pose proof (removable_lt _ _ _ Hrem). pose proof (rem_far _ _ _ Hrem).
    pose proof (far_closer _ _ _ Hin Hfar Hcl) as Hlt. simpl.
    rewrite !(take_insert_far t info far); try done.
    + apply take_erase_at; lia.
    + apply Hwf.
    + apply (wf_erase t j Hwf).
    + by rewrite erase_at_lookup_lt by lia.
  - pose proof (far_closer _ _ _ Hin Hfar Hcl) as Hlt.
    by rewrite (take_insert_far t info far _ (wf_sorted _ Hwf)).
Qed.

(** ** Which contacts are there afterwards *)

Definition option_list {A} (o : option A) : list A := match o with Some x => [x] | None => [] end.

Lemma add_result_contacts t info added dropped t' :
  add_result t info (added, dropped) t' →
  (if added then [info] else []) ++ nodes_ t ≡ₚ option_list dropped ++ nodes_ t'.
Proof.
  inversion 1 as
    [Hbad|Hok Hin|Hok Hin Hlen|far Hok Hin Hlen Hfar Hcl t1 Hd|far j c Hok Hin Hlen Hfar Hcl t1 Hrem
    |far j c Hok Hin Hlen Hfar Hcl Hrem Hb|far Hok Hin Hlen Hfar Hcl Hx]; subst; simpl; try done.
  - by rewrite insert_by_perm.
  - by rewrite insert_by_perm.
  - pose proof (erase_at_perm _ _ _ (rem_at _ _ _ Hrem)) as Hp. unfold t1 in Hp. simpl in Hp.
    by rewrite <-Hp, insert_by_perm.
  - rewrite insert_by_perm, (erase_at_perm _ _ _ (rem_at _ _ _ Hrem)) at 1. constructor.
Qed.

Lemma lookup_not_in_take {A} (l : list A) j k c :
  NoDup l → l !! j = Some c → k ≤ j → c ∉ take k l.
Proof.
  intros Hnd Hj Hk (i & Hi)%list_elem_of_lookup_1.
  pose proof (lookup_lt_Some _ _ _ Hi) as Hlt. rewrite length_take in Hlt.
  rewrite lookup_take_lt in Hi by lia.
  assert (i = j) by (by eapply NoDup_lookup). lia.
Qed.

Lemma wf_NoDup t : table_wf t → NoDup (nodes_ t).
Proof. intros Hwf. eapply NoDup_fmap_1, sorted_by_NoDup; [|apply Hwf]. apply _. Qed.

(** A contact that went into the close group side of position [GroupSize] is
    not behind that position. *)
Lemma inserted_not_far t info far j c :
  table_wf t → contact_ok (our_id_ t) info → id info ∉ id <$> nodes_ t →
  nodes_ t !! GroupSize = Some far → CloserToTarget (id info) (id far) (our_id_ t) = true →
  insert_by id (Comparison (our_id_ t)) info (nodes_ t) !! j = Some c → GroupSize < j → c ≠ info.
Proof.
  intros Hwf Hok Hin Hfar Hcl Hj Hgj ->. set (l := insert_by _ _ _ _) in *.
  assert (sorted_by id (Comparison (our_id_ t)) l) as Hs by apply (wf_insert _ _ Hwf Hok Hin).
  assert (nodes_ t = erase_at j l) as Heq.
  { apply (sorted_by_unique id (Comparison (our_id_ t))).
    - apply Hwf.
    - by eapply sorted_by_sublist; [apply erase_at_sublist|].
    - apply (Permutation_cons_inv (a:=info)). rewrite <-(erase_at_perm _ _ _ Hj).
      unfold l. by rewrite insert_by_perm. }
  pose proof (lookup_lt_Some _ _ _ Hj).
  rewrite Heq, erase_at_lookup_lt in Hfar by lia.
  assert (Comparison (our_id_ t) (id far) (id info) = true) as Hlt
    by (by apply (sorted_by_lookup id _ l GroupSize j)).
  apply (ltb_asym _) in Hlt. unfold Comparison in Hlt. congruence.
Qed.

(** The contact given up was in the table before, is not in the close group
    afterwards, and leaves behind another contact of its bucket. *)
Lemma add_result_victim t info c t' :
  table_wf t → add_result t info (true, Some c) t' →
  c ∈ nodes_ t ∧ (c ∉ OurCloseGroup t') ∧ ∃ p, p ∈ nodes_ t' ∧ bucket t' p = bucket t' c.
Proof.
  intros Hwf. rewrite OurCloseGroup_take. inversion 1 as
    [| | | |far j c' Hok Hin Hlen Hfar Hcl t1 Hrem
    |far j c' Hok Hin Hlen Hfar Hcl Hrem Hb|]; subst;
    pose proof (removable_lt _ _ _ Hrem) as Hj; pose proof (rem_far _ _ _ Hrem) as Hgj;
    pose proof (rem_at _ _ _ Hrem) as Hat;
    destruct (rem_shared _ _ _ Hrem) as (p & Hp & Hbp).
  - assert (table_wf t1) as Hwf1 by (by apply wf_insert).
    split; [|split].
    + assert (c ∈ nodes_ t1) as Hc1 by (by eapply list_elem_of_lookup_2).
      unfold t1 in Hc1. simpl in Hc1. rewrite insert_by_perm in Hc1.
      apply elem_of_cons in Hc1 as [->|]; [|done].
      exfalso. by apply (inserted_not_far t info far j info).
    + simpl. rewrite take_erase_at by (unfold t1 in Hj; simpl in Hj; lia).
      apply (lookup_not_in_take _ j); [by apply (wf_NoDup t1)|done|lia].
    + exists p. split; [|done]. simpl. apply list_elem_of_lookup. exists (j - 1).
      by rewrite erase_at_lookup_lt by (unfold t1 in Hj; simpl in Hj; lia).
  - split; [|split].
    + by eapply list_elem_of_lookup_2.
    + simpl. rewrite (take_insert_far t info far).
      * rewrite take_erase_at by lia. apply (lookup_not_in_take _ j); [by apply wf_NoDup|done|lia].
      * apply (wf_erase t j Hwf).
      * by rewrite erase_at_lookup_lt by lia.
      * by apply far_closer.
    + exists p. split; [|done]. simpl. rewrite insert_by_perm. right.
      apply list_elem_of_lookup. exists (j - 1). by rewrite erase_at_lookup_lt by lia.
Qed.

(** ** [TargetNodes] and [GetPublicKey] *)

(** The contacts, closest to [target] first. *)
Definition closest_first (target : Address) (l : list NodeInfo) : list NodeInfo :=
  sort_by id (Comparison target) l.

Definition itrs t : list (nat * NodeInfo) := zip (seq 0 (length (nodes_ t))) (nodes_ t).

Lemma itrs_snd t : (itrs t).*2 = nodes_ t.
Proof. apply snd_zip. by rewrite length_seq. Qed.

Lemma itrs_lookup t k i n : itrs t !! k = Some (i, n) ↔ i = k ∧ nodes_ t !! k = Some n.
Proof.
  unfold itrs. rewrite lookup_zip_with_Some. split.
  - intros (i' & n' & Heq & Hi & Hn). simplify_eq. apply lookup_seq in Hi as [-> _]. done.
  - intros [-> Hn]. exists k, n. split; [done|]. split; [|done].
    apply lookup_seq. split; [done|by eapply lookup_lt_Some].
Qed.

(** A contact is in the close group exactly when its position says so. *)
Lemma in_close_group t k n :
  table_wf t → nodes_ t !! k = Some n → (n ∈ OurCloseGroup t ↔ k < GroupSize).
Proof.
  intros Hwf Hk. rewrite OurCloseGroup_take. split.
  - intros Hin. destruct (decide (k < GroupSize)); [done|exfalso]. revert Hin.
    apply (lookup_not_in_take _ k); [by apply wf_NoDup|done|lia].
  - intros Hlt. apply list_elem_of_lookup. exists k. by rewrite lookup_take_lt.
Qed.

Lemma itrs_in_group t k :
  k < length (nodes_ t) → existsb (λ g, g.1 =? k) (take GroupSize (itrs t)) = (k <? GroupSize).
Proof.
  intros Hlen. apply eq_true_iff_eq. rewrite existsb_exists, Nat.ltb_lt. split.
  - intros ([i m] & Hin & Heq%Nat.eqb_eq). simpl in Heq. subst i.
    apply list_elem_of_In, list_elem_of_lookup in Hin as [j Hj].
    pose proof (lookup_lt_Some _ _ _ Hj) as Hlt. rewrite length_take in Hlt.
    rewrite lookup_take_lt, itrs_lookup in Hj by lia. lia.
  - intros Hk. destruct (lookup_lt_is_Some_2 _ _ Hlen) as [m Hm]. exists (k, m).
    split; [|apply Nat.eqb_refl]. apply list_elem_of_In, list_elem_of_lookup. exists k.
    by rewrite lookup_take_lt, itrs_lookup.
Qed.

Lemma TargetNodes_run t target :
  table_wf t → IsInitialised target = true →
  ∃ res, TargetNodes t target = Ok res ∧
    match closest_first target (nodes_ t) with
    | [] => res = []
    | n :: _ => (n ∈ OurCloseGroup t ∧ res = OurCloseGroup t) ∨
                ((n ∉ OurCloseGroup t) ∧ res = take Parallelism (closest_first target (nodes_ t)))
    end.
Proof.
  intros Hwf Ht. unfold TargetNodes. rewrite Validate_ok, bind_Ok by done. fold (itrs t).
  pose proof (sort_by_fmap (A:=nat * NodeInfo) id snd (Comparison target) (itrs t)) as Hsnd. rewrite itrs_snd in Hsnd.
  unfold closest_first. rewrite <-Hsnd. cbv zeta.
  destruct (sort_by (λ i : nat * NodeInfo, id i.2) (Comparison target) (itrs t))
    as [|[k n] rest] eqn:Es; [by exists []|].
  assert (nodes_ t !! k = Some n) as Hk.
  { assert ((k, n) ∈ itrs t) as [j Hj]%list_elem_of_lookup.
    { rewrite <-(sort_by_perm (λ i, id i.2) (Comparison target) (itrs t)), Es. by left. }
    apply itrs_lookup in Hj as [-> ?]. done. }
  cbn [fst]. rewrite itrs_in_group by (by eapply lookup_lt_Some).
  change (((k, n) :: rest).*2) with (n :: rest.*2). cbn iota.
  pose proof (in_close_group t k n Hwf Hk) as Hg.
  destruct (Nat.ltb_spec k GroupSize); eexists; (split; [done|]).
  - left. split; [by apply Hg|]. by rewrite fmap_take, itrs_snd, OurCloseGroup_take.
  - right. split; [rewrite Hg; lia|]. change (n :: rest.*2) with (((k, n) :: rest).*2).
    rewrite fmap_take. assert (length (((k, n) :: rest).*2) = length (nodes_ t)) as Hl.
    { rewrite Hsnd. by rewrite sort_by_perm. }
    destruct (decide (Parallelism ≤ length (nodes_ t))).
    + by rewrite Nat.min_l.
    + rewrite Nat.min_r by lia. by rewrite !take_ge by lia.
Qed.

Lemma GetPublicKey_run t a :
  table_wf t → IsInitialised a = true →
  GetPublicKey t a = Ok (option_map (λ n, Pmid_public_key (dht_fob n))
                           (List.find (λ n, bool_decide (id n = a)) (nodes_ t))).
Proof.
  intros Hwf Ha. unfold GetPublicKey. rewrite Validate_ok, bind_Ok by done.
  rewrite is_sorted_sorted_by, cpp_assert_true; [done|apply _|apply Hwf].
Qed.

Lemma find_contact t n :
  table_wf t → n ∈ nodes_ t →
  List.find (λ m, bool_decide (id m = id n)) (nodes_ t) = Some n.
Proof.
  intros Hwf Hn. destruct (List.find _ _) as [m|] eqn:E.
  - apply List.find_some in E as [Hm Heq%bool_decide_eq_true]. f_equal.
    apply list_elem_of_In in Hm.
    assert (NoDup (id <$> nodes_ t)) as Hnd by (apply sorted_by_NoDup with (ltb := Comparison (our_id_ t)); [apply _|apply Hwf]).
    apply list_elem_of_lookup in Hm as [i Hi], Hn as [j Hj].
    assert (i = j); [|by simplify_eq].
    eapply (NoDup_lookup _ _ _ (id n) Hnd); rewrite list_lookup_fmap, ?Hi, ?Hj; simpl; congruence.
  - exfalso. apply list_elem_of_In in Hn. apply (List.find_none _ _ E) in Hn.
    by rewrite bool_decide_eq_true_2 in Hn.
Qed.
End facts.

#[export] Hint Resolve AddNode_ok DropNode_ok ok_wf : routing.
