(* ===== verification/RoutingTableProps.v ===== *)
(** * The routing table: properties

    The contract of [RoutingTable] (the comments of [routing_table.h]) as
    theorems about the definitions of [RoutingTable.v], each with a witness on
    the concrete 512-bit XOR metric. *)

From S2P Require Import Prelude CppStd Identity Types RoutingTable RoutingTableFacts.

Section props.
Context `{IO : IdentityOps} `{IL : !IdentityLaws} `{CO : !CryptoOps} `{BM : BuildMode}.
Implicit Types (t : RoutingTable) (info n : NodeInfo).

(** One call of a public function that changes the table, whatever it returns. *)
Inductive table_step : RoutingTable → RoutingTable → Prop :=
  | step_AddNode t info : table_step t (AddNode info t).2
  | step_DropNode t a : table_step t (DropNode a t).2.

Lemma table_step_ok t t' : table_step t t' → table_ok t → table_ok t'.
Proof.
  intros [t1 info|t1 a] Ht.
  - by eapply AddNode_ok; [apply surjective_pairing|].
  - by eapply DropNode_ok; [apply surjective_pairing|].
Qed.

Lemma empty_table_ok our_id : IsInitialised our_id = true → table_ok (mkTable our_id []).
Proof.
  intros Hi. split; [|simpl; lia]. split; simpl; [done|constructor|constructor].
Qed.

Lemma CheckNode_full t a far :
  IsInitialised a = true → a ≠ our_id_ t → a ∉ id <$> nodes_ t →
  OptimalSize ≤ length (nodes_ t) → nodes_ t !! GroupSize = Some far →
  CheckNode t a =
    if CloserToTarget a (id far) (our_id_ t) then Ok true
    else c ← FindCandidateForRemoval t; NewNodeIsBetterThanExisting t a c.
Proof.
  intros Hi Hne Hin Hlen Hfar. unfold CheckNode. rewrite Validate_ok, bind_Ok by done.
  rewrite bool_decide_eq_false_2 by done. rewrite (proj2 (HaveNode_false _ _) Hin).
  rewrite (proj2 (Nat.ltb_ge _ _) Hlen). unfold vector_at. by rewrite Hfar.
Qed.

Lemma CheckNode_add_result t info b d t' :
  table_wf t → IsInitialised (id info) = true →
  ValidateKey (Pmid_public_key (dht_fob info)) = true →
  add_result t info (b, d) t' → CheckNode t (id info) = Ok b.
Proof.
  intros Hwf Hi Hkey Hr. inversion Hr as
    [Hbad|Hok Hin|Hok Hin Hlen|far Hok Hin Hlen Hfar Hcl t1 Hd|far j c Hok Hin Hlen Hfar Hcl t1 Hrem
    |far j c Hok Hin Hlen Hfar Hcl Hrem Hb|far Hok Hin Hlen Hfar Hcl Hx]; subst;
    try (rewrite (CheckNode_full _ (id info) far), Hcl by (done || apply Hok)); try done.
  - unfold CheckNode. rewrite Validate_ok, bind_Ok by done.
    destruct Hbad; [|congruence]. by rewrite bool_decide_eq_true_2.
  - unfold CheckNode. rewrite Validate_ok, bind_Ok by done.
    rewrite bool_decide_eq_false_2 by apply Hok. by rewrite (proj2 (HaveNode_spec _ _) Hin).
  - unfold CheckNode. rewrite Validate_ok, bind_Ok by done.
    rewrite bool_decide_eq_false_2 by apply Hok. rewrite (proj2 (HaveNode_false _ _) Hin).
    by rewrite (proj2 (Nat.ltb_lt _ _) Hlen).
  - rewrite (FindCandidateForRemoval_removable _ j c), bind_Ok by done.
    rewrite (NewNodeIsBetter_removable _ _ j c) by (done || apply Hok).
    f_equal. by apply Z.ltb_lt.
  - destruct Hx as [Hd|(j & c & Hrem & Hb)].
    + rewrite FindCandidateForRemoval_distinct, bind_Ok by done. apply NewNodeIsBetter_end.
    + rewrite (FindCandidateForRemoval_removable _ j c), bind_Ok by done.
      rewrite (NewNodeIsBetter_removable _ _ j c) by (done || apply Hok).
      f_equal. by apply Z.ltb_ge.
Qed.

(** [AddNode] on a well-formed table, with the relation it establishes. *)
Lemma AddNode_inv t info r t' :
  table_ok t → IsInitialised (id info) = true → AddNode info t = (Ok r, t') →
  add_result t info r t'.
Proof.
  intros Ht Hi Ha. destruct (AddNode_run t info (ok_wf _ Ht) Hi) as (r1 & t1 & Heq & Hr).
  rewrite Heq in Ha. by simplify_eq.
Qed.

Lemma sort_by_sorted_id t : table_wf t → sort_by id (Comparison (our_id_ t)) (nodes_ t) = nodes_ t.
Proof.
  intros Hwf. apply (sort_by_unique id (Comparison (our_id_ t)) (nodes_ t) (nodes_ t)); [|done].
  apply Hwf.
Qed.

Lemma drop_id_insert t info :
  id info ∉ id <$> nodes_ t →
  drop_id (id info) (insert_by id (Comparison (our_id_ t)) info (nodes_ t)) = nodes_ t.
Proof.
  generalize (nodes_ t) as l. unfold drop_id. induction l as [|n l IH]; intros Hin.
  - cbn. by rewrite bool_decide_eq_true_2.
  - cbn in Hin. apply not_elem_of_cons in Hin as [Hn Hin]. cbn [insert_by].
    destruct (Comparison _ _ _); cbn [List.filter].
    + rewrite bool_decide_eq_true_2, bool_decide_eq_false_2 by done. cbn [negb].
      f_equal. by apply drop_id_absent.
    + rewrite bool_decide_eq_false_2 by done. cbn [negb]. f_equal. by apply IH.
Qed.

Lemma wf_ids_NoDup t : table_wf t → NoDup (id <$> nodes_ t).
Proof. intros Hwf. apply (sorted_by_NoDup id (Comparison (our_id_ t))), Hwf. Qed.

(** An added contact is in the table, a dropped one no longer is. *)
Lemma add_result_moves t info dropped t' :
  table_wf t → add_result t info (true, dropped) t' →
  info ∈ nodes_ t' ∧ ∀ c, dropped = Some c → c ∈ nodes_ t ∧ (id c ∉ id <$> nodes_ t').
Proof.
  intros Hwf Hr. pose proof (add_result_contacts _ _ _ _ _ Hr) as Hp. simpl in Hp.
  assert (id info ∉ id <$> nodes_ t) as Hnew by (by inversion Hr).
  assert (∀ c, dropped = Some c → c ∈ nodes_ t) as Hold.
  { intros c ->. by apply (add_result_victim t info c t'). }
  split.
  - assert (info ∈ option_list dropped ++ nodes_ t') as [Hd|]%elem_of_app
      by (rewrite <-Hp; by left); [|done].
    destruct dropped as [c|]; simpl in Hd; [|by apply elem_of_nil in Hd].
    apply list_elem_of_singleton in Hd as ->. destruct Hnew.
    by apply list_elem_of_fmap_2, Hold.
  - intros c ->. split; [by apply Hold|].
    assert (NoDup (id <$> info :: nodes_ t)) as Hnd
      by (apply NoDup_cons; split; [done|by apply wf_ids_NoDup]).
    rewrite Hp in Hnd. by apply NoDup_cons in Hnd as [].
Qed.

(** The outcome of every public function given an uninitialised identity. *)
Definition rejected {A} : outcome A := if NDEBUG then Throw invalid_identity else AssertFailed.

Lemma Validate_rejects a : IsInitialised a = false → Validate a = rejected.
Proof. intros Ha. unfold Validate, cpp_assert, rejected. rewrite Ha. by destruct NDEBUG. Qed.

(** ** The properties *)

(** C4: Every table reachable from a new one by calls of [AddNode] and
    [DropNode], with whatever arguments and whatever they return, satisfies the
    invariant: the contacts are strictly sorted by closeness to our identity
    (so no contact appears twice), none of them is us, all have an initialised
    identity and a valid public key, and there are at most
    [GroupSize + 512] of them. *)
Theorem reachable_table_ok (our_id : Address) (t0 t : RoutingTable) :
  IsInitialised our_id = true → RoutingTable_new our_id = Ok t0 → rtc table_step t0 t →
  table_ok t.
Proof.
  intros Hi Hnew. unfold RoutingTable_new in Hnew. rewrite Hi, cpp_assert_true in Hnew.
  injection Hnew as <-. generalize (empty_table_ok our_id Hi).
  induction 2; eauto using table_step_ok.
Qed.

(** C23: On a well-formed table [AddNode] and [CheckNode] return normally for
    every initialised identity (no assertion fails, [at] stays in range, no
    iterator is misused), and [CheckNode] answers exactly whether [AddNode] of a
    contact with that identity and a valid key would add it. *)
Theorem CheckNode_predicts_AddNode (t : RoutingTable) (info : NodeInfo) :
  table_ok t → IsInitialised (id info) = true →
  ValidateKey (Pmid_public_key (dht_fob info)) = true →
  ∃ b d t', AddNode info t = (Ok (b, d), t') ∧ CheckNode t (id info) = Ok b.
Proof.
  intros Ht Hi Hk. destruct (AddNode_run t info (ok_wf _ Ht) Hi) as ([b d] & t' & Ha & Hr).
  exists b, d, t'. split; [done|]. by eapply CheckNode_add_result; [apply Ht|..].
Qed.

(** [AddNode] returning [(added, dropped)] changes the contents by exactly
    that: the new contact is in, the dropped one is out, every other contact
    stays; with [added] false nothing is dropped and the table is unchanged. *)
Theorem AddNode_contents (t t' : RoutingTable) (info : NodeInfo) added dropped :
  table_ok t → IsInitialised (id info) = true →
  AddNode info t = (Ok (added, dropped), t') →
  (if added then [info] else []) ++ nodes_ t ≡ₚ option_list dropped ++ nodes_ t' ∧
  (added = false → dropped = None ∧ t' = t) ∧ our_id_ t' = our_id_ t.
Proof.
  intros Ht Hi Ha. apply AddNode_inv in Ha; [|done..].
  split; [by apply (add_result_contacts t info)|]. by inversion Ha; subst.
Qed.

(** After [AddNode] of an acceptable contact that was not in the table, the
    close group is the [GroupSize] contacts closest to us among the old
    contacts and the new one: whether the contact is added or refused, and
    whatever is dropped to make room, no close contact is lost. *)
Theorem AddNode_close_group (t t' : RoutingTable) (info : NodeInfo) r :
  table_ok t → contact_ok (our_id_ t) info → id info ∉ id <$> nodes_ t →
  AddNode info t = (Ok r, t') →
  OurCloseGroup t' = take GroupSize (sort_by id (Comparison (our_id_ t)) (info :: nodes_ t)).
Proof.
  intros Ht Hc Hin Ha. apply AddNode_inv in Ha; [|done|apply Hc].
  rewrite OurCloseGroup_take. cbn [sort_by]. rewrite sort_by_sorted_id by apply Ht.
  by eapply add_result_close_group; [apply Ht|..].
Qed.

(** C21: A contact that [AddNode] drops to make room was in the table before, is
    outside the close group afterwards, and shares its bucket with a contact
    that stays: no bucket is emptied. *)
Theorem AddNode_victim (t t' : RoutingTable) (info c : NodeInfo) :
  table_ok t → IsInitialised (id info) = true →
  AddNode info t = (Ok (true, Some c), t') →
  c ∈ nodes_ t ∧ (c ∉ OurCloseGroup t') ∧
  ∃ p, p ∈ nodes_ t' ∧ CommonLeadingBits (our_id_ t') (id p) = CommonLeadingBits (our_id_ t') (id c).
Proof.
  intros Ht Hi Ha. apply AddNode_inv in Ha; [|done..].
  by apply (add_result_victim t info c t'); [apply Ht|].
Qed.


(** [DropNode] removes the contact with the given identity and nothing
    else, and keeps the others in order. *)
Theorem DropNode_removes (t : RoutingTable) (a : Address) :
  IsInitialised a = true →
  ∃ t', DropNode a t = (Ok tt, t') ∧ our_id_ t' = our_id_ t ∧ HaveNode t' a = false ∧
    nodes_ t' `sublist_of` nodes_ t ∧ ∀ n, n ∈ nodes_ t' ↔ n ∈ nodes_ t ∧ id n ≠ a.
Proof.
  intros Ha. eexists. split; [by apply DropNode_run|]. split; [done|].
  assert (∀ n, n ∈ drop_id a (nodes_ t) ↔ n ∈ nodes_ t ∧ id n ≠ a) as Hel
    by (intros; apply drop_id_elem).
  split; [|split; [apply drop_id_sublist|done]].
  apply HaveNode_false. intros (n & -> & Hn)%list_elem_of_fmap. by apply Hel in Hn as [].
Qed.

(** Dropping a contact that was added without dropping another gives back
    the table there was before. *)
Theorem AddNode_DropNode_roundtrip (t t' : RoutingTable) (info : NodeInfo) :
  table_ok t → IsInitialised (id info) = true →
  AddNode info t = (Ok (true, None), t') → DropNode (id info) t' = (Ok tt, t).
Proof.
  intros Ht Hi Ha. apply AddNode_inv in Ha; [|done..]. rewrite DropNode_run by done.
  assert ((id info ∉ id <$> nodes_ t) ∧
          t' = set_nodes (insert_by id (Comparison (our_id_ t)) info) t) as [Hin ->]
    by (by inversion Ha; subst).
  unfold set_nodes. simpl. rewrite drop_id_insert by done. by destruct t.
Qed.

(** C20: [TargetNodes] returns our close group when the contact closest to the
    target is in it, and otherwise the (up to) [Parallelism] contacts closest to
    the target, closest first; it returns nothing only when the table is
    empty. *)
Theorem TargetNodes_spec (t : RoutingTable) (target : Address) :
  table_ok t → IsInitialised target = true →
  ∃ res, TargetNodes t target = Ok res ∧
    match sort_by id (Comparison target) (nodes_ t) with
    | [] => nodes_ t = [] ∧ res = []
    | closest :: _ =>
        (closest ∈ OurCloseGroup t ∧ res = OurCloseGroup t) ∨
        ((closest ∉ OurCloseGroup t) ∧
         res = take Parallelism (sort_by id (Comparison target) (nodes_ t)))
    end.
Proof.
  intros Ht Hi. destruct (TargetNodes_run t target (ok_wf _ Ht) Hi) as (res & -> & Hres).
  exists res. split; [done|]. unfold closest_first in Hres.
  destruct (sort_by _ _ _) eqn:E; [|done]. split; [|done].
  apply Permutation_nil_r. by rewrite <-E, sort_by_perm.
Qed.

(** Forwarding makes progress: the nodes [TargetNodes] returns include, for
    every contact we have, one at least as close to the target. *)
Theorem TargetNodes_closest (t : RoutingTable) (target : Address) res n :
  table_ok t → IsInitialised target = true → TargetNodes t target = Ok res → n ∈ nodes_ t →
  ∃ m, m ∈ res ∧ (m = n ∨ CloserToTarget (id m) (id n) target = true).
Proof.
  intros Ht Hi Htn Hn. destruct (TargetNodes_run t target (ok_wf _ Ht) Hi) as (res' & Heq & Hres).
  rewrite Htn in Heq. injection Heq as <-.
  assert (sorted_by id (Comparison target) (closest_first target (nodes_ t))) as Hs.
  { apply (sort_by_sorted _ _), wf_ids_NoDup, Ht. }
  assert (n ∈ closest_first target (nodes_ t)) as Hn'
    by (unfold closest_first; by rewrite sort_by_perm).
  destruct (closest_first target (nodes_ t)) as [|c l]; [by apply elem_of_nil in Hn'|].
  exists c. split; [destruct Hres as [[Hc ->]|[_ ->]]; [done|by left]|].
  destruct (sorted_by_head _ _ c l n Hs Hn') as [->|]; [by left|by right].
Qed.

(** After [AddNode] added a contact, [GetPublicKey] returns its key, and
    no key for a contact dropped to make room. *)
Theorem AddNode_GetPublicKey (t t' : RoutingTable) (info : NodeInfo) dropped :
  table_ok t → IsInitialised (id info) = true →
  AddNode info t = (Ok (true, dropped), t') →
  GetPublicKey t' (id info) = Ok (Some (Pmid_public_key (dht_fob info))) ∧
  ∀ c, dropped = Some c → GetPublicKey t' (id c) = Ok None.
Proof.
  intros Ht Hi Ha. pose proof (AddNode_inv _ _ _ _ Ht Hi Ha) as Hr.
  assert (table_wf t') as Hwf' by (eapply AddNode_ok; [exact Ha|done]).
  destruct (add_result_moves _ _ _ _ (ok_wf _ Ht) Hr) as [Hin Hout]. split.
  - rewrite GetPublicKey_run, find_contact by done. done.
  - intros c ->. destruct (Hout c eq_refl) as [Hc Hnc].
    assert (IsInitialised (id c) = true) as Hic
      by (by destruct (proj1 (Forall_forall _ _) (wf_contacts _ (ok_wf _ Ht)) _ Hc)).
    rewrite GetPublicKey_run by done. destruct (List.find _ _) as [m|] eqn:E; [|done].
    apply List.find_some in E as [Hm%list_elem_of_In Heq%bool_decide_eq_true].
    destruct Hnc. rewrite <-Heq. by apply list_elem_of_fmap_2.
Qed.
End props.

(** ** Witnesses

    Tables of the concrete 512-bit XOR metric, in a release build. *)
Module TableWitness.
Import Concrete.
#[local] Existing Instance release_build.

Definition addr (i : N) : Address := i.

Definition contact (i : N) : NodeInfo := mkNodeInfo i (i, 1%N) true.

(** Our identity is 0; the contacts have the identities [first], [first + 1], ... *)
Definition table_of (first : N) (n : nat) : RoutingTable :=
  mkTable (addr 0) ((λ i, contact (first + N.of_nat i)) <$> seq 0 n).

(** A full table of which every contact has a bucket of its own: 2^448, ..., 2^511. *)
Definition sparse_table : RoutingTable :=
  mkTable (addr 0) ((λ i, contact (2 ^ N.of_nat (448 + i))) <$> seq 0 64).

Lemma reachable_table_ok_witness :
  table_ok (DropNode (addr 7) (AddNode (contact 7) (mkTable (addr 0) [])).2).2.
Proof.
  apply (reachable_table_ok (addr 0) (mkTable (addr 0) [])); [reflexivity|reflexivity|].
  eapply rtc_l; [apply step_AddNode|]. eapply rtc_l; [apply step_DropNode|]. apply rtc_refl.
Defined.

Lemma CheckNode_predicts_AddNode_witness :
  ∃ b d t', AddNode (contact 1) (table_of 2 64) = (Ok (b, d), t') ∧
            CheckNode (table_of 2 64) 1%N = Ok b.
Proof.
  apply (CheckNode_predicts_AddNode (table_of 2 64) (contact 1));
    [apply check_table_ok; reflexivity|reflexivity|reflexivity].
Defined.

Lemma AddNode_contents_witness :
  let t := table_of 2 64 in let t' := (AddNode (contact 1) t).2 in
  contact 1 :: nodes_ t ≡ₚ contact 65 :: nodes_ t' ∧ our_id_ t' = our_id_ t.
Proof.
  destruct (AddNode_contents (table_of 2 64) (AddNode (contact 1) (table_of 2 64)).2
              (contact 1) true (Some (contact 65))) as (Hp & _ & Ho);
    [apply check_table_ok; reflexivity|reflexivity|apply run_fst; vm_refl|].
  split; [exact Hp|exact Ho].
Defined.

Lemma AddNode_close_group_witness :
  OurCloseGroup (AddNode (contact 1) (table_of 2 64)).2
  = take GroupSize (sort_by id (Comparison (addr 0)) (contact 1 :: nodes_ (table_of 2 64))).
Proof.
  apply (AddNode_close_group (table_of 2 64) _ (contact 1) (true, Some (contact 65)));
    [apply check_table_ok; reflexivity|by constructor| |apply run_fst; vm_refl].
  by_bool.
Defined.

Lemma AddNode_victim_witness :
  let t' := (AddNode (contact 1) (table_of 2 64)).2 in
  contact 65 ∈ nodes_ (table_of 2 64) ∧ (contact 65 ∉ OurCloseGroup t') ∧
  ∃ p, p ∈ nodes_ t' ∧ CommonLeadingBits (our_id_ t') (id p) = CommonLeadingBits (our_id_ t') (addr 65).
Proof.
  apply (AddNode_victim (table_of 2 64) _ (contact 1) (contact 65));
    [apply check_table_ok; reflexivity|reflexivity|apply run_fst; vm_refl].
Defined.


Lemma DropNode_removes_witness :
  ∃ t', DropNode (addr 2) (table_of 1 3) = (Ok tt, t') ∧ our_id_ t' = our_id_ (table_of 1 3) ∧
    HaveNode t' (addr 2) = false ∧ nodes_ t' `sublist_of` nodes_ (table_of 1 3) ∧
    ∀ n, n ∈ nodes_ t' ↔ n ∈ nodes_ (table_of 1 3) ∧ id n ≠ addr 2.
Proof. apply (DropNode_removes (table_of 1 3) (addr 2)). reflexivity. Defined.

Lemma AddNode_DropNode_roundtrip_witness :
  DropNode (addr 9) (AddNode (contact 9) (table_of 1 3)).2 = (Ok tt, table_of 1 3).
Proof.
  apply (AddNode_DropNode_roundtrip (table_of 1 3) _ (contact 9));
    [apply check_table_ok; reflexivity|reflexivity|apply run_fst; vm_refl].
Defined.

Lemma TargetNodes_spec_witness :
  ∃ res, TargetNodes (table_of 1 40) (addr 39) = Ok res ∧
    match sort_by id (Comparison (addr 39)) (nodes_ (table_of 1 40)) with
    | [] => nodes_ (table_of 1 40) = [] ∧ res = []
    | closest :: _ =>
        (closest ∈ OurCloseGroup (table_of 1 40) ∧ res = OurCloseGroup (table_of 1 40)) ∨
        ((closest ∉ OurCloseGroup (table_of 1 40)) ∧
         res = take Parallelism (sort_by id (Comparison (addr 39)) (nodes_ (table_of 1 40))))
    end.
Proof. apply (TargetNodes_spec (table_of 1 40) (addr 39)); [apply check_table_ok; reflexivity|reflexivity]. Defined.

Lemma TargetNodes_closest_witness :
  ∃ m, m ∈ contact <$> [39%N; 38%N; 37%N; 36%N] ∧
    (m = contact 30 ∨ CloserToTarget (id m) (addr 30) (addr 39) = true).
Proof.
  apply (TargetNodes_closest (table_of 1 40) (addr 39) (contact <$> [39%N; 38%N; 37%N; 36%N]) (contact 30));
    [apply check_table_ok; reflexivity|reflexivity|vm_refl|].
  apply (list_elem_of_lookup_2 _ 29). vm_refl.
Defined.

Lemma AddNode_GetPublicKey_witness :
  let t' := (AddNode (contact 1) (table_of 2 64)).2 in
  GetPublicKey t' (addr 1) = Ok (Some 1%N) ∧ GetPublicKey t' (addr 65) = Ok None.
Proof.
  destruct (AddNode_GetPublicKey (table_of 2 64) (AddNode (contact 1) (table_of 2 64)).2
              (contact 1) (Some (contact 65))) as [H1 H2];
    [apply check_table_ok; reflexivity|reflexivity|apply run_fst; vm_refl|].
  split; [exact H1|exact (H2 (contact 65) eq_refl)].
Defined.

(** The comment of [AddNode] (rule 3) adds a contact to a full table only when
    it belongs to the close group or replaces a contact of a crowded bucket.
    The code compares with the contact after the close group, so a contact that
    lands just outside the close group is added too, with nothing dropped. *)
Theorem added_outside_close_group :
  let info := contact (2 ^ 470 + 1) in
  length (nodes_ sparse_table) = OptimalSize ∧
  AddNode info sparse_table = (Ok (true, None), (AddNode info sparse_table).2) ∧
  (id info ∉ id <$> OurCloseGroup (AddNode info sparse_table).2).
Proof. split; [vm_refl|]. split; [apply run_fst; vm_refl|]. by_bool. Qed.
End TableWitness.
