(* ===== verification/GrownTable.v ===== *)
(** * Routing tables that grow

    The table of a node that is offered contacts, one after the other.  A full
    table gives up contacts for new ones, but never the last of a bucket and never
    one of the close group: a bucket that has a contact keeps one, and the close
    group is that of a table that remembers every contact, so it does not depend
    on the order of the offers. *)

From S2P Require Import Prelude CppStd Identity Types RoutingTable RoutingTableFacts RoutingTableProps.

Lemma take_insert_by {A K} (f : A → K) (ltb : K → K → bool) k x (l1 l2 : list A) :
  take k l1 = take k l2 → take k (insert_by f ltb x l1) = take k (insert_by f ltb x l2).
Proof.
  revert l1 l2. induction k as [|k IH]; intros [|y l1] [|z l2]; try done. cbn [take]. intros [= <- Hl].
  cbn [insert_by]. destruct (ltb (f x) (f y)); cbn [take]; f_equal; [|by apply IH].
  by apply take_of_take; cbn [take]; rewrite Hl.
Qed.

Section grown.
Context `{IO : IdentityOps} `{IL : !IdentityLaws} `{CO : !CryptoOps} `{BM : BuildMode}.
Implicit Types (t : RoutingTable) (info n p : NodeInfo) (offers : list NodeInfo) (a b : Address).

Lemma table_contact t n : table_ok t → n ∈ nodes_ t → contact_ok (our_id_ t) n.
Proof. intros Ht Hn. by eapply (proj1 (Forall_forall _ _)); [apply Ht|]. Qed.

(** The table of a node that was offered contacts, one after the other. *)
Definition grown (our_id : Address) (offers : list NodeInfo) : RoutingTable :=
  foldl (λ t info, (AddNode info t).2) (mkTable our_id []) offers.

Lemma grown_snoc a offers info : grown a (offers ++ [info]) = (AddNode info (grown a offers)).2.
Proof. unfold grown. by rewrite foldl_snoc. Qed.

Lemma grown_ok a offers : IsInitialised a = true → table_ok (grown a offers).
Proof.
  intros Ha. induction offers as [|info offers IH] using rev_ind; [by apply empty_table_ok|].
  rewrite grown_snoc. by eapply table_step_ok; [constructor|].
Qed.

(** A contact in the bucket of [a]. *)
Definition covers t a : Prop :=
  ∃ n, n ∈ nodes_ t ∧ bucket t n = CommonLeadingBits (our_id_ t) a.

(** What a call of [AddNode] does to the contacts. *)
Lemma AddNode_nodes t info :
  table_ok t →
  let t' := (AddNode info t).2 in
  our_id_ t' = our_id_ t ∧ length (nodes_ t') ≤ S (length (nodes_ t)) ∧
  (∀ n, n ∈ nodes_ t' → n = info ∨ n ∈ nodes_ t) ∧ ∀ a, covers t a → covers t' a.
Proof.
  intros Ht t'. subst t'. destruct (IsInitialised (id info)) eqn:Hi;
    [|rewrite AddNode_invalid by done; cbn [snd]; split_and!; try done; [lia|by right]].
  destruct (AddNode_run t info (ok_wf _ Ht) Hi) as ([added dropped] & t' & -> & Hr). cbn [snd].
  pose proof (add_result_contacts _ _ _ _ _ Hr) as Hp.
  assert (our_id_ t' = our_id_ t) as Hid by by destruct Hr.
  split; [done|]. split; [|split].
  - apply Permutation_length in Hp. rewrite !length_app in Hp. destruct added, dropped; cbn in Hp; lia.
  - intros n Hn. assert (n ∈ option_list dropped ++ nodes_ t') as Hn' by (apply elem_of_app; by right).
    rewrite <-Hp in Hn'. destruct added; set_solver.
  - intros a (n & Hn & Hb). unfold covers. rewrite Hid.
    assert (n ∈ option_list dropped ++ nodes_ t') as Hn' by (rewrite <-Hp; apply elem_of_app; by right).
    apply elem_of_app in Hn' as [Hd|Hn']; [|exists n; split; [done|]; unfold bucket in *; by rewrite Hid].
    destruct dropped as [c|]; [|by apply elem_of_nil in Hd]. apply list_elem_of_singleton in Hd as ->.
    destruct added; [|by inversion Hr].
    destruct (add_result_victim t info c t' (ok_wf _ Ht) Hr) as (_ & _ & p & Hpin & Hpb).
    exists p. split; [done|]. rewrite Hpb. unfold bucket in *. by rewrite Hid.
Qed.

(** A good contact that a small table is offered is in it afterwards. *)
Lemma AddNode_small_covers t info :
  table_ok t → contact_ok (our_id_ t) info → length (nodes_ t) < OptimalSize →
  covers (AddNode info t).2 (id info).
Proof.
  intros Ht Hc Hlen. destruct (AddNode_run t info (ok_wf _ Ht)) as (r & t' & -> & Hr); [apply Hc|].
  cbn [snd]. destruct Hc as [_ Hne Hk]. destruct Hr as [[]|_ Hin|Hok Hin Hl| | | |]; try done; try lia.
  - by rewrite Hk in *.
  - apply list_elem_of_fmap in Hin as (n & Hid & Hn). exists n. split; [done|]. unfold bucket. by rewrite Hid.
  - exists info. split; [|done]. cbn [nodes_ set_nodes]. rewrite insert_by_perm. by left.
Qed.

Lemma grown_facts a offers :
  IsInitialised a = true →
  our_id_ (grown a offers) = a ∧ length (nodes_ (grown a offers)) ≤ length offers ∧
  ∀ n, n ∈ nodes_ (grown a offers) → n ∈ offers.
Proof.
  intros Ha. induction offers as [|info offers (Hid & Hlen & Hn) IH] using rev_ind;
    [split_and!; try done; intros n []%elem_of_nil|].
  rewrite grown_snoc, length_app. destruct (AddNode_nodes (grown a offers) info) as (Hid' & Hlen' & Hn' & _);
    [by apply grown_ok|].
  split; [congruence|]. split; [cbn; lia|]. intros n [->|]%Hn'; apply elem_of_app; [right; by left|left; auto].
Qed.

(** A bucket that has a contact keeps one, whatever the table is offered. *)
Lemma grown_keeps a offers more b :
  IsInitialised a = true → covers (grown a offers) b → covers (grown a (offers ++ more)) b.
Proof.
  intros Ha Hc. induction more as [|info more IH] using rev_ind; [by rewrite app_nil_r|].
  rewrite (assoc_L (++)), grown_snoc. apply AddNode_nodes; [by apply grown_ok|done].
Qed.

(** The buckets of the first [OptimalSize] good contacts are never empty again. *)
Lemma grown_covers a offers n :
  IsInitialised a = true → n ∈ take OptimalSize offers → contact_ok a n → covers (grown a offers) (id n).
Proof.
  intros Ha (i & Hi)%list_elem_of_lookup Hn.
  pose proof (lookup_lt_Some _ _ _ Hi) as Hlt. rewrite length_take in Hlt.
  rewrite lookup_take_lt in Hi by lia.
  rewrite <-(take_drop_middle _ _ _ Hi), cons_middle, (assoc_L (++)). apply grown_keeps; [done|].
  rewrite grown_snoc. destruct (grown_facts a (take i offers) Ha) as (Hid & Hlen & _).
  apply AddNode_small_covers; [by apply grown_ok|by rewrite Hid|]. rewrite length_take in Hlen. lia.
Qed.

(** ** The close group *)

(** The contacts [AddNode] may accept. *)
Definition acceptable a n : bool :=
  IsInitialised (id n) && bool_decide (id n ≠ a) && ValidateKey (Pmid_public_key (dht_fob n)).

Lemma acceptable_spec a n : acceptable a n = true ↔ contact_ok a n.
Proof.
  unfold acceptable. rewrite !andb_true_iff, bool_decide_eq_true. split; [by intros [[]]|by intros []].
Qed.

(** What a table would hold that never gives up a contact: the acceptable
    contacts offered, the first of each identity. *)
Definition remember a (known : list NodeInfo) info : list NodeInfo :=
  if acceptable a info && bool_decide (id info ∉ id <$> known) then known ++ [info] else known.
Definition remembered a offers : list NodeInfo := foldl (remember a) [] offers.

Lemma remembered_snoc a offers info :
  remembered a (offers ++ [info]) = remember a (remembered a offers) info.
Proof. apply foldl_snoc. Qed.

Lemma remembered_NoDup a offers : NoDup (id <$> remembered a offers).
Proof.
  induction offers as [|info offers IH] using rev_ind; [constructor|].
  rewrite remembered_snoc. unfold remember. destruct (acceptable a info); [|done]. cbn [andb].
  case_bool_decide as Hin; [|done]. rewrite fmap_app. apply NoDup_app. split; [done|]. split.
  - by intros x Hx ->%list_elem_of_singleton.
  - apply NoDup_singleton.
Qed.

(** The remembered contacts, closest first. *)
Notation by_closeness a := (sort_by id (Comparison a)).

Lemma by_closeness_snoc a known info :
  NoDup (id <$> known) → id info ∉ id <$> known →
  by_closeness a (known ++ [info]) = insert_by id (Comparison a) info (by_closeness a known).
Proof.
  intros Hnd Hin. apply (sort_by_unique _ _).
  - apply (insert_by_sorted _ _); [by apply (sort_by_sorted _ _)|]. by rewrite sort_by_perm.
  - rewrite insert_by_perm, sort_by_perm. apply Permutation_cons_append.
Qed.

(** A contact that was offered before and is not in the table any more is not of
    the close group. *)
Lemma forgotten_far a l1 l2 info :
  sorted_by id (Comparison a) l1 → sorted_by id (Comparison a) l2 →
  take GroupSize l1 = take GroupSize l2 → id info ∈ id <$> l2 → id info ∉ id <$> l1 →
  take GroupSize (insert_by id (Comparison a) info l1) = take GroupSize l1.
Proof.
  intros H1 H2 Heq (s & Hid & (j & Hj)%list_elem_of_lookup)%list_elem_of_fmap Hn.
  assert (GroupSize ≤ j) as Hgj.
  { apply Nat.le_ngt. intros Hlt. apply Hn. rewrite Hid. apply list_elem_of_fmap_2, (subseteq_take GroupSize).
    rewrite Heq. apply list_elem_of_lookup. exists j. by rewrite lookup_take_lt. }
  assert (is_Some (l1 !! (GroupSize - 1))) as [y Hy].
  { apply lookup_lt_is_Some. apply (f_equal length) in Heq. rewrite !length_take in Heq.
    pose proof (lookup_lt_Some _ _ _ Hj). unfold GroupSize in *. lia. }
  assert (l2 !! (GroupSize - 1) = Some y) as Hy2.
  { assert (GroupSize - 1 < GroupSize) as Hlt by (unfold GroupSize; lia).
    by rewrite <-(lookup_take_lt l2 _ _ Hlt), <-Heq, (lookup_take_lt l1). }
  apply (insert_by_take id (Comparison a) (GroupSize - 1) info l1 y); [done| |done].
  rewrite Hid. eapply sorted_by_lookup; [exact H2|exact Hy2|exact Hj|unfold GroupSize in *; lia].
Qed.

(** What one more offer does to the close group. *)
Lemma AddNode_group t info :
  table_ok t → take GroupSize (nodes_ (AddNode info t).2) =
    if acceptable (our_id_ t) info && bool_decide (id info ∉ id <$> nodes_ t)
    then take GroupSize (insert_by id (Comparison (our_id_ t)) info (nodes_ t))
    else take GroupSize (nodes_ t).
Proof.
  intros Ht. destruct (acceptable (our_id_ t) info) eqn:Ha; cbn [andb].
  - apply acceptable_spec in Ha. pose proof (contact_initialised _ _ Ha) as Hi.
    destruct (AddNode_run t info (ok_wf _ Ht) Hi) as (r & t' & -> & Hr). cbn [snd].
    case_bool_decide as Hin; [by eapply add_result_close_group; [apply Ht|..]|].
    by destruct Hr as [|? ?|? ?|? ? ?|? ? ? ? ?|? ? ? ? ?|].
  - destruct (IsInitialised (id info)) eqn:Hi; [|by rewrite AddNode_invalid].
    destruct (AddNode_run t info (ok_wf _ Ht) Hi) as (r & t' & -> & Hr). cbn [snd].
    assert (¬ contact_ok (our_id_ t) info) by (by rewrite <-acceptable_spec, Ha).
    by destruct Hr.
Qed.

Lemma remember_keeps a known info n : n ∈ known → n ∈ remember a known info.
Proof. intros Hn. unfold remember. destruct (_ && _); [apply elem_of_app; by left|done]. Qed.

Lemma remember_id a known info : contact_ok a info → id info ∈ id <$> remember a known info.
Proof.
  intros Hc%acceptable_spec. unfold remember. rewrite Hc. cbn [andb]. case_bool_decide as Hin.
  - rewrite fmap_app. apply elem_of_app. right. by left.
  - by destruct (decide (id info ∈ id <$> known)).
Qed.

Lemma grown_remembered a offers n :
  IsInitialised a = true → n ∈ nodes_ (grown a offers) → id n ∈ id <$> remembered a offers.
Proof.
  intros Ha. revert n. induction offers as [|info offers IH] using rev_ind; [by intros n ?%elem_of_nil|].
  intros n Hn. rewrite remembered_snoc. destruct (grown_facts a (offers ++ [info]) Ha) as (Hid & _).
  pose proof (table_contact _ _ (grown_ok a (offers ++ [info]) Ha) Hn) as Hc. rewrite Hid in Hc.
  rewrite grown_snoc in Hn. apply AddNode_nodes in Hn as [->|Hn]; [by apply remember_id| |by apply grown_ok].
  apply IH, list_elem_of_fmap in Hn as (m & -> & Hm). by apply list_elem_of_fmap_2, remember_keeps.
Qed.

Lemma close_group_is a offers :
  IsInitialised a = true →
  OurCloseGroup (grown a offers) = take GroupSize (by_closeness a (remembered a offers)).
Proof.
  intros Ha. rewrite OurCloseGroup_take.
  induction offers as [|info offers IH] using rev_ind; [done|].
  pose proof (grown_ok a offers Ha) as Hok. destruct (grown_facts a offers Ha) as (Hid & _).
  rewrite grown_snoc, remembered_snoc, AddNode_group, Hid by done. unfold remember.
  destruct (acceptable a info); cbn [andb]; [|done]. pose proof (remembered_NoDup a offers) as Hnd.
  case_bool_decide as Hin; case_bool_decide as Hin'.
  - rewrite by_closeness_snoc by done. by apply take_insert_by.
  - rewrite <-IH. apply (forgotten_far a _ (by_closeness a (remembered a offers))); try done.
    + rewrite <-Hid at 1. apply Hok.
    + by apply (sort_by_sorted _ _).
    + rewrite sort_by_perm. by destruct (decide (id info ∈ id <$> remembered a offers)).
  - destruct (decide (id info ∈ id <$> nodes_ (grown a offers))) as [(n & Hn & Hnin)%list_elem_of_fmap|];
      [|done].
    destruct Hin'. rewrite Hn. by apply grown_remembered.
  - done.
Qed.

(** Offers in which an identity always stands for the same contact. *)
Definition consistent offers : Prop := ∀ x y, x ∈ offers → y ∈ offers → id x = id y → x = y.

Lemma remembered_elem a offers n :
  consistent offers → n ∈ remembered a offers ↔ n ∈ offers ∧ contact_ok a n.
Proof.
  revert n. induction offers as [|info offers IH] using rev_ind; intros n Hc.
  { cbn. split; [by intros ?%elem_of_nil|by intros [?%elem_of_nil _]]. }
  assert (∀ m, m ∈ remembered a offers ↔ m ∈ offers ∧ contact_ok a m) as Hn.
  { intros m. apply IH. intros x y Hx Hy. apply Hc; apply elem_of_app; by left. }
  rewrite remembered_snoc, elem_of_app, list_elem_of_singleton. unfold remember.
  destruct (acceptable a info) eqn:Ha; cbn [andb].
  - apply acceptable_spec in Ha. case_bool_decide as Hin.
    + rewrite elem_of_app, list_elem_of_singleton, Hn. naive_solver.
    + rewrite Hn. split; [naive_solver|]. intros [[?| ->] ?]; [done|].
      destruct (decide (id info ∈ id <$> remembered a offers))
        as [(m & Hid & [Hm _]%Hn)%list_elem_of_fmap|]; [|done].
      assert (info = m) as -> by (apply Hc; [apply elem_of_app; right; by left|apply elem_of_app; by left|done]).
      done.
  - rewrite Hn. split; [naive_solver|]. intros [[?| ->] Hok]; [done|].
    apply acceptable_spec in Hok. congruence.
Qed.

Lemma remembered_order a offers offers' :
  consistent offers → offers ≡ₚ offers' →
  by_closeness a (remembered a offers) = by_closeness a (remembered a offers').
Proof.
  intros Hc Hp. assert (consistent offers') as Hc' by (intros x y; rewrite <-!Hp; apply Hc).
  apply (sorted_by_unique id (Comparison a)); [apply (sort_by_sorted _ _), remembered_NoDup..|].
  rewrite !sort_by_perm. apply NoDup_Permutation; [eapply NoDup_fmap_1, remembered_NoDup..|].
  intros n. by rewrite !remembered_elem, Hp.
Qed.

(** C6: The close group is exact. However many contacts a table is offered and
    whichever it gives up for others when it is full, its close group is always
    the [GroupSize] contacts closest to us among all the acceptable ones it was
    ever offered; so, when an identity always stands for the same contact, the
    close group does not depend on the order of the offers. *)
Theorem close_group_exact a offers :
  IsInitialised a = true →
  OurCloseGroup (grown a offers) = take GroupSize (by_closeness a (remembered a offers)) ∧
  (∀ offers', consistent offers → offers ≡ₚ offers' →
     OurCloseGroup (grown a offers') = OurCloseGroup (grown a offers)).
Proof.
  intros Ha. split; [by apply close_group_is|]. intros offers' Hc Hp.
  by rewrite !close_group_is, (remembered_order a offers offers').
Qed.
End grown.

(** ** The contacts 2, ..., 101, and 1 *)
Module GrownWitness.
Import Concrete TableWitness.
#[local] Existing Instance release_build.

Definition hundred : list NodeInfo := (λ i, contact (2 + N.of_nat i)) <$> seq 0 100.

Lemma hundred_consistent : consistent (hundred ++ [contact 1]).
Proof.
  assert (∀ x, x ∈ hundred ++ [contact 1] → x = contact (id x)) as Hx.
  { intros x [(i & -> & _)%list_elem_of_fmap| ->%list_elem_of_singleton]%elem_of_app; done. }
  intros x y Hx1%Hx Hy%Hx Hid. by rewrite Hx1, Hy, Hid.
Qed.

(** Offered first or last, the contact 1 is of the close group. *)
Lemma close_group_exact_witness :
  OurCloseGroup (grown (addr 0) (hundred ++ [contact 1])) =
    take GroupSize (sort_by id (Comparison (addr 0)) (remembered (addr 0) (hundred ++ [contact 1]))) ∧
  OurCloseGroup (grown (addr 0) (contact 1 :: hundred)) =
    OurCloseGroup (grown (addr 0) (hundred ++ [contact 1])).
Proof.
  destruct (close_group_exact (addr 0) (hundred ++ [contact 1]) eq_refl) as [H1 H2].
  split; [exact H1|]. apply H2; [exact hundred_consistent|]. symmetry. apply Permutation_cons_append.
Defined.
End GrownWitness.
