(* ===== verification/RoutingPaths.v ===== *)
(** * Routing over several hops

    What the routing tables of many nodes give together.  A message for a node is
    sent on to the contacts [TargetNodes] returns, and by each of them to theirs.
    When every table has a contact in every bucket in which there is a node, each
    hop to the best of these contacts shares at least one more leading bit with
    the target, so the target is reached within as many hops as an identity has
    bits.  [AddNode] never empties a bucket, so tables that were offered a contact
    of each bucket among the first contacts they got are such tables. *)

From S2P Require Import Prelude CppStd Identity Types RoutingTable RoutingTableFacts RoutingTableProps GrownTable.

(** [CommonLeadingBits] counts the leading bits two bit strings have in common. *)
Class PrefixLaws `{IdentityOps} : Prop := {
  CommonLeadingBits_comm : ∀ a b, CommonLeadingBits a b = CommonLeadingBits b a;
  (** Two identities that first differ from a third in the same bit agree in it. *)
  CommonLeadingBits_binary : ∀ a b c,
    IsInitialised a = true → IsInitialised b = true → IsInitialised c = true →
    a ≠ b → a ≠ c → b ≠ c → CommonLeadingBits a b = CommonLeadingBits a c →
    (CommonLeadingBits a b < CommonLeadingBits b c)%Z;
  (** Which of two identities is closer to a target is decided by the first bit in
      which they differ. *)
  CloserToTarget_bucket : ∀ a b c target,
    IsInitialised a = true → IsInitialised b = true → IsInitialised c = true →
    a ≠ b → a ≠ c → CommonLeadingBits a b = CommonLeadingBits a c →
    CloserToTarget b a target = CloserToTarget c a target
}.

Section paths.
Context `{IO : IdentityOps} `{IL : !IdentityLaws} `{PL : !PrefixLaws} `{CO : !CryptoOps} `{BM : BuildMode}.
Implicit Types (t u : RoutingTable) (info n p : NodeInfo) (net : list RoutingTable) (a b : Address).

(** ** Paths *)

(** The nodes to which a node sends a message for [target] onwards. *)
Definition next_hops t (target : Address) : list Address :=
  match TargetNodes t target with Ok res => id <$> res | _ => [] end.

(** In a network, given by the tables of its nodes. *)
Definition hop net (target a b : Address) : Prop :=
  ∃ t, t ∈ net ∧ our_id_ t = a ∧ b ∈ next_hops t target.

(** Every table is well formed, has only nodes of the network as contacts, and
    one in each bucket in which there is a node. *)
Record covered net : Prop := {
  cov_ok : ∀ t, t ∈ net → table_ok t;
  cov_closed : ∀ t n, t ∈ net → n ∈ nodes_ t → id n ∈ our_id_ <$> net;
  cov_buckets : ∀ t u, t ∈ net → u ∈ net → our_id_ t ≠ our_id_ u → covers t (our_id_ u)
}.

(** What [TargetNodes] returns are contacts. *)
Lemma TargetNodes_contacts t target res n :
  table_ok t → IsInitialised target = true → TargetNodes t target = Ok res → n ∈ res → n ∈ nodes_ t.
Proof.
  intros Ht Hi Hr Hn. destruct (TargetNodes_run t target (ok_wf _ Ht) Hi) as (res' & Heq & Hres).
  rewrite Hr in Heq. injection Heq as <-.
  assert (∀ m, m ∈ closest_first target (nodes_ t) → m ∈ nodes_ t) as Hc
    by (intros m; unfold closest_first; by rewrite sort_by_perm).
  destruct (closest_first target (nodes_ t)) as [|c l]; [subst; by apply elem_of_nil in Hn|].
  destruct Hres as [[_ ->]|[_ ->]].
  - rewrite OurCloseGroup_take in Hn. by eapply subseteq_take.
  - apply Hc. by eapply subseteq_take.
Qed.

(** One of the contacts a message is sent on to is the target, or has more
    leading bits in common with it than we have. *)
Lemma hop_progress t target :
  table_ok t → IsInitialised target = true → our_id_ t ≠ target → covers t target →
  ∃ n, n ∈ nodes_ t ∧ id n ∈ next_hops t target ∧
    (id n = target ∨ (CommonLeadingBits (our_id_ t) target < CommonLeadingBits (id n) target)%Z).
Proof.
  intros Ht Hi Hne (p & Hp & Hb).
  destruct (TargetNodes_run t target (ok_wf _ Ht) Hi) as (res & Hres & _).
  destruct (TargetNodes_closest t target res p Ht Hi Hres Hp) as (n & Hn & Hnp).
  pose proof (TargetNodes_contacts t target res n Ht Hi Hres Hn) as Hnt.
  exists n. split; [done|]. split; [unfold next_hops; rewrite Hres; by apply list_elem_of_fmap_2|].
  destruct (table_contact t p Ht Hp) as [Hpi Hpne _], (table_contact t n Ht Hnt) as [Hni _ _].
  destruct (decide (id p = target)) as [Heq|Hpt].
  { left. destruct Hnp as [->|Hcl]; [done|]. rewrite Heq in Hcl. by rewrite CloserToTarget_self in Hcl. }
  right. pose proof (wf_our_id _ (ok_wf _ Ht)) as Hoi.
  pose proof (CommonLeadingBits_binary _ _ _ Hoi Hpi Hi (not_eq_sym Hpne) Hne Hpt Hb) as Hlt.
  rewrite <-Hb. unfold bucket. destruct Hnp as [->|Hcl]; [done|].
  pose proof (CommonLeadingBits_closer _ _ _ Hni Hpi Hi Hcl) as Hle.
  rewrite !(CommonLeadingBits_comm target) in Hle. lia.
Qed.

(** The hops still needed, at most. *)
Definition distance a b : nat := Z.to_nat (identity_bits - CommonLeadingBits a b).

Lemma covered_path net t u :
  covered net → t ∈ net → u ∈ net →
  ∃ k, k ≤ distance (our_id_ t) (our_id_ u) ∧ nsteps (hop net (our_id_ u)) k (our_id_ t) (our_id_ u).
Proof.
  intros Hnet Ht Hu. set (target := our_id_ u).
  assert (IsInitialised target = true) as Hi by apply (cov_ok _ Hnet u Hu).
  remember (distance (our_id_ t) target) as d eqn:Hd. revert t Ht Hd.
  induction (lt_wf d) as [d _ IH]. intros t Ht Hd.
  destruct (decide (our_id_ t = target)) as [->|Hne]; [exists 0; split; [lia|constructor]|].
  pose proof (cov_ok _ Hnet t Ht) as Hok.
  destruct (hop_progress t target Hok Hi Hne (cov_buckets _ Hnet t u Ht Hu Hne)) as (n & Hn & Hhop & Hpr).
  pose proof (CommonLeadingBits_range _ _ (wf_our_id _ (ok_wf _ Hok)) Hi Hne) as Hr.
  assert (hop net target (our_id_ t) (id n)) as Hstep by by exists t.
  destruct (decide (id n = target)) as [Heq|Hnt].
  { exists 1. rewrite Heq in Hstep. split; [unfold distance in Hd; lia|by apply nsteps_once]. }
  destruct Hpr as [|Hpr]; [done|].
  destruct (list_elem_of_fmap_1 _ _ _ (cov_closed _ Hnet t n Ht Hn)) as (v & Hv & Hvn).
  pose proof (CommonLeadingBits_range _ _ (contact_initialised _ _ (table_contact t n Hok Hn)) Hi Hnt).
  destruct (IH (distance (id n) target)) with (t := v) as (k & Hk & Hsteps);
    [unfold distance in *; lia|done|by rewrite Hv|].
  exists (S k). rewrite Hv in Hstep. split; [unfold distance in *; rewrite Hv in *; lia|by eapply nsteps_l].
Qed.

(** ** Addresses that are no nodes *)

(** When a node of the network is closer to the target than we are, then so is one
    of the contacts a message is sent on to. *)
Lemma closer_hop net t u target :
  covered net → t ∈ net → u ∈ net → IsInitialised target = true →
  CloserToTarget (our_id_ u) (our_id_ t) target = true →
  ∃ v, v ∈ net ∧ hop net target (our_id_ t) (our_id_ v) ∧
    CloserToTarget (our_id_ v) (our_id_ t) target = true.
Proof.
  intros Hnet Ht Hu Hi Hcl. pose proof (cov_ok _ Hnet t Ht) as Hok.
  assert (our_id_ t ≠ our_id_ u) as Hne.
  { intros Heq. rewrite Heq in Hcl. by rewrite (ltb_irrefl (ltb:=λ a b, CloserToTarget a b target)) in Hcl. }
  destruct (cov_buckets _ Hnet t u Ht Hu Hne) as (p & Hp & Hb).
  destruct (table_contact t p Hok Hp) as [Hpi Hpne _].
  assert (CloserToTarget (id p) (our_id_ t) target = true) as Hpc.
  { rewrite <-Hcl. apply CloserToTarget_bucket; try done; [apply Hok|apply (cov_ok _ Hnet u Hu)]. }
  destruct (TargetNodes_run t target (ok_wf _ Hok) Hi) as (res & Hres & _).
  destruct (TargetNodes_closest t target res p Hok Hi Hres Hp) as (n & Hn & Hnp).
  pose proof (TargetNodes_contacts t target res n Hok Hi Hres Hn) as Hnt.
  destruct (list_elem_of_fmap_1 _ _ _ (cov_closed _ Hnet t n Ht Hnt)) as (v & Hv & Hvn).
  exists v. rewrite <-Hv. split; [done|]. split.
  - exists t. split; [done|]. split; [done|]. unfold next_hops. rewrite Hres. by apply list_elem_of_fmap_2.
  - destruct Hnp as [->|Hnp]; [done|].
    by eapply (ltb_trans (ltb:=λ a b, CloserToTarget a b target)).
Qed.

(** How many nodes are closer to the target. *)
Definition closer_nodes net (target a : Address) : nat :=
  length (List.filter (λ u, CloserToTarget (our_id_ u) a target) net).

Lemma covered_closest net t target :
  covered net → t ∈ net → IsInitialised target = true →
  ∃ v k, v ∈ net ∧ closer_nodes net target (our_id_ v) = 0 ∧
    k ≤ closer_nodes net target (our_id_ t) ∧ nsteps (hop net target) k (our_id_ t) (our_id_ v).
Proof.
  intros Hnet Ht Hi. remember (closer_nodes net target (our_id_ t)) as d eqn:Hd. revert t Ht Hd.
  induction (lt_wf d) as [d _ IH]. intros t Ht Hd.
  destruct (List.filter (λ u, CloserToTarget (our_id_ u) (our_id_ t) target) net) as [|u us] eqn:Hf.
  { exists t, 0. split_and!; [done|unfold closer_nodes; by rewrite Hf|lia|constructor]. }
  assert (u ∈ net ∧ CloserToTarget (our_id_ u) (our_id_ t) target = true) as [Hu Hcl].
  { rewrite list_elem_of_In. apply (filter_In (λ u, CloserToTarget (our_id_ u) (our_id_ t) target)).
    rewrite Hf. by left. }
  destruct (closer_hop net t u target Hnet Ht Hu Hi Hcl) as (v & Hv & Hhop & Hvc).
  assert (closer_nodes net target (our_id_ v) < d) as Hlt.
  { rewrite Hd. apply (filter_lt_length _ _ _ v); [|done| |done].
    - intros w Hw. by eapply (ltb_trans (ltb:=λ a b, CloserToTarget a b target)).
    - apply (ltb_irrefl (ltb:=λ a b, CloserToTarget a b target)). }
  destruct (IH _ Hlt v Hv eq_refl) as (w & k & Hw & Hz & Hk & Hsteps).
  exists w, (S k). split_and!; [done|done|lia|by eapply nsteps_l].
Qed.

(** ** A network *)

(** The nodes of a network with the contacts each was offered. *)
Definition network (joins : list (Address * list NodeInfo)) : list RoutingTable :=
  (λ join, grown join.1 join.2) <$> joins.

(** Contacts are nodes of the network, and one of the first contacts a node is
    offered is in the bucket of each other node. *)
Record well_joined (joins : list (Address * list NodeInfo)) : Prop := {
  wj_initialised : ∀ a offers, (a, offers) ∈ joins → IsInitialised a = true;
  wj_known : ∀ a offers n, (a, offers) ∈ joins → n ∈ offers → id n ∈ joins.*1;
  wj_buckets : ∀ a offers b, (a, offers) ∈ joins → b ∈ joins.*1 → a ≠ b →
    ∃ n, n ∈ take OptimalSize offers ∧ contact_ok a n ∧ CommonLeadingBits a (id n) = CommonLeadingBits a b
}.

Lemma network_ids joins : well_joined joins → our_id_ <$> network joins = joins.*1.
Proof.
  intros Hj. unfold network. rewrite <-list_fmap_compose. apply list_fmap_ext.
  intros i [a offers] Hi%list_elem_of_lookup_2. cbn. apply grown_facts. by eapply wj_initialised.
Qed.

Lemma network_covered joins : well_joined joins → covered (network joins).
Proof.
  intros Hj. split.
  - intros t ([a offers] & -> & Hin)%list_elem_of_fmap. apply grown_ok. by eapply wj_initialised.
  - intros t n ([a offers] & -> & Hin)%list_elem_of_fmap Hn. rewrite network_ids by done.
    eapply wj_known; [done..|]. eapply grown_facts; [by eapply wj_initialised|done].
  - intros t u ([a offers] & -> & Hin)%list_elem_of_fmap Hu Hne. cbn [fst snd] in *.
    pose proof (wj_initialised _ Hj _ _ Hin) as Ha. destruct (grown_facts a offers Ha) as (Hid & _).
    apply (list_elem_of_fmap_2 our_id_) in Hu. rewrite network_ids in Hu by done. rewrite Hid in Hne.
    destruct (wj_buckets _ Hj a offers (our_id_ u) Hin Hu Hne) as (n & Hn & Hc & Hb).
    destruct (grown_covers a offers n Ha Hn Hc) as (p & Hp & Hpb).
    exists p. split; [done|]. rewrite Hpb, Hid. done.
Qed.

(** C3: Messages are routed to every node of a network: when each node's table
    grew from the contacts it was offered by [AddNode], all of them nodes of the
    network and among the first 64 one that shares the bucket of each other
    node, then from any node to any other there is a path on which each node is
    one of those to which [TargetNodes] of the node before sends a message for
    the target; it has at most as many hops as the two identities have bits
    after their common prefix, whatever contacts were offered later and given up
    for them. *)
Theorem network_routes joins a b :
  well_joined joins → a ∈ joins.*1 → b ∈ joins.*1 →
  ∃ k, k ≤ Z.to_nat (identity_bits - CommonLeadingBits a b) ∧ nsteps (hop (network joins) b) k a b.
Proof.
  intros Hj Ha Hb. rewrite <-network_ids in Ha, Hb by done.
  apply list_elem_of_fmap in Ha as (t & -> & Ht), Hb as (u & -> & Hu).
  by apply covered_path; [apply network_covered|..].
Qed.
(** C11: Messages for an address that need not be a node's are routed to the node
    closest to it: in such a network there is from any node a path, each of whose
    nodes is one of those to which [TargetNodes] of the node before sends a
    message for the address, to the node of the network that no other is closer
    to the address than; it has fewer hops than there are nodes. *)
Theorem network_routes_to_closest joins a target :
  well_joined joins → a ∈ joins.*1 → IsInitialised target = true →
  ∃ b k, b ∈ joins.*1 ∧ (∀ c, c ∈ joins.*1 → CloserToTarget c b target = false) ∧
    k < length joins ∧ nsteps (hop (network joins) target) k a b.
Proof.
  intros Hj Ha Hi. pose proof (network_ids joins Hj) as Hids. rewrite <-Hids in Ha |- *.
  apply list_elem_of_fmap in Ha as (t & -> & Ht).
  destruct (covered_closest (network joins) t target (network_covered joins Hj) Ht Hi)
    as (v & k & Hv & Hz & Hk & Hsteps).
  exists (our_id_ v), k. split; [by apply list_elem_of_fmap_2|]. split; [|split; [|done]].
  - intros c (u & -> & Hu)%list_elem_of_fmap. unfold closer_nodes in Hz. apply length_zero_iff_nil in Hz.
    destruct (CloserToTarget _ _ _) eqn:Hc; [|done]. rewrite list_elem_of_In in Hu.
    destruct (proj1 (elem_of_nil u)). rewrite <-Hz. apply list_elem_of_In, filter_In. done.
  - assert (length joins = length (network joins)) as -> by (unfold network; by rewrite length_fmap).
    eapply Nat.le_lt_trans; [exact Hk|]. unfold closer_nodes.
    eapply Nat.lt_le_trans; [apply (filter_lt_length _ (λ _, true) _ t); [done|done| |done]|].
    + apply (ltb_irrefl (ltb:=λ a b, CloserToTarget a b target)).
    + apply sublist_length, sublist_filter.
Qed.
End paths.

(** ** The XOR metric, and a network of 128 nodes *)
Module PathWitness.
Import Concrete TableWitness.
#[local] Existing Instance release_build.

Lemma log2_lxor_same (x y : N) :
  (x ≠ 0)%N → (y ≠ 0)%N → x ≠ y → N.log2 x = N.log2 y → (N.log2 (N.lxor x y) < N.log2 x)%N.
Proof.
  intros Hx Hy Hne Heq. apply N.lt_nge. intros Hle.
  assert (N.testbit (N.lxor x y) (N.log2 (N.lxor x y)) = true) as Ht.
  { apply N.bit_log2. by intros ?%N.lxor_eq. }
  rewrite N.lxor_spec in Ht. destruct (decide (N.log2 x = N.log2 (N.lxor x y))) as [E|E].
  - rewrite <-E in Ht. rewrite N.bit_log2 in Ht by done. rewrite Heq, N.bit_log2 in Ht by done. done.
  - by rewrite !N.bits_above_log2 in Ht by lia.
Qed.

Lemma shiftr_log2 (d : N) : d ≠ 0%N → N.shiftr d (N.log2 d) = 1%N.
Proof.
  intros Hd. rewrite N.shiftr_div_pow2. symmetry. apply (N.div_unique _ _ _ (d - 2 ^ N.log2 d)).
  - destruct (N.log2_spec d) as [? Hu]; [lia|]. rewrite N.pow_succ_r' in Hu. lia.
  - destruct (N.log2_spec d); lia.
Qed.

Lemma ltb_top_bit (x y : N) : x ≠ y → (y <? x)%N = N.testbit x (N.log2 (N.lxor x y)).
Proof.
  assert (∀ u v k, N.lxor (N.shiftr u k) (N.shiftr v k) = 1%N → N.testbit u k = true → (v < u)%N) as Hlt.
  { intros u v k Hx Hb. rewrite <-(N.add_0_l k), <-N.shiftr_spec' in Hb.
    assert (N.shiftr u k = N.shiftr v k + 1)%N as E.
    { assert (N.shiftr v k = N.lxor (N.shiftr u k) 1) as ->
        by by rewrite <-Hx, <-N.lxor_assoc, N.lxor_nilpotent, N.lxor_0_l.
      by destruct (N.shiftr u k) as [|[p|p|]]. }
    rewrite !N.shiftr_div_pow2 in E. pose proof (N.pow_nonzero 2 k ltac:(done)) as Hz.
    pose proof (N.Div0.mul_div_le u (2 ^ k)). pose proof (N.mul_succ_div_gt v (2 ^ k) Hz). nia. }
  intros Hne. set (k := N.log2 (N.lxor x y)).
  assert (N.lxor (N.shiftr x k) (N.shiftr y k) = 1)%N as Hs.
  { rewrite <-N.shiftr_lxor. apply shiftr_log2. by intros ?%N.lxor_eq. }
  destruct (N.testbit x k) eqn:Hb; [apply N.ltb_lt; by apply (Hlt x y k)|].
  apply N.ltb_ge, N.lt_le_incl, (Hlt y x k); [by rewrite N.lxor_comm|].
  assert (N.testbit (N.lxor x y) k = true) as Ht by (apply N.bit_log2; by intros ?%N.lxor_eq).
  rewrite N.lxor_spec, Hb in Ht. by destruct (N.testbit y k).
Qed.

Lemma lxor_lxor (a b c : N) : N.lxor (N.lxor a b) (N.lxor a c) = N.lxor b c.
Proof. by rewrite (N.lxor_comm a b), N.lxor_assoc, <-(N.lxor_assoc a), N.lxor_nilpotent, N.lxor_0_l. Qed.

Lemma lxor_neq (a b : N) : a ≠ b → N.lxor a b ≠ 0%N.
Proof. by intros Hne ?%N.lxor_eq. Qed.

#[export] Instance xor_prefix_laws : PrefixLaws.
Proof.
  split; cbn; unfold xor_CommonLeadingBits.
  - intros a b. rewrite (N.lxor_comm a b). repeat case_decide; congruence.
  - intros a b c _ _ _ Hab Hac Hbc. rewrite !decide_False by done. intros Heq.
    pose proof (log2_lxor_same (N.lxor a b) (N.lxor a c) (lxor_neq _ _ Hab) (lxor_neq _ _ Hac)) as Hlt.
    rewrite lxor_lxor in Hlt. assert (N.lxor a b ≠ N.lxor a c) as Hne.
    { rewrite (N.lxor_comm a b), (N.lxor_comm a c). by intros ?%lxor_cancel. }
    specialize (Hlt Hne ltac:(lia)). lia.
  - intros a b c t _ _ _ Hab Hac. rewrite !decide_False by done. intros Heq.
    assert (N.log2 (N.lxor a b) = N.log2 (N.lxor a c)) as Hlog by lia.
    assert (∀ x, a ≠ x → (N.lxor x t <? N.lxor a t)%N = N.testbit (N.lxor a t) (N.log2 (N.lxor a x))) as Hbit.
    { intros x Hx. rewrite ltb_top_bit by (by intros ?%lxor_cancel).
      by rewrite (N.lxor_comm a t), (N.lxor_comm x t), lxor_lxor. }
    by rewrite !Hbit, Hlog.
Qed.

(** A node is offered a neighbour in each of its seven buckets, then everybody. *)
Definition neighbours : list N := (λ k, 2 ^ N.of_nat k)%N <$> seq 0 7.
Definition everybody : list N := N.of_nat <$> seq 0 128.
Definition offers (a : N) : list NodeInfo := (λ d, contact (N.lxor a d)) <$> (neighbours ++ everybody).
Definition joins : list (Address * list NodeInfo) := (λ a, (addr a, offers a)) <$> everybody.

Lemma everybody_below (a : N) : a ∈ everybody ↔ (a < 128)%N.
Proof.
  unfold everybody. rewrite list_elem_of_fmap. split.
  - intros (i & -> & Hi%elem_of_seq). lia.
  - intros Ha. exists (N.to_nat a). rewrite elem_of_seq. lia.
Qed.

Lemma lxor_below (a d : N) : (a < 128)%N → (d < 128)%N → (N.lxor a d < 128)%N.
Proof.
  intros Ha Hd. destruct (decide (a = d)) as [->|Hne]; [rewrite N.lxor_nilpotent; lia|].
  pose proof (lxor_log2_bound a d 7 Ha Hd Hne) as Hl.
  apply N.log2_lt_pow2 in Hl; [done|]. pose proof (lxor_neq _ _ Hne). lia.
Qed.

Lemma joins_ids : joins.*1 = everybody.
Proof. unfold joins. rewrite <-list_fmap_compose. apply list_fmap_id. Qed.

Lemma initialised_below (a : N) : (a < 128)%N → IsInitialised a = true.
Proof. intros Ha. apply N.ltb_lt. eapply N.lt_trans; [done|]. by vm_compute. Qed.

(** The neighbour of [a] in the bucket of [b]. *)
Lemma neighbour (a b : N) :
  (a < 128)%N → (b < 128)%N → a ≠ b →
  let d := (2 ^ N.log2 (N.lxor a b))%N in
  d ∈ neighbours ∧ (d < 128)%N ∧ CommonLeadingBits a (N.lxor a d) = CommonLeadingBits a b.
Proof.
  intros Ha Hb Hne d. subst d. pose proof (lxor_log2_bound a b 7 Ha Hb Hne) as Hl.
  assert (N.lxor a (N.lxor a (2 ^ N.log2 (N.lxor a b))) = 2 ^ N.log2 (N.lxor a b))%N as Hd
    by by rewrite <-N.lxor_assoc, N.lxor_nilpotent, N.lxor_0_l.
  pose proof (N.pow_nonzero 2 (N.log2 (N.lxor a b))) as Hz. split; [|split].
  - unfold neighbours. apply list_elem_of_fmap. exists (N.to_nat (N.log2 (N.lxor a b))).
    rewrite N2Nat.id, elem_of_seq. lia.
  - change 128%N with (2 ^ 7)%N. by apply N.pow_lt_mono_r.
  - cbn. unfold xor_CommonLeadingBits. rewrite Hd. rewrite (decide_False (P := a = b)) by done.
    rewrite decide_False; [by rewrite N.log2_pow2 by lia|].
    intros E. rewrite <-E, N.lxor_nilpotent in Hd. by apply Hz.
Qed.

Lemma joins_ok : well_joined joins.
Proof.
  split.
  - intros a l (a' & [= -> ->] & Ha%everybody_below)%list_elem_of_fmap. by apply initialised_below.
  - intros a l n (a' & [= -> ->] & Ha%everybody_below)%list_elem_of_fmap (d & -> & Hd)%list_elem_of_fmap.
    rewrite joins_ids. apply everybody_below, lxor_below; [done|].
    apply elem_of_app in Hd as [(k & -> & Hk%elem_of_seq)%list_elem_of_fmap|Hd%everybody_below]; [|done].
    change 128%N with (2 ^ 7)%N. apply N.pow_lt_mono_r; lia.
  - intros a l b (a' & [= -> ->] & Ha%everybody_below)%list_elem_of_fmap Hb Hne.
    rewrite joins_ids in Hb. apply everybody_below in Hb.
    destruct (neighbour a' b Ha Hb Hne) as (Hd & Hlt & Hc).
    set (d := (2 ^ N.log2 (N.lxor a' b))%N) in *. exists (contact (N.lxor a' d)). split; [|split; [split|done]].
    + change (take OptimalSize (offers a')) with
        (((λ d, contact (N.lxor a' d)) <$> neighbours) ++ take 57 ((λ d, contact (N.lxor a' d)) <$> everybody)).
      apply elem_of_app. left. by apply (list_elem_of_fmap_2 (λ d, contact (N.lxor a' d))).
    + by apply initialised_below, lxor_below.
    + cbn. intros E. cbn in Hc. rewrite E in Hc. unfold xor_CommonLeadingBits in Hc.
      rewrite decide_True, decide_False in Hc by done. lia.
    + done.
Qed.

Lemma network_routes_witness :
  ∃ k, k ≤ 7 ∧ nsteps (hop (network joins) (addr 120)) k (addr 5) (addr 120).
Proof.
  apply (network_routes joins (addr 5) (addr 120)); [exact joins_ok|rewrite joins_ids; by apply everybody_below..].
Defined.

(** The address 1000 is no node's. *)
Lemma network_routes_to_closest_witness :
  ∃ b k, b ∈ joins.*1 ∧ (∀ c, c ∈ joins.*1 → CloserToTarget c b (addr 1000) = false) ∧
    k < length joins ∧ nsteps (hop (network joins) (addr 1000)) k (addr 5) b.
Proof.
  apply (network_routes_to_closest joins (addr 5) (addr 1000));
    [exact joins_ok|rewrite joins_ids; by apply everybody_below|reflexivity].
Defined.

(** The condition on the first contacts cannot be left out: 64 contacts of one
    bucket fill a table, which then refuses the only contact of a bucket that is
    further away. *)
Theorem far_bucket_refused :
  let t := mkTable (addr 0) ((λ i, contact (64 + N.of_nat i)) <$> seq 0 64) in
  table_ok t ∧ AddNode (contact 1024) t = (Ok (false, None), t) ∧ ¬ covers t (addr 1024).
Proof.
  split; [apply check_table_ok; vm_refl|]. split; [vm_refl|].
  intros (n & (i & -> & Hi%elem_of_seq)%list_elem_of_fmap & Hb). 
  assert (∀ x, x ≠ 0%N → xor_CommonLeadingBits 0 x = 511 - Z.of_N (N.log2 x))%Z as Hx
    by (intros x Hx; unfold xor_CommonLeadingBits; by rewrite decide_False, N.lxor_0_l).
  change (xor_CommonLeadingBits 0 (64 + N.of_nat i) = xor_CommonLeadingBits 0 1024) in Hb.
  rewrite !Hx in Hb by lia.
  assert (N.log2 (64 + N.of_nat i) < 10)%N by (apply N.log2_lt_pow2; [lia|change (2 ^ 10)%N with 1024%N; lia]).
  change (N.log2 1024) with 10%N in Hb. lia.
Qed.
End PathWitness.
