(* ===== verification/Accumulator.v ===== *)
(** * The accumulator ([accumulator.h])

    [Accumulator<NameType, ValueType>] collects the parts of a named message
    from different senders, with an LRU list of names and an expiry time.  The
    file holds the model of the class, its invariant, an abstract specification
    (a list of entries, least recently used first) and the refinement of the
    class to it.

    The [std::list] of names is a list of nodes, each with the number that
    stands for its address; the iterator stored with an entry is such a number,
    and splicing through an iterator that is not in the list is undefined.  The
    [std::map]s are sorted association lists.  The readings of the steady clock
    during a call are an argument: [clk i] is what the [i]-th call of [now]
    returns.  Nothing is assumed about them, so the theorems hold whatever time
    passes between two statements.  Times are unbounded integers: the source's
    64-bit nanosecond count overflows after 292 years. *)

From S2P Require Import Prelude CppStd Identity Types.

Section model.
Context `{IO : IdentityOps} `{BM : BuildMode}.
Context {NameType ValueType : Type} (ltb : NameType → NameType → bool).

(** [using Map = std::map<Address, ValueType>] *)
Definition Map : Type := list (Address * ValueType).

(** The tuple stored under a name: the parts by sender, the position in the
    list of names, the time of creation. *)
Record Entry := mkEntry { parts : Map; order_it : nat; stamp : Z }.

Record Accumulator := mkAccumulator {
  time_to_live_ : Z;
  quorum_ : nat;
  name_order_ : list (nat * NameType);
  next_node_ : nat; (* the address of the next list node allocated *)
  storage_ : list (NameType * Entry)
}.

Definition Accumulator_new (time_to_live : Z) (quorum : nat) : Accumulator :=
  mkAccumulator time_to_live quorum [] 0 [].

Definition set_order (l : list (nat * NameType)) (a : Accumulator) : Accumulator :=
  mkAccumulator (time_to_live_ a) (quorum_ a) l (next_node_ a) (storage_ a).
Definition set_storage (m : list (NameType * Entry)) (a : Accumulator) : Accumulator :=
  mkAccumulator (time_to_live_ a) (quorum_ a) (name_order_ a) (next_node_ a) m.

(** [storage_.find] *)
Definition find_entry (name : NameType) (a : Accumulator) : option Entry :=
  map_find ltb name (storage_ a).

Definition HaveName (a : Accumulator) (name : NameType) : bool :=
  match find_entry name a with Some _ => true | None => false end.

Definition CheckQuorumReached (a : Accumulator) (name : NameType) : bool :=
  match find_entry name a with
  | None => false
  | Some e => quorum_ a <=? length (parts e)
  end.

(** An [assert] that the iterator of [find] is not [end], and its use. *)
Definition use_entry (r : option Entry) : outcome Entry :=
  match r with
  | Some e => Ok e
  | None => cpp_assert false;; Undefined
  end.

(** [name_order_.front()], undefined on an empty list. *)
Definition front (a : Accumulator) : outcome NameType :=
  match name_order_ a with
  | (_, name) :: _ => Ok name
  | [] => Undefined
  end.

Definition RemoveOldestElement : prog Accumulator unit :=
  a ← get;
  lift (λ _, cpp_assert (negb (Nat.eqb (length (name_order_ a)) 0)));;
  name ← lift front;
  lift (λ a, use_entry (find_entry name a));;
  modify (λ a, set_storage (map_erase ltb name (storage_ a)) a);;
  modify (λ a, set_order (tail (name_order_ a)) a).

Definition CheckTimeExpired (now : Z) (a : Accumulator) : outcome bool :=
  if (time_to_live_ a =? 0)%Z || Nat.eqb (length (storage_ a)) 0 then Ok false
  else
    name ← front a;
    e ← use_entry (find_entry name a);
    Ok (stamp e + time_to_live_ a <? now)%Z.

(** Unlink the list node [it]. *)
Fixpoint unlink (it : nat) (l : list (nat * NameType))
    : option ((nat * NameType) * list (nat * NameType)) :=
  match l with
  | [] => None
  | p :: l' =>
      if p.1 =? it then Some (p, l')
      else match unlink it l' with
           | Some (q, r) => Some (q, p :: r)
           | None => None
           end
  end.

(** [name_order_.splice(name_order_.end(), name_order_, it)], and to [begin()] *)
Definition splice_end (it : nat) : prog Accumulator unit := λ a,
  match unlink it (name_order_ a) with
  | Some (p, l) => (Ok tt, set_order (l ++ [p]) a)
  | None => (Undefined, a)
  end.
Definition splice_begin (it : nat) : prog Accumulator unit := λ a,
  match unlink it (name_order_ a) with
  | Some (p, l) => (Ok tt, set_order (p :: l) a)
  | None => (Undefined, a)
  end.

Definition ReOrder (name : NameType) : prog Accumulator unit :=
  e ← lift (λ a, use_entry (find_entry name a));
  splice_end (order_it e).

(** The loop of [AddNew]: [clk i] is the reading of the iteration, the result
    the number of readings.  Running out of fuel is [Undefined]; the fuel
    [AddNew] gives is shown to be enough. *)
Fixpoint expire_loop (fuel : nat) (clk : nat → Z) (i : nat) : prog Accumulator nat :=
  match fuel with
  | 0 => lift (λ _, Undefined)
  | S fuel =>
      expired ← lift (CheckTimeExpired (clk i));
      if expired : bool then RemoveOldestElement;; expire_loop fuel clk (S i)
      else mret (S i)
  end.

Definition AddNew (clk : nat → Z) (name : NameType) (value : ValueType) (sender : Address)
    : prog Accumulator unit :=
  a ← get;
  i ← expire_loop (S (length (name_order_ a))) clk 0;
  modify (λ a,
    let it := next_node_ a in
    mkAccumulator (time_to_live_ a) (quorum_ a) (name_order_ a ++ [(it, name)]) (S it)
      (map_insert ltb name (mkEntry [(sender, value)] it (clk i)) (storage_ a)).1).

(** [it] stays valid across [ReOrder], and its [first] is [name]. *)
Definition Add (clk : nat → Z) (name : NameType) (value : ValueType) (sender : Address)
    : prog Accumulator (option (NameType * Map)) :=
  a ← get;
  (if HaveName a name then mret tt else AddNew clk name value sender);;
  e ← lift (λ a, match find_entry name a with Some e => Ok e | None => Undefined end);
  let m := (map_insert Identity_ltb sender value (parts e)).1 in
  modify (λ a, set_storage (map_set ltb name (mkEntry m (order_it e) (stamp e)) (storage_ a)) a);;
  ReOrder name;;
  a ← get;
  mret (if quorum_ a <=? length m then Some (name, m) else None).

Definition GetAll (a : Accumulator) (name : NameType) : option (NameType * Map) :=
  match find_entry name a with
  | None => None
  | Some e => Some (name, parts e)
  end.

Definition Delete (clk : nat → Z) (key : NameType) : prog Accumulator unit :=
  a ← get;
  match find_entry key a with
  | None => mret tt
  | Some e =>
      modify (λ a, set_storage
        (map_set ltb key (mkEntry (parts e) (order_it e) (clk 0%nat - time_to_live_ a)%Z) (storage_ a)) a);;
      splice_begin (order_it e);;
      RemoveOldestElement
  end.

Definition size (a : Accumulator) : nat := length (storage_ a).
End model.
Arguments Map {_} _.
Arguments Entry {_} _.
Arguments Accumulator {_} _ _.

(** ** Invariant and abstract specification *)

Section spec.
Context `{IO : IdentityOps}.
Context {NameType ValueType : Type} (ltb : NameType → NameType → bool).
Notation Map := (Map ValueType).
Notation Accumulator := (Accumulator NameType ValueType).

(** The list of names and the storage describe the same entries: each node of
    the list is the one an entry points to, and each entry points to one. *)
Record acc_ok (a : Accumulator) : Prop := {
  ok_storage : map_ok ltb (storage_ a);
  ok_nodes : NoDup (name_order_ a).*1;
  ok_next : Forall (λ p, p.1 < next_node_ a) (name_order_ a);
  ok_names : NoDup (name_order_ a).*2;
  ok_linked : ∀ it name, (it, name) ∈ name_order_ a ↔
                ∃ e, find_entry ltb name a = Some e ∧ order_it e = it;
  ok_parts : ∀ name e, find_entry ltb name a = Some e →
               map_ok Identity_ltb (parts e) ∧ parts e ≠ []
}.

(** The abstract accumulator: the entries, least recently used first. *)
Definition Lru : Type := list (NameType * (Map * Z)).

(** The expired entries at the front go, until one is not expired. *)
Fixpoint lru_expire (ttl : Z) (clk : nat → Z) (i : nat) (l : Lru) : nat * Lru :=
  match l with
  | [] => (S i, [])
  | (name, (m, s)) :: l' =>
      if negb (ttl =? 0)%Z && (s + ttl <? clk i)%Z then lru_expire ttl clk (S i) l'
      else (S i, l)
  end.

Definition lru_result (quorum : nat) (name : NameType) (m : Map) : option (NameType * Map) :=
  if quorum <=? length m then Some (name, m) else None.

(** A part for a known name joins its entry, which becomes the most recently
    used; a new name is appended after the expiry. *)
Definition lru_add (ttl : Z) (quorum : nat) (clk : nat → Z) (name : NameType)
    (value : ValueType) (sender : Address) (l : Lru) : option (NameType * Map) * Lru :=
  match map_find ltb name l with
  | Some (m, s) =>
      let m' := (map_insert Identity_ltb sender value m).1 in
      (lru_result quorum name m', map_erase ltb name l ++ [(name, (m', s))])
  | None =>
      let '(i, l') := lru_expire ttl clk 0 l in
      (lru_result quorum name [(sender, value)], l' ++ [(name, ([(sender, value)], clk i))])
  end.

Definition entry_value (e : Entry ValueType) : Map * Z := (parts e, stamp e).

(** The abstraction function. *)
Definition lru_of (a : Accumulator) : Lru :=
  (λ p, (p.2, from_option entry_value ([], 0%Z) (find_entry ltb p.2 a))) <$> name_order_ a.
(** The statements of [Add] after the entry is there. *)
Definition add_part `{BuildMode} (name : NameType) (value : ValueType) (sender : Address)
    : prog Accumulator (option (NameType * Map)) :=
  e ← lift (λ a, match find_entry ltb name a with Some e => Ok e | None => Undefined end);
  let m := (map_insert Identity_ltb sender value (parts e)).1 in
  modify (λ a, set_storage (map_set ltb name (mkEntry m (order_it e) (stamp e)) (storage_ a)) a);;
  ReOrder ltb name;;
  a ← get;
  mret (if quorum_ a <=? length m then Some (name, m) else None).
End spec.
Arguments Lru {_} _ _.

(** ** The class refines the specification *)

Section facts.
Context `{IO : IdentityOps} `{IL : !IdentityLaws} `{BM : BuildMode}.
Context {NameType ValueType : Type} (ltb : NameType → NameType → bool) `{!StrictTotal ltb}.
Implicit Types (a : Accumulator NameType ValueType) (e : Entry ValueType) (name : NameType).
Implicit Types (g : NameType → Map ValueType * Z).

Lemma unlink_spec it name (l : list (nat * NameType)) :
  NoDup l.*1 → (it, name) ∈ l →
  unlink it l = Some ((it, name), List.filter (λ p, negb (p.1 =? it)) l).
Proof.
  induction l as [|p l IH]; [by intros _ ?%elem_of_nil|].
  cbn [fmap list_fmap]. intros [Hp Hnd]%NoDup_cons Hin. cbn [unlink List.filter].
  destruct (Nat.eqb_spec p.1 it) as [<-|Hne]; cbn [negb].
  - assert (p = (p.1, name)) as ->.
    { apply elem_of_cons in Hin as [<-|Hin]; [done|]. destruct Hp. by apply (list_elem_of_fmap_2 fst) in Hin. }
    repeat f_equal. symmetry. apply forallb_filter_id, List.forallb_forall.
    intros q Hq%list_elem_of_In. apply negb_true_iff, Nat.eqb_neq. intros Heq. destruct Hp.
    simpl in Heq. rewrite <-Heq. by apply list_elem_of_fmap_2.
  - apply elem_of_cons in Hin as [Heq|Hin]; [by rewrite <-Heq in Hne|]. by rewrite IH.
Qed.

Lemma unlink_perm it (l : list (nat * NameType)) p l' : unlink it l = Some (p, l') → p :: l' ≡ₚ l.
Proof.
  revert l'. induction l as [|q l IH]; intros l'; simpl; [done|].
  destruct (q.1 =? it); [by intros [= -> ->]|].
  destruct (unlink it l) as [[p' r]|]; [|done]. intros [= -> <-].
  rewrite <-(IH r) by done. apply Permutation_swap.
Qed.

Lemma find_fmap_Some g name (l : list (nat * NameType)) :
  name ∈ l.*2 → map_find ltb name ((λ p, (p.2, g p.2)) <$> l) = Some (g name).
Proof.
  induction l as [|p l IH]; [by intros ?%elem_of_nil|]. cbn [fmap list_fmap map_find].
  intros Hin. destruct (key_equiv ltb name p.2) eqn:E.
  - by apply (key_equiv_spec ltb) in E as <-.
  - apply IH. apply elem_of_cons in Hin as [->|]; [|done]. by rewrite (key_equiv_refl ltb) in E.
Qed.

Lemma erase_fmap g name (l : list (nat * NameType)) :
  map_erase ltb name ((λ p, (p.2, g p.2)) <$> l)
  = (λ p, (p.2, g p.2)) <$> List.filter (λ p, negb (key_equiv ltb name p.2)) l.
Proof.
  unfold map_erase. induction l as [|p l IH]; [done|]. cbn.
  destruct (key_equiv _ _ _); cbn; [apply IH|]. f_equal. apply IH.
Qed.

Lemma ok_elem a it name :
  acc_ok ltb a → (it, name) ∈ name_order_ a → ∃ e, find_entry ltb name a = Some e ∧ order_it e = it.
Proof. intros Ha. by apply Ha. Qed.

Lemma ok_find_elem a name e :
  acc_ok ltb a → find_entry ltb name a = Some e → (order_it e, name) ∈ name_order_ a.
Proof. intros Ha He. apply Ha. by exists e. Qed.

Lemma find_lru_of a name :
  acc_ok ltb a → map_find ltb name (lru_of ltb a) = entry_value <$> find_entry ltb name a.
Proof.
  intros Ha. unfold lru_of. destruct (find_entry ltb name a) as [e|] eqn:E.
  - rewrite (find_fmap_Some (λ n, from_option entry_value ([], 0%Z) (find_entry ltb n a))).
    + by rewrite E.
    + apply (list_elem_of_fmap_2 snd _ (order_it e, name)). by apply ok_find_elem.
  - apply map_find_None; [done|]. rewrite <-list_fmap_compose.
    intros ([it n] & -> & Hn)%list_elem_of_fmap. apply ok_elem in Hn as (e & He & _); [|done].
    simpl in E. congruence.
Qed.

Lemma lru_of_names a : acc_ok ltb a → NoDup (lru_of ltb a).*1.
Proof.
  intros Ha. unfold lru_of. rewrite <-list_fmap_compose. apply (ok_names _ _ Ha).
Qed.

Lemma map_find_snoc {V} name (x : V) l :
  name ∉ l.*1 → map_find ltb name (l ++ [(name, x)]) = Some x.
Proof.
  induction l as [|[k v] l IH]; simpl; [by rewrite (key_equiv_refl ltb)|].
  rewrite not_elem_of_cons. intros [Hne Hin]. rewrite (key_equiv_ne ltb) by done. by apply IH.
Qed.

(** In a consistent accumulator the node of an entry is the one with its name. *)
Lemma filter_node_name a name e :
  acc_ok ltb a → find_entry ltb name a = Some e →
  List.filter (λ p, negb (p.1 =? order_it e)) (name_order_ a)
  = List.filter (λ p, negb (key_equiv ltb name p.2)) (name_order_ a).
Proof.
  intros Ha He. apply filter_ext_in. intros [it n] Hin%list_elem_of_In. f_equal.
  apply eq_true_iff_eq. rewrite Nat.eqb_eq, (key_equiv_spec ltb). simpl.
  pose proof (ok_find_elem _ _ _ Ha He) as Hin'. split; [intros ->|intros <-].
  - apply list_elem_of_lookup in Hin as [i Hi], Hin' as [j Hj].
    assert (i = j) as -> by (eapply (NoDup_lookup _ i j _ (ok_nodes _ _ Ha));
      rewrite list_lookup_fmap; [rewrite Hi|rewrite Hj]; done).
    rewrite Hi in Hj. by injection Hj as <-.
  - apply ok_elem in Hin as (e2 & He2 & <-); [|done]. congruence.
Qed.

Lemma set_order_ok a l : acc_ok ltb a → l ≡ₚ name_order_ a → acc_ok ltb (set_order l a).
Proof.
  intros [Hs Hn Hx Hm Hl Hp] Hl'. split; simpl; try done; try (by rewrite Hl').
  intros it name. rewrite Hl'. apply Hl.
Qed.

Lemma find_set_entry a name e k :
  map_ok ltb (storage_ a) →
  find_entry ltb k (set_storage (map_set ltb name e (storage_ a)) a)
  = if key_equiv ltb name k then Some e else find_entry ltb k a.
Proof. intros Hs. unfold find_entry. simpl. by rewrite map_find_set. Qed.

Lemma set_entry_ok a name e e' :
  acc_ok ltb a → find_entry ltb name a = Some e → order_it e' = order_it e →
  map_ok Identity_ltb (parts e') → parts e' ≠ [] →
  acc_ok ltb (set_storage (map_set ltb name e' (storage_ a)) a).
Proof.
  intros [Hs Hn Hx Hm Hl Hp] He Hit Hok Hne. split; try done.
  - by apply map_set_ok.
  - intros it n. rewrite find_set_entry by done. simpl. rewrite Hl.
    destruct (key_equiv ltb name n) eqn:E; [|done].
    apply (key_equiv_spec ltb) in E as <-. split.
    + intros (e2 & He2 & <-). exists e'. split; [done|]. congruence.
    + intros (e2 & He2 & <-). exists e. split; [done|]. congruence.
  - intros n e2. rewrite find_set_entry by done.
    destruct (key_equiv ltb name n); [by intros [= <-]|apply Hp].
Qed.

(** The entries other than [name] look the same after [name] was set. *)
Lemma lru_others a name e (l : list (nat * NameType)) :
  map_ok ltb (storage_ a) →
  (λ p, (p.2, from_option entry_value ([], 0%Z)
                (find_entry ltb p.2 (set_storage (map_set ltb name e (storage_ a)) a))))
    <$> List.filter (λ p, negb (key_equiv ltb name p.2)) l
  = map_erase ltb name ((λ p, (p.2, from_option entry_value ([], 0%Z) (find_entry ltb p.2 a))) <$> l).
Proof.
  intros Hs. rewrite (erase_fmap (λ n, from_option entry_value ([], 0%Z) (find_entry ltb n a))).
  apply list_fmap_ext. intros i p Hp%list_elem_of_lookup_2%list_elem_of_In.
  apply filter_In in Hp as [_ Hp%negb_true_iff]. by rewrite find_set_entry, Hp.
Qed.

(** Unlinking the node of an entry that was just set. *)
Lemma unlink_set_entry a name e e' :
  acc_ok ltb a → find_entry ltb name a = Some e → order_it e' = order_it e →
  map_ok Identity_ltb (parts e') → parts e' ≠ [] →
  let a1 := set_storage (map_set ltb name e' (storage_ a)) a in
  ∃ rest, unlink (order_it e') (name_order_ a) = Some ((order_it e', name), rest) ∧
    (order_it e', name) :: rest ≡ₚ name_order_ a ∧
    (∀ l, l ≡ₚ name_order_ a → acc_ok ltb (set_order l a1)) ∧
    find_entry ltb name a1 = Some e' ∧
    (λ p, (p.2, from_option entry_value ([], 0%Z) (find_entry ltb p.2 a1))) <$> rest
    = map_erase ltb name (lru_of ltb a).
Proof.
  intros Ha He Hit Hok Hne a1. assert (acc_ok ltb a1) as Ha1 by by eapply set_entry_ok.
  assert (find_entry ltb name a1 = Some e') as He1.
  { unfold a1. rewrite find_set_entry by apply Ha. by rewrite (key_equiv_refl ltb). }
  pose proof (unlink_spec _ _ _ (ok_nodes _ _ Ha1) (ok_find_elem _ _ _ Ha1 He1)) as Hu.
  pose proof (unlink_perm _ _ _ _ Hu) as Hp. rewrite (filter_node_name a1 name e') in Hu, Hp by done.
  eexists. split; [exact Hu|]. split; [exact Hp|].
  split; [intros l Hl; by apply set_order_ok|]. split; [done|].
  apply lru_others, Ha.
Qed.

Lemma find_erase_entry a name l k :
  map_ok ltb (storage_ a) →
  find_entry ltb k (set_order l (set_storage (map_erase ltb name (storage_ a)) a))
  = if key_equiv ltb name k then None else find_entry ltb k a.
Proof. intros Hs. unfold find_entry. simpl. by rewrite map_find_erase. Qed.

(** Dropping the first name and its entry. *)
Lemma drop_front_ok a it name rest :
  acc_ok ltb a → name_order_ a = (it, name) :: rest →
  let a' := set_order rest (set_storage (map_erase ltb name (storage_ a)) a) in
  acc_ok ltb a' ∧ lru_of ltb a' = tail (lru_of ltb a).
Proof.
  intros [Hs Hn Hx Hm Hl Hp] Ho a'. rewrite Ho in Hn, Hx, Hm.
  rewrite fmap_cons in Hn. rewrite fmap_cons in Hm.
  apply NoDup_cons in Hn as [Hit Hn], Hm as [Hname Hm].
  apply Forall_cons in Hx as [_ Hx].
  assert (∀ p, p ∈ rest → key_equiv ltb name p.2 = false) as Hne.
  { intros p Hin. apply not_true_iff_false. rewrite (key_equiv_spec ltb). intros ->.
    destruct Hname. by apply (list_elem_of_fmap_2 snd rest p). }
  split; [split; simpl; try done|].
  - by apply map_erase_ok.
  - intros it' n. unfold a'. rewrite find_erase_entry by done. split.
    + intros Hin. rewrite (Hne _ Hin : key_equiv ltb name n = false). apply Hl. rewrite Ho. by right.
    + destruct (key_equiv ltb name n) eqn:E; [by intros (? & ? & _)|].
      intros Hin%Hl. rewrite Ho in Hin. apply elem_of_cons in Hin as [[= -> ->]|]; [|done].
      by rewrite (key_equiv_refl ltb) in E.
  - intros n e. unfold a'. rewrite find_erase_entry by done.
    destruct (key_equiv ltb name n); [done|apply Hp].
  - unfold lru_of. rewrite Ho. cbn [fmap list_fmap tail]. apply list_fmap_ext.
    intros i p Hi%list_elem_of_lookup_2. unfold a'. by rewrite find_erase_entry, Hne.
Qed.

(** [RemoveOldestElement] on a consistent accumulator. *)
Lemma RemoveOldestElement_run a x l :
  acc_ok ltb a → lru_of ltb a = x :: l →
  ∃ a', RemoveOldestElement ltb a = (Ok tt, a') ∧ acc_ok ltb a' ∧ lru_of ltb a' = l ∧
    time_to_live_ a' = time_to_live_ a ∧ quorum_ a' = quorum_ a ∧
    name_order_ a' = tail (name_order_ a).
Proof.
  intros Ha Hl. destruct (name_order_ a) as [|[it name] rest] eqn:Ho.
  { unfold lru_of in Hl. by rewrite Ho in Hl. }
  destruct (drop_front_ok a it name rest Ha Ho) as [Hok Hlru]. rewrite Hl in Hlru.
  destruct (ok_elem a it name Ha) as (e & He & _); [rewrite Ho; by left|].
  eexists. split; [|by split; [exact Hok|]].
  unfold RemoveOldestElement, mbind, prog_bind, get, lift, modify, front. rewrite Ho. cbn.
  by rewrite cpp_assert_true, Ho, He.
Qed.

Lemma CheckTimeExpired_run a now :
  acc_ok ltb a →
  CheckTimeExpired ltb now a =
    Ok match lru_of ltb a with
       | [] => false
       | (_, (_, s)) :: _ => negb (time_to_live_ a =? 0)%Z && (s + time_to_live_ a <? now)%Z
       end.
Proof.
  intros Ha. unfold CheckTimeExpired, lru_of, front.
  destruct (name_order_ a) as [|[it name] rest] eqn:Ho.
  - assert (storage_ a = []) as ->.
    { destruct (storage_ a) as [|[n e] m] eqn:Hs; [done|].
      assert (find_entry ltb n a = Some e) as He.
      { unfold find_entry. rewrite Hs. cbn. by rewrite (key_equiv_refl ltb). }
      apply (ok_find_elem _ _ _ Ha) in He. rewrite Ho in He. by apply elem_of_nil in He. }
    by rewrite orb_true_r.
  - destruct (ok_elem a it name Ha) as (e & He & _); [rewrite Ho; by left|].
    cbn. rewrite He. cbn. destruct (storage_ a) eqn:Hs; [unfold find_entry in He; by rewrite Hs in He|].
    cbn. by destruct (_ =? 0)%Z.
Qed.

Lemma expire_loop_run fuel clk i a :
  acc_ok ltb a → length (name_order_ a) < fuel →
  let '(j, l) := lru_expire (time_to_live_ a) clk i (lru_of ltb a) in
  ∃ a', expire_loop ltb fuel clk i a = (Ok j, a') ∧ acc_ok ltb a' ∧ lru_of ltb a' = l ∧
    time_to_live_ a' = time_to_live_ a ∧ quorum_ a' = quorum_ a.
Proof.
  revert i a. induction fuel as [|fuel IH]; intros i a Ha Hlen; [lia|].
  pose proof (CheckTimeExpired_run a (clk i) Ha) as Hc. cbn [expire_loop].
  unfold mbind, prog_bind, lift. rewrite Hc.
  destruct (lru_of ltb a) as [|[name [m s]] l] eqn:Hl; cbn [lru_expire]; [by exists a|].
  destruct (negb _ && _); [|by exists a].
  destruct (RemoveOldestElement_run a _ l Ha Hl) as (a1 & -> & Ha1 & Hl1 & Ht1 & Hq1 & Ho1).
  specialize (IH (S i) a1 Ha1). rewrite Ht1, Hl1, Hq1 in IH. apply IH.
  apply (f_equal length) in Hl. unfold lru_of in Hl. rewrite length_fmap in Hl.
  rewrite Ho1. destruct (name_order_ a); simpl in *; lia.
Qed.

Lemma lru_expire_suffix ttl clk i (l : Lru NameType ValueType) : (lru_expire ttl clk i l).2 `suffix_of` l.
Proof.
  revert i. induction l as [|[name [m s]] l IH]; intros i; simpl; [done|].
  destruct (_ && _); [|done]. by apply suffix_cons_r.
Qed.

(** Appending a new name. *)
Lemma push_new_ok a name m s :
  acc_ok ltb a → find_entry ltb name a = None → map_ok Identity_ltb m → m ≠ [] →
  let a' := mkAccumulator (time_to_live_ a) (quorum_ a)
              (name_order_ a ++ [(next_node_ a, name)]) (S (next_node_ a))
              (map_insert ltb name (mkEntry m (next_node_ a) s) (storage_ a)).1 in
  acc_ok ltb a' ∧ lru_of ltb a' = lru_of ltb a ++ [(name, (m, s))].
Proof.
  intros [Hs Hn Hx Hm Hl Hp] He Hok Hne a'.
  assert (∀ k, find_entry ltb k a' = if key_equiv ltb name k
            then Some (mkEntry m (next_node_ a) s) else find_entry ltb k a) as Hf.
  { intros k. unfold find_entry, a'. simpl. rewrite map_find_insert by done.
    unfold find_entry in He. by rewrite He. }
  assert (∀ it n, (it, n) ∈ name_order_ a → key_equiv ltb name n = false) as Hneq.
  { intros it n Hin. apply not_true_iff_false. rewrite (key_equiv_spec ltb). intros <-.
    apply Hl in Hin as (? & ? & _). congruence. }
  split; [split; simpl|].
  - by apply map_insert_ok.
  - rewrite fmap_app. apply NoDup_app. split; [done|]. split; [|apply NoDup_singleton].
    intros it Hin ->%list_elem_of_singleton. apply list_elem_of_fmap in Hin as (p & Heq & Hin).
    rewrite Forall_forall in Hx. apply Hx in Hin. simpl in *. lia.
  - apply Forall_app. split; [eapply Forall_impl; [exact Hx|]; simpl; lia|].
    apply Forall_singleton. simpl. lia.
  - rewrite fmap_app. apply NoDup_app. split; [done|]. split; [|apply NoDup_singleton].
    intros n Hin Hn'%list_elem_of_singleton. apply list_elem_of_fmap in Hin as ([it n'] & -> & Hin).
    apply Hneq in Hin. simpl in Hn'. by rewrite Hn', (key_equiv_refl ltb) in Hin.
  - intros it n. rewrite Hf, elem_of_app, list_elem_of_singleton.
    destruct (key_equiv ltb name n) eqn:E.
    + apply (key_equiv_spec ltb) in E as <-. split.
      * intros [Hin|[= ->]]; [apply Hneq in Hin; by rewrite (key_equiv_refl ltb) in Hin|eauto].
      * intros (e & [= <-] & <-). by right.
    + rewrite <-Hl. split; [intros [?|[= -> ->]]; [done|]|by left].
      by rewrite (key_equiv_refl ltb) in E.
  - intros n e. rewrite Hf. destruct (key_equiv ltb name n); [by intros [= <-]|apply Hp].
  - unfold lru_of. change (name_order_ a') with (name_order_ a ++ [(next_node_ a, name)]).
    rewrite fmap_app. f_equal.
    + apply list_fmap_ext. intros i [it n] Hi%list_elem_of_lookup_2. cbn [snd].
      by rewrite Hf, (Hneq _ _ Hi).
    + cbn [fmap list_fmap snd]. by rewrite Hf, (key_equiv_refl ltb).
Qed.

Lemma AddNew_run clk name value sender a :
  acc_ok ltb a → find_entry ltb name a = None →
  let '(i, l) := lru_expire (time_to_live_ a) clk 0 (lru_of ltb a) in
  ∃ a', AddNew ltb clk name value sender a = (Ok tt, a') ∧ acc_ok ltb a' ∧
    lru_of ltb a' = l ++ [(name, ([(sender, value)], clk i))] ∧
    time_to_live_ a' = time_to_live_ a ∧ quorum_ a' = quorum_ a.
Proof.
  intros Ha He. pose proof (lru_expire_suffix (time_to_live_ a) clk 0 (lru_of ltb a)) as Hsuf.
  pose proof (expire_loop_run (S (length (name_order_ a))) clk 0 a Ha (Nat.lt_succ_diag_r _)) as Hrun.
  destruct (lru_expire _ _ _ _) as [i l]. destruct Hrun as (a1 & Hr & Ha1 & Hl1 & Ht1 & Hq1).
  assert (find_entry ltb name a1 = None) as He1.
  { pose proof (find_lru_of a name Ha) as Hf. rewrite He in Hf. apply map_find_None in Hf; [|done].
    pose proof (find_lru_of a1 name Ha1) as Hf1. destruct (find_entry ltb name a1); [|done].
    apply map_find_elem in Hf1; [|done]. destruct Hf. rewrite Hl1 in Hf1.
    destruct Hsuf as [k Hk]. simpl in Hk. rewrite Hk, fmap_app. apply elem_of_app. right.
    by apply (list_elem_of_fmap_2 fst) in Hf1. }
  destruct (push_new_ok a1 name [(sender, value)] (clk i) Ha1 He1) as [Hok Hlru];
    [by apply (strictly_sorted_by _ _)|done|].
  eexists. split; [|split; [exact Hok|]].
  - unfold AddNew, mbind, prog_bind, get, modify. by rewrite Hr.
  - rewrite Hlru, Hl1. done.
Qed.

Lemma map_insert_not_nil (sender : Address) (value : ValueType) m :
  (map_insert Identity_ltb sender value m).1 ≠ [].
Proof.
  destruct m as [|[k v] m]; simpl; [done|].
  destruct (Identity_ltb sender k); [done|]. destruct (Identity_ltb k sender); [|done].
  by destruct (map_insert _ _ _ m).
Qed.

Lemma add_part_run name value sender a e :
  acc_ok ltb a → find_entry ltb name a = Some e →
  let m := (map_insert Identity_ltb sender value (parts e)).1 in
  ∃ a', add_part ltb name value sender a = (Ok (lru_result (quorum_ a) name m), a') ∧ acc_ok ltb a' ∧
    lru_of ltb a' = map_erase ltb name (lru_of ltb a) ++ [(name, (m, stamp e))] ∧
    time_to_live_ a' = time_to_live_ a ∧ quorum_ a' = quorum_ a.
Proof.
  intros Ha He m. set (e' := mkEntry m (order_it e) (stamp e)).
  destruct (unlink_set_entry a name e e' Ha He eq_refl) as (rest & Hu & Hp & Hok & He' & Hrest).
  { apply map_insert_ok, (ok_parts _ _ Ha _ _ He). apply _. }
  { apply map_insert_not_nil. }
  eexists. split; [|split; [apply (Hok (rest ++ [(order_it e', name)]));
    by rewrite Permutation_app_comm|split; [|done]]].
  - unfold add_part, mbind, prog_bind, lift, modify, ReOrder. rewrite He. cbn beta iota.
    fold m. fold e'. unfold mbind, prog_bind, lift. rewrite He'.
    cbn beta iota. unfold splice_end. cbn in *. by rewrite Hu.
  - unfold lru_of at 1, set_order. cbn [name_order_]. rewrite fmap_app. f_equal; [apply Hrest|].
    cbn [fmap list_fmap snd]. unfold find_entry in He'. unfold find_entry. cbn [storage_].
    by rewrite He'.
Qed.

Lemma Add_split clk name value sender a :
  Add ltb clk name value sender a
  = ((if HaveName ltb a name then mret tt else AddNew ltb clk name value sender);;
     add_part ltb name value sender) a.
Proof. done. Qed.

Lemma map_erase_snoc name (l : Lru NameType ValueType) x :
  name ∉ l.*1 → map_erase ltb name (l ++ [(name, x)]) = l.
Proof.
  intros Hn. unfold map_erase. rewrite List.filter_app. cbn. rewrite (key_equiv_refl ltb). cbn.
  rewrite app_nil_r. by apply (map_erase_absent ltb name l), (map_find_None ltb).
Qed.

(** [Add] on a consistent accumulator is [lru_add] on the abstract one. *)
Lemma Add_run clk name value sender a :
  acc_ok ltb a →
  let '(r, l) := lru_add ltb (time_to_live_ a) (quorum_ a) clk name value sender (lru_of ltb a) in
  ∃ a', Add ltb clk name value sender a = (Ok r, a') ∧ acc_ok ltb a' ∧ lru_of ltb a' = l ∧
    time_to_live_ a' = time_to_live_ a ∧ quorum_ a' = quorum_ a.
Proof.
  intros Ha. rewrite Add_split. unfold lru_add, HaveName. rewrite find_lru_of by done.
  destruct (find_entry ltb name a) as [e|] eqn:He; cbn [fmap option_fmap option_map].
  - destruct (add_part_run name value sender a e Ha He) as (a' & Hr & Ha' & Hl & Ht & Hq).
    exists a'. by rewrite <-Hr.
  - pose proof (AddNew_run clk name value sender a Ha He) as Hnew.
    destruct (lru_expire _ _ _ _) as [i l]. destruct Hnew as (a1 & Hr1 & Ha1 & Hl1 & Ht1 & Hq1).
    assert (name ∉ l.*1) as Hn.
    { pose proof (lru_of_names a1 Ha1) as Hnd. rewrite Hl1, fmap_app in Hnd.
      apply NoDup_app in Hnd as (_ & Hd & _). intros Hin. apply Hd in Hin. destruct Hin. by left. }
    assert (∃ e, find_entry ltb name a1 = Some e ∧ entry_value e = ([(sender, value)], clk i))
      as (e & He1 & Hv).
    { pose proof (find_lru_of a1 name Ha1) as Hf. rewrite Hl1, map_find_snoc in Hf by done.
      destruct (find_entry ltb name a1) as [e|]; [|done]. exists e. split; [done|]. simpl in Hf. congruence. }
    destruct (add_part_run name value sender a1 e Ha1 He1) as (a' & Hr & Ha' & Hl & Ht & Hq).
    injection Hv as Hp Hs. rewrite Hp, Hs, Hl1, map_erase_snoc in * by done.
    assert ((map_insert Identity_ltb sender value [(sender, value)]).1 = [(sender, value)]) as Hins
      by (cbn; by rewrite !ltb_irrefl).
    rewrite Hins in Hr, Hl. exists a'. rewrite (prog_bind_Ok _ _ a a1 tt Hr1), Hr.
    by rewrite Ht, Hq, Ht1, Hq1.
Qed.

(** [Delete] erases the entry of the key, whatever the clock shows. *)
Lemma Delete_run clk key a :
  acc_ok ltb a →
  ∃ a', Delete ltb clk key a = (Ok tt, a') ∧ acc_ok ltb a' ∧
    lru_of ltb a' = map_erase ltb key (lru_of ltb a) ∧
    time_to_live_ a' = time_to_live_ a ∧ quorum_ a' = quorum_ a.
Proof.
  intros Ha. pose proof (find_lru_of a key Ha) as Hf.
  unfold Delete, mbind, prog_bind, get. destruct (find_entry ltb key a) as [e|] eqn:He.
  2: { exists a. by rewrite (map_erase_absent ltb). }
  set (e' := mkEntry (parts e) (order_it e) (clk 0%nat - time_to_live_ a)%Z).
  destruct (ok_parts _ _ Ha _ _ He) as [Hm Hne].
  destruct (unlink_set_entry a key e e' Ha He eq_refl Hm Hne) as (rest & Hu & Hp & Hok & He' & Hrest).
  specialize (Hok _ Hp). destruct (RemoveOldestElement_run _ (key, entry_value e')
    (map_erase ltb key (lru_of ltb a)) Hok) as (a' & Hr & Ha' & Hl & Ht & Hq & _).
  - unfold lru_of at 1, set_order. cbn [name_order_ fmap list_fmap snd]. f_equal; [|apply Hrest].
    unfold find_entry in He'. unfold find_entry. cbn [storage_]. by rewrite He'.
  - exists a'. split; [|done]. unfold modify. fold e'. unfold mbind, prog_bind, splice_begin.
    cbn in Hu. cbn. rewrite Hu. apply Hr.
Qed.
End facts.
