(* ===== verification/AccumulatorProps.v ===== *)
(** * The accumulator: properties

    The refinement of [Accumulator] to the abstract LRU list over whole runs,
    the quorum rule, what [Add] and [Delete] leave alone, and the expiry rule. *)

From S2P Require Import Prelude CppStd Identity Types Accumulator.

Section trace.
Context `{IO : IdentityOps} `{BM : BuildMode}.
Context {NameType ValueType : Type} (ltb : NameType → NameType → bool).
Notation result := (option (NameType * Map ValueType)).

(** A call of a function that changes the accumulator, with the clock readings
    during it. *)
Inductive acc_op :=
  | op_Add (clk : nat → Z) (name : NameType) (value : ValueType) (sender : Address)
  | op_Delete (clk : nat → Z) (key : NameType).

Definition run_op (o : acc_op) : prog (Accumulator NameType ValueType) result :=
  match o with
  | op_Add clk name value sender => Add ltb clk name value sender
  | op_Delete clk key => Delete ltb clk key;; mret None
  end.

Fixpoint run_ops (os : list acc_op) : prog (Accumulator NameType ValueType) (list result) :=
  match os with
  | [] => mret []
  | o :: os => r ← run_op o; rs ← run_ops os; mret (r :: rs)
  end.

Definition lru_op (ttl : Z) (quorum : nat) (o : acc_op) (l : Lru NameType ValueType)
    : result * Lru NameType ValueType :=
  match o with
  | op_Add clk name value sender => lru_add ltb ttl quorum clk name value sender l
  | op_Delete _ key => (None, map_erase ltb key l)
  end.

Fixpoint lru_ops (ttl : Z) (quorum : nat) (os : list acc_op) (l : Lru NameType ValueType)
    : list result * Lru NameType ValueType :=
  match os with
  | [] => ([], l)
  | o :: os =>
      let '(r, l1) := lru_op ttl quorum o l in
      let '(rs, l2) := lru_ops ttl quorum os l1 in (r :: rs, l2)
  end.

(** The parts held for a name. *)
Definition parts_of (a : Accumulator NameType ValueType) (name : NameType) : Map ValueType :=
  from_option snd [] (GetAll ltb a name).
End trace.
Arguments acc_op {_} _ _.

Section props.
Context `{IO : IdentityOps} `{IL : !IdentityLaws} `{BM : BuildMode}.
Context {NameType ValueType : Type} (ltb : NameType → NameType → bool) `{!StrictTotal ltb}.
Implicit Types (a : Accumulator NameType ValueType) (name : NameType).

Lemma Accumulator_new_ok ttl quorum : acc_ok ltb (Accumulator_new (ValueType:=ValueType) ttl quorum).
Proof.
  split; simpl; try constructor; try done.
  - by intros ?%elem_of_nil.
  - by intros (? & ? & ?).
Qed.

Lemma run_op_run o a :
  acc_ok ltb a →
  let '(r, l) := lru_op ltb (time_to_live_ a) (quorum_ a) o (lru_of ltb a) in
  ∃ a', run_op ltb o a = (Ok r, a') ∧ acc_ok ltb a' ∧ lru_of ltb a' = l ∧
    time_to_live_ a' = time_to_live_ a ∧ quorum_ a' = quorum_ a.
Proof.
  intros Ha. destruct o as [clk name value sender|clk key]; cbn [lru_op run_op].
  - by apply Add_run.
  - destruct (Delete_run ltb clk key a Ha) as (a' & Hr & Ha'). exists a'. split; [|done].
    by rewrite (prog_bind_Ok _ _ a a' tt Hr).
Qed.

Lemma run_ops_run os a :
  acc_ok ltb a →
  let '(rs, l) := lru_ops ltb (time_to_live_ a) (quorum_ a) os (lru_of ltb a) in
  ∃ a', run_ops ltb os a = (Ok rs, a') ∧ acc_ok ltb a' ∧ lru_of ltb a' = l ∧ quorum_ a' = quorum_ a.
Proof.
  revert a. induction os as [|o os IH]; intros a Ha; [by exists a|]. cbn [lru_ops run_ops].
  pose proof (run_op_run o a Ha) as Ho. destruct (lru_op _ _ _ _ _) as [r l].
  destruct Ho as (a1 & Hr1 & Ha1 & Hl1 & Ht1 & Hq1). specialize (IH a1 Ha1).
  rewrite Ht1, Hq1, Hl1 in IH. destruct (lru_ops _ _ _ _ _) as [rs l2].
  destruct IH as (a2 & Hr2 & Ha2 & Hl2 & Hq2). exists a2. split; [|done].
  rewrite (prog_bind_Ok _ _ a a1 r Hr1). by rewrite (prog_bind_Ok _ _ a1 a2 rs Hr2).
Qed.

Lemma run_ops_ok os a : acc_ok ltb a → acc_ok ltb (run_ops ltb os a).2.
Proof.
  intros Ha. pose proof (run_ops_run os a Ha) as Hr. destruct (lru_ops _ _ _ _ _).
  by destruct Hr as (a' & -> & Ha' & _).
Qed.

Lemma GetAll_lru a name :
  acc_ok ltb a → GetAll ltb a name = (λ x, (name, x.1)) <$> map_find ltb name (lru_of ltb a).
Proof.
  intros Ha. rewrite find_lru_of by done. unfold GetAll. by destruct (find_entry _ _ _).
Qed.

Lemma size_lru a : acc_ok ltb a → size a = length (lru_of ltb a).
Proof.
  intros Ha. unfold size, lru_of. rewrite length_fmap.
  rewrite <-(length_fmap fst (storage_ a)), <-(length_fmap snd (name_order_ a)).
  apply Permutation_length, NoDup_Permutation.
  - apply (map_ok_NoDup ltb), Ha.
  - apply Ha.
  - intros name. rewrite list_elem_of_fmap. split.
    + intros ([n e] & -> & Hin). apply (map_elem_find ltb) in Hin; [|apply Ha].
      apply (list_elem_of_fmap_2 snd _ (order_it e, n)). by apply (ok_find_elem ltb).
    + intros ([it n] & -> & Hin)%list_elem_of_fmap.
      destruct (ok_elem ltb a it n Ha Hin) as (e & He & _). exists (n, e).
      split; [done|]. by apply (map_find_elem ltb).
Qed.

Lemma NoDup_find_tail name x (l : Lru NameType ValueType) :
  NoDup ((name, x) :: l).*1 → map_find ltb name l = None.
Proof. rewrite fmap_cons. intros [Hn _]%NoDup_cons. by apply (map_find_None ltb). Qed.

(** Expiry loses only entries older than the time to live. *)
Lemma lru_expire_find ttl clk i (l : Lru NameType ValueType) name :
  NoDup l.*1 →
  let l' := (lru_expire ttl clk i l).2 in
  map_find ltb name l' = map_find ltb name l ∨
  map_find ltb name l' = None ∧ ttl ≠ 0%Z ∧
    ∃ m s j, map_find ltb name l = Some (m, s) ∧ (s + ttl < clk j)%Z.
Proof.
  revert i. induction l as [|[n [m s]] l IH]; intros i Hnd; [by left|]. cbn [lru_expire].
  destruct (negb _ && _) eqn:E; [|by left].
  apply andb_true_iff in E as [Httl%negb_true_iff%Z.eqb_neq Hs%Z.ltb_lt].
  pose proof (NoDup_find_tail _ _ _ Hnd) as Hn. rewrite fmap_cons in Hnd.
  apply NoDup_cons in Hnd as [_ Hnd]. specialize (IH (S i) Hnd). cbn [map_find].
  destruct (key_equiv ltb name n) eqn:Ek; [|apply IH].
  apply (key_equiv_spec ltb) in Ek as ->. right.
  rewrite Hn in IH. split; [by destruct IH as [|[? _]]|]. split; [done|]. by exists m, s, i.
Qed.

Lemma map_find_lru_erase name (l : Lru NameType ValueType) k :
  map_find ltb k (map_erase ltb name l) = if key_equiv ltb name k then None else map_find ltb k l.
Proof.
  unfold map_erase. induction l as [|[n x] l IH]; cbn; [by destruct (key_equiv _ _ _)|].
  destruct (key_equiv ltb name n) eqn:E; cbn; rewrite IH; [|].
  - apply (key_equiv_spec ltb) in E as <-. destruct (key_equiv ltb name k) eqn:E2; [done|].
    rewrite (key_equiv_ne ltb); [done|]. intros ->. by rewrite (key_equiv_refl ltb) in E2.
  - destruct (key_equiv ltb k n) eqn:E2; [|done].
    apply (key_equiv_spec ltb) in E2 as <-. by rewrite E.
Qed.

Lemma map_find_app name (l1 l2 : Lru NameType ValueType) :
  map_find ltb name (l1 ++ l2)
  = match map_find ltb name l1 with Some x => Some x | None => map_find ltb name l2 end.
Proof.
  induction l1 as [|[n x] l1 IH]; [done|]. cbn. by destruct (key_equiv _ _ _).
Qed.

(** What [Add] leaves under each name. *)
Lemma Add_find clk name value sender a :
  acc_ok ltb a →
  let l := lru_of ltb a in
  let m := (map_insert Identity_ltb sender value (from_option fst [] (map_find ltb name l))).1 in
  ∃ a', Add ltb clk name value sender a = (Ok (lru_result (quorum_ a) name m), a') ∧ acc_ok ltb a' ∧
    time_to_live_ a' = time_to_live_ a ∧ quorum_ a' = quorum_ a ∧
    fst <$> map_find ltb name (lru_of ltb a') = Some m ∧
    ∀ n, n ≠ name →
      map_find ltb n (lru_of ltb a') =
      map_find ltb n (if HaveName ltb a name then l else (lru_expire (time_to_live_ a) clk 0 l).2).
Proof.
  intros Ha l m. pose proof (Add_run ltb clk name value sender a Ha) as Hr.
  unfold lru_add, HaveName in *. pose proof (find_lru_of ltb a name Ha) as Hf.
  subst m l. rewrite Hf in *.
  pose proof (lru_expire_suffix (time_to_live_ a) clk 0 (lru_of ltb a)) as Hsuf.
  destruct (find_entry ltb name a) as [e|]; cbn [fmap option_fmap option_map from_option fst] in *.
  - destruct Hr as (a' & Hr & Ha' & Hl & Ht & Hq). exists a'. rewrite Hr, Hl.
    do 4 (split; [done|]). split.
    + by rewrite map_find_app, map_find_lru_erase, (key_equiv_refl ltb); cbn; rewrite (key_equiv_refl ltb).
    + intros n Hn. rewrite map_find_app, map_find_lru_erase, (key_equiv_ne ltb name n) by done.
      cbn. rewrite (key_equiv_ne ltb n name) by done. by destruct (map_find ltb n _).
  - destruct (lru_expire _ _ _ _) as [i l']. destruct Hr as (a' & Hr & Ha' & Hl & Ht & Hq).
    exists a'. rewrite Hr, Hl. do 4 (split; [done|]).
    assert (map_find ltb name l' = None) as Hn'.
    { apply (map_find_None ltb). apply (map_find_None ltb) in Hf. intros Hin. destruct Hf.
      destruct Hsuf as [k ->]. rewrite fmap_app. apply elem_of_app. by right. }
    split.
    + rewrite map_find_app, Hn'. cbn. by rewrite (key_equiv_refl ltb).
    + intros n Hn. rewrite map_find_app. cbn. rewrite (key_equiv_ne ltb n name) by done.
      by destruct (map_find ltb n _).
Qed.

(** A relation between names, senders and values that all parts held satisfy. *)
Definition all_parts (P : NameType → Address → ValueType → Prop) a : Prop :=
  ∀ name s v, (s, v) ∈ parts_of ltb a name → P name s v.

Lemma parts_of_lru a name :
  acc_ok ltb a → parts_of ltb a name = from_option fst [] (map_find ltb name (lru_of ltb a)).
Proof. intros Ha. unfold parts_of. rewrite GetAll_lru by done. by destruct (map_find _ _ _). Qed.

Lemma map_insert_subset (s : Address) (v : ValueType) m p :
  p ∈ (map_insert Identity_ltb s v m).1 → p = (s, v) ∨ p ∈ m.
Proof.
  destruct (map_find Identity_ltb s m) as [v'|] eqn:E.
  - induction m as [|[k w] m IH]; cbn; [done|]. cbn in E.
    destruct (Identity_ltb s k) eqn:E1; [by intros [->|]%elem_of_cons; auto|].
    destruct (Identity_ltb k s) eqn:E2; [|by right].
    unfold key_equiv in E. rewrite E1, E2 in E. cbn in E. specialize (IH E).
    destruct (map_insert _ _ _ m) as [m' b]. cbn in *.
    rewrite !elem_of_cons. naive_solver.
  - rewrite map_insert_absent by done. cbn. rewrite insert_by_perm, elem_of_cons. naive_solver.
Qed.

Lemma parts_of_Add clk name value sender a a' r n p :
  acc_ok ltb a → Add ltb clk name value sender a = (Ok r, a') → p ∈ parts_of ltb a' n →
  (n = name ∧ p = (sender, value)) ∨ p ∈ parts_of ltb a n.
Proof.
  intros Ha Hadd Hp. destruct (Add_find clk name value sender a Ha)
    as (a1 & Heq & Ha1 & _ & _ & Hname & Hother).
  rewrite Hadd in Heq. injection Heq as -> <-.
  rewrite parts_of_lru in Hp |- * by done. destruct (key_equiv ltb n name) eqn:E.
  - apply (key_equiv_spec ltb) in E as ->.
    destruct (map_find ltb name (lru_of ltb a')) as [[m s]|]; [|done].
    cbn in Hname, Hp. injection Hname as Hx. rewrite Hx in Hp. apply map_insert_subset in Hp as [|]; [by left|by right].
  - right. rewrite Hother in Hp by (intros ->; by rewrite (key_equiv_refl ltb) in E).
    destruct (HaveName ltb a name); [done|].
    destruct (lru_expire_find (time_to_live_ a) clk 0 (lru_of ltb a) n) as [Hs|[Hs _]];
      [by apply lru_of_names|by rewrite Hs in Hp|]. rewrite Hs in Hp. by apply elem_of_nil in Hp.
Qed.

Lemma parts_of_Delete clk key a a' r n p :
  acc_ok ltb a → Delete ltb clk key a = (Ok r, a') → p ∈ parts_of ltb a' n → p ∈ parts_of ltb a n.
Proof.
  intros Ha Hdel Hp. destruct (Delete_run ltb clk key a Ha) as (a1 & Heq & Ha1 & Hl & _).
  rewrite Hdel in Heq. injection Heq as _ <-.
  rewrite parts_of_lru, Hl, map_find_lru_erase in Hp by done. rewrite parts_of_lru by done.
  destruct (key_equiv _ _ _); [by apply elem_of_nil in Hp|done].
Qed.

Lemma parts_of_ok a name : acc_ok ltb a → map_ok Identity_ltb (parts_of ltb a name).
Proof.
  intros Ha. unfold parts_of, GetAll. destruct (find_entry ltb name a) as [e|] eqn:He; [|constructor].
  by apply (ok_parts _ _ Ha _ _ He).
Qed.

Lemma Add_ends P clk name value sender a :
  acc_ok ltb a → all_parts P a → P name sender value →
  ends (Add ltb clk name value sender) a
    (λ r a', acc_ok ltb a' ∧ all_parts P a' ∧ quorum_ a' = quorum_ a ∧
             parts_of ltb a' name = (map_insert Identity_ltb sender value (parts_of ltb a name)).1 ∧
             r = if quorum_ a <=? length (parts_of ltb a' name)
                 then Some (name, parts_of ltb a' name) else None)
    (λ _, False).
Proof.
  intros Ha HP Hv. destruct (Add_find clk name value sender a Ha)
    as (a' & Hr & Ha' & _ & Hq & Hm & _). unfold ends. rewrite Hr.
  split; [done|]. split; [|split; [done|]].
  - intros n s v Hin. destruct (parts_of_Add _ _ _ _ _ _ _ _ _ Ha Hr Hin) as [[-> [= -> ->]]|]; auto.
  - assert (Some (parts_of ltb a' name) = fst <$> map_find ltb name (lru_of ltb a')) as Hp.
    { rewrite parts_of_lru by done. by destruct (map_find ltb name (lru_of ltb a')). }
    rewrite Hm in Hp. injection Hp as ->. by rewrite parts_of_lru.
Qed.

Lemma Delete_ends P clk key a :
  acc_ok ltb a → all_parts P a →
  ends (Delete ltb clk key) a (λ _ a', acc_ok ltb a' ∧ all_parts P a' ∧ quorum_ a' = quorum_ a)
    (λ _, False).
Proof.
  intros Ha HP. destruct (Delete_run ltb clk key a Ha) as (a' & Hr & Ha' & _ & _ & Hq).
  unfold ends. rewrite Hr. split; [done|]. split; [|done].
  intros n s v Hin. eapply HP, parts_of_Delete; [done|exact Hr|done].
Qed.

Lemma all_parts_weaken (P Q : NameType → Address → ValueType → Prop) a :
  all_parts P a → (∀ n s v, P n s v → Q n s v) → all_parts Q a.
Proof. intros HP HPQ n s v Hin. by apply HPQ, HP. Qed.

(** ** The properties *)

(** C5: Refinement. Whatever sequence of [Add] and [Delete] calls runs on a new
    accumulator, and whatever the clock shows during them, no assertion fails,
    no iterator is misused and the expiry loop ends; the results are those of
    the abstract list of entries in order of use, and so are the answers of
    [GetAll], [HaveName], [CheckQuorumReached] and [size] afterwards. *)
Theorem accumulator_refines (ttl : Z) (quorum : nat) (os : list (acc_op NameType ValueType)) :
  let '(rs, l) := lru_ops ltb ttl quorum os [] in
  ∃ a, run_ops ltb os (Accumulator_new ttl quorum) = (Ok rs, a) ∧ lru_of ltb a = l ∧
    size a = length l ∧
    ∀ name,
      GetAll ltb a name = (λ x, (name, x.1)) <$> map_find ltb name l ∧
      HaveName ltb a name = bool_decide (is_Some (map_find ltb name l)) ∧
      CheckQuorumReached ltb a name =
        match map_find ltb name l with Some (m, _) => quorum <=? length m | None => false end.
Proof.
  pose proof (run_ops_run os _ (Accumulator_new_ok ttl quorum)) as Hr. cbn in Hr.
  destruct (lru_ops _ _ _ _ _) as [rs l]. destruct Hr as (a & Hr & Ha & <- & Hq).
  exists a. do 2 (split; [done|]). split; [by apply size_lru|]. intros name.
  split; [by apply GetAll_lru|]. unfold HaveName, CheckQuorumReached.
  rewrite find_lru_of by done.
  destruct (find_entry _ _ _) as [e|]; cbn [fmap option_fmap option_map entry_value].
  - rewrite bool_decide_eq_true_2 by done. by rewrite Hq.
  - by rewrite bool_decide_eq_false_2 by (by intros [? ?]).
Qed.

(** C22: The quorum rule. After [Add] the parts held for the name are those held
    before and the sender's; a second part from a sender changes nothing (the
    first one is kept), every sender counts once, and the parts are returned
    exactly when they come from at least [quorum_] senders. *)
Theorem Add_quorum clk name value sender a :
  acc_ok ltb a →
  ∃ r a' m, Add ltb clk name value sender a = (Ok r, a') ∧
    GetAll ltb a' name = Some (name, m) ∧ NoDup m.*1 ∧
    map_find Identity_ltb sender m
      = Some (default value (map_find Identity_ltb sender (parts_of ltb a name))) ∧
    (∀ s, s ≠ sender → map_find Identity_ltb s m = map_find Identity_ltb s (parts_of ltb a name)) ∧
    r = (if quorum_ a <=? length m then Some (name, m) else None).
Proof.
  intros Ha. destruct (Add_find clk name value sender a Ha) as (a' & Hr & Ha' & _ & _ & Hm & _).
  rewrite <-(parts_of_lru a name Ha) in Hr, Hm.
  pose proof (parts_of_ok a name Ha) as Hok.
  eexists _, a', _. split; [exact Hr|]. split; [|split; [|split; [|split; [|done]]]].
  - rewrite GetAll_lru by done. destruct (map_find ltb name (lru_of ltb a')) as [[m s]|]; [|done].
    cbn in Hm |- *. by injection Hm as ->.
  - by apply (map_ok_NoDup Identity_ltb), (map_insert_ok Identity_ltb).
  - rewrite (map_find_insert Identity_ltb) by done. rewrite (key_equiv_refl Identity_ltb).
    by destruct (map_find Identity_ltb sender (parts_of ltb a name)).
  - intros s Hs. rewrite (map_find_insert Identity_ltb) by done.
    by rewrite (key_equiv_ne Identity_ltb sender s) by done.
Qed.

(** [Add] loses nothing that is not expired: the parts held for every other
    name stay as they are, or the name was created more than the time to live
    before a clock reading of the call and is gone; a part for a name already
    held evicts nothing at all. *)
Theorem Add_keeps_unexpired clk name value sender a a' r n :
  acc_ok ltb a → Add ltb clk name value sender a = (Ok r, a') → n ≠ name →
  GetAll ltb a' n = GetAll ltb a n ∨
  (HaveName ltb a name = false ∧ GetAll ltb a' n = None ∧
   ∃ e j, find_entry ltb n a = Some e ∧ time_to_live_ a ≠ 0%Z ∧
          (stamp e + time_to_live_ a < clk j)%Z).
Proof.
  intros Ha Hadd Hn. destruct (Add_find clk name value sender a Ha)
    as (a1 & Heq & Ha1 & _ & _ & _ & Hother).
  rewrite Hadd in Heq. injection Heq as -> <-. rewrite !GetAll_lru by done.
  rewrite (Hother n Hn). destruct (HaveName ltb a name); [by left|].
  destruct (lru_expire_find (time_to_live_ a) clk 0 (lru_of ltb a) n) as [->|(-> & Httl & m & s & j & Hf & Hs)];
    [by apply lru_of_names|by left|right].
  rewrite find_lru_of in Hf by done. destruct (find_entry ltb n a) as [e|]; [|done].
  do 2 (split; [done|]). exists e, j. cbn in Hf. by injection Hf as <- <-.
Qed.

(** [Delete] removes the entry of its key and no other, whatever the clock
    shows and whether or not the key is there. *)
Theorem Delete_exact clk key a :
  acc_ok ltb a →
  ∃ a', Delete ltb clk key a = (Ok tt, a') ∧ acc_ok ltb a' ∧ GetAll ltb a' key = None ∧
    ∀ n, n ≠ key → GetAll ltb a' n = GetAll ltb a n.
Proof.
  intros Ha. destruct (Delete_run ltb clk key a Ha) as (a' & Hr & Ha' & Hl & _).
  exists a'. do 2 (split; [done|]).
  rewrite !GetAll_lru, Hl, map_find_lru_erase, (key_equiv_refl ltb) by done. split; [done|].
  intros n Hn. by rewrite !GetAll_lru, Hl, map_find_lru_erase, (key_equiv_ne ltb key n) by done.
Qed.
End props.

(** ** Witnesses *)
Module AccumulatorWitness.
Import Concrete.
#[local] Existing Instance release_build.

Definition sender (i : N) : Address := i.

(** Readings of a clock that stands at [t]. *)
Definition at_time (t : Z) : nat → Z := λ _, t.

Definition adds (l : list (Z * N * N * N)) : list (acc_op N N) :=
  (λ '(t, name, value, s), op_Add (at_time t) name value (sender s)) <$> l.

(** An accumulator with a time to live of 10 and a quorum of 2, after parts for
    the names 5 and 6. *)
Definition two_names : Accumulator N N :=
  (run_ops N.ltb (adds [(0%Z, 5, 50, 1); (1%Z, 6, 60, 1)]%N) (Accumulator_new 10 2)).2.

Lemma two_names_ok : acc_ok N.ltb two_names.
Proof. apply (run_ops_ok N.ltb), (Accumulator_new_ok N.ltb). Qed.

Lemma accumulator_refines_witness :
  ∃ a, run_ops N.ltb (adds [(0%Z, 5, 50, 1); (1%Z, 5, 51, 2); (20%Z, 6, 60, 1)]%N)
         (Accumulator_new 10 2)
       = (Ok [None; Some (5%N, [(sender 1, 50%N); (sender 2, 51%N)]); None], a) ∧ size a = 1.
Proof.
  pose proof (accumulator_refines N.ltb 10 2
    (adds [(0%Z, 5, 50, 1); (1%Z, 5, 51, 2); (20%Z, 6, 60, 1)]%N)) as (a & Hr & _ & Hs & _).
  exists a. split; [exact Hr|exact Hs].
Defined.

Lemma Add_quorum_witness :
  ∃ r a' m, Add N.ltb (at_time 2) 5%N 51%N (sender 2) two_names = (Ok r, a') ∧
    GetAll N.ltb a' 5%N = Some (5%N, m) ∧ NoDup m.*1 ∧
    map_find Identity_ltb (sender 2) m
      = Some (default 51%N (map_find Identity_ltb (sender 2) (parts_of N.ltb two_names 5%N))) ∧
    (∀ s, s ≠ sender 2 →
       map_find Identity_ltb s m = map_find Identity_ltb s (parts_of N.ltb two_names 5%N)) ∧
    r = (if quorum_ two_names <=? length m then Some (5%N, m) else None).
Proof. apply (Add_quorum N.ltb (at_time 2) 5%N 51%N (sender 2) two_names), two_names_ok. Defined.

Lemma Add_keeps_unexpired_witness :
  let a' := (Add N.ltb (at_time 2) 7%N 70%N (sender 2) two_names).2 in
  GetAll N.ltb a' 6%N = GetAll N.ltb two_names 6%N ∨
  (HaveName N.ltb two_names 7%N = false ∧ GetAll N.ltb a' 6%N = None ∧
   ∃ e j, find_entry N.ltb 6%N two_names = Some e ∧ time_to_live_ two_names ≠ 0%Z ∧
          (stamp e + time_to_live_ two_names < at_time 2 j)%Z).
Proof.
  apply (Add_keeps_unexpired N.ltb (at_time 2) 7%N 70%N (sender 2) two_names _ None 6%N);
    [apply two_names_ok|apply run_fst; vm_refl|discriminate].
Defined.

Lemma Delete_exact_witness :
  ∃ a', Delete N.ltb (at_time 2) 5%N two_names = (Ok tt, a') ∧ acc_ok N.ltb a' ∧
    GetAll N.ltb a' 5%N = None ∧ ∀ n, n ≠ 5%N → GetAll N.ltb a' n = GetAll N.ltb two_names n.
Proof. apply (Delete_exact N.ltb (at_time 2) 5%N two_names), two_names_ok. Defined.

(** The comments of [AddNew] say that the entries whose time expired are at the
    beginning of the list and are removed.  A part for a held name moves it to
    the end without a new time, so here the name 5 of time 0, used again at
    time 9, outlives its time to live of 10 behind the name 6 of time 9. *)
Theorem expired_entry_survives :
  let a := (run_ops N.ltb (adds [(0%Z, 5, 50, 1); (9%Z, 6, 60, 1); (9%Z, 5, 51, 2);
                                 (15%Z, 7, 70, 1)]%N) (Accumulator_new 10 3)).2 in
  stamp <$> find_entry N.ltb 5%N a = Some 0%Z ∧ HaveName N.ltb a 5%N = true.
Proof. split; vm_refl. Qed.
End AccumulatorWitness.
