(* ===== verification/PartStore.v ===== *)
(** * What an accumulator promises

    The interface between the accumulator and the sentinel: a store of the parts
    that senders give under a name.  The sentinel's theorems use these laws and
    nothing else of [Accumulator]; the instance at the end discharges them. *)

From S2P Require Import Prelude CppStd Identity Types Accumulator AccumulatorProps.

Class PartStore `{IdentityOps} (Store N V : Type) := {
  store_ok : Store → Prop;
  store_since : Z → Store → Prop; (* no name of the store is older *)
  store_ttl : Store → Z; (* the time to live *)
  store_quorum : Store → nat;
  store_parts : Store → N → Map V;
  store_Add : (nat → Z) → N → V → Address → prog Store (option (N * Map V));
  store_Delete : (nat → Z) → N → prog Store unit;
  store_GetAll : Store → N → option (N * Map V)
}.

(** [s'] has the constants of [s]. *)
Definition store_like {Store N V : Type} `{PartStore Store N V} (s s' : Store) : Prop :=
  store_quorum s' = store_quorum s ∧ store_ttl s' = store_ttl s.

(** The readings of a clock during the time to live after [t]. *)
Definition clock_within (t ttl : Z) (clk : nat → Z) : Prop := ∀ j, (t ≤ clk j ≤ t + ttl)%Z.

Class PartStoreLaws {Store N V : Type} `{PartStore Store N V} : Prop := {
  store_parts_ok : ∀ s n, store_ok s → map_ok Identity_ltb (store_parts s n);
  (** A part joins the parts under its name, and the quorum decides whether they
      are returned; nothing else joins any name, and what is under other names
      stays as it is within the time to live. *)
  store_Add_law : ∀ clk name value sender s, store_ok s →
    ∃ s', store_Add clk name value sender s =
            (Ok (if store_quorum s <=? length (store_parts s' name)
                 then Some (name, store_parts s' name) else None), s') ∧
      store_ok s' ∧ store_like s s' ∧
      store_parts s' name = (map_insert Identity_ltb sender value (store_parts s name)).1 ∧
      (∀ n p, p ∈ store_parts s' n → (n = name ∧ p = (sender, value)) ∨ p ∈ store_parts s n) ∧
      (∀ t, store_since t s → clock_within t (store_ttl s) clk →
         store_since t s' ∧ ∀ n, n ≠ name → store_parts s' n = store_parts s n);
  (** Deleting a name deletes nothing else. *)
  store_Delete_law : ∀ clk key s, store_ok s →
    ∃ s', store_Delete clk key s = (Ok tt, s') ∧ store_ok s' ∧ store_like s s' ∧
      store_parts s' key = [] ∧ (∀ n p, p ∈ store_parts s' n → p ∈ store_parts s n) ∧
      (∀ n, n ≠ key → store_parts s' n = store_parts s n) ∧
      (∀ t, store_since t s → store_since t s');
  (** [GetAll] gives the parts, if there are any. *)
  store_GetAll_Some : ∀ s n x, store_GetAll s n = Some x → x = (n, store_parts s n);
  store_GetAll_parts : ∀ s n, store_parts s n ≠ [] → store_GetAll s n = Some (n, store_parts s n)
}.

Section client.
Context `{IL : IdentityLaws} {Store N V : Type} `{PS : !PartStore Store N V} `{PL : !PartStoreLaws (Store:=Store)}.
Implicit Types (s : Store).

(** A relation between names, senders and values that all parts satisfy. *)
Definition store_all (P : N → Address → V → Prop) s : Prop :=
  ∀ name a v, (a, v) ∈ store_parts s name → P name a v.

Lemma store_Add_ends P clk name value sender s :
  store_ok s → store_all P s → P name sender value →
  ends (store_Add clk name value sender) s
    (λ r s', store_ok s' ∧ store_all P s' ∧ store_like s s' ∧
       store_parts s' name = (map_insert Identity_ltb sender value (store_parts s name)).1 ∧
       r = (if store_quorum s <=? length (store_parts s' name)
            then Some (name, store_parts s' name) else None) ∧
       (∀ t, store_since t s → clock_within t (store_ttl s) clk →
          store_since t s' ∧ ∀ n, n ≠ name → store_parts s' n = store_parts s n) ∧
       (∀ n, n ≠ name → store_parts s' n ⊆ store_parts s n))
    (λ _, False).
Proof.
  intros Hs HP Hv. destruct (store_Add_law clk name value sender s Hs)
    as (s' & Hr & Hs' & Hl & Hparts & Hsub & Ht). unfold ends. rewrite Hr.
  split_and!; try done.
  - intros n a v [[-> [= -> ->]]|Hin]%Hsub; [done|by apply HP].
  - intros n Hn p [[-> _]|Hin]%Hsub; done.
Qed.

Lemma store_Delete_ends P clk key s :
  store_ok s → store_all P s →
  ends (store_Delete clk key) s
    (λ _ s', store_ok s' ∧ store_all P s' ∧ store_like s s' ∧
       (∀ n, n ≠ key → store_parts s' n = store_parts s n) ∧
       (∀ t, store_since t s → store_since t s') ∧ store_parts s' key = [])
    (λ _, False).
Proof.
  intros Hs HP. destruct (store_Delete_law clk key s Hs) as (s' & Hr & Hs' & Hl & He & Hsub & Hn & Ht).
  unfold ends. rewrite Hr. split_and!; try done. intros n a v Hin%Hsub. by apply HP.
Qed.

Lemma store_all_weaken (P Q : N → Address → V → Prop) s :
  store_all P s → (∀ n a v, P n a v → Q n a v) → store_all Q s.
Proof. intros HP HPQ n a v Hin. by apply HPQ, HP. Qed.

Lemma store_all_elem P s name v :
  store_all P s → v ∈ (store_parts s name).*2 → ∃ a, P name a v.
Proof. intros HP ([a v'] & -> & Hin)%list_elem_of_fmap. exists a. by apply HP. Qed.

(** The senders under a name are never fewer after a part of the name. *)
Lemma store_senders_Add name value sender s s' :
  store_ok s → store_parts s' name = (map_insert Identity_ltb sender value (store_parts s name)).1 →
  sender ∈ (store_parts s' name).*1 ∧
  (store_parts s name).*1 ⊆ (store_parts s' name).*1.
Proof.
  intros Hs ->. pose proof (store_parts_ok s name Hs) as Hok.
  assert (∀ a, is_Some (map_find Identity_ltb a (map_insert Identity_ltb sender value (store_parts s name)).1)
    → a ∈ (map_insert Identity_ltb sender value (store_parts s name)).1.*1) as Hin.
  { intros a [v Hf]. apply (map_find_elem Identity_ltb) in Hf. by apply (list_elem_of_fmap_2 fst _ (a, v)). }
  split.
  - apply Hin. rewrite (map_find_insert Identity_ltb), (key_equiv_refl Identity_ltb) by done.
    by destruct (map_find _ _ _).
  - intros a ([a' v] & -> & Hav)%list_elem_of_fmap. apply Hin.
    rewrite (map_find_insert Identity_ltb) by done. cbn [fst].
    rewrite (map_elem_find Identity_ltb _ _ _ Hok Hav). by destruct (key_equiv _ _ _).
Qed.
End client.

(** ** The accumulator keeps the promises *)
Section accumulator.
Context `{IO : IdentityOps} `{IL : !IdentityLaws} `{BM : BuildMode}.
Context {N V : Type} (ltb : N → N → bool) `{!StrictTotal ltb}.

Definition accumulator_store : PartStore (Accumulator N V) N V := {|
  store_ok := acc_ok ltb;
  store_since t a := Forall (λ x, (t ≤ x.2.2)%Z) (lru_of ltb a);
  store_ttl := time_to_live_;
  store_quorum := quorum_;
  store_parts := parts_of ltb;
  store_Add := Add ltb;
  store_Delete := Delete ltb;
  store_GetAll := GetAll ltb
|}.
#[local] Existing Instance accumulator_store.

(** Nothing expires within the time to live. *)
Lemma lru_expire_within t ttl clk i (l : Lru N V) :
  Forall (λ x, (t ≤ x.2.2)%Z) l → clock_within t ttl clk → (lru_expire ttl clk i l).2 = l.
Proof.
  intros Hl Hc. destruct l as [|[n [m s]] l]; [done|]. apply Forall_cons in Hl as [Hs _].
  cbn in *. specialize (Hc i). by rewrite (proj2 (Z.ltb_ge _ _)), andb_false_r by lia.
Qed.

Lemma lru_add_since t ttl quorum clk name value sender (l : Lru N V) :
  Forall (λ x, (t ≤ x.2.2)%Z) l → clock_within t ttl clk →
  Forall (λ x, (t ≤ x.2.2)%Z) (lru_add ltb ttl quorum clk name value sender l).2.
Proof.
  intros Hl Hc. unfold lru_add. destruct (map_find ltb name l) as [[m s]|] eqn:Hf.
  - apply Forall_app. split; [by eapply Forall_sublist, Hl; apply map_erase_sublist|].
    apply Forall_singleton. apply (map_find_elem ltb) in Hf. by apply (proj1 (Forall_forall _ _) Hl) in Hf.
  - pose proof (lru_expire_within t ttl clk 0 l Hl Hc) as He. destruct (lru_expire _ _ _ _) as [i l'].
    cbn in He. subst l'. apply Forall_app. split; [done|]. apply Forall_singleton. apply Hc.
Qed.

#[export] Instance accumulator_store_laws : PartStoreLaws (Store:=Accumulator N V).
Proof.
  split; cbn.
  - by apply parts_of_ok.
  - intros clk name value sender a Ha.
    destruct (Add_find ltb clk name value sender a Ha) as (a' & Hr & Ha' & Ht & Hq & Hm & Hother).
    assert (parts_of ltb a' name = (map_insert Identity_ltb sender value (parts_of ltb a name)).1) as Hp.
    { rewrite !parts_of_lru by done. destruct (map_find ltb name (lru_of ltb a')) as [[m s]|]; [|done].
      cbn in Hm |- *. by injection Hm as ->. }
    exists a'. rewrite Hp, parts_of_lru by done. split_and!; try done.
    + intros n p Hin. by eapply parts_of_Add.
    + intros t Hsince Hc. split.
      * pose proof (Add_run ltb clk name value sender a Ha) as Hrun.
        pose proof (lru_add_since t _ (quorum_ a) clk name value sender _ Hsince Hc) as Hl.
        destruct (lru_add _ _ _ _ _ _ _ _) as [r l]. destruct Hrun as (a1 & Hr1 & _ & Hl1 & _).
        rewrite Hr in Hr1. injection Hr1 as _ <-. by rewrite Hl1.
      * intros n Hn. rewrite !parts_of_lru, Hother by done. f_equal.
        destruct (HaveName ltb a name); [done|]. by rewrite (lru_expire_within t).
  - intros clk key a Ha. destruct (Delete_run ltb clk key a Ha) as (a' & Hr & Ha' & Hl & Ht & Hq).
    exists a'. assert (∀ n, parts_of ltb a' n = if key_equiv ltb key n then [] else parts_of ltb a n) as Hp.
    { intros n. rewrite !parts_of_lru, Hl, map_find_lru_erase by done. by destruct (key_equiv _ _ _). }
    split_and!; try done.
    + by rewrite Hp, (key_equiv_refl ltb).
    + intros n p. rewrite Hp. destruct (key_equiv _ _ _); [by intros ?%elem_of_nil|done].
    + intros n Hn. by rewrite Hp, (key_equiv_ne ltb key n) by done.
    + intros t. rewrite Hl. apply Forall_sublist, map_erase_sublist.
  - intros a n x. unfold parts_of, GetAll. by destruct (find_entry _ _ _); intros [= <-].
  - intros a n. unfold parts_of, GetAll. by destruct (find_entry _ _ _).
Qed.
End accumulator.
