(* ===== verification/MessageHeader.v ===== *)
(** * The message header ([message_header.h])

    The header that goes before every message: its constructors with their
    validation, its accessors, the address a reply goes to, and its
    comparisons. *)

From S2P Require Import Prelude CppStd Identity Types.

Section header.
Context `{IO : IdentityOps} `{CO : !CryptoOps}.

Record MessageHeader := mkHeader {
  destination_ : DestinationAddress;
  source_ : SourceAddress;
  message_id_ : MessageId;
  authority_ : Authority;
  signature_ : option Signature
}.

#[global] Instance MessageHeader_eq_dec : EqDecision MessageHeader.
Proof. solve_decision. Defined.

(** ** Accessors *)
Definition FromNode (h : MessageHeader) : NodeAddress := node_address (source_ h).
Definition FromGroup (h : MessageHeader) : option GroupAddress := group_address (source_ h).
Definition ReplyTo (h : MessageHeader) : option ReplyToAddress := reply_to_address (source_ h).
Definition RelayedMessage (h : MessageHeader) : bool :=
  match reply_to_address (source_ h) with Some _ => true | None => false end.

Definition FromAddress (h : MessageHeader) : Address :=
  match FromGroup h with
  | Some g => g
  | None => FromNode h
  end.

(** [*ReplyToAddress()] is read only when there is one. *)
Definition ReturnDestinationAddress (h : MessageHeader) : DestinationAddress :=
  if RelayedMessage h then (node_address (source_ h), ReplyTo h)
  else (node_address (source_ h), None).

Definition FilterValue (h : MessageHeader) : FilterType := (node_address (source_ h), message_id_ h).

(** ** Construction *)
Definition initialised_opt (o : option Address) : bool :=
  match o with Some a => IsInitialised a | None => false end.

Definition header_valid (h : MessageHeader) : bool :=
  IsInitialised (node_address (source_ h)) ||
  (initialised_opt (FromGroup h) || (RelayedMessage h && initialised_opt (ReplyTo h))) ||
  (match FromGroup h with Some _ => true | None => false end && RelayedMessage h).

Definition Header_Validate (h : MessageHeader) : outcome unit :=
  if header_valid h then Ok tt else Throw parsing_error.

(** The constructor with a signature, and the one without. *)
Definition MessageHeader_signed (destination : DestinationAddress) (source : SourceAddress)
    (message_id : MessageId) (our_authority : Authority) (signature : Signature)
    : outcome MessageHeader :=
  let h := mkHeader destination source message_id our_authority (Some signature) in
  Header_Validate h;; Ok h.

Definition MessageHeader_new (destination : DestinationAddress) (source : SourceAddress)
    (message_id : MessageId) (our_authority : Authority) : outcome MessageHeader :=
  let h := mkHeader destination source message_id our_authority None in
  Header_Validate h;; Ok h.

(** The move constructor and the move assignment, member by member. *)
Definition MessageHeader_move (other : MessageHeader) : MessageHeader :=
  mkHeader (destination_ other) (source_ other) (message_id_ other) (authority_ other) (signature_ other).

(** ** Comparisons *)
Definition header_tie (h : MessageHeader) :=
  (message_id_ h, (destination_ h, (source_ h, (authority_ h, signature_ h)))).

Definition header_eqb (a b : MessageHeader) : bool :=
  bool_decide (message_id_ a = message_id_ b) && bool_decide (destination_ a = destination_ b) &&
  source_eqb (source_ a) (source_ b) && bool_decide (authority_ a = authority_ b) &&
  bool_decide (signature_ a = signature_ b).

Definition authority_ltb (a b : Authority) : bool := (Authority_value a <? Authority_value b)%Z.

(** [std::tie] compares lexicographically. *)
Definition header_ltb (a b : MessageHeader) : bool :=
  pair_ltb Z.ltb
    (pair_ltb (pair_ltb Identity_ltb (option_ltb Identity_ltb))
      (pair_ltb source_ltb (pair_ltb authority_ltb (option_ltb Signature_ltb))))
    (header_tie a) (header_tie b).

Definition header_neb (a b : MessageHeader) : bool := negb (header_eqb a b).
Definition header_gtb (a b : MessageHeader) : bool := header_ltb b a.
Definition header_leb (a b : MessageHeader) : bool := negb (header_gtb a b).
Definition header_geb (a b : MessageHeader) : bool := negb (header_ltb a b).
End header.

(** No member is left out of a move. *)
Lemma MessageHeader_move_same `{IO : IdentityOps} `{CO : !CryptoOps} (h : MessageHeader) : MessageHeader_move h = h.
Proof. by destruct h. Qed.

(** ** Laws *)
Section header_laws.
Context `{IO : IdentityOps} `{IL : !IdentityLaws} `{CO : !CryptoOps} `{CL : !CryptoLaws}.

(** A comparator pulled back along an injective function. *)
Lemma total_inj {A B} (f : A → B) (ltb : B → B → bool) :
  StrictTotal ltb → Inj (=) (=) f → StrictTotal (λ x y, ltb (f x) (f y)).
Proof.
  intros Ht Hf. split.
  - intros x. apply (ltb_irrefl (ltb:=ltb)).
  - intros x y z. apply (ltb_trans (ltb:=ltb)).
  - intros x y H1 H2. by apply Hf, (ltb_total (ltb:=ltb)).
Qed.

#[export] Instance source_ltb_total : StrictTotal source_ltb.
Proof. apply (total_inj source_tie); [apply _|]. by intros [] [] [= -> -> ->]. Qed.

#[export] Instance authority_ltb_total : StrictTotal authority_ltb.
Proof. apply (total_inj Authority_value); [apply _|]. by intros [] []. Qed.

#[export] Instance header_ltb_total : StrictTotal header_ltb.
Proof. apply (total_inj header_tie); [apply _|]. by intros [] [] [= -> -> -> -> ->]. Qed.

Lemma source_eqb_spec a b : source_eqb a b = true ↔ a = b.
Proof.
  unfold source_eqb. rewrite !andb_true_iff, !bool_decide_eq_true. destruct a, b; simpl.
  split; [by intros [[-> ->] ->]|by intros [= -> -> ->]].
Qed.

(** The comparison operators of headers agree: [==] is equality, and of
    [a < b], [a == b] and [a > b] exactly one holds, with [<=] and [>=] the
    complements; [<] is transitive, so headers can key a map. *)
Theorem header_comparisons (a b c : MessageHeader) :
  (header_eqb a b = true ↔ a = b) ∧
  (header_leb a b = header_ltb a b || header_eqb a b) ∧
  (header_geb a b = header_gtb a b || header_eqb a b) ∧
  (header_ltb a b && header_gtb a b = false) ∧
  (header_ltb a b = true → header_ltb b c = true → header_ltb a c = true).
Proof.
  assert (header_eqb a b = true ↔ a = b) as Heq.
  { unfold header_eqb. rewrite !andb_true_iff, source_eqb_spec, !bool_decide_eq_true.
    destruct a, b; simpl. split; [by intros [[[[-> ->] ->] ->] ->]|by intros [= -> -> -> -> ->]]. }
  destruct (comparisons_agree header_ltb header_eqb a b Heq) as (H1 & H2 & H3).
  split_and!; try done. apply (ltb_trans (ltb:=header_ltb)).
Qed.

(** What a source must name for a header with it to be constructed. *)
Definition source_named (s : SourceAddress) : Prop :=
  IsInitialised (node_address s) = true ∨
  (∃ g, group_address s = Some g ∧ IsInitialised g = true) ∨
  (∃ r, reply_to_address s = Some r ∧ IsInitialised r = true) ∨
  (is_Some (group_address s) ∧ is_Some (reply_to_address s)).

Lemma header_valid_spec h : header_valid h = true ↔ source_named (source_ h).
Proof.
  unfold header_valid, source_named, FromGroup, RelayedMessage, ReplyTo.
  rewrite !orb_true_iff, !andb_true_iff.
  destruct (source_ h) as [n g r]; simpl. split.
  - intros [[Hn|[Hg|[Hr1 Hr2]]]|[Hg Hr]]; destruct g, r; simpl in *; naive_solver.
  - intros [Hn|[(g' & -> & Hg)|[(r' & -> & Hr)|[[g' ->] [r' ->]]]]]; simpl; auto.
Qed.

(** Construction of a header, with or without a signature, gives the header
    asked for when the source names an initialised node, an initialised group,
    an initialised reply-to address, or both a group and a reply-to address, and
    throws [parsing_error] otherwise. *)
Theorem MessageHeader_construction d s m auth (sig : option Signature) :
  let r := match sig with
           | Some g => MessageHeader_signed d s m auth g
           | None => MessageHeader_new d s m auth
           end in
  (source_named s ∧ r = Ok (mkHeader d s m auth sig)) ∨ (¬ source_named s ∧ r = Throw parsing_error).
Proof.
  set (h := mkHeader d s m auth sig). pose proof (header_valid_spec h) as Hv. cbn in Hv.
  assert (∀ b, header_valid h = b → match sig with
           | Some g => MessageHeader_signed d s m auth g
           | None => MessageHeader_new d s m auth
           end = if b then Ok h else Throw parsing_error) as Hr.
  { intros b <-. unfold MessageHeader_signed, MessageHeader_new, Header_Validate, h.
    by destruct sig, (header_valid _). }
  rewrite (Hr _ eq_refl). destruct (header_valid h); naive_solver.
Qed.
End header_laws.

(** ** Witnesses *)
Module HeaderWitness.
Import Concrete.

Definition header (id : Z) : MessageHeader :=
  mkHeader (7%N, None) (mkSource 3%N None None) id client None.

Lemma header_comparisons_witness : header_ltb (header 1) (header 3) = true.
Proof.
  destruct (header_comparisons (header 1) (header 2) (header 3)) as (_ & _ & _ & _ & Htrans).
  apply Htrans; reflexivity.
Defined.
End HeaderWitness.
