(* ===== verification/Codec.v ===== *)
(** * Serialisation

    [Serialise] and [Parse] are maidsafe-common's and cereal's: an archive
    writes the fields of an object one after the other and reads them back in
    the same order.  A [Codec] is the pair of the two directions; the codecs of
    the types that are not of this repository are parameters, with the round
    trip the archive documents for them.  On top of them stand the [serialize],
    [save] and [load] functions of the repository ([utils.h], [types.h],
    [source_address.h], [message_header.h]). *)

From S2P Require Import Prelude CppStd Identity Types MessageHeader.

Record Codec (A : Type) := mkCodec {
  enc : A → list byte;
  dec : list byte → option (A * list byte)
}.
Arguments mkCodec {_} _ _.
Arguments enc {_} _ _.
Arguments dec {_} _ _.

(** What was written is read back, and the reader stops where the writer did. *)
Definition roundtrips {A} (P : A → Prop) (c : Codec A) : Prop :=
  ∀ a rest, P a → dec c (enc c a ++ rest) = Some (a, rest).

(** [archive (x, y)] *)
Definition codec_pair {A B} (ca : Codec A) (cb : Codec B) : Codec (A * B) := mkCodec
  (λ '(a, b), enc ca a ++ enc cb b)
  (λ s, match dec ca s with
        | None => None
        | Some (a, s') => match dec cb s' with
                          | None => None
                          | Some (b, s'') => Some ((a, b), s'')
                          end
        end).

(** The fields of a class [B] as a tuple [A]. *)
Definition codec_iso {A B} (fields : B → A) (make : A → B) (c : Codec A) : Codec B := mkCodec
  (λ b, enc c (fields b))
  (λ s, match dec c s with None => None | Some (a, s') => Some (make a, s') end).

(** [n] elements in a row. *)
Fixpoint dec_n {A} (c : Codec A) (n : nat) (s : list byte) : option (list A * list byte) :=
  match n with
  | 0 => Some ([], s)
  | S n => match dec c s with
           | None => None
           | Some (a, s') => match dec_n c n s' with
                             | None => None
                             | Some (l, s'') => Some (a :: l, s'')
                             end
           end
  end.

(** [Parse<T>]: the exception of a failed read is [parsing_error]. *)
Definition Parse {A} (c : Codec A) (s : list byte) : outcome A :=
  match dec c s with
  | Some (a, _) => Ok a
  | None => Throw parsing_error
  end.

(** [Parse (stream, x)]: reading on from where the stream stands. *)
Definition ParseNext {A} (c : Codec A) (s : list byte) : outcome (A * list byte) :=
  match dec c s with
  | Some r => Ok r
  | None => Throw parsing_error
  end.

(** [Serialise (x)] *)
Definition Serialise {A} (c : Codec A) (a : A) : list byte := enc c a.

(** The archive's codecs. *)
Class ArchiveOps `{IdentityOps} `{!CryptoOps} := {
  NameAndTypeId : Type; (* [Data::NameAndTypeId] *)
  DataTypeId : Type;
  maidsafe_error : Type;
  ar_Identity : Codec Identity;
  ar_PublicKey : Codec PublicKey;
  ar_PublicPmid : Codec PublicPmid;
  ar_Signature : Codec Signature;
  ar_NameAndTypeId : Codec NameAndTypeId;
  ar_DataTypeId : Codec DataTypeId;
  ar_error : Codec maidsafe_error;
  ar_Authority : Codec Authority; (* an enumeration *)
  ar_uint16 : Codec Z;
  ar_uint32 : Codec Z;
  ar_size : Codec nat; (* [std::size_t] *)
  ar_array16 : Codec (list byte); (* [std::array<unsigned char, 16>] *)
  ar_vector : Codec (list byte); (* [std::vector<byte>] *)
  ar_option : ∀ {A}, Codec A → Codec (option A); (* [boost::optional] *)
  ar_keys : Codec (list (Identity * PublicKey)) (* [std::map<Address, PublicKey>] *)
}.

Definition size_ok {A} (l : list A) : Prop := (Z.of_nat (length l) < 2 ^ 64)%Z.

Class ArchiveLaws `{ArchiveOps} : Prop := {
  rt_Identity : roundtrips (λ _, True) ar_Identity;
  rt_PublicKey : roundtrips (λ _, True) ar_PublicKey;
  rt_PublicPmid : roundtrips (λ _, True) ar_PublicPmid;
  rt_Signature : roundtrips (λ _, True) ar_Signature;
  rt_NameAndTypeId : roundtrips (λ _, True) ar_NameAndTypeId;
  rt_DataTypeId : roundtrips (λ _, True) ar_DataTypeId;
  rt_error : roundtrips (λ _, True) ar_error;
  rt_Authority : roundtrips (λ _, True) ar_Authority;
  rt_uint16 : roundtrips (λ z, 0 ≤ z < 2 ^ 16)%Z ar_uint16;
  rt_uint32 : roundtrips (λ z, 0 ≤ z < 2 ^ 32)%Z ar_uint32;
  rt_size : roundtrips (λ n, Z.of_nat n < 2 ^ 64)%Z ar_size;
  rt_array16 : roundtrips (λ l, length l = 16) ar_array16;
  rt_vector : roundtrips size_ok ar_vector;
  rt_option : ∀ A (P : A → Prop) c,
    roundtrips P c → roundtrips (λ o, ∀ a, o = Some a → P a) (ar_option c);
  rt_keys : roundtrips (λ m, map_ok Identity_ltb m ∧ size_ok m) ar_keys;
  keys_sorted : ∀ s m rest, dec ar_keys s = Some (m, rest) → map_ok Identity_ltb m
}.

(** ** The repository's own types *)
Section codecs.
Context `{AO : ArchiveOps} `{EO : !EndpointOps}.

(** [save] and [load] of [Endpoint] ([utils.h]) *)
Definition Endpoint_save (endpoint : Endpoint) : list byte * Z :=
  let ip_address :=
    if is_v4 (ep_address endpoint) then v4_compatible (to_v4 (ep_address endpoint))
    else to_v6 (ep_address endpoint) in
  (v6_to_bytes ip_address, ep_port endpoint).

Definition Endpoint_load (fields : list byte * Z) : Endpoint :=
  let '(bytes, port) := fields in
  let ip_v6_address := v6_of_bytes bytes in
  let ip_address :=
    if is_v4_compatible ip_v6_address then ip_v4 (v6_to_v4 ip_v6_address)
    else ip_v6 ip_v6_address in
  ep_make ip_address port.

Definition Endpoint_codec : Codec Endpoint :=
  codec_iso Endpoint_save Endpoint_load (codec_pair ar_array16 ar_uint16).

Definition EndpointPair_codec : Codec EndpointPair :=
  codec_iso (λ p, (local p, external p)) (λ '(l, e), mkEndpointPair l e)
    (codec_pair Endpoint_codec Endpoint_codec).

Definition Contact_codec : Codec Contact :=
  codec_iso (λ c, (contact_id c, (endpoint_pair c, contact_public_key c)))
    (λ '(i, (e, k)), mkContact i e k)
    (codec_pair ar_Identity (codec_pair EndpointPair_codec ar_PublicKey)).

(** [types.h] *)
Definition DestinationAddress_codec : Codec DestinationAddress :=
  codec_pair ar_Identity (ar_option ar_Identity).

(** [source_address.h] *)
Definition SourceAddress_codec : Codec SourceAddress :=
  codec_iso (λ s, (node_address s, (group_address s, reply_to_address s)))
    (λ '(n, (g, r)), mkSource n g r)
    (codec_pair ar_Identity (codec_pair (ar_option ar_Identity) (ar_option ar_Identity))).

(** [message_header.h] *)
Definition MessageHeader_codec : Codec MessageHeader :=
  codec_iso (λ h, (destination_ h, (source_ h, (message_id_ h, (authority_ h, signature_ h)))))
    (λ '(d, (s, (m, (a, g)))), mkHeader d s m a g)
    (codec_pair DestinationAddress_codec (codec_pair SourceAddress_codec
      (codec_pair ar_uint32 (codec_pair ar_Authority (ar_option ar_Signature))))).
End codecs.

(** ** Round trips *)
Create HintDb codec.
#[export] Hint Opaque Endpoint_codec EndpointPair_codec Contact_codec DestinationAddress_codec
  SourceAddress_codec MessageHeader_codec : codec.

Lemma rt_pair {A B} (P : A → Prop) (Q : B → Prop) ca cb :
  roundtrips P ca → roundtrips Q cb → roundtrips (λ p, P p.1 ∧ Q p.2) (codec_pair ca cb).
Proof.
  intros Ha Hb [a b] rest [Hp Hq]. cbn in *. rewrite <-(assoc_L (++)), Ha by done.
  by rewrite Hb.
Qed.

Lemma iso_read {A B} (P : A → Prop) (fields : B → A) (make : A → B) c b rest :
  roundtrips P c → P (fields b) →
  dec (codec_iso fields make c) (enc (codec_iso fields make c) b ++ rest)
  = Some (make (fields b), rest).
Proof. intros Hc Hp. cbn. by rewrite Hc. Qed.

Lemma rt_iso {A B} (P : A → Prop) (fields : B → A) (make : A → B) c :
  roundtrips P c →
  roundtrips (λ b, P (fields b) ∧ make (fields b) = b) (codec_iso fields make c).
Proof. intros Hc b rest [Hp Hm]. by rewrite (iso_read P), Hm. Qed.

Lemma rt_weaken {A} (P Q : A → Prop) c : roundtrips P c → (∀ a, Q a → P a) → roundtrips Q c.
Proof. intros Hc Hq a rest Ha. by apply Hc, Hq. Qed.

Lemma dec_n_enc {A} (P : A → Prop) c l rest :
  roundtrips P c → Forall P l → dec_n c (length l) (concat (enc c <$> l) ++ rest) = Some (l, rest).
Proof.
  intros Hc. induction 1 as [|a l Ha Hl IH]; [done|]. cbn.
  rewrite <-(assoc_L (++)), Hc by done. by rewrite IH.
Qed.

Lemma Parse_Serialise {A} (P : A → Prop) c a : roundtrips P c → P a → Parse c (Serialise c a) = Ok a.
Proof.
  intros Hc Ha. unfold Parse, Serialise. rewrite <-(app_nil_r (enc c a)). by rewrite Hc.
Qed.

Lemma ParseNext_Serialise {A} (P : A → Prop) c a rest :
  roundtrips P c → P a → ParseNext c (Serialise c a ++ rest) = Ok (a, rest).
Proof. intros Hc Ha. unfold ParseNext, Serialise. by rewrite Hc. Qed.

(** What is read may differ from what was written: [f a] for [a]. *)
Definition transmits {A} (P : A → Prop) (f : A → A) (c : Codec A) : Prop :=
  ∀ a rest, P a → dec c (enc c a ++ rest) = Some (f a, rest).

Lemma roundtrips_transmits {A} (P : A → Prop) c : roundtrips P c → transmits P (λ a, a) c.
Proof. done. Qed.

Lemma tr_pair {A B} (P : A → Prop) (Q : B → Prop) f g ca cb :
  transmits P f ca → transmits Q g cb →
  transmits (λ p, P p.1 ∧ Q p.2) (λ p, (f p.1, g p.2)) (codec_pair ca cb).
Proof.
  intros Ha Hb [a b] rest [Hp Hq]. cbn in *. rewrite <-(assoc_L (++)), Ha by done.
  by rewrite Hb.
Qed.

Lemma tr_iso {A B} (P : A → Prop) f (fields : B → A) (make : A → B) c :
  transmits P f c →
  transmits (λ b, P (fields b)) (λ b, make (f (fields b))) (codec_iso fields make c).
Proof. intros Hc b rest Hp. cbn. by rewrite Hc. Qed.

Lemma tr_as {A} (P Q : A → Prop) f g c :
  transmits P f c → (∀ a, Q a → P a ∧ f a = g a) → transmits Q g c.
Proof. intros Hc Hq a rest Ha. destruct (Hq a Ha) as [Hp <-]. by apply Hc. Qed.

Lemma Parse_transmits {A} (P : A → Prop) f c a :
  transmits P f c → P a → Parse c (Serialise c a) = Ok (f a).
Proof. intros Hc Ha. unfold Parse, Serialise. rewrite <-(app_nil_r (enc c a)). by rewrite Hc. Qed.

(** A codec of the shape above round trips where its parts do; the side
    condition is left. *)
Tactic Notation "by_parts" reference(c) := eapply rt_weaken; [cbn; unfold c; eauto 20 with codec|cbn].

#[export] Hint Resolve rt_Identity rt_PublicKey rt_PublicPmid rt_Signature rt_NameAndTypeId
  rt_DataTypeId rt_error rt_Authority rt_uint16 rt_uint32 rt_size rt_array16 rt_vector
  rt_option rt_keys rt_pair rt_iso : codec.

Section roundtrips.
Context `{AL : ArchiveLaws} `{EO : !EndpointOps} `{EL : !EndpointLaws}.

(** The addresses [save] and [load] handle: an IPv4 address whose IPv6 form is
    recognised as such, or an IPv6 address that is not such a form and has
    scope id 0. *)
Definition portable_address (a : IpAddress) : Prop :=
  if is_v4 a then is_v4_compatible (v4_compatible (to_v4 a)) = true
  else is_v4_compatible (to_v6 a) = false ∧ v6_of_bytes (v6_to_bytes (to_v6 a)) = to_v6 a.

Lemma Endpoint_load_save e :
  Endpoint_load (Endpoint_save e) = e ↔ portable_address (ep_address e).
Proof.
  unfold portable_address, Endpoint_load, Endpoint_save.
  destruct (is_v4 (ep_address e)) eqn:E; [rewrite v4_compatible_bytes|].
  - destruct (is_v4_compatible _) eqn:Hc; split; try done; intros Heq.
    + rewrite v6_to_v4_compatible, ip_v4_to_v4 by done. apply ep_make_eta.
    + rewrite <-Heq, ep_address_make, is_v4_ip_v6 in E. done.
  - split.
    + destruct (is_v4_compatible (v6_of_bytes _)) eqn:Hc; intros Heq.
      { by rewrite <-Heq, ep_address_make, is_v4_ip_v4 in E. }
      assert (v6_of_bytes (v6_to_bytes (to_v6 (ep_address e))) = to_v6 (ep_address e)) as Hb.
      { rewrite <-Heq at 2. by rewrite ep_address_make, to_v6_ip_v6. }
      split; [by rewrite <-Hb|done].
    + intros [Hc Hb]. rewrite Hb, Hc, ip_v6_to_v6 by done. apply ep_make_eta.
Qed.

Definition portable (e : Endpoint) : Prop :=
  portable_address (ep_address e) ∧ (0 ≤ ep_port e < 2 ^ 16)%Z.

Lemma rt_Endpoint : roundtrips portable Endpoint_codec.
Proof.
  by_parts Endpoint_codec. intros e [Ha Hp].
  split; [split; [apply v6_bytes_length|done]|by apply Endpoint_load_save].
Qed.

(** Any endpoint is read as [load] makes it of what [save] wrote. *)
Definition port_ok (e : Endpoint) : Prop := (0 ≤ ep_port e < 2 ^ 16)%Z.
Definition arrived_endpoint (e : Endpoint) : Endpoint := Endpoint_load (Endpoint_save e).

Lemma tr_Endpoint : transmits port_ok arrived_endpoint Endpoint_codec.
Proof.
  intros e rest He. unfold Endpoint_codec.
  rewrite (iso_read _ _ _ _ _ _ (rt_pair _ _ _ _ rt_array16 rt_uint16)); [done|].
  split; [apply v6_bytes_length|done].
Qed.

Definition ports_ok (p : EndpointPair) : Prop := port_ok (local p) ∧ port_ok (external p).
Definition arrived_pair (p : EndpointPair) : EndpointPair :=
  mkEndpointPair (arrived_endpoint (local p)) (arrived_endpoint (external p)).

Lemma tr_EndpointPair : transmits ports_ok arrived_pair EndpointPair_codec.
Proof. eapply tr_as; [apply tr_iso, tr_pair; apply tr_Endpoint|done]. Qed.

Definition portable_pair (p : EndpointPair) : Prop := portable (local p) ∧ portable (external p).

#[local] Hint Resolve rt_Endpoint : codec.

Lemma rt_EndpointPair : roundtrips portable_pair EndpointPair_codec.
Proof.
  by_parts EndpointPair_codec.
  intros [l e] [Hl He]. done.
Qed.

#[local] Hint Resolve rt_EndpointPair : codec.

Lemma rt_Contact : roundtrips (λ c, portable_pair (endpoint_pair c)) Contact_codec.
Proof.
  by_parts Contact_codec.
  by intros [i p k] Hp.
Qed.

Lemma rt_DestinationAddress : roundtrips (λ _, True) DestinationAddress_codec.
Proof.
  by_parts DestinationAddress_codec. done.
Qed.

Lemma rt_SourceAddress : roundtrips (λ _, True) SourceAddress_codec.
Proof.
  by_parts SourceAddress_codec. by intros [].
Qed.

#[local] Hint Resolve rt_DestinationAddress rt_SourceAddress : codec.

Definition header_sized (h : MessageHeader) : Prop := (0 ≤ message_id_ h < 2 ^ 32)%Z.

Lemma rt_MessageHeader : roundtrips header_sized MessageHeader_codec.
Proof.
  by_parts MessageHeader_codec. by intros [].
Qed.
End roundtrips.
#[export] Hint Resolve rt_Endpoint rt_EndpointPair rt_Contact rt_DestinationAddress
  rt_SourceAddress rt_MessageHeader : codec.
