(* ===== verification/ConcreteIO.v ===== *)
(** * A concrete archive and concrete endpoints

    Instances of the parameters [ArchiveOps] and [EndpointOps] that satisfy
    their laws, for the witnesses: an archive that writes every scalar as one
    element of the stream, and IP addresses as tuples of bytes that follow
    asio's rules on IPv4-compatible addresses. *)

From S2P Require Import Prelude CppStd Identity Types MessageHeader Codec.
Import Concrete.

Definition scalar {A} (f : A → Z) (g : Z → option A) : Codec A := mkCodec
  (λ a, [f a])
  (λ s, match s with
        | z :: s' => match g z with Some a => Some (a, s') | None => None end
        | [] => None
        end).

Definition N_codec : Codec N := scalar Z.of_N (λ z, if (z <? 0)%Z then None else Some (Z.to_N z)).
Definition Z_codec : Codec Z := scalar (λ z, z) Some.
Definition nat_codec : Codec nat :=
  scalar Z.of_nat (λ z, if (z <? 0)%Z then None else Some (Z.to_nat z)).

Definition authority_of (z : Z) : option Authority :=
  List.find (λ a, (Authority_value a =? z)%Z)
    [client_manager; nae_manager; node_manager; managed_node; node; client].

Definition option_codec {A} (c : Codec A) : Codec (option A) := mkCodec
  (λ o, match o with None => [0%Z] | Some a => 1%Z :: enc c a end)
  (λ s, match s with
        | 0%Z :: s' => Some (None, s')
        | 1%Z :: s' => match dec c s' with Some (a, s'') => Some (Some a, s'') | None => None end
        | _ => None
        end).

Definition list_codec {A} (c : Codec A) : Codec (list A) := mkCodec
  (λ l, enc nat_codec (length l) ++ concat (enc c <$> l))
  (λ s, match dec nat_codec s with
        | Some (n, s') => dec_n c n s'
        | None => None
        end).

(** A list of pairs that is not sorted is no map. *)
Definition keys_codec : Codec (list (N * N)) := mkCodec
  (enc (list_codec (codec_pair N_codec N_codec)))
  (λ s, match dec (list_codec (codec_pair N_codec N_codec)) s with
        | Some (m, s') => if strictly_sorted fst N.ltb m then Some (m, s') else None
        | None => None
        end).

#[export] Instance toy_archive : ArchiveOps := {|
  NameAndTypeId := N * N;
  DataTypeId := N;
  maidsafe_error := N;
  ar_Identity := N_codec;
  ar_PublicKey := N_codec;
  ar_PublicPmid := codec_pair N_codec N_codec;
  ar_Signature := N_codec;
  ar_NameAndTypeId := codec_pair N_codec N_codec;
  ar_DataTypeId := N_codec;
  ar_error := N_codec;
  ar_Authority := scalar Authority_value authority_of;
  ar_uint16 := Z_codec;
  ar_uint32 := Z_codec;
  ar_size := nat_codec;
  ar_array16 := list_codec Z_codec;
  ar_vector := list_codec Z_codec;
  ar_option := @option_codec;
  ar_keys := keys_codec
|}.

Lemma rt_scalar {A} (f : A → Z) g : (∀ a, g (f a) = Some a) → roundtrips (λ _, True) (scalar f g).
Proof. intros Hg a rest _. cbn. by rewrite Hg. Qed.

Lemma rt_N_codec : roundtrips (λ _, True) N_codec.
Proof.
  apply rt_scalar. intros n. rewrite (proj2 (Z.ltb_ge _ _)) by lia. by rewrite N2Z.id.
Qed.

Lemma rt_nat_codec : roundtrips (λ _, True) nat_codec.
Proof.
  apply rt_scalar. intros n. rewrite (proj2 (Z.ltb_ge _ _)) by lia. by rewrite Nat2Z.id.
Qed.

Lemma rt_Z_codec : roundtrips (λ _, True) Z_codec.
Proof. by apply rt_scalar. Qed.

Lemma rt_list {A} (c : Codec A) : roundtrips (λ _, True) c → roundtrips (λ _, True) (list_codec c).
Proof.
  intros Hc l rest _. cbn [list_codec enc dec]. rewrite <-(assoc_L (++)), rt_nat_codec by done.
  apply (dec_n_enc (λ _, True)); [done|by apply Forall_true].
Qed.

Lemma rt_NN : roundtrips (λ _, True) (codec_pair N_codec N_codec).
Proof. eapply rt_weaken; [apply rt_pair; apply rt_N_codec|done]. Qed.

Lemma rt_any {A} (P : A → Prop) c : roundtrips (λ _, True) c → roundtrips P c.
Proof. intros Hc. by eapply rt_weaken. Qed.

#[export] Instance toy_archive_laws : ArchiveLaws.
Proof.
  split; cbn; try (apply rt_any; by auto using rt_N_codec, rt_NN, rt_Z_codec, rt_nat_codec, rt_list).
  - apply rt_scalar. by intros [].
  - intros A P c Hc [a|] rest Ha; cbn; [|done]. by rewrite Hc by by apply Ha.
  - intros m rest [Hm Hs]. cbn [keys_codec enc dec].
    rewrite (rt_list _ rt_NN) by done.
    assert (strictly_sorted fst N.ltb m = true) as ->; [|done].
    unfold map_ok, sorted_by in Hm. induction Hm as [|x l Hl IH Hx]; [done|].
    destruct l as [|y l]; [done|]. cbn [strictly_sorted]. apply Forall_cons in Hx as [Hxy _].
    apply andb_true_iff. split; [done|]. apply IH. unfold size_ok in *. simpl in *. lia.
  - intros s m rest.
    change (dec keys_codec s = Some (m, rest) → map_ok N.ltb m). unfold keys_codec. cbn [dec]. destruct (dec (list_codec (codec_pair N_codec N_codec)) s) as [[m' s']|]; [|done].
    destruct (strictly_sorted fst N.ltb m') eqn:E; [|done]. intros [= -> ->].
    by apply (strictly_sorted_by fst N.ltb).
Qed.

(** ** Endpoints *)
Definition V4 : Type := Z * Z * Z * Z.
Definition V6 : Type := V4 * V4 * V4 * V4 * Z. (* four groups of four bytes, scope id *)

Definition v4_bytes (a : V4) : list byte := let '(x, y, z, w) := a in [x; y; z; w].

Definition zero4 : V4 := (0, 0, 0, 0)%Z.

(** The first twelve bytes are 0 and the address is neither [::] nor [::1]. *)
Definition v6_is_v4_compatible (a : V6) : bool :=
  let '(b, c, d, e, _) := a in
  bool_decide (b = zero4 ∧ c = zero4 ∧ d = zero4) &&
  negb (bool_decide (e = zero4 ∨ e = (0, 0, 0, 1)%Z)).

Definition v6_bytes (a : V6) : list byte :=
  let '(b, c, d, e, _) := a in v4_bytes b ++ v4_bytes c ++ v4_bytes d ++ v4_bytes e.

Definition v6_from_bytes (l : list byte) : V6 :=
  match l with
  | [b1; b2; b3; b4; c1; c2; c3; c4; d1; d2; d3; d4; e1; e2; e3; e4] =>
      ((b1, b2, b3, b4), (c1, c2, c3, c4), (d1, d2, d3, d4), (e1, e2, e3, e4), 0%Z)
  | _ => (zero4, zero4, zero4, zero4, 0%Z)
  end.

#[export] Instance toy_endpoints : EndpointOps := {|
  Endpoint := (V4 + V6) * Z;
  Endpoint_default := (inl zero4, 0%Z);
  IpAddress := V4 + V6;
  AddressV4 := V4;
  AddressV6 := V6;
  ep_make := pair;
  ep_address := fst;
  ep_port := snd;
  ip_v4 := inl;
  ip_v6 := inr;
  is_v4 := λ a, match a with inl _ => true | inr _ => false end;
  to_v4 := λ a, match a with inl v => v | inr _ => zero4 end;
  to_v6 := λ a, match a with inr v => v | inl v => (zero4, zero4, zero4, v, 0%Z) end;
  v4_compatible := λ v, (zero4, zero4, zero4, v, 0%Z);
  is_v4_compatible := v6_is_v4_compatible;
  v6_to_v4 := λ a, let '(_, _, _, e, _) := a in e;
  v6_to_bytes := v6_bytes;
  v6_of_bytes := v6_from_bytes
|}.

#[export] Instance toy_endpoints_laws : EndpointLaws.
Proof.
  split; cbn; try done.
  - by intros [].
  - by intros [].
  - by intros [].
  - by intros [[[[[[[??]?]?] [[[??]?]?]] [[[??]?]?]] [[[??]?]?]] ?].
  - by intros [[[??]?]?].
Qed.
