(* ===== verification/Messages.v ===== *)
(** * The messages ([messages/])

    The message classes, each as a record of its fields with the codec its
    [serialize] (or [save] and [load]) gives, the tags that go before them on
    the wire, and the round trips.  Copying and moving a message keeps its
    fields, with one exception that has its own definition
    ([GetClientKeyResponse_move]). *)

From S2P Require Import Prelude CppStd Identity Types MessageHeader Codec ConcreteIO.

Inductive MessageTypeTag :=
  | TagConnect | TagConnectResponse | TagFindGroup | TagFindGroupResponse
  | TagGetData | TagGetDataResponse | TagGetClientKey | TagGetClientKeyResponse
  | TagGetGroupKey | TagGetGroupKeyResponse | TagPost | TagPostResponse
  | TagPutData | TagPutDataResponse | TagPutKey | TagAccountTransfer.

#[export] Instance MessageTypeTag_eq_dec : EqDecision MessageTypeTag.
Proof. solve_decision. Defined.

(** The underlying [uint16_t] of the enumeration. *)
Definition tag_value (t : MessageTypeTag) : Z :=
  match t with
  | TagConnect => 0 | TagConnectResponse => 1 | TagFindGroup => 2 | TagFindGroupResponse => 3
  | TagGetData => 4 | TagGetDataResponse => 5 | TagGetClientKey => 6
  | TagGetClientKeyResponse => 7 | TagGetGroupKey => 8 | TagGetGroupKeyResponse => 9
  | TagPost => 10 | TagPostResponse => 11 | TagPutData => 12 | TagPutDataResponse => 13
  | TagPutKey => 14 | TagAccountTransfer => 15
  end.

Definition all_tags : list MessageTypeTag :=
  [TagConnect; TagConnectResponse; TagFindGroup; TagFindGroupResponse; TagGetData;
   TagGetDataResponse; TagGetClientKey; TagGetClientKeyResponse; TagGetGroupKey;
   TagGetGroupKeyResponse; TagPost; TagPostResponse; TagPutData; TagPutDataResponse;
   TagPutKey; TagAccountTransfer].

(** The tag with a value; [None] stands for a value that is none of the
    enumerators, which a tag read from the wire can have. *)
Definition tag_of_value (z : Z) : option MessageTypeTag :=
  List.find (λ t, Z.eqb (tag_value t) z) all_tags.

Section messages.
Context `{AO : ArchiveOps} `{EO : !EndpointOps}.

Record Connect := mkConnect {
  c_requester_endpoints : EndpointPair;
  c_requester_id : Address;
  c_receiver_id : Address;
  c_requester_fob : PublicPmid
}.

Definition Connect_codec : Codec Connect :=
  codec_iso
    (λ m, (c_requester_endpoints m, (c_requester_id m, (c_receiver_id m, c_requester_fob m))))
    (λ '(e, (i, (j, f))), mkConnect e i j f)
    (codec_pair EndpointPair_codec (codec_pair ar_Identity (codec_pair ar_Identity ar_PublicPmid))).

Record ConnectResponse := mkConnectResponse {
  cr_requester_endpoints : EndpointPair;
  cr_receiver_endpoints : EndpointPair;
  cr_requester_id : Address;
  cr_receiver_id : Address;
  cr_receiver_fob : PublicPmid
}.

Definition ConnectResponse_codec : Codec ConnectResponse :=
  codec_iso
    (λ m, (cr_requester_endpoints m, (cr_receiver_endpoints m,
            (cr_requester_id m, (cr_receiver_id m, cr_receiver_fob m)))))
    (λ '(e, (e', (i, (j, f)))), mkConnectResponse e e' i j f)
    (codec_pair EndpointPair_codec (codec_pair EndpointPair_codec
      (codec_pair ar_Identity (codec_pair ar_Identity ar_PublicPmid)))).

Record FindGroup := mkFindGroup { fg_requester_id : NodeAddress; fg_target_id : Address }.

Definition FindGroup_codec : Codec FindGroup :=
  codec_iso (λ m, (fg_requester_id m, fg_target_id m)) (λ '(i, j), mkFindGroup i j)
    (codec_pair ar_Identity ar_Identity).

Record FindGroupResponse := mkFindGroupResponse {
  fgr_target_id : Address;
  fgr_group : list PublicPmid
}.

(** [save] writes the size and the elements; [load] reads as many as the size
    says. *)
Definition FindGroupResponse_save (m : FindGroupResponse) : list byte :=
  enc (codec_pair ar_Identity ar_size) (fgr_target_id m, length (fgr_group m)) ++
  concat (enc ar_PublicPmid <$> fgr_group m).

Definition FindGroupResponse_load (s : list byte) : option (FindGroupResponse * list byte) :=
  match dec (codec_pair ar_Identity ar_size) s with
  | None => None
  | Some ((target_id, group_size), s') =>
      match dec_n ar_PublicPmid group_size s' with
      | None => None
      | Some (group, s'') => Some (mkFindGroupResponse target_id group, s'')
      end
  end.

Definition FindGroupResponse_codec : Codec FindGroupResponse :=
  mkCodec FindGroupResponse_save FindGroupResponse_load.

Record GetClientKey := mkGetClientKey { gck_requester : Identity; gck_target_id : Identity }.

Definition GetClientKey_codec : Codec GetClientKey :=
  codec_iso (λ m, (gck_requester m, gck_target_id m)) (λ '(i, j), mkGetClientKey i j)
    (codec_pair ar_Identity ar_Identity).

Record GetClientKeyResponse := mkGetClientKeyResponse {
  gckr_address : Address;
  gckr_public_key : PublicKey
}.

(** The move constructor and the move assignment transfer the key only: the
    address of the new object is that of a default-constructed one. *)
Definition GetClientKeyResponse_move (other : GetClientKeyResponse) : GetClientKeyResponse :=
  mkGetClientKeyResponse Identity_default (gckr_public_key other).
Definition GetClientKeyResponse_assign (this other : GetClientKeyResponse) : GetClientKeyResponse :=
  mkGetClientKeyResponse (gckr_address this) (gckr_public_key other).

Definition GetClientKeyResponse_codec : Codec GetClientKeyResponse :=
  codec_iso (λ m, (gckr_address m, gckr_public_key m)) (λ '(i, k), mkGetClientKeyResponse i k)
    (codec_pair ar_Identity ar_PublicKey).

Record GetGroupKey := mkGetGroupKey { ggk_requester : SourceAddress; ggk_target_id : Identity }.

Definition GetGroupKey_codec : Codec GetGroupKey :=
  codec_iso (λ m, (ggk_requester m, ggk_target_id m)) (λ '(i, j), mkGetGroupKey i j)
    (codec_pair SourceAddress_codec ar_Identity).

(** [public_keys_] is a [std::map]. *)
Record GetGroupKeyResponse := mkGetGroupKeyResponse {
  ggkr_public_keys : list (Address * PublicKey);
  ggkr_target_id : GroupAddress
}.

Definition GetGroupKeyResponse_codec : Codec GetGroupKeyResponse :=
  codec_iso (λ m, (ggkr_public_keys m, ggkr_target_id m)) (λ '(k, i), mkGetGroupKeyResponse k i)
    (codec_pair ar_keys ar_Identity).

Record GetData := mkGetData { gd_name_and_type_id : NameAndTypeId; gd_requester : SourceAddress }.

Definition GetData_codec : Codec GetData :=
  codec_iso (λ m, (gd_name_and_type_id m, gd_requester m)) (λ '(n, r), mkGetData n r)
    (codec_pair ar_NameAndTypeId SourceAddress_codec).

Record GetDataResponse := mkGetDataResponse {
  gdr_name_and_type_id : NameAndTypeId;
  gdr_data : option SerialisedMessage;
  gdr_error : option maidsafe_error
}.

(** The constructor with data, and the one with an error. *)
Definition GetDataResponse_data (n : NameAndTypeId) (data : SerialisedMessage) : GetDataResponse :=
  mkGetDataResponse n (Some data) None.
Definition GetDataResponse_error (n : NameAndTypeId) (error : maidsafe_error) : GetDataResponse :=
  mkGetDataResponse n None (Some error).

Definition GetDataResponse_codec : Codec GetDataResponse :=
  codec_iso (λ m, (gdr_name_and_type_id m, (gdr_data m, gdr_error m)))
    (λ '(n, (d, e)), mkGetDataResponse n d e)
    (codec_pair ar_NameAndTypeId (codec_pair (ar_option ar_vector) (ar_option ar_error))).

Record Post := mkPost { post_name_and_type_id : NameAndTypeId; post_data : SerialisedMessage }.

Definition Post_codec : Codec Post :=
  codec_iso (λ m, (post_name_and_type_id m, post_data m)) (λ '(n, d), mkPost n d)
    (codec_pair ar_NameAndTypeId ar_vector).

Record PutData := mkPutData { pd_type_id : DataTypeId; pd_data : SerialisedMessage }.

Definition PutData_codec : Codec PutData :=
  codec_iso (λ m, (pd_type_id m, pd_data m)) (λ '(t, d), mkPutData t d)
    (codec_pair ar_DataTypeId ar_vector).

Record PutDataResponse := mkPutDataResponse {
  pdr_type_id : DataTypeId;
  pdr_data : SerialisedMessage;
  pdr_error : maidsafe_error
}.

Definition PutDataResponse_codec : Codec PutDataResponse :=
  codec_iso (λ m, (pdr_type_id m, (pdr_data m, pdr_error m)))
    (λ '(t, (d, e)), mkPutDataResponse t d e)
    (codec_pair ar_DataTypeId (codec_pair ar_vector ar_error)).
End messages.

(** ** Messages on the wire *)
Section wire.
Context `{AO : ArchiveOps} `{EO : !EndpointOps}.

(** [MessageToTag], and how the class is archived. *)
Class MessageClass (M : Type) := {
  MessageToTag : MessageTypeTag;
  message_codec : Codec M
}.

#[export] Instance Connect_class : MessageClass Connect :=
  {| MessageToTag := TagConnect; message_codec := Connect_codec |}.
#[export] Instance ConnectResponse_class : MessageClass ConnectResponse :=
  {| MessageToTag := TagConnectResponse; message_codec := ConnectResponse_codec |}.
#[export] Instance FindGroup_class : MessageClass FindGroup :=
  {| MessageToTag := TagFindGroup; message_codec := FindGroup_codec |}.
#[export] Instance FindGroupResponse_class : MessageClass FindGroupResponse :=
  {| MessageToTag := TagFindGroupResponse; message_codec := FindGroupResponse_codec |}.
#[export] Instance GetData_class : MessageClass GetData :=
  {| MessageToTag := TagGetData; message_codec := GetData_codec |}.
#[export] Instance GetDataResponse_class : MessageClass GetDataResponse :=
  {| MessageToTag := TagGetDataResponse; message_codec := GetDataResponse_codec |}.
#[export] Instance GetClientKey_class : MessageClass GetClientKey :=
  {| MessageToTag := TagGetClientKey; message_codec := GetClientKey_codec |}.
#[export] Instance GetClientKeyResponse_class : MessageClass GetClientKeyResponse :=
  {| MessageToTag := TagGetClientKeyResponse; message_codec := GetClientKeyResponse_codec |}.
#[export] Instance GetGroupKey_class : MessageClass GetGroupKey :=
  {| MessageToTag := TagGetGroupKey; message_codec := GetGroupKey_codec |}.
#[export] Instance GetGroupKeyResponse_class : MessageClass GetGroupKeyResponse :=
  {| MessageToTag := TagGetGroupKeyResponse; message_codec := GetGroupKeyResponse_codec |}.
#[export] Instance PutData_class : MessageClass PutData :=
  {| MessageToTag := TagPutData; message_codec := PutData_codec |}.
#[export] Instance PutDataResponse_class : MessageClass PutDataResponse :=
  {| MessageToTag := TagPutDataResponse; message_codec := PutDataResponse_codec |}.
#[export] Instance Post_class : MessageClass Post :=
  {| MessageToTag := TagPost; message_codec := Post_codec |}.

(** A tag is archived as its underlying integer; what is read back is an integer
    that may be no enumerator. *)
Definition tag_codec : Codec (option MessageTypeTag) :=
  codec_iso (from_option tag_value 0%Z) tag_of_value ar_uint16.

(** [Serialise (header, tag, message)] *)
Definition Serialise_message {M} (c : Codec M) (header : MessageHeader) (tag : MessageTypeTag)
    (message : M) : SerialisedMessage :=
  Serialise MessageHeader_codec header ++ Serialise tag_codec (Some tag) ++ Serialise c message.

(** [Parse (stream, header, tag)]: the rest of the stream is the message. *)
Definition Parse_header (s : SerialisedMessage)
    : outcome (MessageHeader * option MessageTypeTag * SerialisedMessage) :=
  '(header, s1) ← ParseNext MessageHeader_codec s;
  '(tag, s2) ← ParseNext tag_codec s1;
  Ok (header, tag, s2).
End wire.

(** ** Round trips of the messages *)
Section message_laws.
Context `{AL : ArchiveLaws} `{EO : !EndpointOps} `{EL : !EndpointLaws}.

(** The messages of a class that come back as they were sent; those with
    endpoints come back with the endpoints that [load] makes of what [save]
    wrote. *)
Definition arrived_Connect (m : Connect) : Connect :=
  mkConnect (arrived_pair (c_requester_endpoints m)) (c_requester_id m) (c_receiver_id m)
    (c_requester_fob m).

Lemma tr_ids : transmits (λ _, True) (λ a, a)
  (codec_pair ar_Identity (codec_pair ar_Identity ar_PublicPmid)).
Proof. apply roundtrips_transmits. eapply rt_weaken; [eauto 20 with codec|by cbn]. Qed.

Lemma tr_Connect : transmits (λ m, ports_ok (c_requester_endpoints m)) arrived_Connect Connect_codec.
Proof.
  eapply tr_as; [apply tr_iso, tr_pair; [apply tr_EndpointPair|apply tr_ids]|]. intros m Hm. by split_and!.
Qed.

Definition arrived_ConnectResponse (m : ConnectResponse) : ConnectResponse :=
  mkConnectResponse (arrived_pair (cr_requester_endpoints m)) (arrived_pair (cr_receiver_endpoints m))
    (cr_requester_id m) (cr_receiver_id m) (cr_receiver_fob m).

Lemma tr_ConnectResponse :
  transmits (λ m, ports_ok (cr_requester_endpoints m) ∧ ports_ok (cr_receiver_endpoints m))
    arrived_ConnectResponse ConnectResponse_codec.
Proof.
  eapply tr_as; [apply tr_iso, tr_pair, tr_pair; [apply tr_EndpointPair..|apply tr_ids]|].
  intros m [Hm1 Hm2]. by split_and!.
Qed.

Lemma rt_FindGroup : roundtrips (λ _, True) FindGroup_codec.
Proof. by_parts FindGroup_codec. by intros []. Qed.

Lemma rt_FindGroupResponse : roundtrips (λ m, size_ok (fgr_group m)) FindGroupResponse_codec.
Proof.
  intros [target group] rest Hs. cbn [FindGroupResponse_codec dec enc].
  unfold FindGroupResponse_save, FindGroupResponse_load. cbn [fgr_target_id fgr_group] in *.
  rewrite <-(assoc_L (++)).
  rewrite (rt_pair _ _ _ _ rt_Identity rt_size (target, length group)) by done.
  by rewrite (dec_n_enc _ _ _ _ rt_PublicPmid) by by apply Forall_true.
Qed.

Lemma rt_GetClientKey : roundtrips (λ _, True) GetClientKey_codec.
Proof. by_parts GetClientKey_codec. by intros []. Qed.

Lemma rt_GetClientKeyResponse : roundtrips (λ _, True) GetClientKeyResponse_codec.
Proof. by_parts GetClientKeyResponse_codec. by intros []. Qed.

Lemma rt_GetGroupKey : roundtrips (λ _, True) GetGroupKey_codec.
Proof. by_parts GetGroupKey_codec. by intros []. Qed.

Lemma rt_GetGroupKeyResponse : roundtrips (λ m, map_ok Identity_ltb (ggkr_public_keys m) ∧ size_ok (ggkr_public_keys m)) GetGroupKeyResponse_codec.
Proof. by_parts GetGroupKeyResponse_codec. by intros [] []. Qed.

Lemma rt_GetData : roundtrips (λ _, True) GetData_codec.
Proof. by_parts GetData_codec. by intros []. Qed.

Lemma rt_GetDataResponse : roundtrips (λ m, ∀ d, gdr_data m = Some d → size_ok d) GetDataResponse_codec.
Proof. by_parts GetDataResponse_codec. by intros []. Qed.

Lemma rt_Post : roundtrips (λ m, size_ok (post_data m)) Post_codec.
Proof. by_parts Post_codec. by intros []. Qed.

Lemma rt_PutData : roundtrips (λ m, size_ok (pd_data m)) PutData_codec.
Proof. by_parts PutData_codec. by intros []. Qed.

Lemma rt_PutDataResponse : roundtrips (λ m, size_ok (pdr_data m)) PutDataResponse_codec.
Proof. by_parts PutDataResponse_codec. by intros []. Qed.

Lemma tag_of_value_inv t : tag_of_value (tag_value t) = Some t.
Proof. by destruct t. Qed.

Lemma rt_tag : roundtrips is_Some tag_codec.
Proof.
  by_parts tag_codec. intros o [t ->]. cbn. split; [by destruct t|apply tag_of_value_inv].
Qed.

Lemma Parse_header_wire {M} (c : Codec M) h tag m :
  header_sized h →
  Parse_header (Serialise_message c h tag m) = Ok (h, Some tag, Serialise c m).
Proof.
  intros Hh. unfold Parse_header, Serialise_message.
  rewrite (ParseNext_Serialise header_sized) by (done || apply rt_MessageHeader).
  rewrite bind_Ok. by rewrite (ParseNext_Serialise is_Some) by (done || apply rt_tag).
Qed.
End message_laws.

(** ** The properties *)
Section message_props.
Context `{AL : ArchiveLaws} `{EO : !EndpointOps} `{EL : !EndpointLaws}.

(** [m], sent as header, tag and message, is read as [m']: the header and the tag
    of its class come first, and what is left of the stream is parsed to [m']. *)
Definition reads `{MC : MessageClass M} (h : MessageHeader) (m m' : M) : Prop :=
  ∃ s, Parse_header (Serialise_message message_codec h MessageToTag m) = Ok (h, Some MessageToTag, s) ∧
       Parse message_codec s = Ok m'.

Lemma wire_reads `{MC : MessageClass M} P f h (m : M) :
  transmits P f message_codec → header_sized h → P m → reads h m (f m).
Proof.
  intros Hc Hh Hm. eexists. split; [by apply Parse_header_wire|]. by eapply Parse_transmits.
Qed.

(** C24: A message sent as header, tag and message is read back as it was sent,
    header and tag of its class first, for every class of message: the fields
    survive, with any contents of a size that a 64-bit integer holds; the endpoints of a
    [Connect] and of a [ConnectResponse] come back as [load] makes them of what
    [save] wrote. *)
Theorem wire_roundtrip (h : MessageHeader) :
  header_sized h →
  (∀ m : Connect, ports_ok (c_requester_endpoints m) → reads h m (arrived_Connect m)) ∧
  (∀ m : ConnectResponse, ports_ok (cr_requester_endpoints m) → ports_ok (cr_receiver_endpoints m) →
     reads h m (arrived_ConnectResponse m)) ∧
  (∀ m : FindGroup, reads h m m) ∧
  (∀ m : FindGroupResponse, size_ok (fgr_group m) → reads h m m) ∧
  (∀ m : GetData, reads h m m) ∧
  (∀ m : GetDataResponse, (∀ d, gdr_data m = Some d → size_ok d) → reads h m m) ∧
  (∀ m : GetClientKey, reads h m m) ∧
  (∀ m : GetClientKeyResponse, reads h m m) ∧
  (∀ m : GetGroupKey, reads h m m) ∧
  (∀ m : GetGroupKeyResponse, map_ok Identity_ltb (ggkr_public_keys m) → size_ok (ggkr_public_keys m) →
     reads h m m) ∧
  (∀ m : Post, size_ok (post_data m) → reads h m m) ∧
  (∀ m : PutData, size_ok (pd_data m) → reads h m m) ∧
  (∀ m : PutDataResponse, size_ok (pdr_data m) → reads h m m).
Proof.
  intros Hh. split_and!; intros m; intros.
  - by apply (wire_reads (MC:=Connect_class) _ _ h m tr_Connect).
  - by apply (wire_reads (MC:=ConnectResponse_class) _ _ h m tr_ConnectResponse).
  - by apply (wire_reads (MC:=FindGroup_class) _ _ h m rt_FindGroup).
  - by apply (wire_reads (MC:=FindGroupResponse_class) _ _ h m rt_FindGroupResponse).
  - by apply (wire_reads (MC:=GetData_class) _ _ h m rt_GetData).
  - by apply (wire_reads (MC:=GetDataResponse_class) _ _ h m rt_GetDataResponse).
  - by apply (wire_reads (MC:=GetClientKey_class) _ _ h m rt_GetClientKey).
  - by apply (wire_reads (MC:=GetClientKeyResponse_class) _ _ h m rt_GetClientKeyResponse).
  - by apply (wire_reads (MC:=GetGroupKey_class) _ _ h m rt_GetGroupKey).
  - by apply (wire_reads (MC:=GetGroupKeyResponse_class) _ _ h m rt_GetGroupKeyResponse).
  - by apply (wire_reads (MC:=Post_class) _ _ h m rt_Post).
  - by apply (wire_reads (MC:=PutData_class) _ _ h m rt_PutData).
  - by apply (wire_reads (MC:=PutDataResponse_class) _ _ h m rt_PutDataResponse).
Qed.

(** C39: An endpoint survives [save] and [load] exactly when its address is an
    IPv4 address whose IPv6 form asio recognises, or an IPv6 address that is no
    such form and has no scope id; its port always survives. *)
Theorem endpoint_roundtrip (e : Endpoint) :
  (0 ≤ ep_port e < 2 ^ 16)%Z →
  (Parse Endpoint_codec (Serialise Endpoint_codec e) = Ok e ↔ portable_address (ep_address e)).
Proof.
  intros Hp. rewrite <-Endpoint_load_save. unfold Parse, Serialise.
  rewrite <-(app_nil_r (enc _ e)). unfold Endpoint_codec.
  rewrite (iso_read _ _ _ _ _ _ (rt_pair _ _ _ _ rt_array16 rt_uint16)).
  - split; [by intros [= Heq]|by intros ->].
  - split; [apply v6_bytes_length|done].
Qed.
End message_props.

(** ** Witnesses *)
Module MessageWitness.
Import Concrete.

Definition v4_endpoint : Endpoint := (inl (1, 2, 3, 4)%Z, 5483%Z).

Definition header : MessageHeader :=
  mkHeader (7%N, None) (mkSource 3%N None (Some 4%N)) 12%Z client (Some 9%N).

Definition response : FindGroupResponse := mkFindGroupResponse 5%N [(1%N, 1%N); (2%N, 1%N)].

Definition connect : Connect :=
  mkConnect (mkEndpointPair v4_endpoint Endpoint_default) 1%N 2%N (1%N, 1%N).

(** The default endpoint of the request is not read back as it was. *)
Lemma wire_roundtrip_witness :
  reads header response response ∧ reads header connect (arrived_Connect connect) ∧
  external (c_requester_endpoints (arrived_Connect connect))
    = (inr (zero4, zero4, zero4, zero4, 0%Z), 0%Z).
Proof.
  destruct (wire_roundtrip header) as (H1 & _ & _ & H4 & _); [done|].
  split; [by apply H4|]. split; [apply H1; by split|reflexivity].
Defined.

Lemma endpoint_roundtrip_witness :
  Parse Endpoint_codec (Serialise Endpoint_codec v4_endpoint) = Ok v4_endpoint ↔
  portable_address (ep_address v4_endpoint).
Proof. apply (endpoint_roundtrip v4_endpoint). done. Defined.

(** A default-constructed endpoint (0.0.0.0:0) comes back as the IPv6 address
    [::], and the IPv6 address [::1.2.3.4] as an IPv4 one. *)
Theorem endpoints_not_preserved :
  Parse Endpoint_codec (Serialise Endpoint_codec (Endpoint_default : Endpoint))
    = Ok (inr (zero4, zero4, zero4, zero4, 0%Z), 0%Z) ∧
  Parse Endpoint_codec
    (Serialise Endpoint_codec ((inr (zero4, zero4, zero4, (1, 2, 3, 4)%Z, 0%Z), 80%Z) : Endpoint))
    = Ok (inl (1, 2, 3, 4)%Z, 80%Z).
Proof. split; vm_refl. Qed.

(** Moving a [GetClientKeyResponse] loses its address. *)
Theorem GetClientKeyResponse_move_loses_address :
  GetClientKeyResponse_move (mkGetClientKeyResponse 5%N 1%N)
  = mkGetClientKeyResponse (Identity_default : Address) 1%N ∧
  IsInitialised (gckr_address (GetClientKeyResponse_move (mkGetClientKeyResponse 5%N 1%N))) = false.
Proof. split; vm_refl. Qed.
End MessageWitness.
