(* ===== verification/Sentinel.v ===== *)
(** * The sentinel ([sentinel.h], [sentinel.cc])

    [Sentinel] collects the parts of messages and the public keys of their
    senders, and lets a message through when enough signatures verify.

    The state is the four accumulators and the calls made to the functions that
    ask for keys, in the order they were made.  [clk] gives the clock readings
    of the first accumulator call of [Add] and [clk'] those of [Delete].  The
    class [AccountTransferInfo] is abstract: its codec and its [Merge] are those
    of the derived class and are parameters.  A [unique_ptr] is an [option]. *)

From S2P Require Import Prelude CppStd Identity Types MessageHeader Codec ConcreteIO Messages.
From S2P Require Import Accumulator AccumulatorProps.

(** [Merge] of a class derived from [AccountTransferInfo], and its archive. *)
Class AccountOps := {
  AccountInfo : Type;
  ar_account : Codec (option AccountInfo); (* [std::unique_ptr<AccountTransferInfo>] *)
  Merge : AccountInfo → list (option AccountInfo) → option AccountInfo
}.

Section sentinel.
Context `{AO : ArchiveOps} `{EO : !EndpointOps} `{AcO : AccountOps} `{BM : BuildMode}.

Definition ResultType : Type := MessageHeader * MessageTypeTag * SerialisedMessage.
Definition result_header (r : ResultType) : MessageHeader := r.1.1.
Definition result_tag (r : ResultType) : MessageTypeTag := r.1.2.
Definition result_message (r : ResultType) : SerialisedMessage := r.2.

Definition NodeKeyType : Type := NodeAddress * MessageId.
Definition GroupKeyType : Type := GroupAddress * MessageId.
Definition key_ltb : NodeKeyType → NodeKeyType → bool := pair_ltb Identity_ltb Z.ltb.

(** A call of [send_get_client_key_] or [send_get_group_key_]. *)
Inductive KeyRequest :=
  | GetClientKeyFor (a : Address)
  | GetGroupKeyFor (g : GroupAddress).

Record Sentinel := mkSentinel {
  node_accumulator_ : Accumulator NodeKeyType ResultType;
  group_accumulator_ : Accumulator GroupKeyType ResultType;
  group_key_accumulator_ : Accumulator GroupAddress ResultType;
  node_key_accumulator_ : Accumulator GroupAddress ResultType;
  key_requests : list KeyRequest
}.

(** [std::chrono::minutes (20)] in nanoseconds. *)
Definition twenty_minutes : Z := 20 * 60 * 10 ^ 9.

Definition Sentinel_new : Sentinel := mkSentinel
  (Accumulator_new twenty_minutes 1) (Accumulator_new twenty_minutes QuorumSize)
  (Accumulator_new twenty_minutes QuorumSize) (Accumulator_new twenty_minutes QuorumSize) [].

(** Calls on one of the accumulators. *)
Definition on_node {A} (p : prog (Accumulator NodeKeyType ResultType) A) : prog Sentinel A := λ s,
  let '(r, a) := p (node_accumulator_ s) in
  (r, mkSentinel a (group_accumulator_ s) (group_key_accumulator_ s) (node_key_accumulator_ s)
        (key_requests s)).
Definition on_group {A} (p : prog (Accumulator GroupKeyType ResultType) A) : prog Sentinel A := λ s,
  let '(r, a) := p (group_accumulator_ s) in
  (r, mkSentinel (node_accumulator_ s) a (group_key_accumulator_ s) (node_key_accumulator_ s)
        (key_requests s)).
Definition on_group_key {A} (p : prog (Accumulator GroupAddress ResultType) A) : prog Sentinel A :=
  λ s,
  let '(r, a) := p (group_key_accumulator_ s) in
  (r, mkSentinel (node_accumulator_ s) (group_accumulator_ s) a (node_key_accumulator_ s)
        (key_requests s)).
Definition on_node_key {A} (p : prog (Accumulator GroupAddress ResultType) A) : prog Sentinel A :=
  λ s,
  let '(r, a) := p (node_key_accumulator_ s) in
  (r, mkSentinel (node_accumulator_ s) (group_accumulator_ s) (group_key_accumulator_ s) a
        (key_requests s)).
Definition request_key (k : KeyRequest) : prog Sentinel unit :=
  modify (λ s, mkSentinel (node_accumulator_ s) (group_accumulator_ s) (group_key_accumulator_ s)
                 (node_key_accumulator_ s) (key_requests s ++ [k])).

(** [std::map<Address, std::vector<asymm::PublicKey>>] *)
Definition KeysMap : Type := list (Address * list PublicKey).

Definition same_key (k1 k2 : PublicKey) : bool :=
  bool_decide (Serialise ar_PublicKey k1 = Serialise ar_PublicKey k2).

(** The body of the loops over the received keys: a key that is new for its
    address is appended. *)
Definition add_key (m : KeysMap) (p : Address * PublicKey) : KeysMap :=
  let '(a, k) := p in
  match map_find Identity_ltb a m with
  | None => (map_insert Identity_ltb a [k] m).1
  | Some ks =>
      if existsb (same_key k) ks then m
      else map_set Identity_ltb a (ks ++ [k]) m
  end.

(** The loop over the responses of [Validate<NodeAccumulatorType, ...>]: one key
    each; and that of [Validate<GroupAccumulatorType, ...>]: a map of keys each. *)
Fixpoint collect_node_keys (keys : Map ResultType) (m : KeysMap) : outcome KeysMap :=
  match keys with
  | [] => Ok m
  | (_, r) :: keys =>
      key ← Parse GetClientKeyResponse_codec (result_message r);
      collect_node_keys keys (add_key m (gckr_address key, gckr_public_key key))
  end.

Fixpoint collect_group_keys (keys : Map ResultType) (m : KeysMap) : outcome KeysMap :=
  match keys with
  | [] => Ok m
  | (_, r) :: keys =>
      response ← Parse GetGroupKeyResponse_codec (result_message r);
      collect_group_keys keys (foldl add_key m (ggkr_public_keys response))
  end.

(** [signature && CheckSignature (...)] *)
Definition signature_checks (key : PublicKey) (r : ResultType) : bool :=
  match signature_ (result_header r) with
  | Some signature => CheckSignature (result_message r) signature key
  | None => false
  end.

(** [*begin ()] of a container, undefined when it is empty. *)
Definition first {A} (l : list A) : outcome A :=
  match l with x :: _ => Ok x | [] => Undefined end.

Definition Validate_node (messages keys : Map ResultType) : outcome (list ResultType) :=
  if Nat.eqb (length messages) 0 || (length keys <? QuorumSize) then Ok []
  else
    keys_map ← collect_node_keys keys [];
    cpp_assert (Nat.eqb (length keys_map) 1);;
    '(_, public_keys) ← first keys_map;
    cpp_assert (Nat.eqb (length public_keys) 1);;
    public_key ← first public_keys;
    if negb (ValidateKey public_key) then Ok []
    else
      let verified_messages := List.filter (signature_checks public_key) messages.*2 in
      if 1 <=? length verified_messages then Ok verified_messages else Ok [].

(** The loop over the messages of [Validate<GroupAccumulatorType, ...>]. *)
Fixpoint verify_group (keys_map : KeysMap) (messages : Map ResultType) : outcome (list ResultType) :=
  match messages with
  | [] => Ok []
  | (_, r) :: messages =>
      match map_find Identity_ltb (FromNode (result_header r)) keys_map with
      | None => verify_group keys_map messages
      | Some public_keys =>
          public_key ← first public_keys;
          rest ← verify_group keys_map messages;
          if ValidateKey public_key && signature_checks public_key r then Ok (r :: rest) else Ok rest
      end
  end.

Definition Validate_group (messages keys : Map ResultType) : outcome (list ResultType) :=
  if (length messages <? QuorumSize) || (length keys <? QuorumSize) then Ok []
  else
    keys_map ← collect_group_keys keys [];
    cpp_assert (forallb (λ p, Nat.eqb (length p.2) 1) keys_map);;
    verified_messages ← verify_group keys_map messages;
    if QuorumSize <=? length verified_messages then Ok verified_messages else Ok [].

(** [std::count_if] of the messages with the same payload. *)
Definition count_same (r : ResultType) (l : list ResultType) : nat :=
  length (List.filter (λ r', bool_decide (result_message r' = result_message r)) l).

(** Parse of the account of every message. *)
Fixpoint parse_accounts (l : list ResultType) : outcome (list (option AccountInfo)) :=
  match l with
  | [] => Ok []
  | r :: l =>
      a ← Parse ar_account (result_message r);
      rest ← parse_accounts l;
      Ok (a :: rest)
  end.

Definition Resolve_group (verified_messages : list ResultType) : outcome (option ResultType) :=
  if length verified_messages <? QuorumSize then Ok None
  else
    head ← first verified_messages;
    if bool_decide (result_tag head ≠ TagAccountTransfer) then
      Ok (List.find (λ r, QuorumSize <=? count_same r verified_messages) verified_messages)
    else
      accounts ← parse_accounts verified_messages;
      account ← first accounts;
      match account with
      | None => Undefined (* a null pointer is dereferenced *)
      | Some account =>
          match Merge account accounts with
          | Some merged =>
              Ok (Some (result_header head, result_tag head, Serialise ar_account (Some merged)))
          | None => Ok None
          end
      end.

Definition Resolve_single (verified_messages : list ResultType) : option ResultType :=
  match verified_messages with
  | [] => None
  | r :: _ => Some r
  end.

(** The part of [Add] after the keys or the messages reached their quorum:
    [Validate], [Resolve], and [Delete] of what was resolved. *)
Definition resolve_node (clk' : nat → Z) (key : NodeKeyType) (messages keys : Map ResultType)
    : prog Sentinel (option ResultType) :=
  verified ← lift (λ _, Validate_node messages keys);
  match Resolve_single verified with
  | Some resolved => on_node (Delete key_ltb clk' key);; mret (Some resolved)
  | None => mret None
  end.

Definition resolve_group (clk' : nat → Z) (key : GroupKeyType) (messages keys : Map ResultType)
    : prog Sentinel (option ResultType) :=
  verified ← lift (λ _, Validate_group messages keys);
  resolved ← lift (λ _, Resolve_group verified);
  match resolved with
  | Some resolved => on_group (Delete key_ltb clk' key);; mret (Some resolved)
  | None => mret None
  end.

Definition Sentinel_Add (clk clk' : nat → Z) (header : MessageHeader) (tag : MessageTypeTag)
    (message : SerialisedMessage) : prog Sentinel (option ResultType) :=
  let part : ResultType := (header, tag, message) in
  if bool_decide (tag = TagGetClientKeyResponse) then
    match FromGroup header with
    | None => throw parsing_error
    | Some group =>
        keys ← on_node_key (Add Identity_ltb clk group part (FromNode header));
        match keys with
        | None => mret None
        | Some (_, keys) =>
            let key : NodeKeyType := (group, message_id_ header) in
            s ← get;
            match GetAll key_ltb (node_accumulator_ s) key with
            | None => mret None
            | Some (_, messages) => resolve_node clk' key messages keys
            end
        end
    end
  else if bool_decide (tag = TagGetGroupKeyResponse) then
    match FromGroup header with
    | None => throw parsing_error
    | Some group =>
        keys ← on_group_key (Add Identity_ltb clk group part (FromNode header));
        match keys with
        | None => mret None
        | Some (_, keys) =>
            let key : GroupKeyType := (group, message_id_ header) in
            s ← get;
            match GetAll key_ltb (group_accumulator_ s) key with
            | None => mret None
            | Some (_, messages) => resolve_group clk' key messages keys
            end
        end
    end
  else
    match FromGroup header with
    | Some group =>
        let key : GroupKeyType := (group, message_id_ header) in
        s ← get;
        (if HaveName key_ltb (group_accumulator_ s) key then mret tt
         else request_key (GetGroupKeyFor group));;
        messages ← on_group (Add key_ltb clk key part (FromNode header));
        match messages with
        | None => mret None
        | Some (_, messages) =>
            s ← get;
            match GetAll Identity_ltb (group_key_accumulator_ s) group with
            | None => mret None
            | Some (_, keys) => resolve_group clk' key messages keys
            end
        end
    | None =>
        let key : NodeKeyType := (FromNode header, message_id_ header) in
        s ← get;
        (if HaveName key_ltb (node_accumulator_ s) key then mret tt
         else request_key (GetClientKeyFor (FromNode header)));;
        messages ← on_node (Add key_ltb clk key part (FromNode header));
        match messages with
        | None => mret None
        | Some (name, messages) =>
            s ← get;
            match GetAll key_ltb (node_accumulator_ s) name with
            | None => mret None
            | Some (_, keys) => resolve_node clk' key messages keys
            end
        end
    end.
End sentinel.
