(* ===== verification/SentinelFacts.v ===== *)
(** * The sentinel: specification

    What a message that [Sentinel::Add] lets through is backed by: the signed
    parts and the key responses that were given to [Add], and how many of them;
    the invariant that ties a sentinel to its history, which is the list of the
    arguments of the calls of [Add] made so far, latest first; and what
    validating and resolving give. *)

From S2P Require Import Prelude CppStd Identity Types MessageHeader Codec ConcreteIO Messages.
From S2P Require Import Accumulator AccumulatorProps PartStore Sentinel.

Section spec.
Context `{AO : ArchiveOps} `{EO : !EndpointOps} `{AcO : AccountOps} `{BM : BuildMode}.
Implicit Types (hist votes responders : list ResultType) (r v res : ResultType).

Definition part_node r : NodeAddress := FromNode (result_header r).
Definition part_group r : option GroupAddress := FromGroup (result_header r).
Definition part_id r : MessageId := message_id_ (result_header r).

(** A message, and not the answer to a request for keys. *)
Definition plain r : Prop :=
  result_tag r ≠ TagGetClientKeyResponse ∧ result_tag r ≠ TagGetGroupKeyResponse.

(** A key response of the history, for the group, lists the key for the node. *)
Definition endorsed hist (group : GroupAddress) (a : NodeAddress) (k : PublicKey) : Prop :=
  ∃ r response, r ∈ hist ∧ result_tag r = TagGetGroupKeyResponse ∧ part_group r = Some group ∧
    Parse GetGroupKeyResponse_codec (result_message r) = Ok response ∧
    (a, k) ∈ ggkr_public_keys response.

(** A quorum of nodes of the group sent parts with this message id, each signed
    with a valid key that is endorsed for its sender. *)
Record group_quorum hist (group : GroupAddress) (id : MessageId) votes : Prop := {
  gq_size : QuorumSize ≤ length votes;
  gq_distinct : NoDup (part_node <$> votes);
  gq_votes : Forall (λ v, v ∈ hist ∧ part_group v = Some group ∧ part_id v = id ∧ plain v ∧
    ∃ k, endorsed hist group (part_node v) k ∧ ValidateKey k = true ∧
         signature_checks k v = true) votes
}.

(** A quorum of nodes sent responses of this kind for the group. *)
Record key_quorum hist (tag : MessageTypeTag) (group : GroupAddress) responders : Prop := {
  kq_size : QuorumSize ≤ length responders;
  kq_distinct : NoDup (part_node <$> responders);
  kq_responders : Forall (λ r, r ∈ hist ∧ result_tag r = tag ∧ part_group r = Some group) responders
}.

(** The result is the exact message a quorum agrees on, or the merge of the
    accounts a quorum sent. *)
Definition group_result votes res : Prop :=
  (res ∈ votes ∧ ∀ v, v ∈ votes → result_message v = result_message res) ∨
  (∃ head rest account accounts merged,
     votes = head :: rest ∧ result_tag head = TagAccountTransfer ∧
     parse_accounts votes = Ok (Some account :: accounts) ∧
     Merge account (Some account :: accounts) = Some merged ∧
     res = (result_header head, TagAccountTransfer, Serialise ar_account (Some merged))).

(** Every key a responder lists for a voter is the one its signature checks with. *)
Definition keys_agree votes responders : Prop :=
  ∀ v r response k, v ∈ votes → r ∈ responders →
    Parse GetGroupKeyResponse_codec (result_message r) = Ok response →
    (part_node v, k) ∈ ggkr_public_keys response → signature_checks k v = true.

Definition group_justified hist res : Prop :=
  ∃ group votes responders,
    part_group res = Some group ∧ group_quorum hist group (part_id res) votes ∧
    key_quorum hist TagGetGroupKeyResponse group responders ∧ group_result votes res ∧
    (NDEBUG = false → keys_agree votes responders).

(** A message of a single node: it was given to [Add], and its signature checks
    with a valid key a key response of the history holds, a quorum of nodes
    having responded. *)
Definition node_justified hist res : Prop :=
  res ∈ hist ∧ part_group res = None ∧
  ∃ responders key response,
    key_quorum hist TagGetClientKeyResponse (part_node res) responders ∧
    key ∈ responders ∧ Parse GetClientKeyResponse_codec (result_message key) = Ok response ∧
    ValidateKey (gckr_public_key response) = true ∧
    signature_checks (gckr_public_key response) res = true.

Definition is_group_part hist (name : GroupKeyType) (s : Address) r : Prop :=
  r ∈ hist ∧ part_node r = s ∧ part_group r = Some name.1 ∧ part_id r = name.2 ∧ plain r.
Definition is_node_part hist (name : NodeKeyType) (s : Address) r : Prop :=
  r ∈ hist ∧ part_node r = s ∧ part_group r = None ∧ name = (part_node r, part_id r) ∧ plain r.
Definition is_key_part hist (tag : MessageTypeTag) (name : GroupAddress) (s : Address) r : Prop :=
  r ∈ hist ∧ part_node r = s ∧ part_group r = Some name ∧ result_tag r = tag.

(** The invariant of the sentinel with its history. *)
Record sentinel_ok hist (s : Sentinel) : Prop := {
  so_node : acc_ok key_ltb (node_accumulator_ s);
  so_group : acc_ok key_ltb (group_accumulator_ s);
  so_group_key : acc_ok Identity_ltb (group_key_accumulator_ s);
  so_node_key : acc_ok Identity_ltb (node_key_accumulator_ s);
  so_node_parts : all_parts key_ltb (is_node_part hist) (node_accumulator_ s);
  so_group_parts : all_parts key_ltb (is_group_part hist) (group_accumulator_ s);
  so_group_keys : all_parts Identity_ltb (is_key_part hist TagGetGroupKeyResponse)
                    (group_key_accumulator_ s);
  so_node_keys : all_parts Identity_ltb (is_key_part hist TagGetClientKeyResponse)
                   (node_key_accumulator_ s);
  so_quorums : quorum_ (node_accumulator_ s) = 1 ∧ quorum_ (group_accumulator_ s) = QuorumSize ∧
               quorum_ (group_key_accumulator_ s) = QuorumSize ∧
               quorum_ (node_key_accumulator_ s) = QuorumSize;
  so_times : time_to_live_ (node_accumulator_ s) = twenty_minutes ∧
             time_to_live_ (group_accumulator_ s) = twenty_minutes ∧
             time_to_live_ (group_key_accumulator_ s) = twenty_minutes ∧
             time_to_live_ (node_key_accumulator_ s) = twenty_minutes
}.

(** The key responses agree on the keys of all nodes. *)
Definition responses_agree (keys : list ResultType) (key_of : Address → PublicKey) : Prop :=
  Forall (λ r, ∃ response, Parse GetGroupKeyResponse_codec (result_message r) = Ok response ∧
                 ∀ a k, (a, k) ∈ ggkr_public_keys response → k = key_of a) keys.

(** The part is signed with its node's valid key, which a response lists. *)
Definition properly_signed (keys : list ResultType) (key_of : Address → PublicKey) v : Prop :=
  ValidateKey (key_of (part_node v)) = true ∧ signature_checks (key_of (part_node v)) v = true ∧
  ∃ r response, r ∈ keys ∧ Parse GetGroupKeyResponse_codec (result_message r) = Ok response ∧
                (part_node v, key_of (part_node v)) ∈ ggkr_public_keys response.
End spec.

(** ** The keys collected from responses *)
Section keys.
Context `{IL : IdentityLaws} `{CO : !CryptoOps} `{AO : !ArchiveOps} `{AL : !ArchiveLaws}.
Implicit Types (m : KeysMap) (a : Address) (k : PublicKey).

Lemma same_key_spec k1 k2 : same_key k1 k2 = true ↔ k1 = k2.
Proof.
  unfold same_key, Serialise. rewrite bool_decide_eq_true. split; [|by intros ->]. intros Heq.
  pose proof (rt_PublicKey k1 [] I) as H1. pose proof (rt_PublicKey k2 [] I) as H2. congruence.
Qed.

Lemma existsb_same_key k ks : existsb (same_key k) ks = true ↔ k ∈ ks.
Proof.
  rewrite existsb_exists. split.
  - intros (k' & Hin & ->%same_key_spec). by apply list_elem_of_In.
  - intros Hin. exists k. split; [by apply list_elem_of_In|]. by apply same_key_spec.
Qed.

Lemma add_key_ok m p : map_ok Identity_ltb m → map_ok Identity_ltb (add_key m p).
Proof.
  intros Hm. unfold add_key. destruct p as [a k].
  destruct (map_find Identity_ltb a m) as [ks|]; [|by apply (map_insert_ok Identity_ltb)].
  destruct (existsb _ _); [done|]. by apply (map_set_ok Identity_ltb).
Qed.

Lemma add_key_find m a k a' :
  map_ok Identity_ltb m →
  map_find Identity_ltb a' (add_key m (a, k)) =
    if key_equiv Identity_ltb a a' then
      Some match map_find Identity_ltb a m with
           | None => [k]
           | Some ks => if existsb (same_key k) ks then ks else ks ++ [k]
           end
    else map_find Identity_ltb a' m.
Proof.
  intros Hm. unfold add_key. destruct (key_equiv Identity_ltb a a') eqn:E.
  - apply (key_equiv_spec Identity_ltb) in E as <-.
    destruct (map_find Identity_ltb a m) as [ks|] eqn:Ef.
    + destruct (existsb _ _); [done|].
      by rewrite (map_find_set Identity_ltb), (key_equiv_refl Identity_ltb).
    + by rewrite (map_find_insert Identity_ltb), (key_equiv_refl Identity_ltb), Ef.
  - destruct (map_find Identity_ltb a m) as [ks|] eqn:Ef.
    + destruct (existsb _ _); [done|]. by rewrite (map_find_set Identity_ltb), E.
    + by rewrite (map_find_insert Identity_ltb), E.
Qed.

(** The keys map of a list of responses: under each address its keys, and every
    listed key under its address. *)
Lemma collected_keys (l : list (Address * PublicKey)) :
  map_ok Identity_ltb (foldl add_key [] l) ∧
  ∀ a, match map_find Identity_ltb a (foldl add_key [] l) with
       | None => a ∉ l.*1
       | Some ks => ks ≠ [] ∧ NoDup ks ∧ ∀ k, k ∈ ks ↔ (a, k) ∈ l
       end.
Proof.
  induction l as [|[a k] l IH] using rev_ind; [split; [constructor|intros a; apply not_elem_of_nil]|].
  destruct IH as [Hok IH]. rewrite foldl_snoc. split; [by apply add_key_ok|]. intros a'.
  rewrite add_key_find by done. specialize (IH a'). destruct (key_equiv Identity_ltb a a') eqn:E.
  - apply (key_equiv_spec Identity_ltb) in E as <-.
    destruct (map_find Identity_ltb a (foldl add_key [] l)) as [ks|]; [destruct IH as (Hne & Hnd & IH)|].
    + destruct (existsb (same_key k) ks) eqn:Ek.
      * apply existsb_same_key in Ek. do 2 (split; [done|]). intros k'. rewrite IH.
        rewrite elem_of_app, list_elem_of_singleton. apply IH in Ek. naive_solver.
      * split; [by destruct ks|]. split.
        { apply NoDup_app. split; [done|]. split; [|apply NoDup_singleton].
          intros k' Hin ->%list_elem_of_singleton. apply existsb_same_key in Hin. congruence. }
        intros k'. rewrite !elem_of_app, IH, !list_elem_of_singleton.
        naive_solver.
    + split; [done|]. split; [apply NoDup_singleton|]. intros k'.
      rewrite elem_of_app, !list_elem_of_singleton.
      split; [naive_solver|]. intros [Hin|[= ->]]; [|done].
      destruct IH. by apply (list_elem_of_fmap_2 fst _ (a, k')).
  - assert (a ≠ a') as Hne by (intros ->; by rewrite (key_equiv_refl Identity_ltb) in E).
    destruct (map_find Identity_ltb a' (foldl add_key [] l)) as [ks|].
    + destruct IH as (Hks & Hnd & IH). do 2 (split; [done|]). intros k'.
      rewrite IH, elem_of_app, list_elem_of_singleton. naive_solver.
    + rewrite fmap_app, elem_of_app. intros [Hin|Hin]; [done|]. cbn in Hin.
      apply list_elem_of_singleton in Hin. congruence.
Qed.
End keys.

(** ** [Validate] and [Resolve] *)
Section validate.
Context `{IL : IdentityLaws} `{CO : !CryptoOps} `{AO : !ArchiveOps} `{AL : !ArchiveLaws}.
Context `{AcO : AccountOps} `{BM : BuildMode}.
Implicit Types (m : KeysMap) (messages keys : Map ResultType).

Lemma collect_group_keys_fold keys m km :
  collect_group_keys keys m = Ok km →
  ∃ responses,
    Forall2 (λ p response, Parse GetGroupKeyResponse_codec (result_message p.2) = Ok response)
      keys responses ∧
    km = foldl add_key m (concat (ggkr_public_keys <$> responses)).
Proof.
  revert m. induction keys as [|[s r] keys IH]; intros m; cbn [collect_group_keys].
  - intros [= <-]. exists []. by split; [constructor|].
  - destruct (Parse _ _) as [response| | |] eqn:Hp; cbn; try done. intros Hc.
    apply IH in Hc as (responses & Hf & ->). exists (response :: responses).
    split; [by constructor|]. cbn. by rewrite foldl_app.
Qed.

Lemma collect_node_keys_fold keys m km :
  collect_node_keys keys m = Ok km →
  ∃ responses,
    Forall2 (λ p response, Parse GetClientKeyResponse_codec (result_message p.2) = Ok response)
      keys responses ∧
    km = foldl add_key m ((λ x, (gckr_address x, gckr_public_key x)) <$> responses).
Proof.
  revert m. induction keys as [|[s r] keys IH]; intros m; cbn [collect_node_keys].
  - intros [= <-]. exists []. by split; [constructor|].
  - destruct (Parse _ _) as [response| | |] eqn:Hp; cbn; try done. intros Hc.
    apply IH in Hc as (responses & Hf & ->). exists (response :: responses).
    by split; [constructor|].
Qed.

(** The verified messages are messages whose signature checks with the first key
    of their node. *)
Lemma verify_group_spec m messages vs :
  verify_group m messages = Ok vs →
  vs `sublist_of` messages.*2 ∧
  Forall (λ v, ∃ k ks, map_find Identity_ltb (part_node v) m = Some (k :: ks) ∧
                       ValidateKey k = true ∧ signature_checks k v = true) vs.
Proof.
  revert vs. induction messages as [|[s r] messages IH]; intros vs; cbn [verify_group].
  - intros [= <-]. by split; [constructor|].
  - destruct (map_find Identity_ltb (FromNode (result_header r)) m) as [ks|] eqn:Hf.
    2: { intros [Hs Hv]%IH. split; [by constructor|done]. }
    destruct ks as [|k ks]; [done|]. cbn.
    destruct (verify_group m messages) as [rest| | |]; cbn; try done.
    destruct (IH rest eq_refl) as [Hs Hv]. destruct (_ && _) eqn:E; intros [= <-].
    + apply andb_true_iff in E as [E1 E2]. split; [by constructor|].
      constructor; [by exists k, ks|done].
    + split; [by constructor|done].
Qed.

Lemma elem_of_concat_keys a k (responses : list GetGroupKeyResponse) :
  (a, k) ∈ concat (ggkr_public_keys <$> responses) ↔
  ∃ response, response ∈ responses ∧ (a, k) ∈ ggkr_public_keys response.
Proof.
  rewrite list_elem_of_In, in_concat. split.
  - intros (l & (response & <- & Hr)%in_map_iff & Hin). exists response.
    by rewrite !list_elem_of_In.
  - intros (response & Hr & Hin). exists (ggkr_public_keys response).
    split; [apply in_map; by apply list_elem_of_In|by apply list_elem_of_In].
Qed.

(** In a debug build the assertion that every address has one key was checked. *)
Lemma assert_single (km : KeysMap) :
  NDEBUG = false → cpp_assert (forallb (λ p, Nat.eqb (length p.2) 1) km) = Ok () →
  ∀ a k ks, (a, k :: ks) ∈ km → k :: ks = [k] ∧ ks = [].
Proof.
  intros Hd Has a k ks Hin. unfold cpp_assert in Has. rewrite Hd in Has.
  destruct (forallb _ km) eqn:E; [|done]. apply List.forallb_forall with (x := (a, k :: ks)) in E;
    [|by apply list_elem_of_In]. by destruct ks.
Qed.

(** What [Validate<GroupAccumulatorType, ...>] returns: nothing, or a quorum of
    messages whose signatures check with keys that responses list for their
    nodes; in a debug build all responses agree on the keys of each node. *)
Lemma Validate_group_spec messages keys vs :
  Validate_group messages keys = Ok vs → vs ≠ [] →
  QuorumSize ≤ length keys ∧ QuorumSize ≤ length vs ∧ vs `sublist_of` messages.*2 ∧
  Forall (λ v, ∃ k, ValidateKey k = true ∧ signature_checks k v = true ∧
    ∃ p response, p ∈ keys ∧ Parse GetGroupKeyResponse_codec (result_message p.2) = Ok response ∧
                  (part_node v, k) ∈ ggkr_public_keys response ∧
    (NDEBUG = false → ∀ p' response' k', p' ∈ keys →
       Parse GetGroupKeyResponse_codec (result_message p'.2) = Ok response' →
       (part_node v, k') ∈ ggkr_public_keys response' → k' = k)) vs.
Proof.
  unfold Validate_group. destruct (_ || _) eqn:Hlen; [by intros [= <-]|].
  apply orb_false_iff in Hlen as [Hm%Nat.ltb_ge Hk%Nat.ltb_ge].
  destruct (collect_group_keys keys []) as [km| | |] eqn:Hc; cbn [mbind outcome_bind]; try done.
  destruct (cpp_assert _) as [[]| | |] eqn:Has; cbn [mbind outcome_bind]; try done.
  destruct (verify_group km messages) as [vs'| | |] eqn:Hv; cbn [mbind outcome_bind]; try done.
  destruct (QuorumSize <=? length vs') eqn:Hq; intros [= <-] Hne; [|done].
  apply Nat.leb_le in Hq. apply verify_group_spec in Hv as [Hsub Hvs].
  do 3 (split; [done|]). eapply Forall_impl; [exact Hvs|]. intros v (k & ks & Hf & Hval & Hsig).
  apply collect_group_keys_fold in Hc as (responses & Hf2 & ->).
  pose proof (proj2 (collected_keys (concat (ggkr_public_keys <$> responses))) (part_node v)) as Hck.
  rewrite Hf in Hck. destruct Hck as (_ & _ & Hck).
  assert (k ∈ k :: ks) as (response & Hr & Hin)%Hck%elem_of_concat_keys by by left.
  apply list_elem_of_lookup in Hr as [i Hi].
  destruct (Forall2_lookup_r _ _ _ _ _ Hf2 Hi) as (p & Hpi & Hpp).
  exists k. do 2 (split; [done|]). exists p, response.
  split; [by apply list_elem_of_lookup_2 in Hpi|]. do 2 (split; [done|]).
  intros Hdebug p' response' k' Hp' Hpp' Hin'. apply list_elem_of_lookup in Hp' as [j Hj].
  destruct (Forall2_lookup_l _ _ _ _ _ Hf2 Hj) as (response'' & Hrj & Hpp'').
  assert (response'' = response') as -> by congruence.
  assert (k' ∈ k :: ks) as Hk'.
  { apply Hck, elem_of_concat_keys. exists response'. split; [|done].
    by apply list_elem_of_lookup_2 in Hrj. }
  apply (map_find_elem Identity_ltb) in Hf.
  rewrite (proj1 (assert_single _ Hdebug Has _ _ _ Hf)) in Hk'. by apply list_elem_of_singleton in Hk'.
Qed.

Lemma Validate_node_spec messages keys vs :
  Validate_node messages keys = Ok vs → vs ≠ [] →
  QuorumSize ≤ length keys ∧ vs `sublist_of` messages.*2 ∧
  ∃ p response, p ∈ keys ∧ Parse GetClientKeyResponse_codec (result_message p.2) = Ok response ∧
    ValidateKey (gckr_public_key response) = true ∧
    Forall (λ v, signature_checks (gckr_public_key response) v = true) vs.
Proof.
  unfold Validate_node. destruct (_ || _) eqn:Hlen; [by intros [= <-]|].
  apply orb_false_iff in Hlen as [_ Hk%Nat.ltb_ge].
  destruct (collect_node_keys keys []) as [km| | |] eqn:Hc; cbn [mbind outcome_bind]; try done.
  destruct (cpp_assert _) as [[]| | |]; cbn [mbind outcome_bind]; try done.
  destruct km as [|[a pks] km]; cbn [first mbind outcome_bind]; [done|].
  destruct (cpp_assert _) as [[]| | |]; cbn [mbind outcome_bind]; try done.
  destruct pks as [|k ks]; cbn [first mbind outcome_bind]; [done|].
  destruct (ValidateKey k) eqn:Hval; cbn [negb]; [|by intros [= <-]].
  destruct (1 <=? _); intros [= <-] Hne; [|done].
  apply collect_node_keys_fold in Hc as (responses & Hf2 & Hkm).
  destruct (collected_keys ((λ x, (gckr_address x, gckr_public_key x)) <$> responses)) as [_ Hck].
  rewrite <-Hkm in Hck. specialize (Hck a). cbn in Hck.
  rewrite (key_equiv_refl Identity_ltb) in Hck. destruct Hck as (_ & _ & Hck).
  assert (k ∈ k :: ks) as (response & [= -> ->] & Hr)%Hck%list_elem_of_fmap by by left.
  apply list_elem_of_lookup in Hr as [i Hi].
  destruct (Forall2_lookup_r _ _ _ _ _ Hf2 Hi) as (p & Hpi & Hpp).
  split; [done|]. split; [apply sublist_filter|]. exists p, response.
  split; [by apply list_elem_of_lookup_2 in Hpi|]. do 2 (split; [done|]).
  apply Forall_forall. intros v Hv. by apply list_elem_of_In, filter_In in Hv as [].
Qed.

Lemma Resolve_group_spec vs res :
  Resolve_group vs = Ok (Some res) →
  ∃ votes, votes `sublist_of` vs ∧ QuorumSize ≤ length votes ∧ group_result votes res ∧
    ∃ v, v ∈ votes ∧ result_header res = result_header v.
Proof.
  unfold Resolve_group. destruct (Nat.ltb_spec (length vs) QuorumSize) as [|Hlen]; [done|].
  destruct vs as [|head rest] eqn:Hvs; [done|]. rewrite <-Hvs in *. cbn [first mbind outcome_bind].
  rewrite Hvs. cbn [first mbind outcome_bind]. rewrite <-Hvs.
  case_bool_decide as Htag.
  - intros [= Hf]. apply find_some in Hf as [Hin Hc].
    apply (proj1 (Nat.leb_le QuorumSize (count_same res vs))) in Hc.
    exists (List.filter (λ r', bool_decide (result_message r' = result_message res)) vs).
    split; [apply sublist_filter|]. split; [exact Hc|].
    assert (res ∈ List.filter (λ r', bool_decide (result_message r' = result_message res)) vs) as Hr.
    { apply list_elem_of_In, filter_In. split; [done|]. by apply bool_decide_eq_true. }
    split; [left; split; [done|]|by exists res].
    intros v Hv. apply list_elem_of_In, filter_In in Hv as [_ Hv]. by apply bool_decide_eq_true in Hv.
  - destruct (parse_accounts vs) as [accounts| | |] eqn:Hp; cbn [mbind outcome_bind]; try done.
    destruct accounts as [|[account|] accounts]; cbn [first mbind outcome_bind]; try done.
    destruct (Merge _ _) as [merged|] eqn:Hm; [|done]. intros [= <-].
    exists vs. split; [done|]. split; [done|]. split.
    + right. exists head, rest, account, accounts, merged. by rewrite Htag.
    + exists head. split; [rewrite Hvs; by left|done].
Qed.

(** ** Agreement resolves *)

Lemma collect_group_keys_total keys m key_of :
  responses_agree keys.*2 key_of → ∃ km, collect_group_keys keys m = Ok km.
Proof.
  intros Hr. revert m. unfold responses_agree in Hr.
  induction keys as [|[x r] keys IH]; intros m; cbn [collect_group_keys]; [by eexists|].
  rewrite fmap_cons in Hr. apply Forall_cons in Hr as [(response & Hp & _) Hr].
  cbn in Hp. rewrite Hp. by apply IH.
Qed.

(** With agreement the collected map has exactly the right key for each node. *)
Lemma collected_agreed keys km key_of a ks :
  responses_agree keys.*2 key_of → collect_group_keys keys [] = Ok km →
  map_find Identity_ltb a km = Some ks → ks = [key_of a].
Proof.
  intros Hr (responses & Hf2 & ->)%collect_group_keys_fold Hf.
  pose proof (proj2 (collected_keys (concat (ggkr_public_keys <$> responses))) a) as Hck.
  rewrite Hf in Hck. destruct Hck as (Hne & Hnd & Hck).
  assert (∀ k, k ∈ ks → k = key_of a) as Hall.
  { intros k (response & Hin & Hk)%Hck%elem_of_concat_keys.
    apply list_elem_of_lookup in Hin as [i Hi].
    destruct (Forall2_lookup_r _ _ _ _ _ Hf2 Hi) as (p & Hpi & Hpp).
    unfold responses_agree in Hr. rewrite Forall_forall in Hr.
    destruct (Hr p.2) as (response' & Hpp' & Hkeys).
    { apply list_elem_of_fmap_2. by eapply list_elem_of_lookup_2. }
    rewrite Hpp in Hpp'. injection Hpp' as <-. by apply Hkeys. }
  destruct ks as [|k1 [|k2 ks]]; [done| |].
  - by rewrite (Hall k1) by by left.
  - apply NoDup_cons in Hnd as [Hn _]. destruct Hn.
    rewrite (Hall k1), (Hall k2) by (by left || by right; left). by left.
Qed.

(** A part verifies when the keys collected have one for its node, which is valid
    and checks its signature. *)
Definition verified (km : KeysMap) (key_of : Address → PublicKey) v : bool :=
  match map_find Identity_ltb (part_node v) km with
  | Some _ => ValidateKey (key_of (part_node v)) && signature_checks (key_of (part_node v)) v
  | None => false
  end.

Lemma verify_group_agreed km key_of messages :
  (∀ a ks, map_find Identity_ltb a km = Some ks → ks = [key_of a]) →
  verify_group km messages = Ok (List.filter (verified km key_of) messages.*2).
Proof.
  intros Hkm. induction messages as [|[x r] messages IH]; [done|]. cbn [verify_group fmap list_fmap].
  cbn [List.filter snd]. unfold verified at 1, part_node.
  destruct (map_find Identity_ltb (FromNode (result_header r)) km) as [ks|] eqn:Hf; [|done].
  rewrite (Hkm _ _ Hf). cbn [first mbind outcome_bind]. rewrite IH. cbn [mbind outcome_bind].
  by destruct (ValidateKey _ && _).
Qed.

(** With agreement on the keys, validating selects the parts that are properly
    signed. *)
Lemma Validate_group_agreed messages keys key_of :
  QuorumSize ≤ length messages → QuorumSize ≤ length keys → responses_agree keys.*2 key_of →
  ∃ km, (∀ v, properly_signed keys.*2 key_of v → verified km key_of v = true) ∧
    let vs := List.filter (verified km key_of) messages.*2 in
    Validate_group messages keys = Ok (if QuorumSize <=? length vs then vs else []).
Proof.
  intros Hm Hk Hr. unfold Validate_group.
  rewrite (proj2 (Nat.ltb_ge _ _) Hm), (proj2 (Nat.ltb_ge _ _) Hk). cbn [orb].
  destruct (collect_group_keys_total keys [] key_of Hr) as [km Hc]. rewrite Hc, bind_Ok.
  pose proof Hc as (responses & Hf2 & Hkm)%collect_group_keys_fold.
  pose proof (collected_keys (concat (ggkr_public_keys <$> responses))) as [Hok Hck].
  rewrite <-Hkm in Hok, Hck. exists km. split.
  - intros v (Hv & Hsig & r & response & Hin & Hp & Hkin). unfold verified. rewrite Hv, Hsig.
    specialize (Hck (part_node v)). destruct (map_find Identity_ltb (part_node v) km); [done|].
    destruct Hck. apply (list_elem_of_fmap_2 fst _ (part_node v, key_of (part_node v))).
    apply elem_of_concat_keys. exists response. split; [|done].
    apply list_elem_of_fmap in Hin as (q & -> & Hq). apply list_elem_of_lookup in Hq as [j Hj].
    destruct (Forall2_lookup_l _ _ _ _ _ Hf2 Hj) as (response' & Hrj & Hp').
    rewrite Hp in Hp'. injection Hp' as <-. by eapply list_elem_of_lookup_2.
  - assert (forallb (λ p, Nat.eqb (length p.2) 1) km = true) as ->.
    { apply List.forallb_forall. intros [a ks] Hin%list_elem_of_In.
      apply (map_elem_find Identity_ltb) in Hin; [|done].
      by rewrite (collected_agreed _ _ _ _ _ Hr Hc Hin). }
    rewrite cpp_assert_true, bind_Ok, (verify_group_agreed km key_of), bind_Ok; [by destruct (_ <=? _)|].
    intros a ks. by apply (collected_agreed keys).
Qed.

Lemma Validate_group_complete messages keys key_of :
  QuorumSize ≤ length messages → QuorumSize ≤ length keys → responses_agree keys.*2 key_of →
  Forall (properly_signed keys.*2 key_of) messages.*2 →
  Validate_group messages keys = Ok messages.*2.
Proof.
  intros Hm Hk Hr Hs. destruct (Validate_group_agreed messages keys key_of Hm Hk Hr) as (km & Hv & ->).
  rewrite forallb_filter_id, length_fmap, (proj2 (Nat.leb_le _ _) Hm); [done|].
  apply List.forallb_forall. intros v Hin%list_elem_of_In. apply Hv. by eapply Forall_forall in Hs.
Qed.

(** A quorum of equal payloads resolves to one that a quorum has. *)
Lemma Resolve_group_majority vs msg :
  QuorumSize ≤ length (List.filter (λ v, bool_decide (result_message v = msg)) vs) →
  Forall (λ v, result_tag v ≠ TagAccountTransfer) vs →
  ∃ res, Resolve_group vs = Ok (Some res) ∧ res ∈ vs ∧ QuorumSize ≤ count_same res vs.
Proof.
  intros Hq Ht. pose proof (List.filter_length_le (λ v, bool_decide (result_message v = msg)) vs) as Hle.
  unfold Resolve_group. rewrite (proj2 (Nat.ltb_ge (length vs) QuorumSize)) by lia.
  destruct vs as [|v0 vs']; [cbn in Hq; unfold QuorumSize in Hq; lia|]. set (vs := v0 :: vs') in *.
  change (first vs) with (Ok v0). rewrite bind_Ok, bool_decide_eq_true_2 by by inversion Ht.
  destruct (List.find (λ r, QuorumSize <=? count_same r vs) vs) as [res|] eqn:Hf.
  - apply find_some in Hf as [Hin%list_elem_of_In Hc%Nat.leb_le]. by exists res.
  - destruct (List.filter (λ v, bool_decide (result_message v = msg)) vs) as [|v l] eqn:El;
      [cbn in Hq; unfold QuorumSize in Hq; lia|].
    assert (In v (List.filter (λ v, bool_decide (result_message v = msg)) vs)) as Hin
      by (rewrite El; by left).
    apply List.filter_In in Hin as [Hin Hm%bool_decide_eq_true].
    eapply find_none in Hf; [|exact Hin]. apply Nat.leb_gt in Hf. unfold count_same in Hf.
    rewrite Hm, El in Hf. lia.
Qed.

Lemma Resolve_group_complete vs msg :
  QuorumSize ≤ length vs →
  Forall (λ v, result_message v = msg ∧ result_tag v ≠ TagAccountTransfer) vs →
  ∃ res, Resolve_group vs = Ok (Some res) ∧ res ∈ vs.
Proof.
  intros Hlen [Hm Ht]%Forall_and. destruct (Resolve_group_majority vs msg) as (res & Hr & Hin & _); eauto.
  rewrite forallb_filter_id; [done|]. apply List.forallb_forall.
  intros v Hv%list_elem_of_In. apply bool_decide_eq_true. by eapply Forall_forall in Hm.
Qed.
End validate.

(** ** The invariant *)
