(* ===== verification/SentinelProps.v ===== *)
(** * The sentinel: properties

    A message that [Sentinel::Add] lets through is backed by a quorum of signed
    parts and of key responses that were given to [Add], and agreement gets
    through.  The accumulators are changed through the laws of [PartStore]: a
    slot is one of the four, with what its parts are. *)

From S2P Require Import Prelude CppStd Identity Types MessageHeader Codec ConcreteIO Messages.
From S2P Require Import Accumulator AccumulatorProps PartStore Sentinel SentinelFacts.

Section invariant.
Context `{IL : IdentityLaws} `{CO : !CryptoOps} `{AO : !ArchiveOps} `{AL : !ArchiveLaws}.
Context `{AcO : AccountOps} `{BM : BuildMode}.
Implicit Types (hist : list ResultType) (r v res : ResultType) (s : Sentinel).

#[export] Instance key_ltb_total : StrictTotal key_ltb.
Proof. unfold key_ltb. apply _. Qed.

Lemma Sentinel_new_ok : sentinel_ok [] Sentinel_new.
Proof.
  split; try done; try apply Accumulator_new_ok; by intros ??? ?%elem_of_nil.
Qed.

Lemma sentinel_ok_weaken hist r s : sentinel_ok hist s → sentinel_ok (r :: hist) s.
Proof.
  intros [????????]. split; try done; eapply all_parts_weaken; try done;
    intros ??? (? & ?); split; try done; by right.
Qed.

(** *** Slots *)
Record Slot (N : Type) := mkSlot {
  slot_ltb : N → N → bool;
  slot_get : Sentinel → Accumulator N ResultType;
  slot_put : Accumulator N ResultType → Sentinel → Sentinel;
  slot_part : list ResultType → N → Address → ResultType → Prop
}.
#[global] Arguments mkSlot {_}.
#[global] Arguments slot_ltb {_}.
#[global] Arguments slot_get {_}.
#[global] Arguments slot_put {_}.
#[global] Arguments slot_part {_}.

Definition slot_store {N} (sl : Slot N) : PartStore (Accumulator N ResultType) N ResultType :=
  accumulator_store (slot_ltb sl).

Definition on_slot {N A} (sl : Slot N) (p : prog (Accumulator N ResultType) A) : prog Sentinel A := λ s,
  let '(r, a) := p (slot_get sl s) in (r, slot_put sl a s).

(** The slot of a consistent sentinel is consistent, and an accumulator with the
    same constants can take its place. *)
Class SlotLaws {N} (sl : Slot N) : Prop := {
  slot_total :: StrictTotal (slot_ltb sl);
  slot_get_put : ∀ a s, slot_get sl (slot_put sl a s) = a;
  slot_ok : ∀ hist s, sentinel_ok hist s →
    store_ok (PartStore:=slot_store sl) (slot_get sl s) ∧
    store_all (PS:=slot_store sl) (slot_part sl hist) (slot_get sl s);
  slot_put_ok : ∀ hist s a, sentinel_ok hist s → store_ok (PartStore:=slot_store sl) a →
    store_all (PS:=slot_store sl) (slot_part sl hist) a →
    store_like (H0:=slot_store sl) (slot_get sl s) a → sentinel_ok hist (slot_put sl a s)
}.

Definition node_slot : Slot NodeKeyType := mkSlot key_ltb node_accumulator_
  (λ a s, mkSentinel a (group_accumulator_ s) (group_key_accumulator_ s) (node_key_accumulator_ s)
            (key_requests s)) is_node_part.
Definition group_slot : Slot GroupKeyType := mkSlot key_ltb group_accumulator_
  (λ a s, mkSentinel (node_accumulator_ s) a (group_key_accumulator_ s) (node_key_accumulator_ s)
            (key_requests s)) is_group_part.
Definition group_key_slot : Slot GroupAddress := mkSlot Identity_ltb group_key_accumulator_
  (λ a s, mkSentinel (node_accumulator_ s) (group_accumulator_ s) a (node_key_accumulator_ s)
            (key_requests s)) (λ hist, is_key_part hist TagGetGroupKeyResponse).
Definition node_key_slot : Slot GroupAddress := mkSlot Identity_ltb node_key_accumulator_
  (λ a s, mkSentinel (node_accumulator_ s) (group_accumulator_ s) (group_key_accumulator_ s) a
            (key_requests s)) (λ hist, is_key_part hist TagGetClientKeyResponse).

Ltac by_slot :=
  split; [cbn; apply _|done|by intros hist s []|];
  intros hist s a [] Ha HP [Hq Ht]; cbn in Hq, Ht; split; try done; cbn; destruct_and!; split_and!; congruence.

#[export] Instance node_slot_laws : SlotLaws node_slot.
Proof. by_slot. Qed.
#[export] Instance group_slot_laws : SlotLaws group_slot.
Proof. by_slot. Qed.
#[export] Instance group_key_slot_laws : SlotLaws group_key_slot.
Proof. by_slot. Qed.
#[export] Instance node_key_slot_laws : SlotLaws node_key_slot.
Proof. by_slot. Qed.

(** A part joins its slot, or a name is deleted from it; the rest of the sentinel
    stays. *)
Section on_slot.
Context {N : Type} (sl : Slot N) `{SL : !SlotLaws sl}.
Notation parts := (parts_of (slot_ltb sl)).

Definition slot_changed s s' : Prop := s' = slot_put sl (slot_get sl s') s.

(** No name of the slot is older than [t]. *)
Definition slot_since (t : Z) s : Prop := store_since (PartStore:=slot_store sl) t (slot_get sl s).

Lemma slot_Add_ends hist s clk (key : N) r sender :
  sentinel_ok hist s → slot_part sl hist key sender r →
  ends (on_slot sl (Add (slot_ltb sl) clk key r sender)) s
    (λ o s', slot_changed s s' ∧ sentinel_ok hist s' ∧
       parts (slot_get sl s') key
         = (map_insert Identity_ltb sender r (parts (slot_get sl s) key)).1 ∧
       o = (if quorum_ (slot_get sl s) <=? length (parts (slot_get sl s') key)
            then Some (key, parts (slot_get sl s') key) else None) ∧
       (∀ t, slot_since t s → clock_within t (time_to_live_ (slot_get sl s)) clk →
          slot_since t s' ∧ ∀ n, n ≠ key → parts (slot_get sl s') n = parts (slot_get sl s) n) ∧
       (∀ n, n ≠ key → parts (slot_get sl s') n ⊆ parts (slot_get sl s) n))
    (λ _, False).
Proof.
  intros Hs Hr. destruct (slot_ok hist s Hs) as [Hok Hall].
  pose proof (store_Add_ends (PS:=slot_store sl) _ clk key r sender _ Hok Hall Hr) as Ha.
  unfold ends, on_slot in *. cbn in Ha. destruct (Add _ _ _ _ _ _) as [[o| | |] a]; try done.
  destruct Ha as (Ha & HP & Hl & Hparts & -> & Ht & Hsub). unfold slot_changed, slot_since. rewrite slot_get_put.
  split_and!; try done. by apply slot_put_ok.
Qed.

Lemma slot_Delete_ends hist s clk (key : N) :
  sentinel_ok hist s →
  ends (on_slot sl (Delete (slot_ltb sl) clk key)) s
    (λ _ s', slot_changed s s' ∧ sentinel_ok hist s' ∧
       (∀ n, n ≠ key → parts (slot_get sl s') n = parts (slot_get sl s) n) ∧
       (∀ t, slot_since t s → slot_since t s') ∧ parts (slot_get sl s') key = [])
    (λ _, False).
Proof.
  intros Hs. destruct (slot_ok hist s Hs) as [Hok Hall].
  pose proof (store_Delete_ends (PS:=slot_store sl) _ clk key _ Hok Hall) as Ha.
  unfold ends, on_slot in *. cbn in Ha. destruct (Delete _ _ _ _) as [[o| | |] a]; try done.
  destruct Ha as (Ha & HP & Hl & Hn & Ht & He). unfold slot_changed, slot_since. rewrite slot_get_put.
  split_and!; try done. by apply slot_put_ok.
Qed.
End on_slot.

Lemma GetAll_parts_of {N} (ltb : N → N → bool) (a : Accumulator N ResultType) name x :
  GetAll ltb a name = Some x → x = (name, parts_of ltb a name).
Proof. unfold parts_of, GetAll. by destruct (find_entry _ _ _); intros [= <-]. Qed.

(** Parts under one name come from different nodes. *)
Lemma parts_nodes {N} (ltb : N → N → bool) `{!StrictTotal ltb} P (a : Accumulator N ResultType) name :
  acc_ok ltb a → all_parts ltb P a → (∀ x r, P name x r → part_node r = x) →
  NoDup (part_node <$> (parts_of ltb a name).*2).
Proof.
  intros Ha HP Hs. pose proof (map_ok_NoDup Identity_ltb _ (parts_of_ok ltb a name Ha)) as Hnd.
  assert (part_node <$> (parts_of ltb a name).*2 = (parts_of ltb a name).*1) as ->; [|done].
  rewrite <-list_fmap_compose. apply list_fmap_ext. intros i [s r] Hi%list_elem_of_lookup_2.
  cbn. by apply Hs, HP.
Qed.

Lemma parts_elem {N} (ltb : N → N → bool) P (a : Accumulator N ResultType) name r :
  all_parts ltb P a → r ∈ (parts_of ltb a name).*2 → ∃ x, P name x r.
Proof.
  intros HP ([s r'] & -> & Hin)%list_elem_of_fmap. exists s. by apply HP.
Qed.

Lemma key_quorum_parts hist tag group (a : Accumulator GroupAddress ResultType) :
  acc_ok Identity_ltb a → all_parts Identity_ltb (is_key_part hist tag) a →
  QuorumSize ≤ length (parts_of Identity_ltb a group) →
  key_quorum hist tag group (parts_of Identity_ltb a group).*2.
Proof.
  intros Ha HP Hlen. split.
  - by rewrite length_fmap.
  - eapply parts_nodes; [apply _|done|exact HP|]. by intros ? ? (_ & ? & _).
  - apply Forall_forall. intros r Hr. destruct (parts_elem _ _ _ _ _ HP Hr) as (x & Hin & _ & Hg & Ht).
    done.
Qed.

(** What resolving the parts of a group message gives is justified. *)
Lemma resolve_group_ends hist s clk' (group : GroupAddress) id :
  sentinel_ok hist s →
  ends (resolve_group clk' (group, id) (parts_of key_ltb (group_accumulator_ s) (group, id))
          (parts_of Identity_ltb (group_key_accumulator_ s) group)) s
    (λ o s', sentinel_ok hist s' ∧ ∀ res, o = Some res → group_justified hist res)
    (sentinel_ok hist).
Proof.
  intros Hs. apply ends_bind, ends_lift; [|done]. intros vs Hvs. apply ends_bind, ends_lift; [|done].
  intros [res|] Hres; [|by apply ends_ret].
  apply ends_bind. eapply ends_weaken; [by apply (slot_Delete_ends group_slot)| |done].
  cbn. intros _ s' (_ & Hs' & _).
  split; [done|]. intros res' [= <-].
  apply Resolve_group_spec in Hres as (votes & Hsub & Hlen & Hr & v & Hv & Hh).
  apply Validate_group_spec in Hvs as (Hk & _ & Hsub' & Hvs);
    [|intros ->; apply sublist_nil_r in Hsub; by rewrite Hsub in Hv; apply elem_of_nil in Hv].
  assert (∀ v, v ∈ votes → ∃ x, is_group_part hist (group, id) x v) as Hparts.
  { intros v' Hv'. eapply (parts_elem key_ltb); [apply (so_group_parts _ _ Hs)|].
    eapply elem_of_sublist; [exact Hv'|]. by etrans; [exact Hsub|]. }
  destruct (Hparts v Hv) as (x & _ & _ & Hg & Hid & _). unfold part_group, part_id in Hg, Hid.
  exists group, votes, (parts_of Identity_ltb (group_key_accumulator_ s) group).*2.
  rewrite Forall_forall in Hvs.
  assert (∀ v, v ∈ votes → v ∈ vs) as Hin_vs by (intros; by eapply elem_of_sublist).
  split; [unfold part_group; by rewrite Hh|]. split; [|split; [|split; [done|]]].
  2: { apply key_quorum_parts; [apply Hs|apply Hs|done]. }
  2: { intros Hd v' r response k Hv' ([z r'] & -> & Hp)%list_elem_of_fmap Hpp Hkin.
       destruct (Hvs v') as (k0 & _ & Hsig & _ & _ & _ & _ & _ & Hagree); [by apply Hin_vs|].
       by rewrite (Hagree Hd (z, r') response k). }
  split; [done| |].
  - eapply sublist_NoDup; [|apply (fmap_sublist part_node); etrans; [exact Hsub|exact Hsub']].
    eapply parts_nodes; [apply _|apply Hs|apply (so_group_parts _ _ Hs)|]. by intros ? ? (_ & ? & _).
  - apply Forall_forall. intros v' Hv'. destruct (Hparts v' Hv') as (y & Hin & _ & Hg' & Hid' & Hpl).
    split; [done|]. split; [done|]. split; [unfold part_id in *; rewrite Hh; cbn in *; congruence|].
    split; [done|].
    destruct (Hvs v') as (k & Hval & Hsig & p & response & Hp & Hpp & Hkin & _); [by apply Hin_vs|].
    exists k. split; [|done]. destruct p as [z r].
    destruct (so_group_keys _ _ Hs _ _ _ Hp) as (Hrin & _ & Hrg & Hrt).
    by exists r, response.
Qed.

(** What resolving a message of a single node with the keys received for it
    gives is justified. *)
Lemma resolve_node_ends hist s clk' (group : GroupAddress) id :
  sentinel_ok hist s →
  ends (resolve_node clk' (group, id) (parts_of key_ltb (node_accumulator_ s) (group, id))
          (parts_of Identity_ltb (node_key_accumulator_ s) group)) s
    (λ o s', sentinel_ok hist s' ∧ ∀ res, o = Some res → node_justified hist res)
    (sentinel_ok hist).
Proof.
  intros Hs. apply ends_bind, ends_lift; [|done]. intros [|res vs] Hvs; [by apply ends_ret|].
  apply ends_bind. eapply ends_weaken; [by apply (slot_Delete_ends node_slot)| |done].
  cbn. intros _ s' (_ & Hs' & _).
  split; [done|]. intros res' [= <-].
  apply Validate_node_spec in Hvs as (Hk & Hsub & p & response & Hp & Hpp & Hval & Hsig); [|done].
  destruct (parts_elem key_ltb _ _ (group, id) res (so_node_parts _ _ Hs)) as (x & Hin & _ & Hg & Heq & _).
  { eapply elem_of_sublist; [|exact Hsub]. by left. }
  injection Heq as -> ->. split; [done|]. split; [done|].
  exists (parts_of Identity_ltb (node_key_accumulator_ s) (part_node res)).*2, p.2, response.
  split; [by apply key_quorum_parts; [apply Hs|apply Hs|]|].
  split; [by apply list_elem_of_fmap_2|]. apply Forall_cons in Hsig as [Hsig _]. done.
Qed.

(** The node accumulator holds at most one part under a name: its name holds the
    address of the sender. *)
Lemma node_parts_single hist s key :
  sentinel_ok hist s → length (parts_of key_ltb (node_accumulator_ s) key) ≤ 1.
Proof.
  intros Hs. pose proof (map_ok_NoDup Identity_ltb _ (parts_of_ok key_ltb _ key (so_node _ _ Hs))) as Hnd.
  pose proof (so_node_parts _ _ Hs key) as HP. destruct (parts_of _ _ key) as [|[a1 r1] [|[a2 r2] l]];
    [cbn; lia..|]. destruct (HP a1 r1) as (_ & H1 & _ & Hk1 & _); [by left|].
  destruct (HP a2 r2) as (_ & H2 & _ & Hk2 & _); [by right; left|]. cbn in Hnd.
  apply NoDup_cons in Hnd as [Hn _]. destruct Hn. rewrite <-H1, <-H2.
  rewrite Hk1 in Hk2. injection Hk2 as ->. by left.
Qed.

(** Resolving with the messages themselves as keys gives nothing. *)
Lemma resolve_node_self hist s clk' key :
  sentinel_ok hist s →
  let parts := parts_of key_ltb (node_accumulator_ s) key in
  resolve_node clk' key parts parts s = (Ok None, s).
Proof.
  intros Hs parts. pose proof (node_parts_single hist s key Hs) as Hlen.
  unfold resolve_node, mbind, prog_bind, lift, Validate_node. fold parts in Hlen |- *.
  rewrite (proj2 (Nat.ltb_lt (length parts) QuorumSize)) by (unfold QuorumSize; lia).
  by rewrite orb_true_r.
Qed.

Lemma request_key_ends hist s k : sentinel_ok hist s →
  ends (request_key k) s (λ _ s', sentinel_ok hist s') (λ _, False).
Proof. intros []. by split. Qed.

Definition justified hist res : Prop := group_justified hist res ∨ node_justified hist res.

(** The steps the four branches of [Add] share: the part joins its accumulator,
    and at the quorum the entry of the other one is looked up. *)
Ltac add_part_step sl Hs :=
  apply ends_bind; eapply ends_weaken; [by apply (slot_Add_ends sl); [exact Hs|split_and!]| |done];
  cbn; intros ? ? (_ & ? & _ & -> & _); destruct (_ <=? _); [|by apply ends_ret];
  apply ends_bind, ends_get;
  match goal with
  | |- context [GetAll ?ltb ?a ?n] =>
      let HG := fresh "HG" in
      destruct (GetAll ltb a n) as [[]|] eqn:HG; [|by apply ends_ret];
      apply GetAll_parts_of in HG as [= -> ->]
  end.

(** A key is asked for when the name is new. *)
Ltac request_step hist Hs0 :=
  apply ends_bind, ends_get, ends_bind;
  apply (ends_weaken _ _ (λ _ s', sentinel_ok hist s') _ (λ _, False));
    [destruct (HaveName _ _ _); [by apply ends_ret|by apply request_key_ends]| |done];
  intros _ ? Hs0.

(** Every exit of [Add] keeps the invariant, and what it returns is justified. *)
Lemma Sentinel_Add_ends hist s clk clk' h t m :
  sentinel_ok hist s →
  ends (Sentinel_Add clk clk' h t m) s
    (λ o s', sentinel_ok ((h, t, m) :: hist) s' ∧
             ∀ res, o = Some res → justified ((h, t, m) :: hist) res)
    (sentinel_ok ((h, t, m) :: hist)).
Proof.
  intros Hs%(sentinel_ok_weaken _ (h, t, m)). set (hist' := (h, t, m) :: hist) in *.
  assert ((h, t, m) ∈ hist') as Hin by by left. unfold Sentinel_Add.
  case_bool_decide as Ht1; [|case_bool_decide as Ht2];
    destruct (FromGroup h) as [group|] eqn:Hg; try by apply ends_throw.
  - add_part_step node_key_slot Hs.
    eapply ends_weaken; [by apply resolve_node_ends|by unfold justified; naive_solver|done].
  - add_part_step group_key_slot Hs.
    eapply ends_weaken; [by apply resolve_group_ends|by unfold justified; naive_solver|done].
  - request_step hist' Hs0. add_part_step group_slot Hs0.
    eapply ends_weaken; [by apply resolve_group_ends|by unfold justified; naive_solver|done].
  - request_step hist' Hs0. add_part_step node_slot Hs0.
    unfold ends. by erewrite resolve_node_self.
Qed.

(** A part of a single node that is no key response never resolves anything. *)
Lemma single_message_ends hist s clk clk' h t m :
  sentinel_ok hist s → FromGroup h = None →
  t ≠ TagGetClientKeyResponse → t ≠ TagGetGroupKeyResponse →
  ends (Sentinel_Add clk clk' h t m) s (λ o _, o = None) (λ _, False).
Proof.
  intros Hs%(sentinel_ok_weaken _ (h, t, m)) Hg Ht1 Ht2. set (hist' := (h, t, m) :: hist) in *.
  assert ((h, t, m) ∈ hist') as Hin by by left. unfold Sentinel_Add.
  rewrite !bool_decide_eq_false_2, Hg by done.
  request_step hist' Hs0. add_part_step node_slot Hs0.
  unfold ends. by erewrite resolve_node_self.
Qed.
End invariant.

(** ** The properties *)
Section props.
Context `{IL : IdentityLaws} `{CO : !CryptoOps} `{AO : !ArchiveOps} `{AL : !ArchiveLaws}.
Context `{AcO : AccountOps} `{BM : BuildMode}.
Implicit Types (hist : list ResultType) (r v res : ResultType) (s : Sentinel).

(** A call of [Add], with its clock readings. *)
Definition sentinel_input : Type := (nat → Z) * (nat → Z) * ResultType.

(** The state a call leaves, however it ends. *)
Definition sentinel_step s (i : sentinel_input) : Sentinel :=
  let '(clk, clk', (h, t, m)) := i in (Sentinel_Add clk clk' h t m s).2.

Definition sentinel_after (ins : list sentinel_input) : Sentinel :=
  foldl sentinel_step Sentinel_new ins.

Definition history (ins : list sentinel_input) : list ResultType := reverse ins.*2.

Lemma sentinel_after_ok ins : sentinel_ok (history ins) (sentinel_after ins).
Proof.
  unfold sentinel_after, history.
  induction ins as [|[[clk clk'] [[h t] m]] ins IH] using rev_ind; [apply Sentinel_new_ok|].
  rewrite foldl_snoc, fmap_app, reverse_app. cbn [sentinel_step].
  pose proof (Sentinel_Add_ends _ _ clk clk' h t m IH) as He. unfold ends in He.
  destruct (Sentinel_Add clk clk' h t m _) as [[o| | |] s']; [by destruct He|done..].
Qed.

(** The group keys a sentinel holds, and the parts of a group message. *)
Definition held_keys s (group : GroupAddress) : list ResultType :=
  (parts_of Identity_ltb (group_key_accumulator_ s) group).*2.
Definition held_parts s (key : GroupKeyType) : list ResultType :=
  (parts_of key_ltb (group_accumulator_ s) key).*2.

(** The steps before the part joins its accumulator change no accumulator. *)
Lemma maybe_request hist s (b : bool) k :
  sentinel_ok hist s →
  ∃ s0, (if b then mret tt else request_key k) s = (Ok tt, s0) ∧ sentinel_ok hist s0 ∧
    group_accumulator_ s0 = group_accumulator_ s ∧
    group_key_accumulator_ s0 = group_key_accumulator_ s.
Proof. intros Hs. destruct b; eexists; (split; [done|]); [done|]. by destruct Hs. Qed.

Lemma GetAll_not_nil {N} (ltb : N → N → bool) (a : Accumulator N ResultType) name :
  parts_of ltb a name ≠ [] → GetAll ltb a name = Some (name, parts_of ltb a name).
Proof. unfold parts_of, GetAll. by destruct (find_entry _ _ _). Qed.

(** A part of a node that sent none yet joins the parts held. *)
Lemma new_part_perm hist s h t m (key : GroupKeyType) :
  sentinel_ok hist s → NoDup (part_node <$> (h, t, m) :: held_parts s key) →
  (map_insert Identity_ltb (FromNode h) (h, t, m) (parts_of key_ltb (group_accumulator_ s) key)).1.*2
  ≡ₚ (h, t, m) :: held_parts s key.
Proof.
  intros Hs Hnd. unfold held_parts. rewrite (map_insert_absent Identity_ltb).
  - cbn [fst]. by rewrite insert_by_perm.
  - apply (map_find_None Identity_ltb). rewrite fmap_cons in Hnd. apply NoDup_cons in Hnd as [Hn _].
    intros ([a r] & Ha & Hin)%list_elem_of_fmap. destruct Hn.
    destruct (so_group_parts _ _ Hs _ _ _ Hin) as (_ & Hnode & _).
    apply list_elem_of_fmap. exists r. split; [cbn in *; unfold part_node at 1; cbn; congruence|].
    by apply (list_elem_of_fmap_2 snd _ (a, r)).
Qed.

(** A part that makes the parts held a quorum, all properly signed with keys the
    responses agree on: what they resolve to is returned. *)
Lemma complete_message_ends hist s clk clk' h t m group key_of :
  sentinel_ok hist s → FromGroup h = Some group →
  t ≠ TagGetClientKeyResponse → t ≠ TagGetGroupKeyResponse →
  let key := (group, message_id_ h) in
  let parts := (h, t, m) :: held_parts s key in
  QuorumSize ≤ length parts → NoDup (part_node <$> parts) →
  QuorumSize ≤ length (held_keys s group) → responses_agree (held_keys s group) key_of →
  Forall (properly_signed (held_keys s group) key_of) parts →
  ∀ Q : ResultType → Prop,
  (∀ vs, vs ≡ₚ parts → ∃ res, Resolve_group vs = Ok (Some res) ∧ Q res) →
  ends (Sentinel_Add clk clk' h t m) s (λ o _, ∃ res, o = Some res ∧ Q res) (λ _, False).
Proof.
  intros Hs%(sentinel_ok_weaken _ (h, t, m)) Hg Ht1 Ht2 key parts Hlen Hnd Hk Hr Hsig Q HQ.
  unfold Sentinel_Add. rewrite !bool_decide_eq_false_2, Hg by done. fold key.
  apply ends_bind, ends_get, ends_bind.
  destruct (maybe_request _ s (HaveName key_ltb (group_accumulator_ s) key) (GetGroupKeyFor group) Hs)
    as (s0 & Hm & Hs0 & Hg0 & Hk0). unfold ends at 1. rewrite Hm. apply ends_bind.
  eapply ends_weaken; [apply (slot_Add_ends group_slot); [exact Hs0|by split_and!; [left|..]]| |done].
  intros o s1 (Hch & Hs1 & Hparts & -> & _). change (slot_get group_slot) with group_accumulator_ in *.
  change (slot_ltb group_slot) with key_ltb in *. rewrite Hg0 in Hparts.
  match type of Hparts with ?parts = _ => set (ps := parts) in * end.
  assert (ps.*2 ≡ₚ parts) as Hperm by by rewrite Hparts; eapply new_part_perm.
  assert (length ps = length parts) as Hps by by rewrite <-Hperm, length_fmap.
  rewrite (proj1 (proj2 (so_quorums _ _ Hs0))), (proj2 (Nat.leb_le QuorumSize (length ps))) by lia.
  apply ends_bind, ends_get. rewrite (f_equal group_key_accumulator_ Hch). cbn. rewrite Hk0.
  rewrite GetAll_not_nil by (intros Hnil; unfold held_keys in Hk; rewrite Hnil in Hk; by apply Nat.nle_succ_0 in Hk).
  apply ends_bind. eapply ends_lift_Ok.
  { apply Validate_group_complete with (key_of := key_of); [lia| |done|by rewrite Hperm].
    unfold held_keys in Hk. by rewrite length_fmap in Hk. }
  destruct (HQ ps.*2 Hperm) as (res & Hres & HQres).
  apply ends_bind. eapply ends_lift_Ok; [exact Hres|]. apply ends_bind.
  eapply ends_weaken; [by apply (slot_Delete_ends group_slot)| |done]. intros _ s2 _.
  apply ends_ret. by exists res.
Qed.

(** The same for [Add] in a run. *)
Lemma complete_message_returned ins clk clk' h t m group key_of (Q : ResultType → Prop) :
  let s := sentinel_after ins in
  let parts := (h, t, m) :: held_parts s (group, message_id_ h) in
  FromGroup h = Some group → t ≠ TagGetClientKeyResponse → t ≠ TagGetGroupKeyResponse →
  QuorumSize ≤ length parts → NoDup (part_node <$> parts) →
  QuorumSize ≤ length (held_keys s group) → responses_agree (held_keys s group) key_of →
  Forall (properly_signed (held_keys s group) key_of) parts →
  (∀ vs, vs ≡ₚ parts → ∃ res, Resolve_group vs = Ok (Some res) ∧ Q res) →
  ∃ res s', Sentinel_Add clk clk' h t m s = (Ok (Some res), s') ∧ Q res.
Proof.
  intros s parts Hg Ht1 Ht2 Hlen Hnd Hk Hr Hsig HQ.
  pose proof (complete_message_ends _ s clk clk' h t m group key_of (sentinel_after_ok ins)
    Hg Ht1 Ht2 Hlen Hnd Hk Hr Hsig Q HQ) as He.
  unfold ends in He. destruct (Sentinel_Add _ _ _ _ _ _) as [[o| | |] s']; try done.
  destruct He as (res & -> & Hin). by exists res, s'.
Qed.

(** What a call returns is justified by the calls so far. *)
Lemma returned_justified (ins : list sentinel_input) clk clk' h t m res s' :
  Sentinel_Add clk clk' h t m (sentinel_after ins) = (Ok (Some res), s') →
  justified (history (ins ++ [(clk, clk', (h, t, m))])) res.
Proof.
  intros Ha. pose proof (Sentinel_Add_ends _ _ clk clk' h t m (sentinel_after_ok ins)) as He.
  unfold ends in He. rewrite Ha in He. unfold history. rewrite fmap_app, reverse_app.
  by apply He.
Qed.

(** C1: Safety. Whatever was given to a sentinel before, with whatever clock, a
    message that [Add] returns is justified by what it was given. A message from
    a group: at least [QuorumSize] different nodes sent parts with the same
    group and message id, each signed with a valid key that a key response for
    the group lists for its node, and at least [QuorumSize] different nodes sent
    key responses; all these parts have the payload of the result, or they are
    account transfers and the result is the merge of the accounts. In a debug
    build, moreover, all responses agree on the keys. A message from a single
    node: it was given to [Add], and its signature checks with a valid key of
    one of at least [QuorumSize] responses from different nodes. *)
Theorem sentinel_safety (ins : list sentinel_input) clk clk' h t m res s' :
  Sentinel_Add clk clk' h t m (sentinel_after ins) = (Ok (Some res), s') →
  justified (history (ins ++ [(clk, clk', (h, t, m))])) res.
Proof. apply returned_justified. Qed.

(** Agreement gets through. When the key responses held for the group come
    from a quorum of nodes and agree on the nodes' keys, and a new part makes
    the parts held a quorum of the same payload (no account transfers), each
    properly signed, then [Add] returns one of these parts, in both builds. *)
Theorem agreed_group_message_resolves (ins : list sentinel_input) clk clk' h t m group key_of :
  let s := sentinel_after ins in
  let parts := (h, t, m) :: held_parts s (group, message_id_ h) in
  FromGroup h = Some group → t ≠ TagGetClientKeyResponse → t ≠ TagGetGroupKeyResponse →
  QuorumSize ≤ length parts → NoDup (part_node <$> parts) →
  QuorumSize ≤ length (held_keys s group) → responses_agree (held_keys s group) key_of →
  Forall (properly_signed (held_keys s group) key_of) parts →
  Forall (λ v, result_message v = m ∧ result_tag v ≠ TagAccountTransfer) parts →
  ∃ res s', Sentinel_Add clk clk' h t m s = (Ok (Some res), s') ∧ res ∈ parts ∧ result_message res = m.
Proof.
  intros s parts Hg Ht1 Ht2 Hlen Hnd Hk Hr Hsig Hall.
  apply (complete_message_returned ins clk clk' h t m group key_of); try done.
  intros vs Hvs. destruct (Resolve_group_complete vs m) as (res & Hres & Hin); [by rewrite Hvs..|].
  exists res. rewrite Hvs in Hin. split; [done|]. split; [done|]. rewrite Forall_forall in Hall. by apply Hall.
Qed.

(** A message from a single node is never returned by the call of [Add] that
    brings it, whatever keys have been received: [Add] returns nothing (and
    neither throws nor fails), because the keys it validates with are looked up
    in the accumulator of the messages. *)
Theorem single_message_not_returned (ins : list sentinel_input) clk clk' h t m :
  FromGroup h = None → t ≠ TagGetClientKeyResponse → t ≠ TagGetGroupKeyResponse →
  ∃ s', Sentinel_Add clk clk' h t m (sentinel_after ins) = (Ok None, s').
Proof.
  intros Hg Ht1 Ht2.
  pose proof (single_message_ends _ _ clk clk' h t m (sentinel_after_ok ins) Hg Ht1 Ht2) as He.
  unfold ends in He. destruct (Sentinel_Add _ _ _ _ _ _) as [[o| | |] s']; try done.
  rewrite He. by exists s'.
Qed.
End props.

(** ** Witnesses

    A group 100 of the nodes 1, ..., 19, with the key 1 each. *)
Module SentinelWitness.
Import Concrete.
#[local] Existing Instance release_build.

#[local] Instance toy_account : AccountOps := {|
  AccountInfo := N;
  ar_account := option_codec N_codec;
  Merge := λ a _, Some a
|}.

Definition group : GroupAddress := 100%N.
Definition nodes : list N := (λ i, N.of_nat i) <$> seq 1 19.

(** A header from node [i] for the group 100, signed with [key]. *)
Definition header (i key : N) : MessageHeader :=
  mkHeader (7%N, None) (mkSource i (Some 100%N) None) 5%Z nae_manager (Some key).

(** A header from the single node 3. *)
Definition client_header : MessageHeader :=
  mkHeader (7%N, None) (mkSource 3%N None None) 5%Z client (Some 1%N).

(** A response that gives the key [key] for every node. *)
Definition keys_of (key : N) : list (N * N) := (λ i, (i, key)) <$> nodes.
Definition response (key : N) : GetGroupKeyResponse := mkGetGroupKeyResponse (keys_of key) 100%N.
Definition key_part (key i : N) : ResultType :=
  (header i 1, TagGetGroupKeyResponse, Serialise GetGroupKeyResponse_codec (response key)).

Definition part (tag : MessageTypeTag) (key i : N) : ResultType := (header i key, tag, [42%Z]).

(** A clock that stands still. *)
Definition input (r : ResultType) : sentinel_input := (λ _, 0%Z, λ _, 0%Z, r).

(** All nodes sent key responses, all but one sent their part. *)
Definition inputs : list sentinel_input :=
  (input ∘ key_part 1 <$> nodes) ++ (input ∘ part TagPost 1 <$> take 18 nodes).

Lemma sentinel_safety_witness :
  justified (history (inputs ++ [input (part TagPost 1 19)])) (part TagPost 1 1).
Proof.
  apply (sentinel_safety inputs (λ _, 0%Z) (λ _, 0%Z) (header 19 1) TagPost [42%Z] (part TagPost 1 1)
    (Sentinel_Add (λ _, 0%Z) (λ _, 0%Z) (header 19 1) TagPost [42%Z] (sentinel_after inputs)).2).
  apply run_fst. vm_refl.
Defined.

Lemma inputs_held :
  held_keys (sentinel_after inputs) group = key_part 1 <$> nodes ∧
  held_parts (sentinel_after inputs) (group, message_id_ (header 19 1))
    = part TagPost 1 <$> take 18 nodes.
Proof. split; vm_refl. Qed.

Lemma parse_response key r : r ∈ key_part 1 <$> nodes → key = 1%N →
  Parse GetGroupKeyResponse_codec (result_message r) = Ok (response key).
Proof. intros (i & -> & _)%list_elem_of_fmap ->. vm_refl. Qed.

Lemma part_signed i : i ∈ nodes → properly_signed (key_part 1 <$> nodes) (λ _, 1%N) (part TagPost 1 i).
Proof.
  intros Hi. split; [done|]. split; [done|]. exists (key_part 1 1), (response 1).
  split; [apply list_elem_of_fmap_2; by_bool|]. split; [vm_refl|].
  by apply (list_elem_of_fmap_2 (λ i, (i, 1%N))).
Qed.

Lemma agreed_group_message_resolves_witness :
  ∃ res s', Sentinel_Add (λ _, 0%Z) (λ _, 0%Z) (header 19 1) TagPost [42%Z] (sentinel_after inputs)
              = (Ok (Some res), s') ∧
    res ∈ (header 19 1, TagPost, [42%Z]) :: held_parts (sentinel_after inputs) (group, message_id_ (header 19 1)) ∧
    result_message res = [42%Z].
Proof.
  apply (agreed_group_message_resolves inputs (λ _, 0%Z) (λ _, 0%Z) (header 19 1) TagPost [42%Z]
           group (λ _, 1%N)).
  - reflexivity.
  - discriminate.
  - discriminate.
  - apply Nat.leb_le. vm_refl.
  - rewrite (proj2 inputs_held). by_bool.
  - apply Nat.leb_le. vm_refl.
  - rewrite (proj1 inputs_held). apply Forall_forall. intros r Hr. exists (response 1).
    split; [by apply parse_response|]. by intros a k (i & [= -> ->] & _)%list_elem_of_fmap.
  - rewrite (proj1 inputs_held), (proj2 inputs_held). apply Forall_cons.
    split; [by apply part_signed; by_bool|]. apply Forall_fmap, Forall_forall. intros i Hi.
    apply part_signed. eapply elem_of_sublist; [exact Hi|apply sublist_take].
  - rewrite (proj2 inputs_held). apply Forall_cons. split; [done|]. by apply Forall_fmap, Forall_forall.
Defined.

Lemma single_message_not_returned_witness :
  ∃ s', Sentinel_Add (λ _, 0%Z) (λ _, 0%Z)
          client_header TagPutData [42%Z]
          (sentinel_after inputs) = (Ok None, s').
Proof.
  apply (single_message_not_returned inputs (λ _, 0%Z) (λ _, 0%Z)
           client_header TagPutData [42%Z]);
    [reflexivity|discriminate|discriminate].
Defined.

(** The tag is not signed and not compared: eighteen nodes send a [Post], the
    first node the same payload as a [PutData], and [PutData] is returned. *)
Theorem tag_of_first_part_returned :
  let ins := (input ∘ key_part 1 <$> nodes) ++ [input (part TagPutData 1 1)] ++
             (input ∘ part TagPost 1 <$> take 17 (drop 1 nodes)) in
  Sentinel_Add (λ _, 0%Z) (λ _, 0%Z) (header 19 1) TagPost [42%Z] (sentinel_after ins)
  = (Ok (Some (part TagPutData 1 1)),
     (Sentinel_Add (λ _, 0%Z) (λ _, 0%Z) (header 19 1) TagPost [42%Z] (sentinel_after ins)).2).
Proof. cbv zeta. apply run_fst. vm_refl. Qed.

(** In a release build the first response decides: eighteen nodes give the key 1
    for every node and node 1 the key 2, and parts signed with 2 get through. *)
Theorem one_response_decides_keys :
  let ins := [input (key_part 2 1)] ++ (input ∘ key_part 1 <$> drop 1 nodes) ++
             (input ∘ part TagPost 2 <$> take 18 nodes) in
  Sentinel_Add (λ _, 0%Z) (λ _, 0%Z) (header 19 2) TagPost [42%Z] (sentinel_after ins)
  = (Ok (Some (part TagPost 2 1)),
     (Sentinel_Add (λ _, 0%Z) (λ _, 0%Z) (header 19 2) TagPost [42%Z] (sentinel_after ins)).2).
Proof. cbv zeta. apply run_fst. vm_refl. Qed.
End SentinelWitness.
