(* ===== verification/SentinelLiveness.v ===== *)
(** * The sentinel: what gets through

    A group message that a quorum of honest nodes signed gets through the
    sentinel, in whatever order the parts and the key responses arrive, whatever
    else arrives between them and whatever fewer than a quorum of other nodes
    send as parts of it, provided all this happens within twenty minutes.  And
    the message of a single node gets through with the key responses that follow
    it. *)

From S2P Require Import Prelude CppStd Identity Types MessageHeader Codec ConcreteIO Messages.
From S2P Require Import Accumulator AccumulatorProps PartStore Sentinel SentinelFacts SentinelProps.

Section liveness.
Context `{IL : IdentityLaws} `{CO : !CryptoOps} `{AO : !ArchiveOps} `{AL : !ArchiveLaws}.
Context `{AcO : AccountOps} `{BM : BuildMode}.
Implicit Types (hist : list ResultType) (r v res : ResultType) (s : Sentinel) (ins : list sentinel_input).
Implicit Types (g : GroupAddress) (i : MessageId).

(** ** What is given to a sentinel *)

(** A part of the message [i] of the group, and an answer with the keys of the
    group. *)
Definition is_part g i r : Prop := part_group r = Some g ∧ part_id r = i ∧ plain r.
Definition is_response g r : Prop := part_group r = Some g ∧ result_tag r = TagGetGroupKeyResponse.

#[export] Instance is_part_dec g i r : Decision (is_part g i r).
Proof. unfold is_part, plain. apply _. Defined.
#[export] Instance is_response_dec g r : Decision (is_response g r).
Proof. unfold is_response. apply _. Defined.

#[export] Instance plain_dec r : Decision (plain r).
Proof. unfold plain. apply _. Defined.

(** A call of [Add] in the run returned the result. *)
Definition lets_through ins res : Prop :=
  ∃ pre clk clk' h t m post s',
    ins = pre ++ (clk, clk', (h, t, m)) :: post ∧
    Sentinel_Add clk clk' h t m (sentinel_after pre) = (Ok (Some res), s').

(** All within twenty minutes from [t]. *)
Definition timely (t : Z) ins : Prop := Forall (λ x, clock_within t twenty_minutes x.1.1) ins.

(** ** What a call leaves of what is held *)

(** No name held is older than [t]. *)
Definition sentinel_since (t : Z) s : Prop :=
  slot_since node_slot t s ∧ slot_since group_slot t s ∧
  slot_since group_key_slot t s ∧ slot_since node_key_slot t s.

(** The senders of the parts under a name of a slot. *)
Definition senders {N} (sl : Slot N) s (n : N) : list Address := (parts_of (slot_ltb sl) (slot_get sl s) n).*1.

(** No sender goes, except those of one message of a node or of a group. *)
Record grows (xn : option NodeKeyType) (xg : option GroupKeyType) s s' : Prop := {
  gr_node : ∀ n, xn ≠ Some n → senders node_slot s n ⊆ senders node_slot s' n;
  gr_group : ∀ n, xg ≠ Some n → senders group_slot s n ⊆ senders group_slot s' n;
  gr_group_key : ∀ n, senders group_key_slot s n ⊆ senders group_key_slot s' n;
  gr_node_key : ∀ n, senders node_key_slot s n ⊆ senders node_key_slot s' n
}.

Lemma grows_refl xn xg s : grows xn xg s s.
Proof. by split. Qed.

Lemma grows_trans xn xg s1 s2 s3 : grows None None s1 s2 → grows xn xg s2 s3 → grows xn xg s1 s3.
Proof.
  intros [A1 A2 A3 A4] [B1 B2 B3 B4]. split; intros n.
  - intros Hn a Ha. by apply B1, A1.
  - intros Hn a Ha. by apply B2, A2.
  - intros a Ha. by apply B3, A3.
  - intros a Ha. by apply B4, A4.
Qed.

(** How a change of one slot is seen from the whole sentinel. *)
Class SlotFrame {N} (sl : Slot N) : Prop := {
  frame_ttl : ∀ hist s, sentinel_ok hist s → time_to_live_ (slot_get sl s) = twenty_minutes;
  frame_since_of : ∀ t s, sentinel_since t s → slot_since sl t s;
  frame_since : ∀ t s s', slot_changed sl s s' → sentinel_since t s → slot_since sl t s' →
    sentinel_since t s';
  frame_grows : ∀ s s', slot_changed sl s s' → (∀ n, senders sl s n ⊆ senders sl s' n) →
    grows None None s s'
}.

Ltac by_frame :=
  split;
  [by intros hist s [_ _ _ _ _ _ _ _ _ (? & ? & ? & ?)]
  |by intros t s (? & ? & ? & ?)
  |intros t s s' Hch (? & ? & ? & ?) Hs; rewrite Hch in *; done
  |intros s s' Hch Hn; rewrite Hch in *; by split].

#[export] Instance node_frame : SlotFrame node_slot.
Proof. by_frame. Qed.
#[export] Instance group_frame : SlotFrame group_slot.
Proof. by_frame. Qed.
#[export] Instance group_key_frame : SlotFrame group_key_slot.
Proof. by_frame. Qed.
#[export] Instance node_key_frame : SlotFrame node_key_slot.
Proof. by_frame. Qed.

(** A part is added within the time to live of everything held. *)
Lemma add_step {N} `{!EqDecision N} (sl : Slot N) `{!SlotLaws sl} `{!SlotFrame sl} hist t s clk (key : N) r sender :
  sentinel_ok hist s → slot_part sl hist key sender r →
  sentinel_since t s → clock_within t twenty_minutes clk →
  ends (on_slot sl (Add (slot_ltb sl) clk key r sender)) s
    (λ o s', (sentinel_ok hist s' ∧ sentinel_since t s' ∧ grows None None s s' ∧
              sender ∈ senders sl s' key) ∧
       parts_of (slot_ltb sl) (slot_get sl s') key =
         (map_insert Identity_ltb sender r (parts_of (slot_ltb sl) (slot_get sl s) key)).1 ∧
       o = (if quorum_ (slot_get sl s) <=? length (parts_of (slot_ltb sl) (slot_get sl s') key)
            then Some (key, parts_of (slot_ltb sl) (slot_get sl s') key) else None))
    (λ _, False).
Proof.
  intros Hs Hr Ht Hc. eapply ends_weaken; [by apply slot_Add_ends| |done]. cbn beta.
  intros o s' (Hch & Hs' & Hparts & -> & Hkeep & _). split; [|done].
  destruct (slot_ok hist s Hs) as [Hok _].
  destruct (store_senders_Add (PS:=slot_store sl) key r sender (slot_get sl s) (slot_get sl s') Hok Hparts)
    as [Hin Hsub].
  destruct (Hkeep t) as [Hsince Hother]; [by apply frame_since_of|by rewrite (frame_ttl hist)|].
  split; [done|]. split; [by eapply frame_since|]. split; [|done].
  apply frame_grows; [done|]. intros n. destruct (decide (n = key)) as [->|Hn]; [done|].
  unfold senders. by rewrite Hother.
Qed.

(** The messages under a name are deleted. *)
Lemma delete_group_step hist t s clk (key : GroupKeyType) :
  sentinel_ok hist s → sentinel_since t s →
  ends (on_group (Delete key_ltb clk key)) s
    (λ _ s', sentinel_since t s' ∧ grows None (Some key) s s') (λ _, False).
Proof.
  intros Hs Ht. eapply ends_weaken; [by apply (slot_Delete_ends group_slot)| |done]. cbn beta.
  intros _ s' (Hch & _ & Hother & Hsince & _). split.
  { eapply (frame_since (sl:=group_slot)); [done..|]. by apply Hsince, frame_since_of. }
  rewrite Hch in *. split; try done. intros n Hn. unfold senders.
  rewrite <-Hother; [done|]. by intros ->.
Qed.

Lemma delete_node_step hist t s clk (key : NodeKeyType) :
  sentinel_ok hist s → sentinel_since t s →
  ends (on_node (Delete key_ltb clk key)) s
    (λ _ s', sentinel_since t s' ∧ grows (Some key) None s s') (λ _, False).
Proof.
  intros Hs Ht. eapply ends_weaken; [by apply (slot_Delete_ends node_slot)| |done]. cbn beta.
  intros _ s' (Hch & _ & Hother & Hsince & _). split.
  { eapply (frame_since (sl:=node_slot)); [done..|]. by apply Hsince, frame_since_of. }
  rewrite Hch in *. split; try done. intros n Hn. unfold senders.
  rewrite <-Hother; [done|]. by intros ->.
Qed.

(** What is resolved from the parts of a message of a group is for that message,
    and a quorum of parts is held. *)
Lemma resolved_group hist s g i keys vs res :
  sentinel_ok hist s →
  Validate_group (parts_of key_ltb (group_accumulator_ s) (g, i)) keys = Ok vs →
  Resolve_group vs = Ok (Some res) →
  part_group res = Some g ∧ part_id res = i ∧
  QuorumSize ≤ length (parts_of key_ltb (group_accumulator_ s) (g, i)).
Proof.
  intros Hs Hvs Hres. apply Resolve_group_spec in Hres as (votes & Hsub & Hlen & _ & v & Hv & Hh).
  apply Validate_group_spec in Hvs as (_ & _ & Hsub' & _);
    [|intros ->; apply sublist_nil_r in Hsub; by rewrite Hsub in Hv; apply elem_of_nil in Hv].
  destruct (parts_elem key_ltb (is_group_part hist) (group_accumulator_ s) (g, i) v)
    as (x & _ & _ & Hpg & Hpi & _).
  { apply Hs. }
  { eapply elem_of_sublist; [exact Hv|]. by etrans. }
  unfold part_group, part_id in *. rewrite Hh. split; [done|]. split; [done|].
  apply sublist_length in Hsub, Hsub'. rewrite length_fmap in Hsub'. lia.
Qed.

(** What resolving leaves: everything, or all but the message it returns. *)
Lemma resolve_group_step hist t s clk' g i keys :
  sentinel_ok hist s → sentinel_since t s →
  ends (resolve_group clk' (g, i) (parts_of key_ltb (group_accumulator_ s) (g, i)) keys) s
    (λ o s', sentinel_since t s' ∧
       match o with
       | None => s' = s
       | Some res => part_group res = Some g ∧ part_id res = i ∧ grows None (Some (g, i)) s s'
       end)
    (λ s', s' = s).
Proof.
  intros Hs Ht. apply ends_bind, ends_lift; [|done]. intros vs Hvs.
  apply ends_bind, ends_lift; [|done]. intros [res|] Hres; [|by apply ends_ret].
  apply ends_bind. eapply ends_weaken; [by apply (delete_group_step hist t)| |done]. cbn beta.
  intros _ s' [Ht' Hg]. apply ends_ret. split; [done|].
  by destruct (resolved_group hist s g i keys vs res Hs Hvs Hres) as (? & ? & _).
Qed.

Lemma resolve_node_step hist t s clk' (a : NodeAddress) i keys :
  sentinel_ok hist s → sentinel_since t s →
  ends (resolve_node clk' (a, i) (parts_of key_ltb (node_accumulator_ s) (a, i)) keys) s
    (λ o s', sentinel_since t s' ∧
       match o with
       | None => s' = s
       | Some res => part_group res = None ∧ part_node res = a ∧ part_id res = i ∧
                     grows (Some (a, i)) None s s'
       end)
    (λ s', s' = s).
Proof.
  intros Hs Ht. apply ends_bind, ends_lift; [|done]. intros [|res vs] Hvs; [by apply ends_ret|].
  apply ends_bind. eapply ends_weaken; [by apply (delete_node_step hist t)| |done]. cbn beta.
  intros _ s' [Ht' Hg]. apply ends_ret. split; [done|].
  apply Validate_node_spec in Hvs as (_ & Hsub & _); [|done].
  destruct (parts_elem key_ltb (is_node_part hist) (node_accumulator_ s) (a, i) res)
    as (x & _ & _ & Hpg & Heq & _).
  { apply Hs. }
  { eapply elem_of_sublist; [|exact Hsub]. by left. }
  by injection Heq as -> ->.
Qed.

(** What is held after a call of the part it was given. *)
Definition noted_part r s : Prop :=
  plain r → match part_group r with
            | Some g => part_node r ∈ senders group_slot s (g, part_id r)
            | None => part_node r ∈ senders node_slot s (part_node r, part_id r)
            end.
Definition noted_key r s : Prop :=
  ∀ g, part_group r = Some g →
    (result_tag r = TagGetGroupKeyResponse → part_node r ∈ senders group_key_slot s g) ∧
    (result_tag r = TagGetClientKeyResponse → part_node r ∈ senders node_key_slot s g).

(** The name of a result. *)
Definition frees res s s' : Prop :=
  match part_group res with
  | Some g => grows None (Some (g, part_id res)) s s'
  | None => grows (Some (part_node res, part_id res)) None s s'
  end.

(** The result is for the message of which [r] is a part. *)
Definition same_message res r : Prop :=
  part_group res = part_group r ∧ part_id res = part_id r ∧
  (part_group r = None → part_node res = part_node r).

#[export] Instance same_message_dec res r : Decision (same_message res r).
Proof. unfold same_message. apply _. Defined.

(** What every exit of a call leaves. *)
Definition after_call r s s' (o : option ResultType) : Prop :=
  noted_key r s' ∧
  match o with
  | None => grows None None s s' ∧ noted_part r s'
  | Some res => frees res s s' ∧ (plain r → same_message res r)
  end.

Lemma after_call_none r s s' :
  grows None None s s' → noted_key r s' → noted_part r s' → after_call r s s' None.
Proof. done. Qed.

Lemma noted_key_grows r xn xg s s' : grows xn xg s s' → noted_key r s → noted_key r s'.
Proof.
  intros [_ _ Hg Hn] Hr g Hpg. destruct (Hr g Hpg) as [H1 H2]. split; intros Ht.
  - by apply Hg, H1.
  - by apply Hn, H2.
Qed.

(** Resolving what the part of the call completed. *)
Lemma resolve_group_after hist t r s s1 clk' g i keys :
  sentinel_ok hist s1 → sentinel_since t s1 → grows None None s s1 → noted_key r s1 → noted_part r s1 →
  (plain r → is_part g i r) →
  ends (resolve_group clk' (g, i) (parts_of key_ltb (group_accumulator_ s1) (g, i)) keys) s1
    (λ o s', sentinel_since t s' ∧ after_call r s s' o)
    (λ s', sentinel_since t s' ∧ after_call r s s' None).
Proof.
  intros Hs Ht Hg Hk Hp Hpl. eapply ends_weaken; [by apply (resolve_group_step hist t)| |by intros s' ->].
  intros [res|] s' [Ht' Hr]; (split; [done|]); [|by subst].
  destruct Hr as (Hrg & Hri & Hf). split; [by eapply noted_key_grows|].
  unfold frees, same_message. rewrite Hrg, Hri. split; [by eapply grows_trans|].
  by intros (-> & -> & _)%Hpl.
Qed.

Lemma resolve_node_after hist t r s s1 clk' (a : NodeAddress) i keys :
  sentinel_ok hist s1 → sentinel_since t s1 → grows None None s s1 → noted_key r s1 → noted_part r s1 →
  ¬ plain r →
  ends (resolve_node clk' (a, i) (parts_of key_ltb (node_accumulator_ s1) (a, i)) keys) s1
    (λ o s', sentinel_since t s' ∧ after_call r s s' o)
    (λ s', sentinel_since t s' ∧ after_call r s s' None).
Proof.
  intros Hs Ht Hg Hk Hp Hpl. eapply ends_weaken; [by apply (resolve_node_step hist t)| |by intros s' ->].
  intros [res|] s' [Ht' Hr]; (split; [done|]); [|by subst].
  destruct Hr as (Hrg & <- & Hri & Hf). split; [by eapply noted_key_grows|].
  unfold frees. rewrite Hrg, Hri. split; [by eapply grows_trans|done].
Qed.

(** Asking for keys changes nothing that is held. *)
Lemma request_step hist t s (b : bool) k :
  sentinel_ok hist s → sentinel_since t s →
  ends (if b then mret tt else request_key k) s
    (λ _ s', sentinel_ok hist s' ∧ sentinel_since t s' ∧ grows None None s s') (λ _, False).
Proof.
  intros Hs Ht. destruct b; [by apply ends_ret; split_and!; [..|apply grows_refl]|].
  apply ends_modify. split; [by destruct Hs|done].
Qed.

(** The part of the call is where it belongs. *)
Ltac by_noted Hg :=
  unfold noted_key, noted_part, plain, part_group, part_node, part_id, result_header, result_tag;
  cbn [fst snd]; rewrite ?Hg; naive_solver.

(** The steps the four branches of [Add] share, after the part was added. *)
Ltac call_step Hg s1 :=
  let Hs1 := fresh "Hs1" in let Ht1 := fresh "Ht1" in let Hgr := fresh "Hgr" in let Hsd := fresh "Hsd" in
  cbn beta; intros ? s1 ((Hs1 & Ht1 & Hgr & Hsd) & _ & ->);
  let Hnk := fresh "Hnk" in let Hnp := fresh "Hnp" in
  match goal with
  | |- context [after_call ?r _ _ _] =>
      assert (noted_key r s1) as Hnk by by_noted Hg; assert (noted_part r s1) as Hnp by by_noted Hg
  end;
  destruct (_ <=? _); [|apply ends_ret; split; [done|]; by apply after_call_none; [eauto using grows_trans|..]];
  apply ends_bind, ends_get;
  match goal with
  | |- context [GetAll ?ltb ?a ?n] =>
      let HG := fresh "HG" in
      destruct (GetAll ltb a n) as [[]|] eqn:HG;
        [|apply ends_ret; split; [done|]; by apply after_call_none; [eauto using grows_trans|..]];
      apply GetAll_parts_of in HG as [= -> ->]
  end.

(** A call of [Add] within twenty minutes of everything held keeps what is held,
    except for the message it returns, and holds what it was given. *)
Lemma Sentinel_Add_step hist s t clk clk' h tg m :
  sentinel_ok hist s → sentinel_since t s → clock_within t twenty_minutes clk →
  ends (Sentinel_Add clk clk' h tg m) s
    (λ o s', sentinel_since t s' ∧ after_call (h, tg, m) s s' o)
    (λ s', sentinel_since t s' ∧ after_call (h, tg, m) s s' None).
Proof.
  intros Hs%(sentinel_ok_weaken _ (h, tg, m)) Ht Hc. set (hist' := (h, tg, m) :: hist) in *.
  assert ((h, tg, m) ∈ hist') as Hin by by left. unfold Sentinel_Add.
  case_bool_decide as Ht1; [|case_bool_decide as Ht2];
    destruct (FromGroup h) as [g|] eqn:Hg;
    try (apply ends_throw; split; [done|]; apply after_call_none; [apply grows_refl|by_noted Hg..]).
  - apply ends_bind. eapply ends_weaken; [by apply (add_step node_key_slot hist' t)| |done].
    call_step Hg s1. apply (resolve_node_after hist'); try done; by intros [].
  - apply ends_bind. eapply ends_weaken; [by apply (add_step group_key_slot hist' t)| |done].
    call_step Hg s1. apply (resolve_group_after hist'); try done; by intros [].
  - apply ends_bind, ends_get, ends_bind.
    eapply ends_weaken; [by apply (request_step hist' t)| |done]. cbn beta. intros _ s0 (Hs0 & Ht0 & Hg0).
    apply ends_bind. eapply ends_weaken; [by apply (add_step group_slot hist' t)| |done].
    call_step Hg s1. apply (resolve_group_after hist'); try done; by eapply grows_trans.
  - apply ends_bind, ends_get, ends_bind.
    eapply ends_weaken; [by apply (request_step hist' t)| |done]. cbn beta. intros _ s0 (Hs0 & Ht0 & Hg0).
    apply ends_bind. eapply ends_weaken; [by apply (add_step node_slot hist' t)| |done].
    call_step Hg s1. cbn [slot_get slot_ltb node_slot]. unfold ends. erewrite resolve_node_self by done.
    split; [done|]. apply after_call_none; [by eapply grows_trans|done..].
Qed.

(** ** Whole runs *)

Lemma noted_part_frees r res s s' :
  frees res s s' → ¬ same_message res r → noted_part r s → noted_part r s'.
Proof.
  unfold frees, same_message, noted_part. intros Hf Hn Hr Hp. specialize (Hr Hp).
  destruct (part_group r) as [g|], (part_group res) as [g'|]; destruct Hf as [Fn Fg _ _].
  - apply Fg; [|done]. intros [= ? ?]. naive_solver.
  - by apply Fg.
  - by apply Fn.
  - apply Fn; [|done]. intros [= ? ?]. naive_solver.
Qed.

Lemma noted_part_grows r s s' : grows None None s s' → noted_part r s → noted_part r s'.
Proof.
  unfold noted_part. intros [Hn Hg _ _] Hr Hp. specialize (Hr Hp).
  destruct (part_group r); [by apply Hg|by apply Hn].
Qed.

Lemma lets_through_app ins x res : lets_through ins res → lets_through (ins ++ [x]) res.
Proof.
  intros (pre & clk & clk' & h & t & m & post & s' & -> & Hr).
  exists pre, clk, clk', h, t, m, (post ++ [x]), s'. split; [|done]. by rewrite <-app_assoc.
Qed.

Lemma lets_through_last ins clk clk' h t m res s' :
  Sentinel_Add clk clk' h t m (sentinel_after ins) = (Ok (Some res), s') →
  lets_through (ins ++ [(clk, clk', (h, t, m))]) res.
Proof. intros Hr. by exists ins, clk, clk', h, t, m, [], s'. Qed.

Lemma sentinel_after_snoc ins x : sentinel_after (ins ++ [x]) = sentinel_step (sentinel_after ins) x.
Proof. apply foldl_snoc. Qed.

(** What was given within twenty minutes is held: all keys, and the parts of
    every message of which no result was returned. *)
Lemma run_holds t ins :
  timely t ins →
  let s := sentinel_after ins in
  sentinel_since t s ∧
  ∀ r, r ∈ ins.*2 →
    noted_key r s ∧ ((∃ res, lets_through ins res ∧ same_message res r) ∨ noted_part r s).
Proof.
  induction ins as [|[[clk clk'] [[h tg] m]] ins IH] using rev_ind; intros Hti s.
  { split; [|by intros r ?%elem_of_nil]. split_and!; constructor. }
  apply Forall_app in Hti as [Hti [Hc _]%Forall_cons]. destruct (IH Hti) as [Hsince Hheld].
  subst s. rewrite sentinel_after_snoc. cbn [sentinel_step].
  pose proof (Sentinel_Add_step _ _ t clk clk' h tg m (sentinel_after_ok ins) Hsince Hc) as He.
  unfold ends in He. destruct (Sentinel_Add clk clk' h tg m (sentinel_after ins)) as [o s'] eqn:Hadd.
  assert (∃ o', sentinel_since t s' ∧ after_call (h, tg, m) (sentinel_after ins) s' o' ∧
    ∀ res, o' = Some res → lets_through (ins ++ [(clk, clk', (h, tg, m))]) res)
    as (o' & Ht' & [Hk Hcall] & Ho).
  { destruct o as [r| | |]; [exists r|exists None..]; destruct_and!; split_and!; try done.
    intros res ->. by eapply lets_through_last. }
  split; [done|]. intros r. rewrite fmap_app. cbn [fmap list_fmap snd].
  intros [Hr| ->%list_elem_of_singleton]%elem_of_app.
  - destruct (Hheld r Hr) as [Hrk Hrp]. split.
    { destruct o' as [res|]; [|by eapply noted_key_grows, Hrk; apply Hcall].
      destruct Hcall as [Hf _]. unfold frees in Hf. by destruct (part_group res); eapply noted_key_grows. }
    destruct Hrp as [(res & Hl & Hsame)|Hrp]; [left; eauto using lets_through_app|].
    destruct o' as [res|]; [|by right; eapply noted_part_grows, Hrp; apply Hcall].
    destruct (decide (same_message res r)) as [Hsame|Hsame]; [left; eauto|right].
    by eapply noted_part_frees, Hrp; [apply Hcall|].
  - split; [done|]. destruct o' as [res|]; [|by right; destruct Hcall].
    destruct (decide (plain (h, tg, m))) as [Hp|Hp]; [left; exists res; naive_solver|by right; intros ?].
Qed.

(** ** A group message *)

(** The honest nodes agree on the payload [m] of the message and sign it with
    their keys; nobody sends an account transfer as a part of it; the answers
    with keys tell the truth and list the honest nodes; and the other nodes that
    send parts of it are fewer than a quorum. *)
Record agreement (given : list ResultType) g i (m : SerialisedMessage)
    (key_of : Address → PublicKey) (honest : list Address) : Prop := {
  ag_honest : ∀ r, r ∈ given → is_part g i r → part_node r ∈ honest →
    result_message r = m ∧ ValidateKey (key_of (part_node r)) = true ∧
    signature_checks (key_of (part_node r)) r = true;
  ag_accounts : ∀ r, r ∈ given → is_part g i r → result_tag r ≠ TagAccountTransfer;
  ag_keys : ∀ r, r ∈ given → is_response g r →
    ∃ response, Parse GetGroupKeyResponse_codec (result_message r) = Ok response ∧
      (∀ a k, (a, k) ∈ ggkr_public_keys response → k = key_of a) ∧
      (∀ a, a ∈ honest → (a, key_of a) ∈ ggkr_public_keys response);
  ag_faulty : ∀ l, NoDup l →
    (∀ a, a ∈ l → a ∉ honest ∧ ∃ r, r ∈ given ∧ is_part g i r ∧ part_node r = a) →
    length l < QuorumSize
}.

(** Every honest node has sent a part, every responder an answer with the keys
    under the id of the message. *)
Definition arrived (given : list ResultType) g i (honest responders : list Address) : Prop :=
  Forall (λ a, Exists (λ r, is_part g i r ∧ part_node r = a) given) honest ∧
  Forall (λ b, Exists (λ r, is_response g r ∧ part_id r = i ∧ part_node r = b) given) responders.

#[export] Instance arrived_dec given g i honest responders :
  Decision (arrived given g i honest responders).
Proof. unfold arrived. apply _. Defined.

Lemma agreement_sub given given' g i m key_of honest :
  given' ⊆ given → agreement given g i m key_of honest → agreement given' g i m key_of honest.
Proof.
  intros Hsub [Hh Ha Hk Hf]. split; [by auto..|]. intros l Hnd Hl. apply Hf; [done|].
  intros a (Hn & r & Hr & Hp)%Hl. split; [done|]. exists r. auto.
Qed.

Lemma quorum_held {A} (l k : list A) : NoDup l → QuorumSize ≤ length l → l ⊆ k → QuorumSize ≤ length k.
Proof. intros Hnd Hlen Hsub. pose proof (NoDup_subset_length _ _ Hnd Hsub). lia. Qed.

Lemma quorum_nonempty {A} (l : list A) : QuorumSize ≤ length l → l ≠ [].
Proof. intros Hl ->. by apply Nat.nle_succ_0 in Hl. Qed.

Lemma list_elem_of_fmap_nonempty {A B} {l : list (A * B)} : l ≠ [] → ∃ x, x ∈ l.*2.
Proof. destruct l as [|p l]; [done|]. intros _. exists p.2. by left. Qed.

(** A message of a group that was let through is the result of the parts a
    quorum of nodes gave. *)
Lemma lets_through_group ins res g :
  lets_through ins res → part_group res = Some g →
  ∃ votes, QuorumSize ≤ length votes ∧ NoDup (part_node <$> votes) ∧
    (∀ v, v ∈ votes → v ∈ ins.*2 ∧ is_part g (part_id res) v) ∧ group_result votes res.
Proof.
  intros (pre & clk & clk' & h & t & msg & post & s' & -> & Hr) Hg.
  pose proof (Sentinel_Add_ends _ _ clk clk' h t msg (sentinel_after_ok pre)) as He.
  unfold ends in He. rewrite Hr in He. destruct He as [_ He]. specialize (He res eq_refl).
  destruct He as [(g' & votes & responders & Hg' & [Hlen Hnd Hvotes] & _ & Hres & _)|(_ & Hn & _)];
    [|by rewrite Hn in Hg].
  rewrite Hg in Hg'. injection Hg' as <-. rewrite Forall_forall in Hvotes.
  exists votes. split_and!; [done..| |done].
  intros v (Hin & Hvg & Hvi & Hpl & _)%Hvotes. split; [|by split_and!].
  unfold history in Hin. rewrite fmap_app, fmap_cons. set_solver.
Qed.

Section group_message.
Context (g : GroupAddress) (i : MessageId) (m : SerialisedMessage).
Context (key_of : Address → PublicKey) (honest : list Address).
Context (Hdistinct : NoDup honest) (Hsize : QuorumSize ≤ length honest).

(** What is returned for the message has the payload of the honest nodes. *)
Lemma result_payload ins res :
  agreement ins.*2 g i m key_of honest → lets_through ins res →
  part_group res = Some g → part_id res = i → result_message res = m.
Proof.
  intros [Hh Ha _ Hf] Hr Hg <-.
  destruct (lets_through_group ins res g Hr Hg) as (votes & Hlen & Hnd & Hpart & Hres).
  assert (∃ v, v ∈ votes ∧ part_node v ∈ honest) as (v & Hv & Hvh).
  { destruct (decide (Exists (λ v, part_node v ∈ honest) votes)) as [(v & ? & ?)%Exists_exists|Hno];
      [by eauto|]. rewrite <-Forall_Exists_neg, Forall_forall in Hno.
    destruct (Nat.lt_irrefl QuorumSize). eapply Nat.le_lt_trans; [exact Hlen|].
    rewrite <-(length_fmap part_node). apply Hf; [done|].
    intros a (v & -> & Hv)%list_elem_of_fmap. split; [by apply Hno|]. exists v. by destruct (Hpart v Hv). }
  destruct (Hpart v Hv) as [Hin Hp]. destruct (Hh v Hin Hp Hvh) as [Hm _].
  destruct Hres as [[_ Hall]|(head & rest & account & accounts & merged & -> & Htag & _)].
  - by rewrite <-Hm, (Hall v Hv).
  - destruct (Hpart head) as [Hhin Hhp]; [by left|]. by destruct (Ha head Hhin Hhp).
Qed.

(** With the parts of all honest nodes and the keys of a quorum, validating
    leaves a quorum of parts with the payload. *)
Section held.
Context hist s (Hs : sentinel_ok hist s) (Hag : agreement hist g i m key_of honest).
Let parts := parts_of key_ltb (group_accumulator_ s) (g, i).
Let keys := parts_of Identity_ltb (group_key_accumulator_ s) g.

Lemma held_part a r : (a, r) ∈ parts → r ∈ hist ∧ part_node r = a ∧ is_part g i r.
Proof. intros Hr. destruct (so_group_parts _ _ Hs _ _ _ Hr) as (? & ? & ? & ? & ?). by split_and!. Qed.

Lemma held_response r : r ∈ keys.*2 → r ∈ hist ∧ is_response g r.
Proof.
  intros Hr. by destruct (parts_elem Identity_ltb _ _ g r (so_group_keys _ _ Hs) Hr) as (x & Hin & _ & ?).
Qed.

Lemma held_agree : responses_agree keys.*2 key_of.
Proof.
  apply Forall_forall. intros r [Hin Hir]%held_response.
  destruct (ag_keys _ _ _ _ _ _ Hag r Hin Hir) as (response & Hp & Hkeys & _). by exists response.
Qed.

Lemma held_signed r :
  keys ≠ [] → r ∈ hist → is_part g i r → part_node r ∈ honest → properly_signed keys.*2 key_of r.
Proof.
  intros Hne Hr Hp Hh. destruct (ag_honest _ _ _ _ _ _ Hag r Hr Hp Hh) as (_ & Hv & Hsig).
  split; [done|]. split; [done|]. destruct (list_elem_of_fmap_nonempty Hne) as [k Hk].
  destruct (held_response k Hk) as [Hkh Hkr].
  destruct (ag_keys _ _ _ _ _ _ Hag k Hkh Hkr) as (response & Hpr & _ & Hlist).
  exists k, response. split_and!; [done|done|by apply Hlist].
Qed.

Lemma validate_agreed :
  honest ⊆ parts.*1 → QuorumSize ≤ length keys →
  ∃ vs, Validate_group parts keys = Ok vs ∧ (∀ v, v ∈ vs → v ∈ hist ∧ is_part g i v) ∧
    QuorumSize ≤ length (List.filter (λ v, bool_decide (result_message v = m)) vs).
Proof.
  intros Hsub Hkeys. pose proof (NoDup_subset_length _ _ Hdistinct Hsub) as Hlen.
  rewrite length_fmap in Hlen.
  destruct (Validate_group_agreed parts keys key_of) as (km & Hver & Hval); [lia|done|apply held_agree|].
  set (vs := List.filter (verified km key_of) parts.*2) in *. cbn zeta in Hval.
  assert (∀ v, v ∈ vs → v ∈ parts.*2) as Hin_parts.
  { intros v Hv%list_elem_of_In. by apply List.filter_In in Hv as [Hv%list_elem_of_In _]. }
  assert (honest ⊆ part_node <$> List.filter (λ v, bool_decide (result_message v = m)) vs) as Hgood.
  { intros a Hin. pose proof (Hsub a Hin) as ([a' r] & -> & Hr)%list_elem_of_fmap. cbn in *.
    destruct (held_part a' r Hr) as (Hrh & <- & Hrp).
    apply list_elem_of_fmap_2, list_elem_of_In, List.filter_In.
    split; [|apply bool_decide_eq_true; by apply (ag_honest _ _ _ _ _ _ Hag)].
    apply List.filter_In. split; [apply list_elem_of_In; by apply (list_elem_of_fmap_2 snd _ (part_node r, r))|].
    apply Hver, held_signed; try done. by apply quorum_nonempty. }
  pose proof (NoDup_subset_length _ _ Hdistinct Hgood) as Hcount. rewrite length_fmap in Hcount.
  pose proof (List.filter_length_le (λ v, bool_decide (result_message v = m)) vs) as Hle.
  exists vs. rewrite (proj2 (Nat.leb_le QuorumSize (length vs))) in Hval by lia. split; [done|].
  split; [|lia]. intros v ([a r] & -> & Hv)%Hin_parts%list_elem_of_fmap.
  by destruct (held_part a r Hv) as (? & _ & ?).
Qed.
End held.

Lemma resolve_agreed hist s clk' :
  sentinel_ok hist s → agreement hist g i m key_of honest →
  honest ⊆ senders group_slot s (g, i) → QuorumSize ≤ length (senders group_key_slot s g) →
  ends (resolve_group clk' (g, i) (parts_of key_ltb (group_accumulator_ s) (g, i))
          (parts_of Identity_ltb (group_key_accumulator_ s) g)) s
    (λ o _, ∃ res, o = Some res ∧ part_group res = Some g ∧ part_id res = i) (λ _, False).
Proof.
  intros Hs Hag Hsub Hkeys. unfold senders in Hkeys. rewrite length_fmap in Hkeys.
  destruct (validate_agreed hist s Hs Hag Hsub Hkeys) as (vs & Hval & Hvs & Hq).
  destruct (Resolve_group_majority vs m Hq) as (res & Hres & Hin & _).
  { apply Forall_forall. intros v [Hv Hp]%Hvs. by apply (ag_accounts _ _ _ _ _ _ Hag). }
  apply ends_bind. eapply ends_lift_Ok; [exact Hval|]. apply ends_bind.
  eapply ends_lift_Ok; [exact Hres|]. apply ends_bind.
  eapply ends_weaken; [by apply (slot_Delete_ends group_slot)| |done]. intros _ s' _.
  apply ends_ret. exists res. by destruct (Hvs res Hin) as (_ & ? & ? & _).
Qed.

(** The call that completes the parts, and the call that completes the keys. *)
Section last_call.
Context hist s (t : Z) (clk clk' : nat → Z) (h : MessageHeader) (tg : MessageTypeTag)
  (msg : SerialisedMessage) (responders : list Address).
Let r : ResultType := (h, tg, msg).
Context (Hs : sentinel_ok (r :: hist) s) (Ht : sentinel_since t s).
Context (Hc : clock_within t twenty_minutes clk) (Hag : agreement (r :: hist) g i m key_of honest).
Context (Hresp : NoDup responders) (Hrsize : QuorumSize ≤ length responders).
Context (Hparts : ∀ a, a ∈ honest → a ∈ senders group_slot s (g, i) ∨ (is_part g i r ∧ part_node r = a)).
Context (Hkeys : ∀ b, b ∈ responders →
  b ∈ senders group_key_slot s g ∨ (is_response g r ∧ part_node r = b)).

Lemma part_call :
  is_part g i r →
  ends (Sentinel_Add clk clk' h tg msg) s
    (λ o _, ∃ res, o = Some res ∧ part_group res = Some g ∧ part_id res = i) (λ _, False).
Proof.
  intros (Hg & Hi & Hp1 & Hp2). unfold part_group, part_id, result_tag in *. cbn [fst snd r result_header] in *.
  unfold Sentinel_Add. rewrite !bool_decide_eq_false_2, Hg, Hi by done.
  apply ends_bind, ends_get, ends_bind.
  eapply ends_weaken; [by apply (request_step (r :: hist) t)| |done]. cbn beta. intros _ s0 (Hs0 & Ht0 & Hg0).
  apply ends_bind. eapply ends_weaken; [apply (add_step group_slot (r :: hist) t); try done| |done].
  { by split_and!; [left|..]. }
  cbn beta. intros o s1 ((Hs1 & Ht1 & Hgr & Hsd) & _ & ->).
  pose proof (grows_trans None None _ _ _ Hg0 Hgr) as [_ Gg Gk _].
  assert (honest ⊆ senders group_slot s1 (g, i)) as Hsub.
  { intros a [Ha|[_ <-]]%Hparts; [by apply Gg|done]. }
  assert (QuorumSize ≤ length (senders group_key_slot s1 g)) as Hks.
  { apply (quorum_held responders); [done|done|]. intros b [Hb|[[_ Hb] _]]%Hkeys; [by apply Gk|]. done. }
  pose proof (quorum_held _ _ Hdistinct Hsize Hsub) as Hps. unfold senders in Hps, Hks.
  rewrite length_fmap in Hps, Hks. cbn [slot_get slot_ltb group_slot group_key_slot] in *.
  rewrite (proj1 (proj2 (so_quorums _ _ Hs0))), (proj2 (Nat.leb_le _ _) Hps).
  apply ends_bind, ends_get. rewrite GetAll_not_nil.
  - apply (resolve_agreed (r :: hist)); try done. unfold senders. by rewrite length_fmap.
  - exact (quorum_nonempty _ Hks).
Qed.

Lemma response_call :
  is_response g r → part_id r = i →
  ends (Sentinel_Add clk clk' h tg msg) s
    (λ o _, ∃ res, o = Some res ∧ part_group res = Some g ∧ part_id res = i) (λ _, False).
Proof.
  intros [Hg Htag] Hi. unfold part_group, part_id, result_tag in *. cbn [fst snd r result_header] in *.
  unfold Sentinel_Add. rewrite bool_decide_eq_false_2, bool_decide_eq_true_2, Hg, Hi by (by rewrite ?Htag).
  apply ends_bind. eapply ends_weaken; [apply (add_step group_key_slot (r :: hist) t); try done| |done].
  { by split_and!; [left|..]. }
  cbn beta. intros o s1 ((Hs1 & Ht1 & [_ Gg Gk _] & Hsd) & _ & ->).
  assert (honest ⊆ senders group_slot s1 (g, i)) as Hsub.
  { intros a [Ha|[(_ & _ & _ & Hp) _]]%Hparts; [by apply Gg|]. by destruct Hp. }
  assert (QuorumSize ≤ length (senders group_key_slot s1 g)) as Hks.
  { apply (quorum_held responders); [done|done|]. intros b [Hb|[_ <-]]%Hkeys; [by apply Gk|done]. }
  pose proof (quorum_held _ _ Hdistinct Hsize Hsub) as Hps. unfold senders in Hps, Hks.
  rewrite length_fmap in Hps, Hks. cbn [slot_get slot_ltb group_slot group_key_slot] in *.
  rewrite (proj1 (proj2 (proj2 (so_quorums _ _ Hs)))), (proj2 (Nat.leb_le _ _) Hks).
  apply ends_bind, ends_get. rewrite GetAll_not_nil.
  - apply (resolve_agreed (r :: hist)); try done. unfold senders. by rewrite length_fmap.
  - exact (quorum_nonempty _ Hps).
Qed.
End last_call.
End group_message.
Lemma Forall_or_l {A} (P : Prop) (Q : A → Prop) (l : list A) : (∀ x, x ∈ l → P ∨ Q x) → P ∨ (∀ x, x ∈ l → Q x).
Proof.
  induction l as [|x l IH]; intros Hl; [by right; intros y ?%elem_of_nil|].
  destruct (Hl x) as [|Hx]; [by left|by left|]. destruct IH as [|Hr]; [|by left|].
  - intros y Hy. apply Hl. by right.
  - right. intros y [->|Hy]%elem_of_cons; auto.
Qed.

(** If everything wanted is there with one more element, it was there without it
    or the element is wanted. *)
Lemma Forall_Exists_snoc {A B} (P : B → A → Prop) (Q : Prop) `{!Decision Q} l (x : A) k :
  (∀ b, P b x → Q) → Forall (λ b, Exists (P b) (l ++ [x])) k → Forall (λ b, Exists (P b) l) k ∨ Q.
Proof.
  intros HPQ Hk. destruct (decide Q) as [|Hn]; [by right|left]. eapply Forall_impl; [exact Hk|].
  cbn beta. intros b. rewrite Exists_app, Exists_cons, Exists_nil. naive_solver.
Qed.

(** A call that completes what was to arrive brings a part or keys. *)
Lemma arrived_snoc given g i honest responders r :
  arrived (given ++ [r]) g i honest responders →
  arrived given g i honest responders ∨ is_part g i r ∨ (is_response g r ∧ part_id r = i).
Proof.
  intros [Ha Hb].
  apply (Forall_Exists_snoc _ (is_part g i r)) in Ha as [Ha|]; [|by right; left|naive_solver].
  apply (Forall_Exists_snoc _ (is_response g r ∧ part_id r = i)) in Hb as [Hb|]; [by left|by right; right|naive_solver].
Qed.

(** What has arrived is held, or in the part at hand. *)
Lemma arrived_held t ins g i honest responders r :
  timely t ins → arrived (ins.*2 ++ [r]) g i honest responders →
  let s := sentinel_after ins in
  (∃ res, lets_through ins res ∧ part_group res = Some g ∧ part_id res = i) ∨
  ((∀ a, a ∈ honest → a ∈ senders group_slot s (g, i) ∨ (is_part g i r ∧ part_node r = a)) ∧
   (∀ b, b ∈ responders → b ∈ senders group_key_slot s g ∨ (is_response g r ∧ part_node r = b))).
Proof.
  intros Hti [Ha Hb] s. destruct (run_holds t ins Hti) as [_ Hheld]. rewrite Forall_forall in Ha, Hb.
  assert (∀ b, b ∈ responders → b ∈ senders group_key_slot s g ∨ (is_response g r ∧ part_node r = b)) as Hkeys.
  { intros b (v & [Hv| ->%list_elem_of_singleton]%elem_of_app & [Hvg Hvt] & _ & <-)%Hb%Exists_exists; [left|by right].
    destruct (Hheld v Hv) as [Hk _]. by apply Hk. }
  assert (∀ a, a ∈ honest →
    (∃ res, lets_through ins res ∧ part_group res = Some g ∧ part_id res = i) ∨
    (a ∈ senders group_slot s (g, i) ∨ (is_part g i r ∧ part_node r = a))) as Hparts.
  { intros a (v & [Hv| ->%list_elem_of_singleton]%elem_of_app & (Hvg & Hvi & Hvp) & <-)%Ha%Exists_exists;
      [|by right; right].
    destruct (Hheld v Hv) as [_ [(res & Hl & Hrg & Hri & _)|Hp]]; [left|right; left].
    - exists res. by rewrite Hrg, Hri.
    - specialize (Hp Hvp). by rewrite Hvg, Hvi in Hp. }
  apply Forall_or_l with (l := honest)
    (Q := λ a, a ∈ senders group_slot s (g, i) ∨ (is_part g i r ∧ part_node r = a)) in Hparts
    as [Hl|Hp]; [by left|by right].
Qed.


(** ** The message of a single node *)

(** A part of the message [i] of the node, and an answer with its key. *)
Definition is_message (a : NodeAddress) i r : Prop :=
  part_group r = None ∧ part_node r = a ∧ part_id r = i ∧ plain r.
Definition is_client_response (a : NodeAddress) r : Prop :=
  part_group r = Some a ∧ result_tag r = TagGetClientKeyResponse.

#[export] Instance is_client_response_dec a r : Decision (is_client_response a r).
Proof. unfold is_client_response. apply _. Defined.

(** The parts of the message are signed with the key of the node, and the answers
    with the key of the node are truthful. *)
Record node_agreement (given : list ResultType) (a : NodeAddress) i (key : PublicKey) : Prop := {
  na_valid : ValidateKey key = true;
  na_signed : ∀ r, r ∈ given → is_message a i r → signature_checks key r = true;
  na_keys : ∀ r, r ∈ given → is_client_response a r →
    ∃ response, Parse GetClientKeyResponse_codec (result_message r) = Ok response ∧
      gckr_address response = a ∧ gckr_public_key response = key
}.

Lemma node_agreement_sub given given' a i key :
  given' ⊆ given → node_agreement given a i key → node_agreement given' a i key.
Proof. intros Hsub [Hv Hs Hk]. split; auto. Qed.

(** Answers that agree give one address and one key. *)
Lemma collect_node_keys_agreed (a : Address) key keys ks :
  (∀ r, r ∈ keys.*2 → ∃ response, Parse GetClientKeyResponse_codec (result_message r) = Ok response ∧
     gckr_address response = a ∧ gckr_public_key response = key) →
  ks = [] ∨ ks = [(a, [key])] → keys ≠ [] ∨ ks ≠ [] →
  collect_node_keys keys ks = Ok [(a, [key])].
Proof.
  revert ks. induction keys as [|[x r] keys IH]; intros ks Hk Hks Hne; [by destruct Hne, Hks; subst|].
  cbn [collect_node_keys]. destruct (Hk r) as (response & Hp & Ha & Hkey); [by left|].
  rewrite Hp, bind_Ok, Ha, Hkey. assert (add_key ks (a, key) = [(a, [key])]) as ->.
  { destruct Hks as [-> | ->]; cbn; [done|]. rewrite (key_equiv_refl Identity_ltb).
    cbn. unfold same_key at 1. by rewrite bool_decide_eq_true_2. }
  apply IH; [by intros v Hv; apply Hk; right|by right|by right].
Qed.

Section node_message.
Context (a : NodeAddress) (i : MessageId) (key : PublicKey).

(** Resolving the message that is held, with the keys of a quorum. *)
Lemma resolve_node_agreed hist s clk' :
  sentinel_ok hist s → node_agreement hist a i key →
  senders node_slot s (a, i) ≠ [] → QuorumSize ≤ length (senders node_key_slot s a) →
  ends (resolve_node clk' (a, i) (parts_of key_ltb (node_accumulator_ s) (a, i))
          (parts_of Identity_ltb (node_key_accumulator_ s) a)) s
    (λ o _, ∃ res, o = Some res ∧ res ∈ hist ∧ is_message a i res) (λ _, False).
Proof.
  intros Hs [Hv Hsig Hk] Hne Hkeys. unfold senders in *. rewrite length_fmap in Hkeys.
  cbn [slot_get slot_ltb node_slot node_key_slot] in *.
  match goal with |- ends (resolve_node _ _ ?p ?k) _ _ _ => set (parts := p); set (keys := k) end.
  change (parts.*1 ≠ []) in Hne. change (QuorumSize ≤ length keys) in Hkeys.
  assert (∀ r, r ∈ parts.*2 → r ∈ hist ∧ is_message a i r) as Hparts.
  { intros r Hr. destruct (parts_elem key_ltb _ _ (a, i) r (so_node_parts _ _ Hs) Hr)
      as (x & Hin & _ & Hg & [= Ha Hi] & Hpl). by split_and!. }
  assert (collect_node_keys keys [] = Ok [(a : Address, [key])]) as Hc.
  { apply collect_node_keys_agreed; [|by left|left; by apply quorum_nonempty]. intros r Hr.
    destruct (parts_elem Identity_ltb _ _ a r (so_node_keys _ _ Hs) Hr) as (x & Hin & _ & ? & ?).
    by apply Hk. }
  assert (List.filter (signature_checks key) parts.*2 = parts.*2) as Hf.
  { apply forallb_filter_id, List.forallb_forall. intros r Hr%list_elem_of_In.
    destruct (Hparts r Hr). by apply Hsig. }
  destruct parts as [|[x res] rest] eqn:Ep; [done|].
  apply ends_bind. eapply ends_lift_Ok.
  { unfold Validate_node. rewrite (proj2 (Nat.ltb_ge _ _) Hkeys), Hc. cbn -[List.filter fmap].
    rewrite Hv. cbn -[List.filter fmap]. by rewrite Hf, !cpp_assert_true. }
  cbn [Resolve_single]. apply ends_bind.
  eapply ends_weaken; [by apply (slot_Delete_ends node_slot)| |done]. intros _ s' _.
  apply ends_ret. exists res. split; [done|]. apply Hparts. by left.
Qed.

(** The answer that completes the keys. *)
Lemma client_response_call hist s t clk clk' h tg msg (responders : list Address) :
  let r : ResultType := (h, tg, msg) in
  sentinel_ok (r :: hist) s → sentinel_since t s → clock_within t twenty_minutes clk →
  node_agreement (r :: hist) a i key → NoDup responders → QuorumSize ≤ length responders →
  senders node_slot s (a, i) ≠ [] → is_client_response a r → part_id r = i →
  (∀ b, b ∈ responders → b ∈ senders node_key_slot s a ∨ part_node r = b) →
  ends (Sentinel_Add clk clk' h tg msg) s
    (λ o _, ∃ res, o = Some res ∧ res ∈ r :: hist ∧ is_message a i res) (λ _, False).
Proof.
  intros r Hs Ht Hc Hag Hnd Hrs Hne [Hg Htag] Hi Hkeys.
  unfold part_group, part_id, result_tag in *. cbn [fst snd r result_header] in *.
  unfold Sentinel_Add. rewrite bool_decide_eq_true_2, Hg, Hi by (by rewrite ?Htag).
  apply ends_bind. eapply ends_weaken; [apply (add_step node_key_slot (r :: hist) t); try done| |done].
  { by split_and!; [left|..]. }
  cbn beta. intros o s1 ((Hs1 & Ht1 & [Gn _ _ Gk] & Hsd) & _ & ->).
  assert (QuorumSize ≤ length (senders node_key_slot s1 a)) as Hks.
  { apply (quorum_held responders); [done|done|]. intros b [Hb|<-]%Hkeys; [by apply Gk|done]. }
  assert (senders node_slot s1 (a, i) ≠ []) as Hne1.
  { intros Hnil. destruct (senders node_slot s (a, i)) as [|b l] eqn:El; [done|].
    specialize (Gn (a, i) ltac:(done) b). rewrite El, Hnil in Gn. by apply elem_of_nil in Gn; [|left]. }
  pose proof Hks as Hq. unfold senders in Hq. rewrite length_fmap in Hq.
  cbn [slot_get slot_ltb node_key_slot] in *.
  rewrite (proj2 (proj2 (proj2 (so_quorums _ _ Hs)))), (proj2 (Nat.leb_le _ _) Hq).
  apply ends_bind, ends_get. rewrite GetAll_not_nil.
  - by apply (resolve_node_agreed (r :: hist)).
  - intros Hnil. apply Hne1. exact (f_equal (λ l : Map ResultType, l.*1) Hnil).
Qed.
End node_message.

(** A message of a node that was let through was given. *)
Lemma lets_through_node ins res : lets_through ins res → part_group res = None → res ∈ ins.*2.
Proof.
  intros (pre & clk & clk' & h & tg & m & post & s' & -> & Ha) Hg.
  pose proof (Sentinel_Add_ends _ _ clk clk' h tg m (sentinel_after_ok pre)) as He.
  unfold ends in He. rewrite Ha in He. destruct He as [_ He].
  destruct (He res eq_refl) as [(? & ? & ? & Hg' & _)|[Hin _]]; [congruence|].
  unfold history in Hin. rewrite elem_of_cons, elem_of_reverse in Hin.
  rewrite fmap_app. apply elem_of_app. rewrite fmap_cons, elem_of_cons. naive_solver.
Qed.

(** The call that brings the last of the answers. *)
Lemma client_response_last t ins clk clk' h tg msg r key (responders : list Address) :
  let x : ResultType := (h, tg, msg) in
  timely t ins → clock_within t twenty_minutes clk → r ∈ ins.*2 → plain r → part_group r = None →
  NoDup responders → QuorumSize ≤ length responders →
  node_agreement (ins.*2 ++ [x]) (part_node r) (part_id r) key →
  is_client_response (part_node r) x → part_id x = part_id r →
  (∀ b, b ∈ responders → part_node x = b ∨
     ∃ v, v ∈ ins.*2 ∧ is_client_response (part_node r) v ∧ part_node v = b) →
  ∃ res, lets_through (ins ++ [(clk, clk', x)]) res ∧ res ∈ ins.*2 ++ [x] ∧ same_message res r.
Proof.
  intros x Hti Hc Hr Hpl Hg Hnd Hrs Hag Hx Hxi Hb. set (a := part_node r) in *. set (i := part_id r) in *.
  destruct (run_holds t ins Hti) as [Hsince Hheld].
  destruct (Hheld r Hr) as [_ [(res & Hl & Hres)|Hp]].
  { exists res. split; [by apply lets_through_app|]. split; [|done].
    apply elem_of_app. left. apply lets_through_node; [done|]. destruct Hres as (-> & _). done. }
  specialize (Hp Hpl). rewrite Hg in Hp. change (a ∈ senders node_slot (sentinel_after ins) (a, i)) in Hp.
  pose proof (sentinel_ok_weaken _ x _ (sentinel_after_ok ins)) as Hs.
  assert (∀ v, v ∈ x :: history ins ↔ v ∈ ins.*2 ++ [x]) as Hhist.
  { intros v. unfold history. rewrite elem_of_app, !elem_of_cons, elem_of_reverse. set_solver. }
  assert (ends (Sentinel_Add clk clk' h tg msg) (sentinel_after ins)
    (λ o _, ∃ res, o = Some res ∧ res ∈ x :: history ins ∧ is_message a i res) (λ _, False)) as He.
  { eapply (client_response_call a i key (history ins) _ t clk clk' h tg msg responders); try done.
    - eapply node_agreement_sub, Hag. intros v. by apply Hhist.
    - intros Hnil. rewrite Hnil in Hp. by apply elem_of_nil in Hp.
    - intros b [<-|(v & Hv & [Hvg Hvt] & <-)]%Hb; [by right|left]. by apply (Hheld v Hv). }
  unfold ends in He. destruct (Sentinel_Add _ _ _ _ _ _) as [[o| | |] s'] eqn:Hadd; try done.
  destruct He as (res & -> & Hin & Hrg & Hrn & Hri & _). exists res. split; [by eapply lets_through_last|].
  split; [by apply Hhist|]. split_and!; [by rewrite Hg|done|done].
Qed.

(** Liveness. The message of a single node gets through: when it is followed,
    within twenty minutes, by truthful answers with the key of the node from every
    one of a quorum of nodes, under the id of the message, then a call of [Add]
    has returned it (or another message the node gave under that id), whatever
    other messages and answers came before or in between. *)
Theorem node_message_gets_through t ins1 ins2 r key responders :
  timely t (ins1 ++ ins2) → r ∈ ins1.*2 → plain r → part_group r = None →
  NoDup responders → QuorumSize ≤ length responders →
  node_agreement (ins1 ++ ins2).*2 (part_node r) (part_id r) key →
  Forall (λ b, Exists (λ v, is_client_response (part_node r) v ∧ part_id v = part_id r ∧
                            part_node v = b) ins2.*2) responders →
  ∃ res, lets_through (ins1 ++ ins2) res ∧ res ∈ (ins1 ++ ins2).*2 ∧ same_message res r.
Proof.
  intros Hti Hr Hpl Hg Hnd Hrs. set (a := part_node r). set (i := part_id r).
  revert Hti. induction ins2 as [|[[clk clk'] [[h tg] msg]] ins2 IH] using rev_ind; intros Hti Hag Harr.
  { destruct responders as [|b responders]; [by destruct (quorum_nonempty _ Hrs)|].
    apply Forall_cons in Harr as [Hb _]. by apply Exists_nil in Hb. }
  rewrite app_assoc in *. set (ins := ins1 ++ ins2) in *. rewrite !fmap_app in *. cbn [fmap list_fmap snd] in *.
  apply Forall_app in Hti as [Hti [Hc _]%Forall_cons]. cbn in Hc.
  pose proof Harr as [Hold|[Hx Hxi]]%(Forall_Exists_snoc _
    (is_client_response a (h, tg, msg) ∧ part_id (h, tg, msg) = i)); [..|naive_solver].
  { destruct (IH Hti) as (res & Hl & Hin & Hres); [eapply node_agreement_sub, Hag; set_solver|done|].
    exists res. split; [by apply lets_through_app|]. split; [by apply elem_of_app; left|done]. }
  assert (∀ v, v ∈ ins1.*2 ∨ v ∈ ins2.*2 → v ∈ ins.*2) as Hsub by (intros v; unfold ins; by rewrite fmap_app, elem_of_app).
  eapply (client_response_last t ins clk clk' h tg msg r key responders); eauto.
  rewrite Forall_forall in Harr.
  intros b (v & [Hv| ->%list_elem_of_singleton]%elem_of_app & Hvr & _ & <-)%Harr%Exists_exists;
    [right|by left]. exists v. auto.
Qed.

End liveness.

(** ** Concrete runs *)

Module LivenessWitness.
Import Concrete SentinelWitness.
#[local] Existing Instances release_build toy_account.

(** All nodes have one key.  The parts of ten nodes, a part with another payload from the node 20, the
    keys, and the parts of the other nodes. *)
Definition one_key (a : Address) : PublicKey := 1%N.
Definition mixed : list ResultType :=
  (part TagPost 1 <$> take 10 nodes) ++ [(header 20 1, TagPost, [43%Z])] ++
  (key_part 1 <$> nodes) ++ (part TagPost 1 <$> drop 10 nodes).

Lemma mixed_elem r :
  r ∈ mixed → (∃ n, n ∈ nodes ∧ r = part TagPost 1 n) ∨ r = (header 20 1, TagPost, [43%Z]) ∨
              (∃ n, n ∈ nodes ∧ r = key_part 1 n).
Proof.
  unfold mixed. rewrite !elem_of_app, list_elem_of_singleton, !list_elem_of_fmap.
  intros [(n & -> & Hn)|[->|[(n & -> & Hn)|(n & -> & Hn)]]]; [left; exists n|by right; left|right; right; eauto|left; exists n];
    (split; [|done]); rewrite <-(take_drop 10 nodes), elem_of_app; auto.
Qed.

Lemma mixed_agreement : agreement mixed group (message_id_ (header 1 1)) [42%Z] one_key nodes.
Proof.
  split.
  - intros r [(n & _ & ->)|[->|(n & _ & ->)]]%mixed_elem Hp Hn; [done|exfalso; revert Hn; by_bool|].
    by destruct Hp as (_ & _ & [_ ?]).
  - by intros r [(n & _ & ->)|[->|(n & _ & ->)]]%mixed_elem _.
  - intros r [(n & _ & ->)|[->|(n & Hn & ->)]]%mixed_elem [_ Ht]; try done. exists (response 1).
    split; [apply parse_response; [by apply list_elem_of_fmap_2|done]|]. split.
    + by intros a k (x & [= -> ->] & _)%list_elem_of_fmap.
    + intros a Ha. by apply (list_elem_of_fmap_2 (λ i, (i, 1%N))).
  - intros l Hnd Hl. apply (Nat.le_lt_trans _ (length [20%N])); [|apply Nat.leb_le; vm_refl].
    apply NoDup_subset_length; [done|]. intros a [Hn (r & Hr & Hp & <-)]%Hl.
    apply mixed_elem in Hr as [(n & Hin & ->)|[->|(n & _ & ->)]]; [by destruct Hn|by left|].
    by destruct Hp as (_ & _ & [_ ?]).
Qed.


(** The message of the node 3, and the answers of the nodes with its key. *)
Definition client_message : ResultType := (client_header, TagPutData, [42%Z]).
Definition client_key : GetClientKeyResponse := mkGetClientKeyResponse 3%N 1%N.
Definition client_key_part (n : N) : ResultType :=
  (mkHeader (7%N, None) (mkSource n (Some 3%N) None) 5%Z nae_manager (Some 1%N), TagGetClientKeyResponse,
   Serialise GetClientKeyResponse_codec client_key).

Lemma node_message_gets_through_witness :
  ∃ res, lets_through ((input <$> [client_message]) ++ (input <$> (client_key_part <$> nodes))) res ∧
    res ∈ ((input <$> [client_message]) ++ (input <$> (client_key_part <$> nodes))).*2 ∧
    same_message res client_message.
Proof.
  apply (node_message_gets_through 0 (input <$> [client_message]) (input <$> (client_key_part <$> nodes))
    client_message (one_key 3%N) nodes).
  - rewrite <-fmap_app. apply Forall_fmap, Forall_forall. by intros r _ n.
  - by left.
  - done.
  - reflexivity.
  - by_bool.
  - apply Nat.leb_le. vm_refl.
  - rewrite <-fmap_app, <-list_fmap_compose, list_fmap_id. split; [done|..].
    + intros r [->%list_elem_of_singleton|(n & -> & _)%list_elem_of_fmap]%elem_of_app Hr; [done|].
      by destruct Hr as (? & _).
    + intros r [->%list_elem_of_singleton|(n & -> & _)%list_elem_of_fmap]%elem_of_app Hr; [by destruct Hr|].
      exists client_key. split; [vm_refl|done].
  - rewrite <-list_fmap_compose, list_fmap_id. by_bool.
Defined.
End LivenessWitness.
