(* ===== verification/SentinelOnce.v ===== *)
(** * The sentinel: how often a message is returned

    Returning a message of a group uses up the parts it was made of: a quorum of
    parts is given to the sentinel for every time the message is returned,
    whatever the clock says and whatever else arrives.  A message of which each
    node of the group sends one part is returned at most once. *)

From S2P Require Import Prelude CppStd Identity Types MessageHeader Codec ConcreteIO Messages.
From S2P Require Import Accumulator AccumulatorProps PartStore Sentinel SentinelFacts SentinelProps.
From S2P Require Import SentinelLiveness.

Section once.
Context `{IL : IdentityLaws} `{CO : !CryptoOps} `{AO : !ArchiveOps} `{AL : !ArchiveLaws}.
Context `{AcO : AccountOps} `{BM : BuildMode}.
Implicit Types (hist : list ResultType) (r res : ResultType) (s : Sentinel) (ins : list sentinel_input).
Context (g : GroupAddress) (i : MessageId).

(** The result is for the message. *)
Definition is_result res : Prop := part_group res = Some g ∧ part_id res = i.

#[export] Instance is_result_dec res : Decision (is_result res).
Proof. unfold is_result. apply _. Defined.

(** What the calls of [Add] return. *)
Fixpoint results s ins : list ResultType :=
  match ins with
  | [] => []
  | (clk, clk', (h, t, m)) :: ins =>
      let '(o, s') := Sentinel_Add clk clk' h t m s in
      match o with Ok (Some res) => [res] | _ => [] end ++ results s' ins
  end.

(** The number of parts of the message that are held, and what a result costs. *)
Definition held_count s : nat := length (parts_of key_ltb (group_accumulator_ s) (g, i)).
Definition cost (o : option ResultType) : nat :=
  match o with Some res => if decide (is_result res) then QuorumSize else 0 | None => 0 end.
Definition gain r : nat := if decide (is_part g i r) then 1 else 0.

(** [p] pays for what it returns with parts that are held. *)
Definition pays (p : prog Sentinel (option ResultType)) s (budget : nat) : Prop :=
  ends p s (λ o s', cost o + held_count s' ≤ budget) (λ s', held_count s' ≤ budget).

Lemma pays_none s budget : held_count s ≤ budget → pays (mret None) s budget.
Proof. done. Qed.

Lemma resolve_group_pays hist s clk' g' i' keys budget :
  sentinel_ok hist s → held_count s ≤ budget →
  pays (resolve_group clk' (g', i') (parts_of key_ltb (group_accumulator_ s) (g', i')) keys) s budget.
Proof.
  intros Hs Hb. apply ends_bind, ends_lift; [|done]. intros vs Hvs.
  apply ends_bind, ends_lift; [|done]. intros [res|] Hres; [|by apply ends_ret].
  destruct (resolved_group hist s g' i' keys vs res Hs Hvs Hres) as (Hg & Hi & Hq).
  apply ends_bind. eapply ends_weaken; [by apply (slot_Delete_ends group_slot hist s)| |done].
  cbn beta. intros _ s' (_ & _ & Hother & _ & Hnil). apply ends_ret. unfold cost.
  cbn [slot_get slot_ltb group_slot] in *. unfold held_count in *.
  destruct (decide (is_result res)) as [[Hg' Hi']|Hne].
  - assert (g' = g) as -> by congruence. assert (i' = i) as -> by congruence.
    match goal with |- _ + length ?l ≤ _ => replace (length l) with 0 end;
      [rewrite Nat.add_0_r; etrans; [exact Hq|exact Hb]|].
    symmetry. exact (f_equal length Hnil).
  - cbn [Nat.add]. etrans; [|exact Hb]. apply Nat.eq_le_incl, (f_equal length), Hother.
    intros [= <- <-]. by destruct Hne.
Qed.

Lemma resolve_node_pays hist s clk' (a : NodeAddress) i' keys budget :
  sentinel_ok hist s → held_count s ≤ budget →
  pays (resolve_node clk' (a, i') (parts_of key_ltb (node_accumulator_ s) (a, i')) keys) s budget.
Proof.
  intros Hs Hb. apply ends_bind, ends_lift; [|done]. intros [|res vs] Hvs; [by apply ends_ret|].
  apply ends_bind. eapply ends_weaken; [by apply (slot_Delete_ends node_slot hist s)| |done].
  cbn beta. intros _ s' (Hch & _). apply ends_ret. unfold cost.
  assert (part_group res = None) as Hg.
  { apply Validate_node_spec in Hvs as (_ & Hsub & _); [|done].
    destruct (parts_elem key_ltb (is_node_part hist) (node_accumulator_ s) (a, i') res)
      as (x & _ & _ & Hpg & _); [apply Hs|eapply elem_of_sublist; [|exact Hsub]; by left|done]. }
  destruct (decide (is_result res)) as [[Hg' _]|_]; [congruence|].
  rewrite Hch. exact Hb.
Qed.

(** A part that is added. *)
Lemma add_other_count {N} (sl : Slot N) `{!SlotLaws sl} s s' :
  slot_changed sl s s' → group_accumulator_ (slot_put sl (slot_get sl s') s) = group_accumulator_ s →
  held_count s' = held_count s.
Proof. intros Hch Hg. unfold held_count. by rewrite Hch, Hg. Qed.

Lemma add_group_count hist s s' g' i' r :
  sentinel_ok hist s' → is_part g' i' r →
  parts_of key_ltb (group_accumulator_ s') (g', i')
    = (map_insert Identity_ltb (part_node r) r (parts_of key_ltb (group_accumulator_ s) (g', i'))).1 →
  (∀ n, n ≠ (g', i') → parts_of key_ltb (group_accumulator_ s') n ⊆ parts_of key_ltb (group_accumulator_ s) n) →
  held_count s' ≤ held_count s + gain r.
Proof.
  intros Hs Hr Hadd Hsub. unfold held_count, gain. destruct (decide (is_part g i r)) as [(Hg & Hi & _)|Hn].
  - destruct Hr as (Hg' & Hi' & _). assert (g' = g) as -> by congruence. assert (i' = i) as -> by congruence.
    rewrite Nat.add_1_r. etrans; [apply Nat.eq_le_incl, (f_equal length Hadd)|]. apply (map_insert_length Identity_ltb).
  - rewrite Nat.add_0_r. apply NoDup_subset_length; [|apply Hsub; by intros [= <- <-]].
    apply (NoDup_fmap_1 fst), (map_ok_NoDup Identity_ltb), parts_of_ok, Hs.
Qed.

(** The rest of a call, after the part was added. *)
Ltac call_pays s1 :=
  destruct (_ <=? _); [|by apply pays_none];
  apply ends_bind, ends_get;
  match goal with
  | |- context [GetAll ?ltb ?a ?n] =>
      let HG := fresh "HG" in
      destruct (GetAll ltb a n) as [[]|] eqn:HG; [|by apply pays_none];
      apply GetAll_parts_of in HG as [= -> ->]
  end.

(** Asking for keys. *)
Ltac request_pays hist s Hs Hle s0 Hs0 :=
  let Heq := fresh "Heq" in
  apply ends_bind, ends_get, ends_bind;
  apply (ends_weaken _ _ (λ _ s', sentinel_ok hist s' ∧ held_count s' = held_count s) _ (λ _, False));
  [destruct (HaveName _ _ _); [by apply ends_ret|]; apply ends_modify; split; [by destruct Hs|done]
  |cbn beta; intros _ s0 [Hs0 Heq]; rewrite <-Heq in Hle |- *
  |done].

(** A call of [Add] gains at most the part it is given, and a result for the
    message costs a quorum of parts. *)
Lemma Sentinel_Add_pays hist s clk clk' h t m :
  sentinel_ok hist s →
  pays (Sentinel_Add clk clk' h t m) s (held_count s + gain (h, t, m)).
Proof.
  intros Hs%(sentinel_ok_weaken _ (h, t, m)). set (hist' := (h, t, m) :: hist) in *.
  assert ((h, t, m) ∈ hist') as Hin by by left. unfold Sentinel_Add.
  assert (held_count s ≤ held_count s + gain (h, t, m)) as Hle by lia.
  case_bool_decide as Ht1; [|case_bool_decide as Ht2];
    destruct (FromGroup h) as [g'|] eqn:Hg; try by apply ends_throw.
  - apply ends_bind. eapply ends_weaken; [apply (slot_Add_ends node_key_slot hist'); [done|by split_and!]| |done].
    cbn beta. intros o s1 (Hch & Hs1 & _ & -> & _).
    rewrite <-(add_other_count node_key_slot s s1 Hch eq_refl) in Hle at 1.
    call_pays s1. by apply (resolve_node_pays hist').
  - apply ends_bind. eapply ends_weaken; [apply (slot_Add_ends group_key_slot hist'); [done|by split_and!]| |done].
    cbn beta. intros o s1 (Hch & Hs1 & _ & -> & _).
    rewrite <-(add_other_count group_key_slot s s1 Hch eq_refl) in Hle at 1.
    call_pays s1. by apply (resolve_group_pays hist').
  - request_pays hist' s Hs Hle s0 Hs0.
    apply ends_bind. eapply ends_weaken; [apply (slot_Add_ends group_slot hist'); [done|by split_and!]| |done].
    cbn beta. intros o s1 (_ & Hs1 & Hadd & -> & _ & Hsub).
    assert (held_count s1 ≤ held_count s0 + gain (h, t, m)) as Hle1
      by (by eapply (add_group_count hist' s0 s1 g' (message_id_ h) (h, t, m))).
    call_pays s1. by apply (resolve_group_pays hist').
  - request_pays hist' s Hs Hle s0 Hs0.
    apply ends_bind. eapply ends_weaken; [apply (slot_Add_ends node_slot hist'); [done|by split_and!]| |done].
    cbn beta. intros o s1 (Hch & Hs1 & _ & -> & _).
    rewrite <-(add_other_count node_slot s0 s1 Hch eq_refl) in Hle at 1.
    call_pays s1. by apply (resolve_node_pays hist').
Qed.

(** The parts of the message that are given in a run, and how often it is returned. *)
Definition parts_given ins : nat := length (filter (is_part g i) ins.*2).
Definition times_returned s ins : nat := length (filter is_result (results s ins)).

Lemma parts_given_cons x ins : parts_given (x :: ins) = gain x.2 + parts_given ins.
Proof.
  unfold parts_given, gain. rewrite fmap_cons, filter_cons. by destruct (decide _).
Qed.

Lemma results_paid hist s ins :
  sentinel_ok hist s → QuorumSize * times_returned s ins ≤ held_count s + parts_given ins.
Proof.
  revert hist s. induction ins as [|[[clk clk'] [[h t] m]] ins IH]; intros hist s Hs; [cbn; lia|].
  pose proof (Sentinel_Add_pays hist s clk clk' h t m Hs) as Hp.
  pose proof (Sentinel_Add_ends hist s clk clk' h t m Hs) as He.
  rewrite parts_given_cons. unfold pays, ends, times_returned in *. cbn [results snd].
  destruct (Sentinel_Add clk clk' h t m s) as [o s'].
  assert (sentinel_ok ((h, t, m) :: hist) s') as Hs' by (destruct o; by try destruct He).
  specialize (IH _ _ Hs'). rewrite filter_app, length_app.
  assert (QuorumSize * length (filter is_result (match o with Ok (Some res) => [res] | _ => [] end))
          + held_count s' ≤ held_count s + gain (h, t, m)); [|lia].
  destruct o as [[res|]| | |]; cbn [filter list_filter length] in *; unfold cost in Hp; try lia; try done.
  destruct (decide (is_result res)); cbn [length]; lia.
Qed.

(** C10: A message of a group is not repeated: each time the calls of [Add] on a
    sentinel return it, a quorum of parts of it was given for that time alone,
    whatever the clocks say and whatever else is given; so when each member of
    the group sends at most one part, the message is returned at most once. *)
Theorem group_message_not_repeated ins :
  QuorumSize * times_returned Sentinel_new ins ≤ parts_given ins ∧
  ∀ members, length members ≤ GroupSize → NoDup (part_node <$> filter (is_part g i) ins.*2) →
    (part_node <$> filter (is_part g i) ins.*2) ⊆ members → times_returned Sentinel_new ins ≤ 1.
Proof.
  pose proof (results_paid [] Sentinel_new ins Sentinel_new_ok) as Hp.
  assert (held_count Sentinel_new = 0) as H0 by done. rewrite H0 in Hp. split; [exact Hp|].
  intros members Hlen Hnd Hsub. apply NoDup_subset_length in Hsub; [|done].
  rewrite length_fmap in Hsub. fold (parts_given ins) in Hsub. unfold QuorumSize, GroupSize in *. lia.
Qed.
End once.

(** ** A concrete run *)

Module OnceWitness.
Import Concrete SentinelWitness LivenessWitness.
#[local] Existing Instances release_build toy_account.

Lemma group_message_not_repeated_witness :
  QuorumSize * times_returned group (message_id_ (header 1 1)) Sentinel_new (input <$> mixed)
    ≤ parts_given group (message_id_ (header 1 1)) (input <$> mixed) ∧
  times_returned group (message_id_ (header 1 1)) Sentinel_new (input <$> mixed) ≤ 1.
Proof.
  destruct (group_message_not_repeated group (message_id_ (header 1 1)) (input <$> mixed)) as [H1 H2].
  split; [exact H1|]. apply (H2 (20%N :: nodes)).
  - apply Nat.leb_le. vm_refl.
  - rewrite <-list_fmap_compose, list_fmap_id. by_bool.
  - rewrite <-list_fmap_compose, list_fmap_id. by_bool.
Defined.
End OnceWitness.
