(* ===== verification/SentinelAgreement.v ===== *)
(** * Sentinels agree

    Two nodes that check the messages of a group, each with a sentinel of its own
    and with whatever parts and keys reached it, do not accept different payloads
    for the same message: two quorums of a group have honest members in common.
    What this needs, of the key responses and of the signatures, is stated, and
    that it is needed is shown by example. *)

From S2P Require Import Prelude CppStd Identity Types MessageHeader Codec ConcreteIO Messages.
From S2P Require Import Accumulator PartStore Sentinel SentinelFacts SentinelProps SentinelLiveness.

Section agreement.
Context `{IL : IdentityLaws} `{CO : !CryptoOps} `{AO : !ArchiveOps} `{AL : !ArchiveLaws}.
Context `{AcO : AccountOps} `{BM : BuildMode}.
Implicit Types (r v res : ResultType) (ins : list sentinel_input) (given : list ResultType).
Implicit Types (g : GroupAddress) (i : MessageId).

(** The members of a group of whom some may be faulty, with the keys and the one
    payload of each of the others. *)
Record Group := mkGroup {
  members : list Address;
  faulty : list Address;
  key_of : Address → PublicKey;
  payload_of : Address → SerialisedMessage
}.
Implicit Types (G : Group).

Definition is_honest G (a : Address) : Prop := a ∈ members G ∧ a ∉ faulty G.

(** What the nodes keep to.  Two quorums are larger than the group by more than
    the number of the faulty.  Keys are given for members only, the right ones
    for the honest.  A part of the message whose signature checks with the key of
    an honest member is what that member sent. *)
Record keeps_rules G g i given : Prop := {
  kr_size : length (members G) + length (faulty G) < 2 * QuorumSize;
  kr_keys : ∀ a k, endorsed given g a k → a ∈ members G ∧ (is_honest G a → k = key_of G a);
  kr_payload : ∀ r, r ∈ given → is_part g i r → is_honest G (part_node r) →
    signature_checks (key_of G (part_node r)) r = true → result_message r = payload_of G (part_node r)
}.

Lemma endorsed_subset given given' g a k : given ⊆ given' → endorsed given g a k → endorsed given' g a k.
Proof. intros Hsub (r & response & Hr & ?). exists r, response. auto. Qed.

Lemma lets_through_justified ins res :
  lets_through ins res → ∃ given, given ⊆ history ins ∧ justified given res.
Proof.
  intros (pre & clk & clk' & h & t & m & post & s' & -> & Hadd). eexists. split; [|by eapply returned_justified].
  intros r. unfold history. rewrite !elem_of_reverse, !fmap_app, !elem_of_app. cbn. set_solver.
Qed.

(** A quorum of members sent parts that are all of the payload of the result. *)
Lemma accepted_by_quorum G g i given ins res :
  keeps_rules G g i given → history ins ⊆ given → lets_through ins res →
  part_group res = Some g → part_id res = i → result_tag res ≠ TagAccountTransfer →
  ∃ senders, QuorumSize ≤ length senders ∧ NoDup senders ∧ senders ⊆ members G ∧
    ∀ a, a ∈ senders → is_honest G a → payload_of G a = result_message res.
Proof.
  intros [_ Hkeys Hpay] Hsub (given' & Hsub' & Hj)%lets_through_justified Hg Hi Ht.
  destruct Hj as [(g' & votes & responders & Hg' & [Hlen Hnd Hv] & _ & Hres & _)|(_ & Hn & _)];
    [|congruence].
  rewrite Hg in Hg'. injection Hg' as <-.
  destruct Hres as [[_ Hsame]|(hd & rest & ? & ? & ? & _ & _ & _ & _ & ->)]; [|done].
  assert (given' ⊆ given) as Hall by by etrans. rewrite Forall_forall in Hv.
  exists (part_node <$> votes). split; [by rewrite length_fmap|]. split; [done|].
  split; intros a (v & -> & Hin)%list_elem_of_fmap;
    destruct (Hv v Hin) as (Hvg & Hpg & Hpi & Hpl & k & Hk & _ & Hs);
    destruct (Hkeys _ _ (endorsed_subset _ _ _ _ _ Hall Hk)) as [Hm Heq]; [done|].
  intros Hh. rewrite (Heq Hh) in Hs. rewrite <-(Hsame v Hin). symmetry.
  apply Hpay; [by apply Hall|by rewrite <-Hi|done..].
Qed.

(** C2: Agreement. When two sentinels, whatever else they were given in whatever
    order, both return a message of the group with the same message id, and it is
    no account transfer, then the payloads are equal, provided the group and its
    faulty members together are smaller than two quorums, keys were reported for
    members only and rightly for the honest ones, and the honest members signed
    one payload for the message. With a group of 23 and a quorum of 19 this
    tolerates 14 faulty members. *)
Theorem sentinels_agree G g i ins1 ins2 res1 res2 :
  keeps_rules G g i (history ins1 ++ history ins2) →
  lets_through ins1 res1 → lets_through ins2 res2 →
  part_group res1 = Some g → part_id res1 = i → result_tag res1 ≠ TagAccountTransfer →
  part_group res2 = Some g → part_id res2 = i → result_tag res2 ≠ TagAccountTransfer →
  result_message res1 = result_message res2.
Proof.
  intros Hr Hl1 Hl2 Hg1 Hi1 Ht1 Hg2 Hi2 Ht2.
  destruct (accepted_by_quorum G g i _ ins1 res1 Hr) as (s1 & Hq1 & Hn1 & Hm1 & Hp1); [set_solver|done..|].
  destruct (accepted_by_quorum G g i _ ins2 res2 Hr) as (s2 & Hq2 & Hn2 & Hm2 & Hp2); [set_solver|done..|].
  destruct (large_parts_meet s1 s2 (members G) (faulty G) Hn1 Hn2 Hm1 Hm2) as (a & H1 & H2 & Hf).
  { pose proof (kr_size _ _ _ _ Hr). lia. }
  assert (is_honest G a) as Hh by (split; [by apply Hm1|done]).
  by rewrite <-(Hp1 a H1 Hh), (Hp2 a H2 Hh).
Qed.
End agreement.

(** ** The group 100 *)
Module AgreementWitness.
Import Concrete SentinelWitness.
#[local] Existing Instance toy_account.

Definition standing : nat → Z := λ _, 0%Z.

(** What a sentinel returns when it is given the parts and then [r]. *)
Definition returned `{BuildMode} (ins : list sentinel_input) (r : ResultType) : option ResultType :=
  match (Sentinel_Add standing standing (result_header r) (result_tag r) (result_message r)
           (sentinel_after ins)).1 with
  | Ok o => o
  | _ => None
  end.

Lemma returned_lets_through `{BuildMode} ins r res :
  returned ins r = Some res → lets_through (ins ++ [input r]) res.
Proof.
  destruct r as [[h t] m]. unfold returned, result_header, result_tag, result_message. cbn [fst snd].
  destruct (Sentinel_Add standing standing h t m (sentinel_after ins)) as [[o| | |] s'] eqn:E; try done.
  cbn. intros ->. by eapply lets_through_last.
Qed.

(** The keys first, or the parts first and in the other order. *)
Definition parts_first : list sentinel_input :=
  (input ∘ part TagPost 1 <$> reverse nodes) ++ (input ∘ key_part 1 <$> take 18 nodes).

(** The nodes 1 and 2 may be faulty. *)
Definition the_group : Group := mkGroup nodes [1%N; 2%N] (λ _, 1%N) (λ _, [42%Z]).

(** What is given: key responses of key 1 and parts of the payload 42. *)
Definition expected (r : ResultType) : Prop :=
  ∃ j, j ∈ nodes ∧ (r = key_part 1 j ∨ r = part TagPost 1 j).

Lemma expected_rules given : Forall expected given → keeps_rules the_group group 5%Z given.
Proof.
  rewrite Forall_forall. intros Hg. split.
  - cbn. unfold QuorumSize. lia.
  - intros a k (r & rsp & Hr & Ht & _ & Hp & Hk).
    destruct (Hg r Hr) as (j & Hj & [->| ->]); [|done].
    rewrite (parse_response 1) in Hp by (by try apply list_elem_of_fmap_2). injection Hp as <-.
    apply list_elem_of_fmap in Hk as (n & [= -> ->] & Hn). done.
  - intros r Hr (_ & _ & Hpl) _ _. destruct (Hg r Hr) as (j & _ & [->| ->]); [by destruct Hpl|done].
Qed.

Lemma history_expected (ins : list sentinel_input) :
  Forall (λ x, expected x.2) ins → Forall expected (history ins).
Proof. intros H. unfold history. by apply Forall_reverse, Forall_fmap. Qed.

Lemma expected_block (make : N → ResultType) (l : list N) :
  l ⊆ nodes → (∀ j, j ∈ nodes → expected (make j)) → Forall (λ x, expected x.2) (input ∘ make <$> l).
Proof. intros Hl Hm. apply Forall_fmap, Forall_forall. intros j Hj. by apply Hm, Hl. Qed.

Lemma expected_key j : j ∈ nodes → expected (key_part 1 j).
Proof. exists j. auto. Qed.
Lemma expected_part j : j ∈ nodes → expected (part TagPost 1 j).
Proof. exists j. auto. Qed.

Lemma both_expected :
  Forall expected (history (inputs ++ [input (part TagPost 1 19)]) ++
                   history (parts_first ++ [input (key_part 1 19)])).
Proof.
  assert (19%N ∈ nodes) as H19 by by_bool.
  apply Forall_app_2; apply history_expected; unfold inputs, parts_first; repeat apply Forall_app_2;
    try (by constructor; [first [exact (expected_part _ H19)|exact (expected_key _ H19)]|constructor]);
    (apply expected_block; [|auto using expected_key, expected_part]); intros j Hj.
  - done.
  - by eapply subseteq_take.
  - by rewrite elem_of_reverse in Hj.
  - by eapply subseteq_take.
Qed.

#[local] Existing Instance release_build.

Lemma sentinels_agree_witness :
  lets_through (inputs ++ [input (part TagPost 1 19)]) (part TagPost 1 1) ∧
  lets_through (parts_first ++ [input (key_part 1 19)]) (part TagPost 1 1) ∧
  result_message (part TagPost 1 1) = result_message (part TagPost 1 1).
Proof.
  assert (lets_through (inputs ++ [input (part TagPost 1 19)]) (part TagPost 1 1)) as H1
    by (apply returned_lets_through; vm_refl).
  assert (lets_through (parts_first ++ [input (key_part 1 19)]) (part TagPost 1 1)) as H2
    by (apply returned_lets_through; vm_refl).
  split; [exact H1|]. split; [exact H2|].
  exact (sentinels_agree the_group group 5%Z _ _ _ _ (expected_rules _ both_expected) H1 H2
    eq_refl eq_refl ltac:(done) eq_refl eq_refl ltac:(done)).
Defined.

(** ** What the conditions are for *)

(** A response of the node 1 that adds nineteen nodes, who sign with the key 2, to
    the members. *)
Definition outsiders : list N := (λ j, j + 100)%N <$> nodes.
Definition adding_response : ResultType :=
  (header 1 1, TagGetGroupKeyResponse,
   Serialise GetGroupKeyResponse_codec
     (mkGetGroupKeyResponse (keys_of 1 ++ ((λ j, (j, 2%N)) <$> outsiders)) 100%N)).

(** The keys of all responses are taken together: one response that adds nodes is
    enough for a message that no member sent, in both builds. *)
Theorem one_response_adds_members (BM : BuildMode) :
  let ins := [input adding_response] ++ (input ∘ key_part 1 <$> drop 1 nodes) ++
             (input ∘ part TagPost 2 <$> take 18 outsiders) in
  returned ins (part TagPost 2 119) = Some (part TagPost 2 101).
Proof. cbv zeta. destruct BM as [[]]; vm_refl. Qed.

(** The signatures are over the payload alone: the parts of a message that was
    returned are returned again, by whoever sends them, under another message
    id. *)
Definition replayed (j : N) : ResultType :=
  (mkHeader (7%N, None) (mkSource j (Some 100%N) None) 6%Z nae_manager (Some 1%N), TagPost, [42%Z]).

Theorem parts_replayed :
  returned (inputs ++ [input (part TagPost 1 19)] ++ (input ∘ replayed <$> take 18 nodes)) (replayed 19)
  = Some (replayed 1).
Proof. vm_refl. Qed.
End AgreementWitness.
