(* ===== verification/SentinelAccounts.v ===== *)
(** * The sentinel and account transfers

    The parts of an account transfer need not be equal: the accounts they carry
    are merged by the derived class. *)

From S2P Require Import Prelude CppStd Identity Types MessageHeader Codec ConcreteIO Messages.
From S2P Require Import Accumulator PartStore Sentinel SentinelFacts SentinelProps SentinelLiveness SentinelAgreement.

Section accounts.
Context `{IL : IdentityLaws} `{CO : !CryptoOps} `{AO : !ArchiveOps} `{AL : !ArchiveLaws}.
Context `{AcO : AccountOps} `{BM : BuildMode}.
Implicit Types (v res : ResultType) (vs : list ResultType) (ins : list sentinel_input).

(** The part carries the account. *)
Definition carries v (account : AccountInfo) : Prop :=
  result_tag v = TagAccountTransfer ∧ Parse ar_account (result_message v) = Ok (Some account).

Lemma parse_accounts_carried vs accounts :
  Forall2 carries vs accounts → parse_accounts vs = Ok (Some <$> accounts).
Proof.
  induction 1 as [|v account vs accounts [_ Hv] _ IH]; [done|]. cbn [parse_accounts].
  by rewrite Hv, bind_Ok, IH.
Qed.

Lemma Resolve_group_accounts vs accounts :
  QuorumSize ≤ length vs → Forall2 carries vs accounts →
  ∃ v vs' account rest, vs = v :: vs' ∧ accounts = account :: rest ∧
    Resolve_group vs = Ok (option_map (λ merged, (result_header v, TagAccountTransfer,
                                                  Serialise ar_account (Some merged)))
                             (Merge account (Some <$> accounts))).
Proof.
  intros Hlen Hall. pose proof (parse_accounts_carried _ _ Hall) as Hp.
  destruct Hall as [|v account vs accounts [Ht Hv] Hall]; [unfold QuorumSize in Hlen; cbn in Hlen; lia|].
  exists v, vs, account, accounts. split; [done|]. split; [done|].
  unfold Resolve_group. rewrite (proj2 (Nat.ltb_ge _ _) Hlen). cbn [first]. rewrite bind_Ok.
  rewrite bool_decide_eq_false_2 by by intros Hne. rewrite Hp, bind_Ok, Ht. cbn.
  by destruct (Merge account _).
Qed.

(** The result merges the accounts, one of which is asked to do it. *)
Definition merges (parts : list ResultType) (account_of : ResultType → AccountInfo) res : Prop :=
  ∃ accounts account merged,
    accounts ≡ₚ account_of <$> parts ∧ account ∈ accounts ∧
    Merge account (Some <$> accounts) = Some merged ∧
    result_header res ∈ result_header <$> parts ∧ result_tag res = TagAccountTransfer ∧
    result_message res = Serialise ar_account (Some merged).

(** C13: Account transfers get through merged. When the key responses held for the
    group come from a quorum of nodes and agree, and a new part makes the parts
    held of an account transfer a quorum, each properly signed and carrying an
    account, and the derived class can merge these accounts in whatever order
    they are, then [Add] returns the merge of exactly these accounts, in both
    builds. *)
Theorem account_transfer_merged ins clk clk' h m group key_of account_of :
  let s := sentinel_after ins in
  let parts := (h, TagAccountTransfer, m) :: held_parts s (group, message_id_ h) in
  FromGroup h = Some group →
  QuorumSize ≤ length parts → NoDup (part_node <$> parts) →
  QuorumSize ≤ length (held_keys s group) → responses_agree (held_keys s group) key_of →
  Forall (properly_signed (held_keys s group) key_of) parts →
  Forall (λ v, carries v (account_of v)) parts →
  (∀ account accounts, accounts ≡ₚ account_of <$> parts → account ∈ accounts →
     Merge account (Some <$> accounts) ≠ None) →
  ∃ res s', Sentinel_Add clk clk' h TagAccountTransfer m s = (Ok (Some res), s') ∧ merges parts account_of res.
Proof.
  intros s parts Hg Hlen Hnd Hk Hr Hsig Hc Hm.
  apply (complete_message_returned ins clk clk' h TagAccountTransfer m group key_of); try done.
  intros vs Hvs. change (vs ≡ₚ parts) in Hvs.
  assert (Forall2 carries vs (account_of <$> vs)) as Hall.
  { apply Forall2_fmap_r, Forall_Forall2_diag. by rewrite Hvs. }
  assert (account_of <$> vs ≡ₚ account_of <$> parts) as Hperm by by rewrite Hvs.
  destruct (Resolve_group_accounts vs (account_of <$> vs)) as (v & vs' & account & rest & Hv & Ha & ->);
    [by rewrite Hvs|done|].
  assert (account ∈ account_of <$> vs) as Hin by (rewrite Ha; by left).
  destruct (Merge account _) as [merged|] eqn:Hmerge; [|by destruct (Hm account (account_of <$> vs))].
  eexists. split; [done|]. exists (account_of <$> vs), account, merged. split_and!; try done.
  apply (list_elem_of_fmap_2' _ parts v); [rewrite <-Hvs, Hv; by left|done].
Qed.
End accounts.

(** ** The group 100 transfers accounts *)
Module AccountWitness.
Import Concrete SentinelWitness AgreementWitness.
#[local] Existing Instance release_build.

(** An account is a number, and accounts are merged to the largest. *)
Definition merge (account : N) (accounts : list (option N)) : option N :=
  Some (foldr (λ o, N.max (default 0%N o)) account accounts).
#[local] Instance numbers : AccountOps := {|
  AccountInfo := N; ar_account := option_codec N_codec; Merge := merge |}.

Definition account (i : N) : ResultType := (header i 1, TagAccountTransfer, Serialise ar_account (Some i)).
Definition given : list sentinel_input :=
  (input ∘ key_part 1 <$> nodes) ++ (input ∘ account <$> take 18 nodes).

Lemma given_held :
  held_keys (sentinel_after given) group = key_part 1 <$> nodes ∧
  held_parts (sentinel_after given) (group, message_id_ (header 19 1)) = account <$> take 18 nodes.
Proof. split; vm_refl. Qed.

(** The node that sent the part is the account. *)
Definition account_of (v : ResultType) : AccountInfo := part_node v.

Lemma account_signed i : i ∈ nodes → properly_signed (key_part 1 <$> nodes) (λ _, 1%N) (account i).
Proof.
  intros Hi. split; [done|]. split; [done|]. exists (key_part 1 1), (response 1).
  split; [apply list_elem_of_fmap_2; by_bool|]. split; [vm_refl|].
  by apply (list_elem_of_fmap_2 (λ i, (i, 1%N))).
Qed.

Lemma account_carried : Forall (λ i, carries (account i) i) nodes.
Proof. repeat (constructor; [split; vm_refl|]). constructor. Qed.

(** What holds of the parts of all nodes holds of the last part and those held. *)
Lemma all_parts_given (P : ResultType → Prop) :
  (∀ i, i ∈ nodes → P (account i)) →
  Forall P (account 19 :: held_parts (sentinel_after given) (group, message_id_ (header 19 1))).
Proof.
  intros HP. rewrite (proj2 given_held). apply Forall_cons. split; [apply HP; by_bool|].
  apply Forall_fmap, Forall_forall. intros i Hi. by eapply HP, subseteq_take.
Qed.

Lemma account_transfer_merged_witness :
  ∃ res s', Sentinel_Add standing standing (header 19 1) TagAccountTransfer
              (result_message (account 19)) (sentinel_after given) = (Ok (Some res), s') ∧
    merges (account 19 :: held_parts (sentinel_after given) (group, message_id_ (header 19 1))) account_of res.
Proof.
  apply (account_transfer_merged given standing standing (header 19 1) (result_message (account 19)) group
    (λ _, 1%N) account_of).
  - reflexivity.
  - apply Nat.leb_le. vm_refl.
  - rewrite (proj2 given_held). by_bool.
  - apply Nat.leb_le. vm_refl.
  - rewrite (proj1 given_held). apply Forall_forall. intros r Hr. exists (response 1).
    split; [by apply parse_response|]. by intros a k (i & [= -> ->] & _)%list_elem_of_fmap.
  - rewrite (proj1 given_held). apply all_parts_given, account_signed.
  - apply all_parts_given. intros i Hi. exact (proj1 (Forall_forall _ _) account_carried i Hi).
  - discriminate.
Defined.

(** A part that carries no account: when its sender is the first in the order of
    the addresses, the null pointer is dereferenced. *)
Definition no_account : ResultType := (header 1 1, TagAccountTransfer, Serialise ar_account None).

Theorem null_account_undefined :
  let ins := (input ∘ key_part 1 <$> nodes) ++ [input no_account] ++
             (input ∘ account <$> take 17 (drop 1 nodes)) in
  (Sentinel_Add standing standing (header 19 1) TagAccountTransfer (result_message (account 19))
     (sentinel_after ins)).1 = Undefined.
Proof. cbv zeta. vm_refl. Qed.
End AccountWitness.
