(* ===== verification/ConnectionManager.v ===== *)
(** * Peers and connections ([peer_node.h], [connection_manager.h], [.cc])

    [ConnectionManager] keeps the connected peers in a map ordered by closeness
    to us, accepts and makes connections, exchanges identities over a new
    connection and receives messages.

    The asynchronous operations that were started and have not completed are
    part of the state ([pending]); the lambda that runs on completion is the
    function of the same operation below ([accept_done], [connect_done], ...).
    Sockets and the [destroy_indicator_] of a peer are numbered objects: a
    [weak_ptr] to one can be locked while something still holds it.  The
    callbacks [on_connection_added_] and [on_receive_] are arbitrary functions
    on the state.  [crux] sockets and [convert::ToBoost] are not modelled: an
    endpoint stands for its conversion. *)

From S2P Require Import Prelude CppStd Identity Types Codec.

(** The result of an operation: an error, or what it was for. *)
Inductive completion (A : Type) :=
  | Aborted (* [operation_aborted] *)
  | Failed
  | Done (a : A).
Arguments Aborted {_}.
Arguments Failed {_}.
Arguments Done {_} _.

Section manager.
Context `{AO : ArchiveOps} `{EO : !EndpointOps} `{BM : BuildMode}.

(** ** [PeerNode] *)

(** [MaxMessageSize ()] *)
Definition MaxMessageSize : Z := 1048576.

Record PeerNode := mkPeer {
  node_info_ : NodeInfo;
  receive_buffer_ : list byte;
  socket_ : nat;
  destroy_indicator_ : nat
}.

Definition PeerNode_new (node_info : NodeInfo) (socket guard : nat) : PeerNode :=
  mkPeer node_info (repeat 0%Z (Z.to_nat MaxMessageSize)) socket guard.

Definition peer_id (p : PeerNode) : Address := id (node_info_ p).

(** Receiving writes what fits of the datagram to the start of the buffer; the
    handler is given the whole buffer. *)
Definition received_buffer (datagram : list byte) (p : PeerNode) : PeerNode :=
  mkPeer (node_info_ p) (write_buffer datagram (receive_buffer_ p)) (socket_ p) (destroy_indicator_ p).

(** The completion of [Send]: an error marks the peer as not connected. *)
Definition send_done (ok : bool) (p : PeerNode) : PeerNode :=
  if ok then p
  else mkPeer (mkNodeInfo (id (node_info_ p)) (dht_fob (node_info_ p)) false) (receive_buffer_ p)
         (socket_ p) (destroy_indicator_ p).

(** ** [ConnectionManager] *)

(** An operation that has been started, with what its handler captures. *)
Inductive Pending :=
  | PAccept (port : Z) (socket : nat)
  | PAcceptExchange (socket : nat)
  | PConnect (endpoint : Endpoint) (socket : nat) (assumed : option NodeInfo)
  | PConnectExchange (endpoint : Endpoint) (socket : nat) (assumed : option NodeInfo)
  | PReceive (guard : nat).

Record ConnectionManager := mkManager {
  our_fob_ : PublicPmid;
  acceptors_ : list Z; (* the ports of the map's keys *)
  being_connected_ : list (Endpoint * nat);
  peers_ : list (Address * PeerNode);
  current_close_group_ : list Address;
  on_receive_set : bool; (* [on_receive_] is not empty *)
  destroyed : bool;
  next_object : nat; (* the number of the next socket or indicator *)
  pending : list Pending
}.

Definition cm_our_id (m : ConnectionManager) : Address := Pmid_Name (our_fob_ m).

(** The [Comparison] of [peers_]. *)
Definition peer_ltb (m : ConnectionManager) (lhs rhs : Address) : bool :=
  CloserToTarget lhs rhs (cm_our_id m).

Definition ConnectionManager_new (our_fob : PublicPmid) : ConnectionManager :=
  mkManager our_fob [] [] [] [] false false 0 [].

Definition set_peers (ps : list (Address * PeerNode)) (m : ConnectionManager) : ConnectionManager :=
  mkManager (our_fob_ m) (acceptors_ m) (being_connected_ m) ps (current_close_group_ m)
    (on_receive_set m) (destroyed m) (next_object m) (pending m).
Definition set_connecting (l : list (Endpoint * nat)) (m : ConnectionManager) : ConnectionManager :=
  mkManager (our_fob_ m) (acceptors_ m) l (peers_ m) (current_close_group_ m) (on_receive_set m)
    (destroyed m) (next_object m) (pending m).
Definition set_close_group (l : list Address) (m : ConnectionManager) : ConnectionManager :=
  mkManager (our_fob_ m) (acceptors_ m) (being_connected_ m) (peers_ m) l (on_receive_set m)
    (destroyed m) (next_object m) (pending m).
Definition set_on_receive (b : bool) (m : ConnectionManager) : ConnectionManager :=
  mkManager (our_fob_ m) (acceptors_ m) (being_connected_ m) (peers_ m) (current_close_group_ m) b
    (destroyed m) (next_object m) (pending m).
Definition start (p : Pending) (m : ConnectionManager) : ConnectionManager :=
  mkManager (our_fob_ m) (acceptors_ m) (being_connected_ m) (peers_ m) (current_close_group_ m)
    (on_receive_set m) (destroyed m) (next_object m) (pending m ++ [p]).
Definition new_object (m : ConnectionManager) : nat * ConnectionManager :=
  (next_object m,
   mkManager (our_fob_ m) (acceptors_ m) (being_connected_ m) (peers_ m) (current_close_group_ m)
     (on_receive_set m) (destroyed m) (S (next_object m)) (pending m)).

(** *** Queries *)
Definition find_peer (m : ConnectionManager) (a : Address) : option PeerNode :=
  map_find (peer_ltb m) a (peers_ m).

Definition IsManaged (m : ConnectionManager) (node_id : Address) : bool :=
  match find_peer m node_id with Some _ => true | None => false end.

Definition GetTarget (m : ConnectionManager) (target_node : Address) : list Address := [].

(** The loop stops after [GroupSize] peers. *)
Definition cm_OurCloseGroup (m : ConnectionManager) : list PublicPmid :=
  (λ p, dht_fob (node_info_ p.2)) <$> take GroupSize (peers_ m).

Definition AddressInCloseGroupRange (m : ConnectionManager) (address : Address) : bool :=
  if length (peers_ m) <? GroupSize then true
  else upper_bound (peer_ltb m) address (peers_ m) <? GroupSize.

Definition cm_GetPublicKey (m : ConnectionManager) (node : Address) : option PublicKey :=
  match find_peer m node with
  | None => None
  | Some p => Some (Pmid_public_key (dht_fob (node_info_ p)))
  end.

(** [uint32_t] *)
Definition cm_Size (m : ConnectionManager) : Z := (Z.of_nat (length (peers_ m)) mod 2 ^ 32)%Z.

(** A null pointer is [None]. *)
Definition FindPeer (m : ConnectionManager) (addr : Address) : option PeerNode := find_peer m addr.

(** *** Changes *)
Definition GroupChanged (m : ConnectionManager)
    : option CloseGroupDifference * ConnectionManager :=
  let new_group_ids := Pmid_Name <$> cm_OurCloseGroup m in
  if bool_decide (new_group_ids ≠ current_close_group_ m) then
    (Some (new_group_ids, current_close_group_ m), set_close_group new_group_ids m)
  else (None, m).

Definition cm_DropNode (their_id : Address) (m : ConnectionManager)
    : option CloseGroupDifference * ConnectionManager :=
  GroupChanged (set_peers (map_erase (peer_ltb m) their_id (peers_ m)) m).

Definition Shutdown (m : ConnectionManager) : ConnectionManager :=
  mkManager (our_fob_ m) [] [] [] (current_close_group_ m) (on_receive_set m) (destroyed m)
    (next_object m) (pending m).

(** The destructor: the objects the manager holds are gone. *)
Definition Destroy (m : ConnectionManager) : ConnectionManager :=
  mkManager (our_fob_ m) [] [] [] (current_close_group_ m) (on_receive_set m) true
    (next_object m) (pending m).

Definition SetOnReceive (m : ConnectionManager) : ConnectionManager := set_on_receive true m.

Definition StartAccepting (port : Z) (m : ConnectionManager) : ConnectionManager :=
  let m1 :=
    if bool_decide (port ∈ acceptors_ m) then m
    else mkManager (our_fob_ m) (acceptors_ m ++ [port]) (being_connected_ m) (peers_ m)
           (current_close_group_ m) (on_receive_set m) (destroyed m) (next_object m) (pending m) in
  let '(socket, m2) := new_object m1 in
  start (PAccept port socket) m2.

Definition connecting_socket (m : ConnectionManager) (endpoint : Endpoint) : option nat :=
  snd <$> List.find (λ p, bool_decide (p.1 = endpoint)) (being_connected_ m).

Definition erase_connecting (endpoint : Endpoint) (m : ConnectionManager) : ConnectionManager :=
  set_connecting (List.filter (λ p, negb (bool_decide (p.1 = endpoint))) (being_connected_ m)) m.

Definition cm_AddNode (assumed_node_info : option NodeInfo) (eps : EndpointPair)
    (m : ConnectionManager) : ConnectionManager :=
  let endpoint := external eps in
  match connecting_socket m endpoint with
  | Some socket => start (PConnect endpoint socket assumed_node_info) m
  | None =>
      let '(socket, m1) := new_object m in
      start (PConnect endpoint socket assumed_node_info)
        (set_connecting (being_connected_ m1 ++ [(endpoint, socket)]) m1)
  end.

(** *** Completion handlers *)
Variable on_connection_added_ : option (Address → ConnectionManager → ConnectionManager).
Variable on_receive_ : Address → SerialisedMessage → ConnectionManager → ConnectionManager.

Definition StartReceiving (guard : nat) (m : ConnectionManager) : ConnectionManager :=
  start (PReceive guard) m.

Definition InsertPeer (info : NodeInfo) (socket : nat) (m : ConnectionManager) : ConnectionManager :=
  let '(guard, m1) := new_object m in
  let '(ps, inserted) :=
    map_insert (peer_ltb m1) (id info) (PeerNode_new info socket guard) (peers_ m1) in
  if inserted : bool then
    let m2 := StartReceiving guard (set_peers ps m1) in
    match on_connection_added_ with
    | Some h => h (id info) m2
    | None => m2
    end
  else m1.

(** [weak_socket.lock ()] *)
Definition socket_alive (m : ConnectionManager) (socket : nat) : bool :=
  bool_decide (socket ∈ (being_connected_ m).*2) ||
  bool_decide (socket ∈ (λ p, socket_ p.2) <$> peers_ m).

(** The peer whose [destroy_indicator_] the number is. *)
Definition guarded_peer (m : ConnectionManager) (guard : nat) : option PeerNode :=
  snd <$> List.find (λ p, destroy_indicator_ p.2 =? guard) (peers_ m).

Definition accept_done (port : Z) (socket : nat) (r : completion unit)
    : prog ConnectionManager unit := λ m,
  if destroyed m then (Ok tt, m)
  else match r with
       | Aborted => (Ok tt, m)
       | _ => (Ok tt, start (PAcceptExchange socket) (StartAccepting port m))
       end.

Definition accept_exchanged (socket : nat) (r : completion SerialisedMessage)
    : prog ConnectionManager unit := λ m,
  if destroyed m then (Ok tt, m)
  else match r with
       | Done data =>
           match Parse ar_PublicPmid data with
           | Ok pmid => (Ok tt, InsertPeer (mkNodeInfo (Pmid_Name pmid) pmid true) socket m)
           | Throw e => (Throw e, m)
           | AssertFailed => (AssertFailed, m)
           | Undefined => (Undefined, m)
           end
       | _ => (Ok tt, m)
       end.

Definition connect_done (endpoint : Endpoint) (socket : nat) (assumed : option NodeInfo)
    (r : completion unit) : prog ConnectionManager unit := λ m,
  if negb (socket_alive m socket) then (Ok tt, m)
  else match r with
       | Done _ => (Ok tt, start (PConnectExchange endpoint socket assumed) m)
       | _ => (Ok tt, erase_connecting endpoint m)
       end.

Definition connect_exchanged (endpoint : Endpoint) (socket : nat) (assumed : option NodeInfo)
    (r : completion SerialisedMessage) : prog ConnectionManager unit := λ m,
  if negb (socket_alive m socket) then (Ok tt, m)
  else
    let m1 := erase_connecting endpoint m in
    match r with
    | Done data =>
        match Parse ar_PublicPmid data with
        | Ok pmid =>
            let their_node_info := mkNodeInfo (Pmid_Name pmid) pmid true in
            match assumed with
            | Some info =>
                if node_neb info their_node_info then (Ok tt, m1)
                else (Ok tt, InsertPeer their_node_info socket m1)
            | None => (Ok tt, InsertPeer their_node_info socket m1)
            end
        | Throw e => (Throw e, m1)
        | AssertFailed => (AssertFailed, m1)
        | Undefined => (Undefined, m1)
        end
    | _ => (Ok tt, m1)
    end.

(** The peer's buffer is written before the handler runs; the handler moves
    [on_receive_] out while it is called. *)
Definition receive_done (guard : nat) (r : completion (list byte)) (m : ConnectionManager)
    : ConnectionManager :=
  match guarded_peer m guard, r with
  | Some p, Done datagram =>
      let p' := received_buffer datagram p in
      let m1 := set_peers (map_set (peer_ltb m) (peer_id p) p' (peers_ m)) m in
      if negb (on_receive_set m1) then m1
      else
        let m2 := on_receive_ (peer_id p) (receive_buffer_ p') (set_on_receive false m1) in
        match guarded_peer m2 guard with
        | None => m2
        | Some _ =>
            let m3 := if negb (on_receive_set m2) then set_on_receive true m2 else m2 in
            StartReceiving guard m3
        end
  | _, _ => m
  end.
End manager.
