(* ===== verification/ConnectionManagerProps.v ===== *)
(** * Peers and connections: properties

    The invariant of the connection manager over every interleaving of calls
    and completions, the close group, and what gets into the peers map.  The
    callbacks may call the public functions of the manager in any order. *)

From S2P Require Import Prelude CppStd Identity Types Codec ConcreteIO ConnectionManager.

Section props.
Context `{IL : IdentityLaws} `{CO : !CryptoOps} `{AO : !ArchiveOps} `{EO : !EndpointOps}.
Implicit Types (m : ConnectionManager) (p : PeerNode) (a : Address).

(** The public functions that change the manager. *)
Inductive public_step : ConnectionManager → ConnectionManager → Prop :=
  | ps_StartAccepting m port : public_step m (StartAccepting port m)
  | ps_AddNode m assumed eps : public_step m (cm_AddNode assumed eps m)
  | ps_DropNode m a : public_step m (cm_DropNode a m).2
  | ps_Shutdown m : public_step m (Shutdown m)
  | ps_SetOnReceive m : public_step m (SetOnReceive m).

(** The guards of the receive operations under way. *)
Definition receives m : list nat :=
  omap (λ x, match x with PReceive g => Some g | _ => None end) (pending m).

Definition guards m : list nat := (λ x, destroy_indicator_ x.2) <$> peers_ m.

(** The peers are ordered by closeness, each is under the name of the identity
    it presented and has a receive buffer of the full size, and no two share their
    indicator or a receive operation. *)
Record manager_ok m : Prop := {
  mo_sorted : map_ok (peer_ltb m) (peers_ m);
  mo_identity : Forall (λ x, x.1 = peer_id x.2 ∧
                             Pmid_Name (dht_fob (node_info_ x.2)) = x.1) (peers_ m);
  mo_buffers : Forall (λ x, length (receive_buffer_ x.2) = Z.to_nat MaxMessageSize) (peers_ m);
  mo_guards : NoDup (guards m);
  mo_guards_fresh : Forall (λ g, g < next_object m) (guards m);
  mo_receives : NoDup (receives m);
  mo_receives_fresh : Forall (λ g, g < next_object m) (receives m)
}.

#[export] Instance peer_ltb_total m : StrictTotal (peer_ltb m).
Proof. apply CloserToTarget_total. Qed.

(** What a step that inserts no peer and starts no receive keeps. *)
Record manager_shrinks m m' : Prop := {
  ms_fob : our_fob_ m' = our_fob_ m;
  ms_peers : peers_ m' `sublist_of` peers_ m;
  ms_receives : receives m' = receives m;
  ms_next : next_object m ≤ next_object m'
}.

#[export] Instance manager_shrinks_preorder : PreOrder manager_shrinks.
Proof.
  split; [by intros m; split|]. intros m1 m2 m3 [] []. split; try congruence; try lia.
  by etrans.
Qed.

Lemma shrinks_ok m m' : manager_shrinks m m' → manager_ok m → manager_ok m'.
Proof.
  intros [Hf Hp Hr Hn] [Hs Hi Hb Hg Hgf Hrc Hrf].
  assert (guards m' `sublist_of` guards m) as Hgs by by apply fmap_sublist.
  split.
  - unfold map_ok, peer_ltb, cm_our_id in *. rewrite Hf. by eapply sorted_by_sublist.
  - by eapply Forall_sublist.
  - by eapply Forall_sublist.
  - by eapply sublist_NoDup, Hgs.
  - eapply Forall_sublist; [exact Hgs|]. eapply Forall_impl; [exact Hgf|]. simpl. lia.
  - by rewrite Hr.
  - rewrite Hr. eapply Forall_impl; [exact Hrf|]. simpl. lia.
Qed.

Lemma receives_start x m : (∀ g, x ≠ PReceive g) → receives (start x m) = receives m.
Proof.
  intros Hx. unfold receives, start. cbn [pending]. rewrite omap_app.
  destruct x; cbn; [by rewrite app_nil_r..|]. by destruct (Hx guard).
Qed.

Lemma public_step_shrinks m m' : public_step m m' → manager_shrinks m m'.
Proof.
  intros [m1 port|m1 assumed eps|m1 a|m1|m1]; try by split.
  - unfold StartAccepting. case_bool_decide; cbn [new_object];
      (split; [done|done|by rewrite receives_start|cbn; lia]).
  - unfold cm_AddNode. destruct (connecting_socket _ _); cbn [new_object];
      (split; [done|done|by rewrite receives_start|cbn; lia]).
  - unfold cm_DropNode, GroupChanged. case_bool_decide; split; cbn; try done;
      apply map_erase_sublist.
  - split; cbn; [done|apply sublist_nil_l|done|done].
Qed.

Lemma public_run_shrinks m m' : rtc public_step m m' → manager_shrinks m m'.
Proof. induction 1; [done|]. etrans; [by apply public_step_shrinks|done]. Qed.

(** *** Completions *)
Section steps.
Context (on_added : option (Address → ConnectionManager → ConnectionManager)).
Context (on_recv : Address → SerialisedMessage → ConnectionManager → ConnectionManager).

(** An operation is no longer under way when its handler runs. *)
Definition finish (i : nat) m : ConnectionManager :=
  mkManager (our_fob_ m) (acceptors_ m) (being_connected_ m) (peers_ m) (current_close_group_ m)
    (on_receive_set m) (destroyed m) (next_object m) (delete i (pending m)).

(** A call of a public function, the destruction of the manager, or the
    completion of an operation under way, with any result. *)
Inductive manager_step : ConnectionManager → ConnectionManager → Prop :=
  | st_public m m' : public_step m m' → manager_step m m'
  | st_Destroy m : manager_step m (Destroy m)
  | st_accept m i port socket r :
      pending m !! i = Some (PAccept port socket) →
      manager_step m (accept_done port socket r (finish i m)).2
  | st_accept_exchange m i socket r :
      pending m !! i = Some (PAcceptExchange socket) →
      manager_step m (accept_exchanged on_added socket r (finish i m)).2
  | st_connect m i endpoint socket assumed r :
      pending m !! i = Some (PConnect endpoint socket assumed) →
      manager_step m (connect_done endpoint socket assumed r (finish i m)).2
  | st_connect_exchange m i endpoint socket assumed r :
      pending m !! i = Some (PConnectExchange endpoint socket assumed) →
      manager_step m (connect_exchanged on_added endpoint socket assumed r (finish i m)).2
  | st_receive m i guard r :
      pending m !! i = Some (PReceive guard) →
      manager_step m (receive_done on_recv guard r (finish i m)).

Context (Hadded : ∀ h a m, on_added = Some h → rtc public_step m (h a m)).
Context (Hrecv : ∀ a b m, rtc public_step m (on_recv a b m)).

Lemma receives_receive g m : receives (start (PReceive g) m) = receives m ++ [g].
Proof. unfold receives, start. cbn [pending]. by rewrite omap_app. Qed.

Lemma InsertPeer_shape info socket m :
  map_ok (peer_ltb m) (peers_ m) →
  (is_Some (find_peer m (id info)) ∧
   InsertPeer on_added info socket m = (new_object m).2) ∨
  (find_peer m (id info) = None ∧
   ∃ m2, manager_shrinks m2 (InsertPeer on_added info socket m) ∧
     our_fob_ m2 = our_fob_ m ∧ next_object m2 = S (next_object m) ∧
     receives m2 = receives m ++ [next_object m] ∧
     peers_ m2 = insert_by fst (peer_ltb m)
                   (id info, PeerNode_new info socket (next_object m)) (peers_ m)).
Proof.
  intros Hs. unfold InsertPeer, find_peer. cbn [new_object].
  set (m1 := mkManager _ _ _ _ _ _ _ _ _). change (peer_ltb m1) with (peer_ltb m).
  change (peers_ m1) with (peers_ m).
  destruct (map_find (peer_ltb m) (id info) (peers_ m)) as [p|] eqn:Hf.
  - left. split; [done|]. by rewrite (map_insert_present (peer_ltb m) _ _ p).
  - right. split; [done|]. rewrite (map_insert_absent (peer_ltb m)) by done.
    eexists. split; [|split; [|split; [|split]]].
    + destruct on_added as [h|] eqn:Eh; [|done]. by apply public_run_shrinks, Hadded.
    + done.
    + done.
    + unfold StartReceiving. by rewrite receives_receive.
    + done.
Qed.

Lemma InsertPeer_ok info socket m :
  manager_ok m → Pmid_Name (dht_fob info) = id info →
  manager_ok (InsertPeer on_added info socket m).
Proof.
  intros Hm Hid. pose proof Hm as [Hs Hi Hb Hg Hgf Hrc Hrf].
  destruct (InsertPeer_shape info socket m Hs) as [[_ ->]|(Hf & m2 & Hsh & Hfob & Hn & Hr & Hp)].
  { eapply shrinks_ok; [|exact Hm]. split; cbn; try done. lia. }
  eapply shrinks_ok; [exact Hsh|].
  assert (guards m2 ≡ₚ next_object m :: guards m) as Hgs.
  { unfold guards. rewrite Hp, insert_by_perm. done. }
  assert (∀ l, Forall (λ g, g < next_object m) l → next_object m ∉ l) as Hfresh.
  { intros l Hl Hin. rewrite Forall_forall in Hl. apply Hl in Hin. lia. }
  assert (∀ l, Forall (λ g, g < next_object m) l → Forall (λ g, g < S (next_object m)) l) as Hup.
  { intros l Hl. eapply Forall_impl; [exact Hl|]. simpl. lia. }
  split.
  - rewrite Hp. unfold peer_ltb, cm_our_id. rewrite Hfob. by apply (map_ok_insert_by (peer_ltb m)).
  - rewrite Hp, insert_by_perm. by constructor.
  - rewrite Hp, insert_by_perm. constructor; [apply repeat_length|exact Hb].
  - rewrite Hgs. constructor; [by apply Hfresh|done].
  - rewrite Hgs, Hn. constructor; [lia|by apply Hup].
  - rewrite Hr. apply NoDup_app. split; [done|]. split; [|apply NoDup_singleton].
    intros g Hin ->%list_elem_of_singleton. by apply (Hfresh (receives m)).
  - rewrite Hr, Hn. apply Forall_app. split; [by apply Hup|]. apply Forall_singleton. lia.
Qed.

Lemma receives_delete i x m :
  pending m !! i = Some x →
  receives m ≡ₚ (match x with PReceive g => [g] | _ => [] end) ++ receives (finish i m).
Proof.
  intros Hi. unfold receives. cbn [finish pending].
  rewrite <-(take_drop_middle _ _ _ Hi) at 1. rewrite delete_take_drop, !omap_app.
  destruct x; cbn; try done. apply Permutation_sym, Permutation_middle.
Qed.

Lemma finish_ok i x m :
  pending m !! i = Some x → manager_ok m →
  manager_ok (finish i m) ∧ ∀ g, x = PReceive g → g < next_object m ∧ (g ∉ receives (finish i m)).
Proof.
  intros Hi [Hs Hid Hb Hg Hgf Hrc Hrf]. pose proof (receives_delete i x m Hi) as Hp.
  rewrite Hp in Hrc, Hrf. apply NoDup_app in Hrc as (_ & Hd & Hrc).
  apply Forall_app in Hrf as [Hx Hrf]. split; [by split|]. intros g ->.
  split; [by inversion Hx|]. apply Hd. by left.
Qed.

Lemma guarded_peer_find m g p :
  manager_ok m → guarded_peer m g = Some p →
  destroy_indicator_ p = g ∧ map_find (peer_ltb m) (peer_id p) (peers_ m) = Some p ∧
  Pmid_Name (dht_fob (node_info_ p)) = peer_id p.
Proof.
  intros Hm Hg. unfold guarded_peer in Hg.
  destruct (List.find _ _) as [[k q]|] eqn:E; [|done]. injection Hg as <-.
  apply find_some in E as [Hin%list_elem_of_In Heq%Nat.eqb_eq].
  destruct (proj1 (Forall_forall _ _) (mo_identity _ Hm) _ Hin) as [Hk Hn]. cbn in Hk, Hn, Heq.
  subst k. split; [done|]. split; [|done]. by apply (map_elem_find (peer_ltb m)), Hin; apply Hm.
Qed.

(** Writing the buffer of a peer keeps the invariant. *)
Lemma set_buffer_ok m p datagram :
  manager_ok m → map_find (peer_ltb m) (peer_id p) (peers_ m) = Some p →
  manager_ok (set_peers (map_set (peer_ltb m) (peer_id p) (received_buffer datagram p) (peers_ m)) m).
Proof.
  intros [Hs Hi Hb Hg Hgf Hrc Hrf] Hf.
  assert (∀ P : Address * PeerNode → Prop, (P (peer_id p, p) → P (peer_id p, received_buffer datagram p)) →
    Forall P (peers_ m) →
    Forall P (map_set (peer_ltb m) (peer_id p) (received_buffer datagram p) (peers_ m))) as Hset.
  { intros P HP HF. apply Forall_forall. intros [k q] Hin.
    apply (map_elem_find (peer_ltb m)) in Hin; [|by apply (map_set_ok (peer_ltb m))].
    rewrite (map_find_set (peer_ltb m)) in Hin by done.
    rewrite Forall_forall in HF. destruct (key_equiv _ _ _) eqn:E.
    + apply (key_equiv_spec (peer_ltb m)) in E as <-. injection Hin as <-.
      by apply HP, HF, (map_find_elem (peer_ltb m)).
    + by apply HF, (map_find_elem (peer_ltb m)). }
  split; try done; cbn [peers_ set_peers].
  - by apply (map_set_ok (peer_ltb m)).
  - by apply Hset.
  - apply Hset; [|done]. cbn. by rewrite write_buffer_length.
  - unfold guards. cbn. by rewrite (map_set_fmap (peer_ltb m) destroy_indicator_ _ _ _ p).
  - unfold guards. cbn. by rewrite (map_set_fmap (peer_ltb m) destroy_indicator_ _ _ _ p).
Qed.

Lemma set_on_receive_shrinks b m : manager_shrinks m (set_on_receive b m).
Proof. by split. Qed.

Lemma StartReceiving_ok g m :
  manager_ok m → g < next_object m → g ∉ receives m → manager_ok (StartReceiving g m).
Proof.
  intros [Hs Hi Hb Hg Hgf Hrc Hrf] Hlt Hn. split; try done; unfold StartReceiving;
    rewrite receives_receive.
  - apply NoDup_app. split; [done|]. split; [|apply NoDup_singleton].
    by intros ? ? ->%list_elem_of_singleton.
  - apply Forall_app. split; [done|]. by apply Forall_singleton.
Qed.

Lemma receive_done_ok g r m :
  manager_ok m → g < next_object m → g ∉ receives m → manager_ok (receive_done on_recv g r m).
Proof.
  intros Hm Hlt Hn. unfold receive_done.
  destruct (guarded_peer m g) as [p|] eqn:Hg; [|by destruct r]. destruct r as [| |datagram]; try done.
  destruct (guarded_peer_find m g p Hm Hg) as (Hgp & Hf & _).
  pose proof (set_buffer_ok m p datagram Hm Hf) as Hm1. set (m1 := set_peers _ m) in *.
  destruct (negb (on_receive_set m1)); [done|]. set (m2 := on_recv _ _ _).
  assert (manager_shrinks m1 m2) as Hsh.
  { etrans; [apply (set_on_receive_shrinks false)|]. by apply public_run_shrinks, Hrecv. }
  destruct (guarded_peer m2 g); [|by eapply shrinks_ok].
  set (m3 := if negb (on_receive_set m2) then set_on_receive true m2 else m2).
  assert (manager_shrinks m1 m3) as Hsh3.
  { unfold m3. destruct (negb _); [|done]. by etrans; [|apply set_on_receive_shrinks]. }
  apply StartReceiving_ok; [by eapply shrinks_ok| |].
  - pose proof (ms_next _ _ Hsh3). unfold m1 in *. cbn in *. lia.
  - by rewrite (ms_receives _ _ Hsh3).
Qed.

Lemma manager_step_ok m m' : manager_step m m' → manager_ok m → manager_ok m'.
Proof.
  intros [m1 m1' Hst|m1|m1 i port socket r Hi|m1 i socket r Hi|m1 i endpoint socket assumed r Hi
         |m1 i endpoint socket assumed r Hi|m1 i guard r Hi] Hm;
    try (destruct (finish_ok _ _ _ Hi Hm) as [Hf Hfr]).
  - by eapply shrinks_ok; [apply public_step_shrinks|].
  - eapply shrinks_ok; [|exact Hm]. split; cbn; try done. apply sublist_nil_l.
  - unfold accept_done. destruct (destroyed _); [done|].
    assert (manager_ok (start (PAcceptExchange socket) (StartAccepting port (finish i m1)))) as Hok.
    { eapply shrinks_ok; [|exact Hf]. etrans; [apply public_step_shrinks, ps_StartAccepting|].
      split; [done|done|by apply receives_start|done]. }
    by destruct r.
  - unfold accept_exchanged. destruct (destroyed _); [done|]. destruct r as [| |data]; try done.
    destruct (Parse _ _); cbn [snd]; try done. by apply InsertPeer_ok.
  - unfold connect_done. destruct (negb _); [done|].
    destruct r; cbn [snd]; (eapply shrinks_ok; [|exact Hf]); split; try done.
    by apply receives_start.
  - unfold connect_exchanged. destruct (negb _); [done|].
    assert (manager_ok (erase_connecting endpoint (finish i m1))) as Hok
      by (by eapply shrinks_ok; [|exact Hf]; split).
    destruct r as [| |data]; try done. destruct (Parse _ _); cbn [snd]; try done.
    destruct assumed as [info|]; [destruct (node_neb _ _); [done|]|]; by apply InsertPeer_ok.
  - destruct (Hfr guard eq_refl). by apply receive_done_ok.
Qed.

Lemma InsertPeer_elem info socket m x :
  map_ok (peer_ltb m) (peers_ m) → x ∈ peers_ (InsertPeer on_added info socket m) →
  x ∈ peers_ m ∨ (x.1 = id info ∧ node_info_ x.2 = info ∧ socket_ x.2 = socket).
Proof.
  intros Hs Hx. destruct (InsertPeer_shape info socket m Hs) as [[_ Heq]|(_ & m2 & Hsh & _ & _ & _ & Hp)].
  - left. by rewrite Heq in Hx.
  - pose proof (elem_of_sublist _ _ _ Hx (ms_peers _ _ Hsh)) as Hx2.
    rewrite Hp, insert_by_perm in Hx2. apply elem_of_cons in Hx2 as [->|]; [by right|by left].
Qed.

(** ** The properties *)

(** C15: Whatever calls are made and in whatever order operations complete, with
    whatever results, and whatever public functions the callbacks call: the
    peers are strictly ordered by closeness to us, every peer is under the name
    of the identity it presented and keeps a receive buffer of [MaxMessageSize]
    bytes, and no two receive operations run for the
    same peer. *)
Theorem manager_reachable_ok (our_fob : PublicPmid) m :
  rtc manager_step (ConnectionManager_new our_fob) m → manager_ok m.
Proof.
  intros Hr. assert (manager_ok (ConnectionManager_new our_fob)) as H0 by (split; constructor).
  revert H0. induction Hr; eauto using manager_step_ok.
Qed.

(** C29: Only the node asked for is connected: after the exchange of identities
    on a connection made by [AddNode] a peer is one that was there before, or
    is under the name of the identity it presented, with the socket of the
    connection, and has the identity [AddNode] was told to expect, if any. *)
Theorem connect_exchanged_peers endpoint socket assumed r m x :
  manager_ok m → x ∈ peers_ (connect_exchanged on_added endpoint socket assumed r m).2 →
  x ∈ peers_ m ∨
  ∃ data pmid, r = Done data ∧ Parse ar_PublicPmid data = Ok pmid ∧
    x.1 = Pmid_Name pmid ∧ dht_fob (node_info_ x.2) = pmid ∧ socket_ x.2 = socket ∧
    ∀ info, assumed = Some info → id info = x.1.
Proof.
  intros Hm. unfold connect_exchanged. destruct (negb _); [by left|].
  destruct r as [| |data]; [by left..|]. destruct (Parse _ data) as [pmid| | |] eqn:Hp; [|by left..].
  assert (map_ok (peer_ltb (erase_connecting endpoint m)) (peers_ (erase_connecting endpoint m)))
    as Hok by apply Hm.
  assert (∀ socket', x ∈ peers_ (InsertPeer on_added (mkNodeInfo (Pmid_Name pmid) pmid true) socket'
            (erase_connecting endpoint m)) → x ∈ peers_ m ∨
            x.1 = Pmid_Name pmid ∧ dht_fob (node_info_ x.2) = pmid ∧ socket_ x.2 = socket') as Hins.
  { intros socket' Hx. destruct (InsertPeer_elem _ _ _ _ Hok Hx) as [|(H1 & H2 & H3)]; [by left|].
    right. split_and!; [done|by etrans; [apply (f_equal dht_fob H2)|]|done]. }
  destruct assumed as [info|]; [unfold node_neb; case_bool_decide as Hne|]; cbn [snd]; [by left|..];
    (intros [|(H1 & H2 & H3)]%Hins; [by left|right]); exists data, pmid; split_and!; try done.
  intros info' [= <-]. by rewrite Hne, H1.
Qed.

(** What is sent is received: when a serialised object that fits the receive
    buffer arrives for a peer that is there, with [on_receive_] set, the callback is called with the
    peer's identity and a buffer that parses to the object, although the buffer
    is given whole and ends with what it held before; and if the peer is still
    there after the callback, [on_receive_] is set and a receive operation for
    the peer is under way again. *)
Theorem received_object_parses {A} (P : A → Prop) (c : Codec A) (o : A) guard m p :
  manager_ok m → roundtrips P c → P o → (Z.of_nat (length (Serialise c o)) ≤ MaxMessageSize)%Z →
  guarded_peer m guard = Some p → on_receive_set m = true →
  ∃ m1 buffer, Parse c buffer = Ok o ∧
    receive_buffer_ <$> find_peer m1 (peer_id p) = Some buffer ∧
    let m2 := on_recv (peer_id p) buffer m1 in
    let m' := receive_done on_recv guard (Done (Serialise c o)) m in
    (guarded_peer m2 guard = None ∧ m' = m2) ∨
    (is_Some (guarded_peer m2 guard) ∧ on_receive_set m' = true ∧ guard ∈ receives m' ∧
     peers_ m' = peers_ m2).
Proof.
  intros Hm Hc Ho Hlen Hg Hset. destruct (guarded_peer_find m guard p Hm Hg) as (_ & Hf & _).
  assert (length (Serialise c o) ≤ length (receive_buffer_ p)) as Hfit.
  { apply (map_find_elem (peer_ltb m)) in Hf.
    pose proof (proj1 (Forall_forall _ _) (mo_buffers _ Hm) _ Hf) as Hb. cbn [snd] in Hb. rewrite Hb. lia. }
  set (p' := received_buffer (Serialise c o) p).
  exists (set_on_receive false (set_peers (map_set (peer_ltb m) (peer_id p) p' (peers_ m)) m)).
  exists (receive_buffer_ p'). split; [|split].
  - unfold Parse, p'. cbn [receive_buffer_ received_buffer]. rewrite write_buffer_fits by done.
    unfold Serialise. by rewrite Hc.
  - unfold find_peer. cbn [peers_ set_on_receive set_peers].
    change (peer_ltb (set_on_receive _ _)) with (peer_ltb m).
    rewrite (map_find_set (peer_ltb m)) by apply Hm. by rewrite (key_equiv_refl (peer_ltb m)).
  - unfold receive_done. rewrite Hg. fold p'. cbn zeta. cbn [on_receive_set set_peers].
    rewrite Hset. cbn [negb]. set (m2 := on_recv _ _ _).
    destruct (guarded_peer m2 guard) as [q|] eqn:Hq; [right|by left].
    split; [done|]. unfold StartReceiving. rewrite receives_receive, elem_of_app.
    destruct (on_receive_set m2) eqn:E; cbn [negb]; split_and!; try done; right; by left.
Qed.
End steps.

(** [OurCloseGroup] is the identities of the [GroupSize] peers closest to us,
    and [AddressInCloseGroupRange] holds of an address exactly when there are
    fewer than [GroupSize] peers, or fewer than [GroupSize] peers at least as
    close to us as the address. *)
Theorem close_group_range m a :
  manager_ok m →
  (∃ close far, peers_ m = close ++ far ∧ length close = min GroupSize (length (peers_ m)) ∧
     cm_OurCloseGroup m = (λ x, dht_fob (node_info_ x.2)) <$> close ∧
     ∀ x y, x ∈ close → y ∈ far → CloserToTarget x.1 y.1 (cm_our_id m) = true) ∧
  (AddressInCloseGroupRange m a = true ↔
     length (peers_ m) < GroupSize ∨
     length (List.filter (λ x, negb (CloserToTarget a x.1 (cm_our_id m))) (peers_ m)) < GroupSize).
Proof.
  intros Hm. split.
  - exists (take GroupSize (peers_ m)), (drop GroupSize (peers_ m)).
    rewrite take_drop, length_take. do 3 (split; [done|]). intros x y Hx Hy.
    pose proof (mo_sorted _ Hm) as Hs. unfold map_ok in Hs.
    rewrite <-(take_drop GroupSize (peers_ m)) in Hs. by eapply (sorted_by_app fst (peer_ltb m)).
  - unfold AddressInCloseGroupRange. rewrite (upper_bound_count (peer_ltb m)) by apply Hm.
    destruct (Nat.ltb_spec (length (peers_ m)) GroupSize) as [|Hlen]; [naive_solver|].
    rewrite Nat.ltb_lt. split; [by right|]. intros [|]; [lia|done].
Qed.

(** [DropNode] removes the peer with the address and no other, and reports a
    change of the close group exactly when there is one, with the new members
    and the members of the last report; the members it remembers afterwards are
    the current ones, so dropping the same address again reports nothing. *)
Theorem DropNode_reports a m :
  manager_ok m →
  ∃ d m', cm_DropNode a m = (d, m') ∧ manager_ok m' ∧
    (∀ x, x ∈ peers_ m' ↔ x ∈ peers_ m ∧ x.1 ≠ a) ∧
    current_close_group_ m' = Pmid_Name <$> cm_OurCloseGroup m' ∧
    (d = None ↔ current_close_group_ m' = current_close_group_ m) ∧
    (∀ new old, d = Some (new, old) → new = current_close_group_ m' ∧ old = current_close_group_ m) ∧
    (cm_DropNode a m').1 = None.
Proof.
  intros Hm. set (m1 := set_peers (map_erase (peer_ltb m) a (peers_ m)) m).
  set (d := (cm_DropNode a m).1). set (m' := (cm_DropNode a m).2).
  assert (peers_ m' = map_erase (peer_ltb m) a (peers_ m) ∧ our_fob_ m' = our_fob_ m) as [Hp Hfob].
  { unfold m', cm_DropNode, GroupChanged. by case_bool_decide. }
  assert (cm_OurCloseGroup m' = cm_OurCloseGroup m1) as Hcg by (unfold cm_OurCloseGroup; by rewrite Hp).
  assert (current_close_group_ m' = Pmid_Name <$> cm_OurCloseGroup m' ∧
          d = if bool_decide (current_close_group_ m' = current_close_group_ m) then None
              else Some (current_close_group_ m', current_close_group_ m)) as [Hcur Hd].
  { rewrite Hcg. unfold m', d, cm_DropNode, GroupChanged. fold m1.
    destruct (decide (Pmid_Name <$> cm_OurCloseGroup m1 = current_close_group_ m1)) as [Heq|Hne].
    - rewrite bool_decide_eq_false_2 by (by intros []). cbn. split; [done|].
      by rewrite bool_decide_eq_true_2.
    - rewrite bool_decide_eq_true_2 by done. cbn. split; [done|].
      by rewrite bool_decide_eq_false_2. }
  exists d, m'. split; [unfold d, m'; by destruct (cm_DropNode a m)|].
  split; [by eapply shrinks_ok; [apply public_step_shrinks, ps_DropNode|]|].
  split; [intros x; rewrite Hp; apply (map_erase_elem (peer_ltb m))|]. split; [done|].
  rewrite Hd. split; [by case_bool_decide|]. split; [by case_bool_decide; intros new old [= <- <-]|].
  unfold cm_DropNode, GroupChanged.
  assert (map_erase (peer_ltb m') a (peers_ m') = peers_ m') as ->.
  { apply (map_erase_absent (peer_ltb m')), (map_find_None (peer_ltb m')). rewrite Hp.
    intros (x & -> & [_ Hx]%(map_erase_elem (peer_ltb m)))%list_elem_of_fmap. done. }
  rewrite bool_decide_eq_false_2; [done|]. intros Hne. destruct Hne. cbn. by rewrite Hcur.
Qed.
End props.

(** ** Witnesses

    A manager with the identity 0 that connects to the node 7; the callbacks do
    nothing but set [on_receive_] when a peer is added. *)
Module ManagerWitness.
Import Concrete.

Definition addr (i : N) : Address := i.
Definition fob (i : N) : PublicPmid := (i, 1%N).
Definition added : option (Address → ConnectionManager → ConnectionManager) :=
  Some (λ _ m, SetOnReceive m).
Definition receive (_ : Address) (_ : SerialisedMessage) (m : ConnectionManager) : ConnectionManager := m.

Definition endpoint : Endpoint := (inl (1, 2, 3, 4)%Z, 5483%Z).
Definition expected : option NodeInfo := Some (mkNodeInfo 7%N (fob 7) true).
Definition identity_of_7 : SerialisedMessage := Serialise ar_PublicPmid (fob 7).

Definition m0 : ConnectionManager := ConnectionManager_new (fob 0).
Definition m1 : ConnectionManager := cm_AddNode expected (EndpointPair_both endpoint) m0.
Definition m2 : ConnectionManager := (connect_done endpoint 0 expected (Done tt) (finish 0 m1)).2.
Definition m3 : ConnectionManager :=
  (connect_exchanged added endpoint 0 expected (Done identity_of_7) (finish 0 m2)).2.

Lemma added_public h a m : added = Some h → rtc public_step m (h a m).
Proof. intros [= <-]. eapply rtc_once, ps_SetOnReceive. Qed.

Lemma receive_public a b m : rtc public_step m (receive a b m).
Proof. apply rtc_refl. Qed.

Lemma step1 : manager_step added receive m0 m1.
Proof. apply st_public, ps_AddNode. Qed.
Lemma step2 : manager_step added receive m1 m2.
Proof. by apply (st_connect _ _ m1 0). Qed.
Lemma step3 : manager_step added receive m2 m3.
Proof. by apply (st_connect_exchange _ _ m2 0). Qed.

Lemma m0_ok : manager_ok m0.
Proof. split; constructor. Qed.
Lemma m2_ok : manager_ok m2.
Proof.
  pose proof (manager_step_ok added receive added_public receive_public) as Hst.
  eapply Hst; [apply step2|]. eapply Hst; [apply step1|]. apply m0_ok.
Qed.
Lemma m3_ok : manager_ok m3.
Proof.
  eapply (manager_step_ok added receive added_public receive_public); [apply step3|]. apply m2_ok.
Qed.

Lemma manager_reachable_ok_witness : manager_ok m3 ∧ (peers_ m3).*1 = [addr 7].
Proof.
  split; [|reflexivity].
  apply (manager_reachable_ok added receive added_public receive_public (fob 0) m3).
  eapply rtc_l; [apply step1|]. eapply rtc_l; [apply step2|]. apply rtc_once, step3.
Defined.

Definition peer_7 : PeerNode := PeerNode_new (mkNodeInfo 7%N (fob 7) true) 0 1.

Lemma connect_exchanged_peers_witness :
  ((addr 7), peer_7) ∈ peers_ (finish 0 m2) ∨
  ∃ data pmid, Done identity_of_7 = Done data ∧ Parse ar_PublicPmid data = Ok pmid ∧
    (addr 7) = Pmid_Name pmid ∧ dht_fob (node_info_ peer_7) = pmid ∧ socket_ peer_7 = 0 ∧
    ∀ info, expected = Some info → id info = (addr 7).
Proof.
  apply (connect_exchanged_peers added added_public endpoint 0 expected (Done identity_of_7)
           (finish 0 m2) ((addr 7), peer_7)).
  - apply (finish_ok 0 (PConnectExchange endpoint 0 expected)); [reflexivity|apply m2_ok].
  - apply (list_elem_of_lookup_2 _ 0). reflexivity.
Defined.

Lemma received_object_parses_witness :
  ∃ m buffer, Parse ar_PublicPmid buffer = Ok (fob 9) ∧
    receive_buffer_ <$> find_peer m (peer_id peer_7) = Some buffer ∧
    let m2 := receive (peer_id peer_7) buffer m in
    let m' := receive_done receive 1 (Done (Serialise ar_PublicPmid (fob 9))) m3 in
    (guarded_peer m2 1 = None ∧ m' = m2) ∨
    (is_Some (guarded_peer m2 1) ∧ on_receive_set m' = true ∧ 1 ∈ receives m' ∧
     peers_ m' = peers_ m2).
Proof.
  apply (received_object_parses receive (λ _, True) ar_PublicPmid (fob 9) 1 m3 peer_7);
    [apply m3_ok|apply rt_PublicPmid|done|apply Z.leb_le; vm_refl|reflexivity|reflexivity].
Defined.

Lemma close_group_range_witness :
  (∃ close far, peers_ m3 = close ++ far ∧ length close = min GroupSize (length (peers_ m3)) ∧
     cm_OurCloseGroup m3 = (λ x, dht_fob (node_info_ x.2)) <$> close ∧
     ∀ x y, x ∈ close → y ∈ far → CloserToTarget x.1 y.1 (cm_our_id m3) = true) ∧
  (AddressInCloseGroupRange m3 (addr 9) = true ↔
     length (peers_ m3) < GroupSize ∨
     length (List.filter (λ x, negb (CloserToTarget (addr 9) x.1 (cm_our_id m3))) (peers_ m3))
     < GroupSize).
Proof. apply (close_group_range m3 (addr 9)), m3_ok. Defined.

Lemma DropNode_reports_witness :
  ∃ d m', cm_DropNode (addr 7) m3 = (d, m') ∧ manager_ok m' ∧
    (∀ x, x ∈ peers_ m' ↔ x ∈ peers_ m3 ∧ x.1 ≠ addr 7) ∧
    current_close_group_ m' = Pmid_Name <$> cm_OurCloseGroup m' ∧
    (d = None ↔ current_close_group_ m' = current_close_group_ m3) ∧
    (∀ new old, d = Some (new, old) → new = current_close_group_ m' ∧ old = current_close_group_ m3) ∧
    (cm_DropNode (addr 7) m').1 = None.
Proof. apply (DropNode_reports (addr 7) m3), m3_ok. Defined.
End ManagerWitness.
