(* ===== verification/AsyncQueue.v ===== *)
(** * The queue of received messages ([async_queue.h])

    [AsyncQueue] pairs values that are pushed with handlers that ask for one.
    A handler is called after the lock is released; the functions below return
    the call that is to be made, so a sequence of operations is the order in
    which the locked sections ran. *)

From S2P Require Import Prelude.

Record AsyncQueue (A H : Type) := mkQueue {
  values : list A;
  handlers : list H
}.
Arguments mkQueue {_ _} _ _.
Arguments values {_ _} _.
Arguments handlers {_ _} _.

Section queue.
Context {A H : Type}.
Implicit Types (q : AsyncQueue A H).

Definition AsyncQueue_new : AsyncQueue A H := mkQueue [] [].

(** [GeneratedSequence<N, Is...>]: the indices [std::get] is called with. *)
Fixpoint GeneratedSequence (n : nat) (idx : list nat) : list nat :=
  match n with
  | 0 => idx
  | S n => GeneratedSequence n (n :: idx)
  end.

(** [ApplyTuple (handler, tuple)]: the call of the handler with the values. *)
Definition ApplyTuple (f : H) (tup : A) : H * A := (f, tup).

Definition Push (args : A) q : option (H * A) * AsyncQueue A H :=
  match handlers q with
  | [] => (None, mkQueue (values q ++ [args]) (handlers q))
  | handler :: hs => (Some (ApplyTuple handler args), mkQueue (values q) hs)
  end.

Definition AsyncPop (handler : H) q : option (H * A) * AsyncQueue A H :=
  match values q with
  | [] => (None, mkQueue (values q) (handlers q ++ [handler]))
  | tuple :: vs => (Some (ApplyTuple handler tuple), mkQueue vs (handlers q))
  end.

(** Every component of the tuple is passed, in its place. *)
Lemma GeneratedSequence_seq n idx : GeneratedSequence n idx = seq 0 n ++ idx.
Proof.
  revert idx. induction n as [|n IH]; intros idx; [done|].
  cbn [GeneratedSequence]. by rewrite IH, seq_S, <-(assoc_L (++)).
Qed.

(** ** Sequences of operations *)
Inductive queue_op := OPush (a : A) | OPop (h : H).

Definition queue_step (op : queue_op) q : option (H * A) * AsyncQueue A H :=
  match op with OPush a => Push a q | OPop h => AsyncPop h q end.

Fixpoint queue_run (ops : list queue_op) q : list (H * A) * AsyncQueue A H :=
  match ops with
  | [] => ([], q)
  | op :: ops =>
      let '(call, q') := queue_step op q in
      let '(calls, q'') := queue_run ops q' in
      (option_list call ++ calls, q'')
  end.

Definition pushed : list queue_op → list A :=
  omap (λ op, match op with OPush a => Some a | OPop _ => None end).
Definition popped : list queue_op → list H :=
  omap (λ op, match op with OPop h => Some h | OPush _ => None end).

(** Values and handlers never wait at the same time. *)
Definition queue_ok q : Prop := values q = [] ∨ handlers q = [].

Lemma queue_step_spec op q :
  queue_ok q →
  let '(call, q') := queue_step op q in
  queue_ok q' ∧
  handlers q ++ popped [op] = (option_list call).*1 ++ handlers q' ∧
  values q ++ pushed [op] = (option_list call).*2 ++ values q'.
Proof.
  intros Hq. destruct q as [vs hs], op as [a|h]; cbn in *.
  - destruct hs as [|h hs]; cbn; [split; [by right|]; by rewrite ?app_nil_r|].
    destruct Hq as [Hv|]; [|done]. cbn in Hv. subst vs.
    rewrite ?app_nil_r. split; [by left|done].
  - destruct vs as [|v vs]; cbn; [split; [by left|]; by rewrite ?app_nil_r|].
    destruct Hq as [|Hh]; [done|]. cbn in Hh. subst hs.
    rewrite ?app_nil_r. split; [by right|done].
Qed.

Lemma queue_run_spec ops q :
  queue_ok q →
  let '(calls, q') := queue_run ops q in
  queue_ok q' ∧ handlers q ++ popped ops = calls.*1 ++ handlers q' ∧
  values q ++ pushed ops = calls.*2 ++ values q'.
Proof.
  revert q. induction ops as [|op ops IH]; intros q Hq; cbn [queue_run]; [by rewrite !app_nil_r|].
  pose proof (queue_step_spec op q Hq) as Hs. destruct (queue_step op q) as [call q'].
  destruct Hs as (Hq' & Hh & Hv). specialize (IH q' Hq'). destruct (queue_run ops q') as [calls q''].
  destruct IH as (Hq'' & Hh' & Hv'). split; [done|].
  assert (popped (op :: ops) = popped [op] ++ popped ops) as -> by by destruct op.
  assert (pushed (op :: ops) = pushed [op] ++ pushed ops) as -> by by destruct op.
  rewrite !(assoc_L (++)), Hh, Hv, !fmap_app, <-!(assoc_L (++)), Hh', Hv'. done.
Qed.

(** C27: The queue is first in, first out, and loses and repeats nothing: in any
    interleaving of pushes and pops the n-th handler is called with the n-th
    value, the calls are made in that order, as many as there are pairs, and
    what has no partner yet waits in order. *)
Theorem queue_fifo ops :
  queue_run ops AsyncQueue_new =
    (zip (popped ops) (pushed ops),
     mkQueue (drop (length (popped ops)) (pushed ops)) (drop (length (pushed ops)) (popped ops))).
Proof.
  pose proof (queue_run_spec ops AsyncQueue_new (or_introl eq_refl)) as Hr.
  destruct (queue_run ops AsyncQueue_new) as [calls [vs hs]]. destruct Hr as (Hq & Hh & Hv).
  cbn in Hq, Hh, Hv. rewrite Hh, Hv. destruct Hq as [Hq|Hq]; cbn in Hq; subst; rewrite ?app_nil_r.
  - rewrite drop_ge, drop_app_length' by (rewrite ?length_app, !length_fmap; lia).
    f_equal. rewrite <-(app_nil_r calls.*2), zip_with_app by by rewrite !length_fmap.
    rewrite zip_with_nil_r, app_nil_r. symmetry. apply zip_fst_snd.
  - rewrite drop_app_length', (drop_ge calls.*1) by (rewrite ?length_app, !length_fmap; lia).
    f_equal. rewrite <-(app_nil_r calls.*1), zip_with_app by by rewrite !length_fmap.
    cbn. rewrite app_nil_r. symmetry. apply zip_fst_snd.
Qed.
End queue.
