(* ===== verification/AsyncExchange.v ===== *)
(** * Exchange of identities over a new connection ([async_exchange.h])

    [AsyncExchange] starts a send and a receive on the socket; both completion
    handlers share a [State], and the one that runs second calls the handler. *)

From S2P Require Import Prelude CppStd Identity Types MessageHeader Codec ConcreteIO.

(** [boost::system::error_code] and [asio::error_code], between which
    [convert::ToStd] converts. *)
Inductive error_code :=
  | success
  | operation_aborted
  | bad_descriptor
  | already_started
  | other_error (value : Z).

#[export] Instance error_code_eq_dec : EqDecision error_code.
Proof. solve_decision. Defined.

(** [if (error)] *)
Definition failed (error : error_code) : bool := bool_decide (error ≠ success).

Definition max_buffer_size : Z := 262144.

Record ExchangeState := mkExchange {
  first_error : option error_code;
  rx_buffer : SerialisedMessage;
  tx_buffer : SerialisedMessage
}.

(** The state before either operation completes. *)
Definition AsyncExchange (our_data : SerialisedMessage) : ExchangeState :=
  mkExchange None (repeat 0%Z (Z.to_nat max_buffer_size)) our_data.

(** A call of the handler. *)
Definition ExchangeCall : Type := error_code * SerialisedMessage.

Definition sent (error : error_code) (state : ExchangeState)
    : option ExchangeCall * ExchangeState :=
  match first_error state with
  | Some e =>
      if failed e then (Some (e, []), state)
      else if failed error then (Some (error, []), state)
      else (Some (error, rx_buffer state), mkExchange (Some e) [] (tx_buffer state))
  | None => (None, mkExchange (Some error) (rx_buffer state) (tx_buffer state))
  end.

Definition received (error : error_code) (datagram : list byte) (state : ExchangeState)
    : option ExchangeCall * ExchangeState :=
  let size := bytes_transferred datagram (rx_buffer state) in
  let buffer := write_buffer datagram (rx_buffer state) in
  match first_error state with
  | Some e =>
      if failed e then (Some (e, []), mkExchange (Some e) buffer (tx_buffer state))
      else if failed error then (Some (error, []), mkExchange (Some e) buffer (tx_buffer state))
      else (Some (error, resize size 0%Z buffer), mkExchange (Some e) [] (tx_buffer state))
  | None => (None, mkExchange (Some error) buffer (tx_buffer state))
  end.

(** The two orders in which the operations can complete. *)
Definition sent_first (our_data : SerialisedMessage) (e_sent e_received : error_code)
    (datagram : list byte) : list ExchangeCall :=
  let '(c1, s1) := sent e_sent (AsyncExchange our_data) in
  let '(c2, _) := received e_received datagram s1 in
  option_list c1 ++ option_list c2.

Definition received_first (our_data : SerialisedMessage) (e_sent e_received : error_code)
    (datagram : list byte) : list ExchangeCall :=
  let '(c1, s1) := received e_received datagram (AsyncExchange our_data) in
  let '(c2, _) := sent e_sent s1 in
  option_list c1 ++ option_list c2.

(** The error of two operations: that of the first to fail. *)
Definition joint_error (e1 e2 : error_code) : error_code := if failed e1 then e1 else e2.

Lemma failed_spec e : if failed e then e ≠ success else e = success.
Proof. unfold failed. by case_bool_decide as H; [|destruct (decide (e = success))]. Qed.

Lemma exchange_buffer our_data : length (rx_buffer (AsyncExchange our_data)) = Z.to_nat max_buffer_size.
Proof. apply repeat_length. Qed.

(** A datagram that fits the buffer of an exchange. *)
Definition fits (datagram : list byte) : Prop := (Z.of_nat (length datagram) ≤ max_buffer_size)%Z.

Lemma fits_buffer our_data datagram :
  fits datagram → length datagram ≤ length (rx_buffer (AsyncExchange our_data)).
Proof. unfold fits. rewrite exchange_buffer. lia. Qed.

(** The message the handler gets. *)
Definition exchanged_message (rx : SerialisedMessage) (error : error_code) : SerialisedMessage :=
  if failed error then [] else rx.

Lemma sent_first_from buffer our_data e_sent e_received datagram :
  (let '(c1, s1) := sent e_sent (mkExchange None buffer our_data) in
   let '(c2, _) := received e_received datagram s1 in
   option_list c1 ++ option_list c2)
  = [(joint_error e_sent e_received,
      exchanged_message (take (length buffer) datagram) (joint_error e_sent e_received))].
Proof.
  unfold sent, received, joint_error, exchanged_message. cbn [first_error rx_buffer tx_buffer].
  destruct (failed e_sent) eqn:E1; cbn [option_list app]; [by rewrite E1|].
  destruct (failed e_received) eqn:E2; cbn [option_list app]; [done|]. by rewrite resize_written.
Qed.

Lemma sent_first_calls our_data e_sent e_received datagram :
  let error := joint_error e_sent e_received in
  sent_first our_data e_sent e_received datagram
  = [(error, exchanged_message (take (Z.to_nat max_buffer_size) datagram) error)].
Proof.
  cbv zeta. rewrite <-(exchange_buffer our_data) at 1. unfold sent_first, AsyncExchange. cbn [rx_buffer].
  apply sent_first_from.
Qed.

Lemma received_first_calls our_data e_sent e_received datagram :
  let error := joint_error e_received e_sent in
  received_first our_data e_sent e_received datagram
  = [(error, exchanged_message (write_buffer datagram (rx_buffer (AsyncExchange our_data))) error)].
Proof.
  unfold received_first, sent, received, AsyncExchange, joint_error, exchanged_message.
  cbn -[repeat Z.to_nat write_buffer].
  destruct (failed e_received) eqn:E1; cbn -[repeat Z.to_nat write_buffer]; [by rewrite E1|].
  by destruct (failed e_sent).
Qed.

(** C28: Whichever of the two operations completes first, the handler is called
    exactly once: with the error of the first one that failed and no data, or,
    when both succeed, with data that parses to the object the other side
    serialised, provided it fits the buffer of 262144 bytes. *)
Theorem exchange_completes {A} (P : A → Prop) (c : Codec A) (theirs : A) our_data e_sent e_received :
  roundtrips P c → P theirs → fits (Serialise c theirs) →
  ∃ data1 data2,
    sent_first our_data e_sent e_received (Serialise c theirs)
      = [(joint_error e_sent e_received, data1)] ∧
    received_first our_data e_sent e_received (Serialise c theirs)
      = [(joint_error e_received e_sent, data2)] ∧
    if bool_decide (e_sent = success ∧ e_received = success)
    then Parse c data1 = Ok theirs ∧ Parse c data2 = Ok theirs
    else data1 = [] ∧ data2 = [].
Proof.
  intros Hc Ht Hfit%(fits_buffer our_data). do 2 eexists. split; [apply sent_first_calls|]. split; [apply received_first_calls|].
  unfold joint_error, exchanged_message.
  pose proof (failed_spec e_sent) as H1. pose proof (failed_spec e_received) as H2.
  case_bool_decide as Hb.
  - destruct Hb as [-> ->]. change (failed success) with false. cbn iota.
    change (failed success) with false. cbn iota.
    rewrite write_buffer_fits, take_ge by (by rewrite <-?(exchange_buffer our_data)).
    split; [by eapply Parse_Serialise|]. unfold Parse, Serialise. by rewrite Hc.
  - destruct (failed e_sent) eqn:E1, (failed e_received) eqn:E2; rewrite ?E1, ?E2; try done.
    destruct Hb. done.
Qed.

(** When the receive completes first, the buffer is not cut to the size of what
    was received: the handler gets all of it. *)
Theorem received_first_padded our_data datagram :
  ∃ data, received_first our_data success success datagram = [(success, data)] ∧
    length data = Z.to_nat max_buffer_size.
Proof.
  eexists. split; [apply received_first_calls|]. unfold exchanged_message.
  change (failed (joint_error success success)) with false. cbn iota beta.
  rewrite write_buffer_length. apply exchange_buffer.
Qed.

(** ** Witness: the identity of the node 7 arrives. *)
Module ExchangeWitness.
Import Concrete.

Definition fob_7 : PublicPmid := (7%N, 1%N).

Lemma exchange_completes_witness :
  ∃ data1 data2,
    sent_first [1%Z] success success (Serialise ar_PublicPmid fob_7) = [(success, data1)] ∧
    received_first [1%Z] success success (Serialise ar_PublicPmid fob_7) = [(success, data2)] ∧
    Parse ar_PublicPmid data1 = Ok fob_7 ∧ Parse ar_PublicPmid data2 = Ok fob_7.
Proof.
  exact (exchange_completes (λ _, True) ar_PublicPmid fob_7 [1%Z] success success rt_PublicPmid I
    ltac:(apply Z.leb_le; vm_refl)).
Defined.
End ExchangeWitness.
