(* ===== verification/Connections.v ===== *)
(** * Connections ([connections.h])

    [Connections] sends to, receives from, connects to and accepts from other
    nodes.  Its public functions post a lambda to the io_service; the lambdas
    and the operations they start are the [tasks] that have not run yet.  A
    task runs atomically (the io_service is run by one thread) and in any
    order; running one gives the calls of user handlers it makes.  A handler
    that calls a function of [Connections] only posts another task, so the
    calls can be made after the task has run.

    Sockets and acceptors are numbered objects, and the [shared_ptr]s to them
    are those in the maps: a [weak_ptr] can be locked while a map holds the
    object.  A handler is a token of type [Handler]. *)

From S2P Require Import Prelude CppStd Identity Types MessageHeader.
From S2P Require Import Codec AsyncQueue AsyncExchange ConcreteIO.

Section connections.
Context `{AO : ArchiveOps} `{EO : !EndpointOps} `{BM : BuildMode} {Handler : Type}.

Definition max_message_size : Z := 1048576.

(** A call of a user's handler. *)
Inductive Call :=
  | CallSend (h : Handler) (error : error_code)
  | CallReceive (h : Handler) (error : error_code) (from : Address) (bytes : SerialisedMessage)
  | CallConnect (h : Handler) (error : error_code) (his_id : Address)
  | CallAccept (h : Handler) (error : error_code) (remote : Endpoint) (his_id : Address).

(** The lambdas that were posted, and the operations that were started with
    what their handlers capture. *)
Inductive Task :=
  | TSend (remote_id : Address) (bytes : SerialisedMessage) (h : Handler)
  | TReceive (h : Handler)
  | TConnect (endpoint : Endpoint) (h : Handler)
  | TAccept (port : Z) (h : Handler)
  | TShutdown
  | TSending (remote_id : Address) (remote_endpoint : Endpoint) (socket : nat) (h : Handler)
  | TConnecting (socket : nat) (h : Handler)
  | TConnectExchange (remote_endpoint : Endpoint) (socket : nat) (h : Handler)
  | TAccepting (port : Z) (acceptor socket : nat) (h : Handler)
  | TAcceptExchange (remote_endpoint : Endpoint) (socket : nat) (h : Handler)
  | TReceiving (his_id : Address) (remote_endpoint : Endpoint) (socket : nat).

Record Connections := mkConnections {
  our_id_ : Address;
  acceptors_ : list (Z * nat);
  connections_ : list (Endpoint * nat);
  id_to_endpoint_map_ : list (Address * Endpoint);
  receive_queue_ : AsyncQueue (error_code * Address * SerialisedMessage) Handler;
  destroyed : bool;
  next_object : nat;
  tasks : list Task
}.
Implicit Types (c : Connections).

Definition Connections_new (our_node_id : Address) : Connections :=
  mkConnections our_node_id [] [] [] AsyncQueue_new false 0 [].

Definition set_acceptors (l : list (Z * nat)) c : Connections :=
  mkConnections (our_id_ c) l (connections_ c) (id_to_endpoint_map_ c) (receive_queue_ c)
    (destroyed c) (next_object c) (tasks c).
Definition set_connections (l : list (Endpoint * nat)) c : Connections :=
  mkConnections (our_id_ c) (acceptors_ c) l (id_to_endpoint_map_ c) (receive_queue_ c)
    (destroyed c) (next_object c) (tasks c).
Definition set_ids (l : list (Address * Endpoint)) c : Connections :=
  mkConnections (our_id_ c) (acceptors_ c) (connections_ c) l (receive_queue_ c) (destroyed c)
    (next_object c) (tasks c).
Definition set_queue (q : AsyncQueue (error_code * Address * SerialisedMessage) Handler) c : Connections :=
  mkConnections (our_id_ c) (acceptors_ c) (connections_ c) (id_to_endpoint_map_ c) q
    (destroyed c) (next_object c) (tasks c).
Definition set_tasks (ts : list Task) c : Connections :=
  mkConnections (our_id_ c) (acceptors_ c) (connections_ c) (id_to_endpoint_map_ c)
    (receive_queue_ c) (destroyed c) (next_object c) ts.
Definition start (t : Task) c : Connections := set_tasks (tasks c ++ [t]) c.
Definition new_object c : nat * Connections :=
  (next_object c,
   mkConnections (our_id_ c) (acceptors_ c) (connections_ c) (id_to_endpoint_map_ c)
     (receive_queue_ c) (destroyed c) (S (next_object c)) (tasks c)).

(** ** The public functions *)
Definition Send (remote_id : Address) (bytes : SerialisedMessage) (handler : Handler) c : Connections :=
  start (TSend remote_id bytes handler) c.
Definition Receive (handler : Handler) c : Connections := start (TReceive handler) c.
Definition Connect (endpoint : Endpoint) (handler : Handler) c : Connections :=
  start (TConnect endpoint handler) c.
Definition Accept (port : Z) (handler : Handler) c : Connections := start (TAccept port handler) c.
Definition Shutdown c : Connections := start TShutdown c.

(** The destructor calls [Shutdown]; the members are gone. *)
Definition Destroy c : Connections :=
  mkConnections (our_id_ c) [] [] [] AsyncQueue_new true (next_object c)
    (tasks (Shutdown c)).

(** ** The posted lambdas *)

(** A lambda that uses a member of an object that is gone. *)
Definition alive (p : prog Connections (list Call)) : prog Connections (list Call) := λ c,
  if destroyed c then (Undefined, c) else p c.

Definition run_Send (remote_id : Address) (bytes : SerialisedMessage) (handler : Handler)
    : prog Connections (list Call) := alive (λ c,
  match assoc_find remote_id (id_to_endpoint_map_ c) with
  | None => (Ok [CallSend handler bad_descriptor], c)
  | Some remote_endpoint =>
      match assoc_find remote_endpoint (connections_ c) with
      | None => (if NDEBUG then Undefined else AssertFailed, c)
      | Some socket => (Ok [], start (TSending remote_id remote_endpoint socket handler) c)
      end
  end).

Definition received_call (p : Handler * (error_code * Address * SerialisedMessage)) : Call :=
  let '(h, (e, a, b)) := p in CallReceive h e a b.

Definition run_Receive (handler : Handler) : prog Connections (list Call) := alive (λ c,
  let '(call, q) := AsyncPop handler (receive_queue_ c) in
  (Ok (received_call <$> option_list call), set_queue q c)).

Definition run_Connect (endpoint : Endpoint) (handler : Handler) : prog Connections (list Call) := alive (λ c,
  let '(socket, c1) := new_object c in
  let '(l, inserted) := assoc_insert endpoint socket (connections_ c1) in
  if inserted : bool then (Ok [], start (TConnecting socket handler) (set_connections l c1))
  else (Ok [CallConnect handler already_started Identity_default], c1)).

Definition run_Accept (port : Z) (handler : Handler) : prog Connections (list Call) := alive (λ c,
  let '(acceptor, c2) :=
    match assoc_find port (acceptors_ c) with
    | Some acceptor => (acceptor, c)
    | None =>
        let '(acceptor, c1) := new_object c in
        (acceptor, set_acceptors (assoc_set port acceptor (acceptors_ c1)) c1)
    end in
  let '(socket, c3) := new_object c2 in
  (Ok [], start (TAccepting port acceptor socket handler) c3)).

Definition run_Shutdown : prog Connections (list Call) := alive (λ c,
  (Ok [], set_ids [] (set_connections [] (set_acceptors [] c)))).

(** ** The completion handlers *)

(** [weak_socket.lock ()], [weak_acceptor.lock ()] *)
Definition socket_alive c (socket : nat) : bool := bool_decide (socket ∈ (connections_ c).*2).
Definition acceptor_alive c (acceptor : nat) : bool := bool_decide (acceptor ∈ (acceptors_ c).*2).

(** [id_to_endpoint_map_.erase (id); connections_.erase (endpoint)] *)
Definition drop_connection (id : Address) (endpoint : Endpoint) c : Connections :=
  set_connections (assoc_erase endpoint (connections_ c))
    (set_ids (assoc_erase id (id_to_endpoint_map_ c)) c).

Definition sending_done (remote_id : Address) (remote_endpoint : Endpoint) (socket : nat) (handler : Handler)
    (error : error_code) : prog Connections (list Call) := λ c,
  if negb (socket_alive c socket) then (Ok [CallSend handler operation_aborted], c)
  else
    let c1 := if failed error then drop_connection remote_id remote_endpoint c else c in
    (Ok [CallSend handler error], c1).

Definition StartReceiving (id : Address) (remote_endpoint : Endpoint) (socket : nat) c : Connections :=
  start (TReceiving id remote_endpoint socket) c.

(** [socket->remote_endpoint ()] is [remote_endpoint]. *)
Definition connecting_done (socket : nat) (handler : Handler) (error : error_code)
    (remote_endpoint : Endpoint) : prog Connections (list Call) := λ c,
  if negb (socket_alive c socket) then (Ok [CallConnect handler operation_aborted Identity_default], c)
  else if failed error then (Ok [CallConnect handler error Identity_default], c)
  else (Ok [], start (TConnectExchange remote_endpoint socket handler)
                 (set_connections (assoc_set remote_endpoint socket (connections_ c)) c)).

Definition erase_connection (endpoint : Endpoint) c : Connections :=
  set_connections (assoc_erase endpoint (connections_ c)) c.

(** The identity the other side sent is remembered. *)
Definition identified (his_id : Address) (remote_endpoint : Endpoint) (socket : nat) c : Connections :=
  StartReceiving his_id remote_endpoint socket
    (set_ids (assoc_set his_id remote_endpoint (id_to_endpoint_map_ c)) c).

Definition connect_exchanged (remote_endpoint : Endpoint) (socket : nat) (handler : Handler)
    (error : error_code) (data : SerialisedMessage) : prog Connections (list Call) := λ c,
  if negb (socket_alive c socket) then (Ok [CallConnect handler operation_aborted Identity_default], c)
  else if failed error then
    (Ok [CallConnect handler error Identity_default], erase_connection remote_endpoint c)
  else match ParseNext ar_Identity data with
       | Ok (his_id, _) =>
           (Ok [CallConnect handler error his_id], identified his_id remote_endpoint socket c)
       | Throw e => (Throw e, c)
       | AssertFailed => (AssertFailed, c)
       | Undefined => (Undefined, c)
       end.

Definition accepting_done (port : Z) (acceptor socket : nat) (handler : Handler) (error : error_code)
    (remote_endpoint : Endpoint) : prog Connections (list Call) := λ c,
  if negb (acceptor_alive c acceptor) then
    (Ok [CallAccept handler operation_aborted Endpoint_default Identity_default], c)
  else if failed error then
    (Ok [CallAccept handler operation_aborted Endpoint_default Identity_default], c)
  else
    let c1 := set_acceptors (assoc_erase port (acceptors_ c)) c in
    (Ok [], start (TAcceptExchange remote_endpoint socket handler)
              (set_connections (assoc_set remote_endpoint socket (connections_ c1)) c1)).

Definition accept_exchanged (remote_endpoint : Endpoint) (socket : nat) (handler : Handler)
    (error : error_code) (data : SerialisedMessage) : prog Connections (list Call) := λ c,
  if negb (socket_alive c socket) then
    (Ok [CallAccept handler operation_aborted remote_endpoint Identity_default], c)
  else if failed error then
    (Ok [CallAccept handler error remote_endpoint Identity_default], erase_connection remote_endpoint c)
  else match ParseNext ar_Identity data with
       | Ok (his_id, _) =>
           (Ok [CallAccept handler error remote_endpoint his_id],
            identified his_id remote_endpoint socket c)
       | Throw e => (Throw e, c)
       | AssertFailed => (AssertFailed, c)
       | Undefined => (Undefined, c)
       end.

Definition push_received (v : error_code * Address * SerialisedMessage) c : list Call * Connections :=
  let '(call, q) := Push v (receive_queue_ c) in
  (received_call <$> option_list call, set_queue q c).

Definition empty_buffer : list byte := repeat 0%Z (Z.to_nat max_message_size).

(** The datagram [bytes] was received into the buffer. *)
Definition receiving_done (id : Address) (remote_endpoint : Endpoint) (socket : nat)
    (error : error_code) (bytes : list byte) : prog Connections (list Call) := alive (λ c,
  let buffer := write_buffer bytes empty_buffer in
  if negb (socket_alive c socket) then
    let '(calls, c1) := push_received (operation_aborted, id, buffer) c in (Ok calls, c1)
  else
    let c1 := if failed error then drop_connection id remote_endpoint c else c in
    let '(calls, c2) := push_received (error, id, resize (bytes_transferred bytes empty_buffer) 0%Z buffer) c1 in
    (Ok calls, if failed error then c2 else StartReceiving id remote_endpoint socket c2)).

(** What an operation completes with; a posted lambda uses none of it. *)
Record Completion := mkCompletion {
  r_error : error_code;
  r_remote : Endpoint;
  r_data : list byte
}.

Definition run_task (t : Task) (r : Completion) : prog Connections (list Call) :=
  match t with
  | TSend a b h => run_Send a b h
  | TReceive h => run_Receive h
  | TConnect e h => run_Connect e h
  | TAccept p h => run_Accept p h
  | TShutdown => run_Shutdown
  | TSending a e s h => sending_done a e s h (r_error r)
  | TConnecting s h => connecting_done s h (r_error r) (r_remote r)
  | TConnectExchange e s h => connect_exchanged e s h (r_error r) (r_data r)
  | TAccepting p a s h => accepting_done p a s h (r_error r) (r_remote r)
  | TAcceptExchange e s h => accept_exchanged e s h (r_error r) (r_data r)
  | TReceiving a e s => receiving_done a e s (r_error r) (r_data r)
  end.
End connections.
