(* ===== verification/ConnectionsProps.v ===== *)
(** * Properties of [Connections]

    [conn_run c reqs arr calls lost c']: from [c], with the public functions
    called at any time and the tasks run in any order with any results, the
    handlers [reqs] were given to the public functions, the receive operations
    that completed brought [arr], the calls [calls] were made, the tasks [lost]
    were left by an exception, and [c'] is left.  A task that fails an assertion
    or does something undefined ends a run ([ConnectionsSafety] says when none
    does). *)

From S2P Require Import Prelude CppStd Identity Types MessageHeader.
From S2P Require Import Codec AsyncQueue AsyncExchange ConcreteIO Connections.

Section props.
Context `{AO : ArchiveOps} `{EO : !EndpointOps} `{BM : BuildMode} {Handler : Type}.
Implicit Types (c : Connections (Handler:=Handler)) (t : Task (Handler:=Handler)).

Definition task_handlers t : list Handler :=
  match t with
  | TSend _ _ h | TReceive h | TConnect _ h | TAccept _ h | TSending _ _ _ h | TConnecting _ h
  | TConnectExchange _ _ h | TAccepting _ _ _ h | TAcceptExchange _ _ h => [h]
  | TShutdown | TReceiving _ _ _ => []
  end.

Definition call_handler (call : Call) : Handler :=
  match call with
  | CallSend h _ | CallReceive h _ _ _ | CallConnect h _ _ | CallAccept h _ _ _ => h
  end.

Definition delivered (calls : list (Call (Handler:=Handler)))
    : list (error_code * Address * SerialisedMessage) :=
  omap (λ call, match call with CallReceive _ e a b => Some (e, a, b) | _ => None end) calls.

(** The handlers that wait for a task or for a message. *)
Definition held c : list Handler := (tasks c ≫= task_handlers) ++ handlers (receive_queue_ c).

(** What a receive operation brings: as much of the datagram as fits. *)
Definition arrived c t (r : Completion) : list (error_code * Address * SerialisedMessage) :=
  match t with
  | TReceiving a _ s =>
      if socket_alive c s then [(r_error r, a, take (Z.to_nat max_message_size) (r_data r))]
      else [(operation_aborted, a, write_buffer (r_data r) empty_buffer)]
  | _ => []
  end.

Definition finish (i : nat) c : Connections := set_tasks (delete i (tasks c)) c.

(** The tasks the public functions post. *)
Definition is_request t : bool :=
  match t with
  | TSend _ _ _ | TReceive _ | TConnect _ _ | TAccept _ _ | TShutdown => true
  | _ => false
  end.

Inductive conn_run c : list Handler → list (error_code * Address * SerialisedMessage) → list Call →
    list (Task * Completion) → Connections → Prop :=
  | run_start : conn_run c [] [] [] [] c
  | run_request reqs arr calls lost c1 t :
      conn_run c reqs arr calls lost c1 → is_request t = true →
      conn_run c (reqs ++ task_handlers t) arr calls lost (start t c1)
  | run_complete reqs arr calls lost c1 i t r cs c2 :
      conn_run c reqs arr calls lost c1 → tasks c1 !! i = Some t →
      run_task t r (finish i c1) = (Ok cs, c2) →
      conn_run c reqs (arr ++ arrived c1 t r) (calls ++ cs) lost c2
  | run_throw reqs arr calls lost c1 i t r e c2 :
      conn_run c reqs arr calls lost c1 → tasks c1 !! i = Some t →
      run_task t r (finish i c1) = (Throw e, c2) →
      conn_run c reqs arr calls (lost ++ [(t, r)]) c2.

Definition lost_handlers (lost : list (Task * Completion)) : list Handler :=
  lost ≫= λ x, task_handlers x.1.

(** The end of an exchange that brought an identity that does not parse. *)
Definition unparsed t (r : Completion) : Prop :=
  (∃ e s h, t = TConnectExchange e s h ∨ t = TAcceptExchange e s h) ∧
  r_error r = success ∧ ParseNext ar_Identity (r_data r) = Throw parsing_error.

Lemma held_start t c : held (start t c) ≡ₚ task_handlers t ++ held c.
Proof.
  unfold held, start. cbn. rewrite bind_app. cbn. rewrite app_nil_r.
  rewrite (comm (++) (tasks c ≫= task_handlers)). by rewrite (assoc (++)).
Qed.

Lemma held_finish i t c : tasks c !! i = Some t → held c ≡ₚ task_handlers t ++ held (finish i c).
Proof.
  intros Ht. unfold held, finish. cbn. rewrite (assoc (++)). f_equiv.
  rewrite <-(take_drop_middle _ _ _ Ht) at 1. rewrite delete_take_drop, !bind_app. cbn.
  rewrite !(assoc (++)). f_equiv. by rewrite (comm (++) (_ ≫= _)).
Qed.

(** What a task does to the handlers and to the messages. *)
Definition accounted c (cs : list Call) c' (hs : list Handler)
    (arr : list (error_code * Address * SerialisedMessage)) : Prop :=
  queue_ok (receive_queue_ c') ∧ hs ++ held c ≡ₚ (call_handler <$> cs) ++ held c' ∧
  values (receive_queue_ c) ++ arr = delivered cs ++ values (receive_queue_ c').

Lemma accounted_call c (call : Call) c' :
  queue_ok (receive_queue_ c) → receive_queue_ c' = receive_queue_ c → tasks c' = tasks c →
  delivered [call] = [] → accounted c [call] c' [call_handler call] [].
Proof.
  intros Hq Hrq Ht Hd. unfold accounted, held. rewrite Hrq, Ht, Hd, app_nil_r. done.
Qed.

Lemma accounted_start c t c' h :
  queue_ok (receive_queue_ c) → receive_queue_ c' = receive_queue_ c → tasks c' = tasks c →
  task_handlers t = [h] → accounted c [] (start t c') [h] [].
Proof.
  intros Hq Hrq Ht Hh. unfold accounted. rewrite held_start, Hh. cbn. rewrite Hrq, app_nil_r.
  unfold held. by rewrite Hrq, Ht.
Qed.

(** A queue operation, with its call turned into a call of the user's handler. *)
Lemma accounted_queue c op call q :
  queue_ok (receive_queue_ c) → queue_step op (receive_queue_ c) = (call, q) →
  accounted c (received_call <$> option_list call) (set_queue q c) (popped [op]) (pushed [op]).
Proof.
  intros Hq Hop. pose proof (queue_step_spec op _ Hq) as Hs. rewrite Hop in Hs.
  destruct Hs as (Hq' & Hh & Hv). unfold accounted, held. cbn [receive_queue_ tasks set_queue].
  split; [done|]. split.
  - assert (call_handler <$> (received_call <$> option_list call) = (option_list call).*1) as ->
      by by destruct call as [[? [[? ?] ?]]|].
    rewrite (assoc (++)), (comm (++) (popped [op])), <-(assoc (++)).
    rewrite (comm (++) (popped [op])), Hh. rewrite !(assoc (++)). f_equiv. apply (comm (++)).
  - rewrite Hv. by destruct call as [[? [[? ?] ?]]|].
Qed.

Lemma push_accounted v c calls c' :
  queue_ok (receive_queue_ c) → push_received v c = (calls, c') → accounted c calls c' [] [v].
Proof.
  intros Hq. unfold push_received. destruct (Push v (receive_queue_ c)) as [call q] eqn:E.
  intros [= <- <-]. by apply (accounted_queue c (OPush v)).
Qed.

Lemma exchanged_accounted (out : outcome (Address * list byte)) (call : Address → Call)
    (c1 : Address → Connections) h c cs c' :
  queue_ok (receive_queue_ c) →
  (∀ a, receive_queue_ (c1 a) = receive_queue_ c ∧ held (c1 a) = held c) →
  (∀ a, call_handler (call a) = h ∧ delivered [call a] = []) →
  match out with
  | Ok (a, _) => (Ok [call a], c1 a)
  | Throw e => (Throw e, c)
  | AssertFailed => (AssertFailed, c)
  | Undefined => (Undefined, c)
  end = (Ok cs, c') →
  accounted c cs c' [h] [].
Proof.
  intros Hq Hc1 Hcall. destruct out as [[a ?]| | |]; intros [= <- <-].
  destruct (Hc1 a) as [H1 H2], (Hcall a) as [<- H4].
  unfold accounted. rewrite H1, H2, H4, app_nil_r. done.
Qed.

Lemma identified_held a e s c :
  receive_queue_ (identified a e s c) = receive_queue_ c ∧ held (identified a e s c) = held c.
Proof.
  split; [done|]. unfold held, identified, StartReceiving, start. cbn. rewrite bind_app. cbn.
  by rewrite app_nil_r.
Qed.

(** The tasks that only look up and change the maps. *)
#[local] Hint Extern 4 (accounted _ [] (start _ _) _ _) => by apply accounted_start : routing.
#[local] Hint Extern 4 (accounted _ [_] _ _ _) => by apply accounted_call : routing.

Lemma run_posted_accounted t r c cs c' :
  is_request t = true → queue_ok (receive_queue_ c) → run_task t r c = (Ok cs, c') →
  accounted c cs c' (task_handlers t) [].
Proof.
  intros Hr Hq. destruct t; try done; clear Hr; cbn [run_task task_handlers];
    unfold run_Send, run_Receive, run_Connect, run_Accept, run_Shutdown, alive;
    (destruct (destroyed c); [done|]).
  - destruct (assoc_find _ _) as [e|]; [destruct (assoc_find e _)|]; try by destruct NDEBUG.
    all: intros [= <- <-]; auto with routing.
  - destruct (AsyncPop h (receive_queue_ c)) as [call q] eqn:E. intros [= <- <-].
    by apply (accounted_queue c (OPop h)).
  - cbn. destruct (assoc_insert _ _ _) as [l []]; intros [= <- <-]; auto with routing.
  - destruct (assoc_find _ _); cbn; intros [= <- <-]; auto with routing.
  - intros [= <- <-]. unfold accounted, held. cbn. by rewrite app_nil_r.
Qed.

Lemma receiving_accounted a e s er b c cs c' :
  queue_ok (receive_queue_ c) → receiving_done a e s er b c = (Ok cs, c') →
  accounted c cs c' [] (arrived c (TReceiving a e s) (mkCompletion er e b)).
Proof.
  intros Hq. unfold receiving_done, alive. destruct (destroyed c); [done|].
  cbn [arrived r_data r_error]. destruct (socket_alive c s); cbn [negb].
  - rewrite resize_written. unfold empty_buffer at 1. rewrite repeat_length.
    set (c1 := if failed er then drop_connection a e c else c).
    assert (receive_queue_ c1 = receive_queue_ c ∧ held c1 = held c) as [Hrq Hheld]
      by (unfold c1; by destruct (failed er)).
    destruct (push_received _ c1) as [calls c2] eqn:E. intros [= <- <-].
    apply push_accounted in E as (H1 & H2 & H3); [|by rewrite Hrq].
    unfold accounted. rewrite <-Hrq, <-Hheld. split; [by destruct (failed er)|].
    split; [|etrans; [exact H3|by destruct (failed er)]]. rewrite H2. destruct (failed er); [done|].
    unfold StartReceiving. by rewrite held_start.
  - destruct (push_received _ c) as [calls c2] eqn:E. intros [= <- <-]. by apply push_accounted in E.
Qed.

Lemma run_task_accounted t r c cs c' :
  queue_ok (receive_queue_ c) → run_task t r c = (Ok cs, c') →
  accounted c cs c' (task_handlers t) (arrived c t r).
Proof.
  intros Hq. destruct t; try (by apply run_posted_accounted); cbn [run_task task_handlers arrived];
    unfold sending_done, connecting_done, connect_exchanged, accepting_done, accept_exchanged.
  - destruct (negb _); intros [= <- <-]; [auto with routing|]. destruct (failed _); auto with routing.
  - destruct (negb _); [|destruct (failed _)]; intros [= <- <-]; auto with routing.
  - destruct (negb _); [intros [= <- <-]; auto with routing|].
    destruct (failed _); [intros [= <- <-]; auto with routing|].
    apply (exchanged_accounted _ (CallConnect h (r_error r))
             (λ a, identified a remote_endpoint socket c)); [done|..|done].
    intros a. apply identified_held.
  - destruct (negb _); [|destruct (failed _)]; intros [= <- <-]; auto with routing.
  - destruct (negb _); [intros [= <- <-]; auto with routing|].
    destruct (failed _); [intros [= <- <-]; auto with routing|].
    apply (exchanged_accounted _ (CallAccept h (r_error r) remote_endpoint)
             (λ a, identified a remote_endpoint socket c)); [done|..|done].
    intros a. apply identified_held.
  - apply receiving_accounted, Hq.
Qed.

Lemma ParseNext_throws {A} (c : Codec A) s e : ParseNext c s = Throw e → e = parsing_error.
Proof. unfold ParseNext. destruct (dec c s); congruence. Qed.

(** Only an identity that does not parse makes a task throw, and nothing is
    changed then. *)
Lemma run_task_throws t r c e c' :
  run_task t r c = (Throw e, c') → c' = c ∧ unparsed t r.
Proof.
  pose proof (failed_spec (r_error r)) as Hf. unfold unparsed.
  destruct t; cbn [run_task]; unfold run_Send, run_Receive, run_Connect, run_Accept, run_Shutdown,
    sending_done, connecting_done, connect_exchanged, accepting_done, accept_exchanged, receiving_done,
    push_received, alive; intros Hr.
  all: repeat (case_match; simplify_eq; try discriminate).
  all: match goal with H : ParseNext _ _ = Throw _ |- _ => apply ParseNext_throws in H as -> end.
  all: split_and!; eauto 6.
Qed.

Lemma conn_run_accounted c reqs arr calls lost c' :
  queue_ok (receive_queue_ c) → conn_run c reqs arr calls lost c' →
  queue_ok (receive_queue_ c') ∧
  reqs ++ held c ≡ₚ (call_handler <$> calls) ++ lost_handlers lost ++ held c' ∧
  values (receive_queue_ c) ++ arr = delivered calls ++ values (receive_queue_ c') ∧
  Forall (λ x, unparsed x.1 x.2) lost.
Proof.
  intros Hq. induction 1 as [|reqs arr calls lost c1 t _ (IH1 & IH2 & IH3 & IH4) _|
    reqs arr calls lost c1 i t r cs c2 _ (IH1 & IH2 & IH3 & IH4) Ht Hrun|
    reqs arr calls lost c1 i t r e c2 _ (IH1 & IH2 & IH3 & IH4) Ht Hrun].
  - by rewrite app_nil_r.
  - rewrite held_start. split_and!; [done| |done|done].
    rewrite (comm (++) reqs), <-(assoc (++)), IH2. solve_Permutation.
  - apply run_task_accounted in Hrun as (H1 & H2 & H3); [|done]. split; [done|]. split; [|split; [|done]].
    + rewrite IH2, (held_finish i t) by done. rewrite fmap_app, <-(assoc (++)). f_equiv.
      rewrite (comm (++) (lost_handlers lost)), H2. solve_Permutation.
    + unfold delivered in *. rewrite (assoc_L (++)), IH3, omap_app, <-!(assoc_L (++)). f_equal.
      apply H3.
  - apply run_task_throws in Hrun as [-> Hu]. split; [done|]. split; [|split; [done|]].
    + rewrite IH2, (held_finish i t) by done. unfold lost_handlers. rewrite bind_app. cbn.
      by rewrite app_nil_r, <-!(assoc (++)).
    + apply Forall_app. split; [done|]. by apply Forall_singleton.
Qed.

(** C16: No handler is called twice, and only those of an exchange of identities
    that brought one that does not parse are lost: whatever calls are made and in
    whatever order and with whatever results operations complete, the handlers
    given to [Send], [Receive], [Connect] and [Accept] are those that were called,
    those that still wait for an operation or for a message, and those of the
    exchanges that were left by the exception for an identity that does not
    parse; and the messages and errors that arrived are given to the handlers of
    [Receive] in the order of arrival, the rest is queued. *)
Theorem handlers_called_once our_id reqs arr calls lost c :
  conn_run (Connections_new our_id) reqs arr calls lost c →
  reqs ≡ₚ (call_handler <$> calls) ++ lost_handlers lost ++ held c ∧
  Forall (λ x, unparsed x.1 x.2) lost ∧
  arr = delivered calls ++ values (receive_queue_ c) ∧
  (values (receive_queue_ c) = [] ∨ handlers (receive_queue_ c) = []).
Proof.
  intros Hr. apply conn_run_accounted in Hr as (H1 & H2 & H3 & H4); [|by left].
  cbn in H2, H3. by rewrite app_nil_r in H2.
Qed.

Lemma assoc_find_alive e s c : assoc_find e (connections_ c) = Some s → socket_alive c s = true.
Proof.
  intros He%assoc_find_elem. unfold socket_alive. apply bool_decide_eq_true_2.
  by apply (list_elem_of_fmap_2 snd) in He.
Qed.

Lemma identified_usable his e s c bytes h :
  destroyed c = false → assoc_find e (connections_ c) = Some s →
  TReceiving his e s ∈ tasks (identified his e s c) ∧
  ∃ c', run_Send his bytes h (identified his e s c) = (Ok [], c') ∧ TSending his e s h ∈ tasks c'.
Proof.
  intros Hd He. split; [apply elem_of_app; right; by left|].
  unfold run_Send, alive, identified, StartReceiving. cbn [destroyed start set_tasks set_ids
    id_to_endpoint_map_ connections_]. rewrite Hd, assoc_find_set.
  rewrite bool_decide_eq_true_2, He by done. eexists. split; [done|].
  apply elem_of_app. right. by left.
Qed.

Lemma exchanged_identified `{!ArchiveLaws} his e s h rest c :
  assoc_find e (connections_ c) = Some s →
  let data := Serialise ar_Identity his ++ rest in
  connect_exchanged e s h success data c = (Ok [CallConnect h success his], identified his e s c) ∧
  accept_exchanged e s h success data c = (Ok [CallAccept h success e his], identified his e s c).
Proof.
  intros He data. unfold connect_exchanged, accept_exchanged, data.
  rewrite (assoc_find_alive e s c He). change (failed success) with false.
  by rewrite (ParseNext_Serialise (λ _, True)) by (done || apply rt_Identity).
Qed.

(** When the exchange of identities over a connection that is still there
    succeeds, on either side, the handler is given the identity the other side
    sent, receiving from it is under way, and a message sent to that identity
    goes out on the socket of the connection. *)
Theorem exchange_then_send `{!ArchiveLaws} his e s h rest bytes h' c :
  destroyed c = false → assoc_find e (connections_ c) = Some s →
  let data := Serialise ar_Identity his ++ rest in
  ∃ c1 c2,
    connect_exchanged e s h success data c = (Ok [CallConnect h success his], c1) ∧
    accept_exchanged e s h success data c = (Ok [CallAccept h success e his], c1) ∧
    TReceiving his e s ∈ tasks c1 ∧
    run_Send his bytes h' c1 = (Ok [], c2) ∧ TSending his e s h' ∈ tasks c2.
Proof.
  intros Hd He data. destruct (identified_usable his e s c bytes h' Hd He) as (Hr & c2 & Hs & Ht).
  exists (identified his e s c), c2. by destruct (exchanged_identified his e s h rest c He).
Qed.
End props.

(** ** Witnesses

    The node 0 accepts a connection from the node 7. *)
Module ConnectionsWitness.
Import Concrete.

Definition addr (i : N) : Address := i.
Definition endpoint : Endpoint := (inl (1, 2, 3, 4)%Z, 5483%Z).
#[local] Existing Instance release_build.
Definition conns : Type := Connections (Handler:=nat).

(** The calls made and the state left when the [i]-th task runs. *)
Definition run (i : nat) (r : Completion) (c : conns) : list Call * conns :=
  match tasks c !! i with
  | Some t => match run_task t r (finish i c) with (Ok cs, c') => (cs, c') | (_, c') => ([], c') end
  | None => ([], c)
  end.
Definition ok (bytes : list byte) : Completion := mkCompletion success endpoint bytes.
Definition broken : Completion := mkCompletion (other_error 104) endpoint [].

(** Accepting a connection of the node [n], when [i] tasks wait. *)
Definition accepted (i : nat) (n : N) (c : conns) : conns :=
  (run i (ok (Serialise ar_Identity (addr n)))
     (run i (ok []) (run i (ok []) (Accept 5483 i c)).2).2).2.

Definition c1 : conns := Accept 5483 1 (Connections_new (addr 0)).
Definition c2 : conns := (run 0 (ok []) c1).2.
Definition c3 : conns := (run 0 (ok []) c2).2.

Lemma accepting_run : conn_run (Connections_new (addr 0)) [1] [] [] [] c3.
Proof.
  assert (conn_run (Connections_new (addr 0)) [1] [] [] [] c1) as H1
    by by apply (run_request _ [] [] [] [] _ (TAccept 5483 1)); [constructor|].
  assert (conn_run (Connections_new (addr 0)) [1] [] [] [] c2) as H2
    by by apply (run_complete _ [1] [] [] [] _ 0 (TAccept 5483 1) (ok []) [] _ H1).
  by apply (run_complete _ [1] [] [] [] _ 0 (TAccepting 5483 0 1 1) (ok []) [] _ H2).
Qed.

(** The peer sends nothing that is an identity: the handler is lost, and the
    connection stays in the map with no operation on it. *)
Definition unnamed : list (Task * Completion) := [(TAcceptExchange endpoint 1 1, ok [])].

Lemma handlers_called_once_witness :
  [1] ≡ₚ (call_handler <$> ([] : list Call)) ++ lost_handlers unnamed ++ held (finish 0 c3) ∧
  Forall (λ x, unparsed x.1 x.2) unnamed ∧
  [] = delivered (Handler:=nat) [] ++ values (receive_queue_ (finish 0 c3)) ∧
  (values (receive_queue_ (finish 0 c3)) = [] ∨ handlers (receive_queue_ (finish 0 c3)) = []).
Proof.
  apply (handlers_called_once (addr 0) [1] [] [] unnamed (finish 0 c3)).
  by apply (run_throw _ [1] [] [] [] c3 0 (TAcceptExchange endpoint 1 1) (ok []) parsing_error
    _ accepting_run).
Defined.

(** An exchange that brings no identity loses the handler of [Accept]: no call
    is made, nothing holds the handler, and the connection that no operation
    uses is left in the map. *)
Theorem unparsed_identity_loses_handler :
  run_task (TAcceptExchange endpoint 1 1) (ok []) (finish 0 c3) = (Throw parsing_error, finish 0 c3) ∧
  held c3 = [1] ∧ held (finish 0 c3) = [] ∧ tasks (finish 0 c3) = [] ∧
  connections_ (finish 0 c3) = [(endpoint, 1)].
Proof. repeat split. Qed.

Lemma exchange_then_send_witness :
  let data := Serialise ar_Identity (addr 7) ++ [] in
  ∃ d1 d2,
    connect_exchanged endpoint 1 1 success data c3 = (Ok [CallConnect 1 success (addr 7)], d1) ∧
    accept_exchanged endpoint 1 1 success data c3 = (Ok [CallAccept 1 success endpoint (addr 7)], d1) ∧
    TReceiving (addr 7) endpoint 1 ∈ tasks d1 ∧
    run_Send (addr 7) [5%Z] 2 d1 = (Ok [], d2) ∧ TSending (addr 7) endpoint 1 2 ∈ tasks d2.
Proof. apply (exchange_then_send (addr 7) endpoint 1 1 [] [5%Z] 2 c3); reflexivity. Defined.

(** A node that connects again from the same endpoint under another identity
    takes over the connection; when that breaks, the first identity is left
    without one, and sending to it dereferences [connections_.end ()]. *)
Definition reused : conns :=
  (run 1 broken (accepted 1 9 (accepted 0 7 (Connections_new (addr 0))))).2.

Theorem stale_identity_send : (run_Send (addr 7) [] 3 reused).1 = Undefined.
Proof. reflexivity. Qed.

(** A connection that could not be made blocks its endpoint. *)
Theorem failed_connect_blocks :
  let c := (run 0 broken (run 0 broken (Connect endpoint 1 (Connections_new (addr 0)))).2).2 in
  (run 0 broken (Connect endpoint 2 c)).1 = [CallConnect 2 already_started Identity_default].
Proof. reflexivity. Qed.

(** The lambda that the destructor posts runs after the object is gone. *)
Theorem shutdown_after_destruction :
  (run_task TShutdown broken (finish 0 (Destroy (Connections_new (addr 0) : conns)))).1 = Undefined.
Proof. reflexivity. Qed.
End ConnectionsWitness.
