(* ===== verification/ConnectionsWatch.v ===== *)
(** * Connections are watched

    A handler given to [Connect] or [Accept] that is told of a connection can rely
    on hearing of its end: a receive operation is under way on the connection
    until its end has been given to the receivers, once.  This holds for any
    number of connections that fail, are shut down and are made again. *)

From S2P Require Import Prelude CppStd Identity Types MessageHeader.
From S2P Require Import Codec AsyncQueue AsyncExchange ConcreteIO Connections ConnectionsProps.

Section watch.
Context `{AO : ArchiveOps} `{EO : !EndpointOps} `{BM : BuildMode} {Handler : Type}.
Implicit Types (c : Connections (Handler:=Handler)) (t : Task (Handler:=Handler)).
Implicit Types (calls cs : list (Call (Handler:=Handler))).

(** The identities of the connections that handlers were told of, of those whose
    end was reported, and of those on which a receive operation is under way. *)
Definition announced calls : list Address :=
  omap (λ call, match call with
                | CallConnect _ e a | CallAccept _ e _ a => if failed e then None else Some a
                | _ => None
                end) calls.
Definition ended (arr : list (error_code * Address * SerialisedMessage)) : list Address :=
  omap (λ v, if failed v.1.1 then Some v.1.2 else None) arr.
Definition watching t : option Address := match t with TReceiving a _ _ => Some a | _ => None end.
Definition watched c : list Address := omap watching (tasks c).

Lemma watched_start t c : watched (start t c) = watched c ++ option_list (watching t).
Proof. unfold watched, start. cbn [tasks set_tasks]. rewrite omap_app. cbn. by destruct (watching t). Qed.

Lemma watched_finish i t c :
  tasks c !! i = Some t → watched c ≡ₚ option_list (watching t) ++ watched (finish i c).
Proof.
  intros Ht. unfold watched. rewrite <-(take_drop_middle _ _ _ Ht) at 1. cbn [finish tasks set_tasks].
  rewrite delete_take_drop, !omap_app. cbn. destruct (watching t); [|done].
  cbn. symmetry. apply Permutation_middle.
Qed.

(** A connection becomes known, and its handler is told. *)
Lemma watched_identified a e s c : watched (identified a e s c) = watched c ++ [a].
Proof. unfold identified, StartReceiving. by rewrite watched_start. Qed.

(** The end of the exchange of identities. *)
Lemma exchanged_watched (out : outcome (Address * list byte)) (call : Address → Call) e s c cs c' :
  (∀ a, announced [call a] = [a]) →
  match out with
  | Ok (a, _) => (Ok [call a], identified a e s c)
  | Throw er => (Throw er, c)
  | AssertFailed => (AssertFailed, c)
  | Undefined => (Undefined, c)
  end = (Ok cs, c') →
  announced cs ++ watched c ≡ₚ watched c'.
Proof.
  intros Hcall. destruct out as [[a rest]| | |]; try done. intros [= <- <-].
  rewrite Hcall, watched_identified. by rewrite (comm (++)).
Qed.

(** The end of a receive operation: another one is started, or the end of the
    connection is reported. *)
Lemma receiving_watched a e s er b c cs c' :
  receiving_done a e s er b c = (Ok cs, c') →
  a :: announced cs ++ watched c ≡ₚ ended (arrived c (TReceiving a e s) (mkCompletion er e b)) ++ watched c'.
Proof.
  assert (∀ v c0, announced (push_received v c0).1 = [] ∧ watched (push_received v c0).2 = watched c0) as Hpush.
  { intros v c0. unfold push_received. destruct (Push _ _) as [[[h [[e0 a0] b0]]|] q]; done. }
  unfold receiving_done, alive. destruct (destroyed c); [done|].
  cbn [arrived r_error r_data]. destruct (socket_alive c s); cbn [negb].
  - set (c1 := if failed er then drop_connection a e c else c).
    set (v := (er, a, _)). destruct (Hpush v c1) as [Hc Hw].
    assert (watched c1 = watched c) as Hc1 by (unfold c1; by destruct (failed er)). rewrite Hc1 in Hw.
    destruct (push_received v c1) as [calls c2]. cbn [fst snd] in *.
    unfold ended. cbn [omap list_omap fst snd]. destruct (failed er); intros [= <- <-]; rewrite Hc.
    + by rewrite Hw.
    + unfold StartReceiving. rewrite watched_start, Hw. cbn. by rewrite Permutation_cons_append.
  - set (v := (operation_aborted, a, _)). destruct (Hpush v c) as [Hc Hw].
    destruct (push_received v c) as [calls c2]. cbn [fst snd] in *. intros [= <- <-].
    by rewrite Hc, Hw.
Qed.

(** A task leaves the connections watched whose end it does not report. *)
Lemma run_task_watched t r c cs c' :
  run_task t r c = (Ok cs, c') →
  option_list (watching t) ++ announced cs ++ watched c ≡ₚ ended (arrived c t r) ++ watched c'.
Proof.
  destruct t; cbn [run_task watching option_list app arrived ended omap list_omap];
    unfold run_Send, run_Receive, run_Connect, run_Accept, run_Shutdown, alive, sending_done, connecting_done,
      connect_exchanged, accepting_done, accept_exchanged.
  - destruct (destroyed c); [done|]. destruct (assoc_find _ _) as [e|]; [destruct (assoc_find e _)|];
      try by destruct NDEBUG. all: intros [= <- <-]; by rewrite ?watched_start, ?app_nil_r.
  - destruct (destroyed c); [done|]. destruct (AsyncPop h _) as [[[h' [[e0 a0] b0]]|] q]; by intros [= <- <-].
  - destruct (destroyed c); [done|]. cbn. destruct (assoc_insert _ _ _) as [l []]; intros [= <- <-];
      by rewrite ?watched_start, ?app_nil_r.
  - destruct (destroyed c); [done|]. destruct (assoc_find _ _); intros [= <- <-];
      by rewrite ?watched_start, ?app_nil_r.
  - destruct (destroyed c); [done|]. by intros [= <- <-].
  - destruct (negb _); [|destruct (failed _)]; by intros [= <- <-].
  - destruct (negb _); [by intros [= <- <-]|]. destruct (failed (r_error r)) eqn:Hf; intros [= <- <-];
      [unfold announced; cbn; by rewrite Hf|by rewrite watched_start, app_nil_r].
  - destruct (negb _); [by intros [= <- <-]|]. destruct (failed (r_error r)) eqn:Hf;
      [intros [= <- <-]; unfold announced; cbn; by rewrite Hf|].
    apply (exchanged_watched _ (CallConnect h (r_error r))). intros a. unfold announced. cbn. by rewrite Hf.
  - destruct (negb _); [by intros [= <- <-]|]. destruct (failed (r_error r)) eqn:Hf; intros [= <- <-];
      [done|by rewrite watched_start, app_nil_r].
  - destruct (negb _); [by intros [= <- <-]|]. destruct (failed (r_error r)) eqn:Hf;
      [intros [= <- <-]; unfold announced; cbn; by rewrite Hf|].
    apply (exchanged_watched _ (CallAccept h (r_error r) remote_endpoint)). intros a. unfold announced. cbn. by rewrite Hf.
  - apply receiving_watched.
Qed.

(** C12: No connection is lost track of. Whatever is called and in whatever order
    and with whatever results the tasks of a [Connections] object run, the
    connections that handlers given to [Connect] and [Accept] were told of are,
    with their identities and as often as they were made, those whose end has
    been reported to the receivers as an error, once, and those on which a
    receive operation is under way. *)
Theorem connections_watched our_id reqs arr calls lost c :
  conn_run (Connections_new our_id) reqs arr calls lost c →
  announced calls ≡ₚ ended arr ++ watched c ∧
  ended arr = ended (delivered calls) ++ ended (values (receive_queue_ c)).
Proof.
  intros Hr. split.
  - induction Hr as [|reqs arr calls lost c1 t _ IH Ht|reqs arr calls lost c1 i t r cs c2 _ IH Hi Hrun|
      reqs arr calls lost c1 i t r e c2 _ IH Hi Hrun]; [done|..].
    + rewrite IH, watched_start. destruct t; try done; by rewrite app_nil_r.
    + apply run_task_watched in Hrun. change (arrived (finish i c1)) with (arrived c1) in Hrun.
      unfold announced, ended in *. rewrite !omap_app, <-(assoc (++) (omap _ arr)), <-Hrun, IH.
      rewrite (watched_finish i t c1 Hi), <-!(assoc_L (++)). f_equiv. f_equiv. apply (comm (++)).
    + apply run_task_throws in Hrun as [-> [(? & ? & ? & [-> | ->]) _]]; by rewrite IH, (watched_finish i _ c1 Hi).
  - apply conn_run_accounted in Hr as (_ & _ & Harr & _); [|by left].
    cbn in Harr. rewrite Harr. apply omap_app.
Qed.
End watch.

(** ** The node 7 connects *)
Module WatchWitness.
Import Concrete ConnectionsWitness.
#[local] Existing Instance release_build.

Definition told : list Call := [CallAccept 1 success endpoint (addr 7)].
Definition c4 : conns := (run 0 (ok (Serialise ar_Identity (addr 7))) c3).2.

Lemma connected_run : conn_run (Connections_new (addr 0)) [1] [] told [] c4.
Proof.
  by apply (run_complete _ [1] [] [] [] _ 0 (TAcceptExchange endpoint 1 1)
    (ok (Serialise ar_Identity (addr 7))) told _ accepting_run).
Qed.

(** The connection is watched; when it breaks, its end is reported. *)
Lemma connections_watched_witness :
  announced told ≡ₚ ended [] ++ watched c4 ∧ watched c4 = [addr 7] ∧
  ∃ (calls : list (Call (Handler:=nat))) (c5 : conns), announced calls ≡ₚ ended [(other_error 104, addr 7, [])] ++ watched c5.
Proof.
  split; [exact (proj1 (connections_watched (addr 0) [1] [] told [] c4 connected_run))|]. split; [reflexivity|].
  eexists _, _. refine (proj1 (connections_watched (addr 0) [1] _ _ [] _ _)).
  exact (run_complete _ [1] [] told [] c4 0 (TReceiving (addr 7) endpoint 1) broken _ _ connected_run
    eq_refl eq_refl).
Defined.
End WatchWitness.
