(* ===== verification/RoutingNode.v ===== *)
(** * The routing node ([routing_node.h])

    [RoutingNode<Child>]: requests of the local user, and the handling of a
    message that was received.  The class is a template over the class derived
    from it; the functions of [Child] it calls are parameters on the state of
    the child.  [LruCache] is maidsafe-common's, [Pmid] is passport's and
    [asymm::Sign] is maidsafe-common's: class parameters with laws.

    [sent] is what was given to [PeerNode::Send], with the peer.  A function
    that the code posts to an io_service is the function that runs then, and is
    one atomic step. *)

From S2P Require Import Prelude CppStd Identity Types Accumulator.
From S2P Require Import MessageHeader Codec Messages Sentinel ConnectionManager.

(** ** What is not of this repository *)

(** [LruCache<K, V>]; for [V = void] the value is [tt].  [Check] is whether the
    key is there; [Get] may renew the entry. *)
Class LruCacheOps := {
  LruCache : Type → Type → Type;
  lru_new : ∀ {K V}, Z → LruCache K V; (* the time to live, in minutes *)
  lru_Add : ∀ {K V} `{EqDecision K}, K → V → LruCache K V → LruCache K V;
  lru_Check : ∀ {K V} `{EqDecision K}, K → LruCache K V → bool;
  lru_Get : ∀ {K V} `{EqDecision K}, K → LruCache K V → option V * LruCache K V
}.

(** What was just added is there. *)
Class LruCacheLaws `{LruCacheOps} : Prop := {
  lru_Check_Add : ∀ K V `(EqDecision K) (k : K) (v : V) c, lru_Check k (lru_Add k v c) = true;
  lru_Get_Add : ∀ K V `(EqDecision K) (k : K) (v : V) c,
    lru_Check k c = false → (lru_Get k (lru_Add k v c)).1 = Some v
}.

(** [passport::Pmid], and the name in a [Data::NameAndTypeId]. *)
Class FobOps `{AO : ArchiveOps} := {
  Pmid : Type;
  PrivateKey : Type;
  Pmid_public : Pmid → PublicPmid; (* [PublicPmid (pmid)] *)
  Pmid_private_key : Pmid → PrivateKey;
  Sign : list byte → PrivateKey → Signature;
  data_name : NameAndTypeId → Identity
}.

(** A signature made with the private key of a fob is accepted with its public
    key. *)
Class FobLaws `{FobOps} : Prop := {
  CheckSignature_Sign : ∀ fob message,
    CheckSignature message (Sign message (Pmid_private_key fob))
      (Pmid_public_key (Pmid_public fob)) = true
}.

Section routing_node.
Context `{FO : FobOps} `{EO : !EndpointOps} `{LO : LruCacheOps} `{BM : BuildMode}.

(** The state of the derived class, and its [HandleGet]; what that returns is
    not used. *)
Context {Child : Type}.
Context (HandleGet : SourceAddress → Authority → NameAndTypeId → Child → Child).

Record RoutingNode := mkRoutingNode {
  our_pmid : Pmid;
  last_message_id : MessageId; (* [message_id_] *)
  bootstrap_node_ : option Address;
  connection_manager_ : ConnectionManager;
  filter_ : LruCache FilterType unit;
  sentinel_ : Sentinel;
  cache_ : LruCache Identity SerialisedMessage;
  connected_nodes_ : list Address;
  child : Child;
  sent : list (Address * SerialisedMessage)
}.
Implicit Types (n : RoutingNode).

Definition set_message_id (i : MessageId) n : RoutingNode :=
  mkRoutingNode (our_pmid n) i (bootstrap_node_ n) (connection_manager_ n) (filter_ n) (sentinel_ n)
    (cache_ n) (connected_nodes_ n) (child n) (sent n).
Definition set_manager (m : ConnectionManager) n : RoutingNode :=
  mkRoutingNode (our_pmid n) (last_message_id n) (bootstrap_node_ n) m (filter_ n) (sentinel_ n)
    (cache_ n) (connected_nodes_ n) (child n) (sent n).
Definition set_filter (f : LruCache FilterType unit) n : RoutingNode :=
  mkRoutingNode (our_pmid n) (last_message_id n) (bootstrap_node_ n) (connection_manager_ n) f
    (sentinel_ n) (cache_ n) (connected_nodes_ n) (child n) (sent n).
Definition set_cache (c : LruCache Identity SerialisedMessage) n : RoutingNode :=
  mkRoutingNode (our_pmid n) (last_message_id n) (bootstrap_node_ n) (connection_manager_ n)
    (filter_ n) (sentinel_ n) c (connected_nodes_ n) (child n) (sent n).
Definition set_child (c : Child) n : RoutingNode :=
  mkRoutingNode (our_pmid n) (last_message_id n) (bootstrap_node_ n) (connection_manager_ n)
    (filter_ n) (sentinel_ n) (cache_ n) (connected_nodes_ n) c (sent n).
Definition add_sent (a : Address) (m : SerialisedMessage) n : RoutingNode :=
  mkRoutingNode (our_pmid n) (last_message_id n) (bootstrap_node_ n) (connection_manager_ n)
    (filter_ n) (sentinel_ n) (cache_ n) (connected_nodes_ n) (child n) (sent n ++ [(a, m)]).

(** [passport::PublicPmid (our_fob_)] and [OurId ()] *)
Definition our_public n : PublicPmid := Pmid_public (our_pmid n).
Definition node_OurId n : Address := Pmid_Name (our_public n).

(** The constructor, with the fob and the first message id it draws. *)
Definition RoutingNode_new (fob : Pmid) (random : MessageId) (c : Child) : RoutingNode :=
  mkRoutingNode fob random None (ConnectionManager_new (Pmid_public fob)) (lru_new 20) Sentinel_new
    (lru_Add (Pmid_Name (Pmid_public fob)) (Serialise ar_PublicPmid (Pmid_public fob)) (lru_new 60))
    [] c [].

(** ** Helpers *)
Definition OurSourceAddress n : SourceAddress :=
  match bootstrap_node_ n with
  | Some b => mkSource b None (Some (node_OurId n))
  | None => mkSource (node_OurId n) None None
  end.

Definition OurSourceAddress_group n (group : GroupAddress) : SourceAddress :=
  mkSource (node_OurId n) (Some group) None.

Definition NextEndpointPair : EndpointPair := EndpointPair_default.

(** [++message_id_] of a [std::atomic<uint32_t>] *)
Definition take_message_id : prog RoutingNode MessageId := λ n,
  let i := next_message_id (last_message_id n) in (Ok i, set_message_id i n).

(** [connection_manager_.FindPeer (target)->Send (message, ...)]: the pointer is
    not checked. *)
Definition send_to_peer (target : Address) (message : SerialisedMessage) : prog RoutingNode unit := λ n,
  match FindPeer (connection_manager_ n) target with
  | Some _ => (Ok tt, add_sent target message n)
  | None => (Undefined, n)
  end.

Fixpoint send_to_all (targets : list Address) (message : SerialisedMessage) : prog RoutingNode unit :=
  match targets with
  | [] => mret tt
  | target :: targets => send_to_peer target message;; send_to_all targets message
  end.

(** ** Requests *)

(** The call of the bootstrap handler is commented out. *)
Definition AddBootstrapContact (endpoint : Endpoint) n : RoutingNode := n.
Definition AddContact (endpoint : Endpoint) n : RoutingNode :=
  set_manager (cm_AddNode None (EndpointPair_both endpoint) (connection_manager_ n)) n.
Definition node_StartAccepting (port : Z) n : RoutingNode :=
  set_manager (StartAccepting port (connection_manager_ n)) n.
Definition node_Shutdown n : RoutingNode := set_manager (Shutdown (connection_manager_ n)) n.

Definition Get (name_and_type_id : NameAndTypeId) : prog RoutingNode unit :=
  n ← get;
  message_id ← take_message_id;
  our_header ← lift (λ _, MessageHeader_new (data_name name_and_type_id, None) (OurSourceAddress n)
                            message_id node);
  let request := mkGetData name_and_type_id (OurSourceAddress n) in
  let message := Serialise_message GetData_codec our_header TagGetData request in
  send_to_all (GetTarget (connection_manager_ n) (data_name name_and_type_id)) message.

(** [type_id] is [DataType::Tag::kValue] and [bytes] is [data.serialise ()]. *)
Definition Put (to : Address) (type_id : DataTypeId) (bytes : SerialisedMessage)
    : prog RoutingNode unit :=
  n ← get;
  message_id ← take_message_id;
  our_header ← lift (λ _, MessageHeader_new (to, None) (OurSourceAddress n) message_id client);
  let request := mkPutData type_id bytes in
  let message := Serialise_message PutData_codec our_header TagPutData request in
  send_to_all (GetTarget (connection_manager_ n) to) message.

Definition node_Post (to : Address) (type_id : DataTypeId) (functor : SerialisedMessage)
    : prog RoutingNode unit :=
  n ← get;
  message_id ← take_message_id;
  our_header ← lift (λ _, MessageHeader_new (to, None) (OurSourceAddress n) message_id node);
  let request := mkPutData type_id functor in
  let message := Serialise_message PutData_codec our_header TagPost request in
  send_to_all (GetTarget (connection_manager_ n) to) message.

Definition ConnectToCloseGroup : prog RoutingNode unit :=
  n ← get;
  let message := mkFindGroup (node_OurId n) (node_OurId n) in
  message_id ← take_message_id;
  header ← lift (λ _, MessageHeader_new (node_OurId n, None) (OurSourceAddress n) message_id node);
  match bootstrap_node_ n with
  | Some b => send_to_peer b (Serialise_message FindGroup_codec header TagFindGroup message)
  | None =>
      send_to_all (GetTarget (connection_manager_ n) (node_OurId n))
        (Serialise_message FindGroup_codec header TagConnect message)
  end.

(** ** Authority *)
Definition in_range n (a : Address) : bool := AddressInCloseGroupRange (connection_manager_ n) a.

Definition has {A} (o : option A) : bool := match o with Some _ => true | None => false end.

(** [*header.FromGroup ()] is read only when there is one. *)
Definition OurAuthority n (element : Address) (header : MessageHeader) : outcome Authority :=
  let destination := (destination_ header).1 in
  if negb (has (FromGroup header)) && in_range n (FromNode header) &&
     bool_decide (destination ≠ element)
  then Ok client_manager
  else if in_range n element && bool_decide (destination = element)
  then Ok nae_manager
  else if has (FromGroup header) && in_range n destination &&
          bool_decide (destination ≠ node_OurId n)
  then Ok node_manager
  else if match FromGroup header with Some g => in_range n g | None => false end &&
          bool_decide (destination = node_OurId n)
  then Ok managed_node
  else Throw invalid_argument.

(** ** Message handlers *)

(** The signature of a reply is over the serialised message. *)
Definition sign_reply {M} (c : Codec M) n (respond : M) : Signature :=
  Sign (Serialise c respond) (Pmid_private_key (our_pmid n)).

Definition Connect_reply n (connect : Connect) (original_header : MessageHeader)
    : outcome SerialisedMessage :=
  let respond :=
    mkConnectResponse (c_requester_endpoints connect) NextEndpointPair (c_requester_id connect)
      (node_OurId n) (our_public n) in
  cpp_assert (bool_decide (c_receiver_id connect = node_OurId n));;
  header ← MessageHeader_signed (ReturnDestinationAddress original_header) (OurSourceAddress n)
             (message_id_ original_header) node (sign_reply ConnectResponse_codec n respond);
  Ok (Serialise_message ConnectResponse_codec header TagConnectResponse respond).

Definition HandleConnect (connect : Connect) (original_header : MessageHeader) : prog RoutingNode unit :=
  n ← get;
  if negb (IsManaged (connection_manager_ n) (c_requester_id connect)) then mret tt
  else
    message ← lift (λ n, Connect_reply n connect original_header);
    send_to_all (GetTarget (connection_manager_ n) (c_requester_id connect)) message;;
    modify (λ n, set_manager
      (cm_AddNode (Some (mkNodeInfo (c_requester_id connect) (c_requester_fob connect) true))
         (c_requester_endpoints connect) (connection_manager_ n)) n).

Definition HandleConnectResponse (connect_response : ConnectResponse) : prog RoutingNode unit :=
  n ← get;
  if negb (IsManaged (connection_manager_ n) (cr_requester_id connect_response)) then mret tt
  else modify (λ n, set_manager
    (cm_AddNode
       (Some (mkNodeInfo (cr_requester_id connect_response) (cr_receiver_fob connect_response) true))
       (cr_receiver_endpoints connect_response) (connection_manager_ n)) n).

Definition FindGroup_reply n (find_group : FindGroup) (original_header : MessageHeader)
    : outcome SerialisedMessage :=
  let group := cm_OurCloseGroup (connection_manager_ n) ++ [our_public n] in
  let response := mkFindGroupResponse (fg_target_id find_group) group in
  header ← MessageHeader_signed (ReturnDestinationAddress original_header)
             (OurSourceAddress_group n (fg_target_id find_group)) (message_id_ original_header)
             nae_manager (sign_reply FindGroupResponse_codec n response);
  Ok (Serialise_message FindGroupResponse_codec header TagFindGroupResponse response).

Definition HandleFindGroup (find_group : FindGroup) (original_header : MessageHeader)
    : prog RoutingNode unit :=
  n ← get;
  message ← lift (λ n, FindGroup_reply n find_group original_header);
  send_to_all (GetTarget (connection_manager_ n) (FromNode original_header)) message.

(** The loop over the group: a node that is not managed is skipped. *)
Fixpoint HandleFindGroupResponse (group : list PublicPmid) : prog RoutingNode unit :=
  match group with
  | [] => mret tt
  | node_pmid :: group =>
      let node_id := Pmid_Name node_pmid in
      n ← get;
      (if negb (IsManaged (connection_manager_ n) node_id) then mret tt
       else
         let message := mkConnect NextEndpointPair (node_OurId n) node_id (our_public n) in
         message_id ← take_message_id;
         header ← lift (λ _, MessageHeader_new (node_id, None) (OurSourceAddress n) message_id
                               nae_manager);
         send_to_all (GetTarget (connection_manager_ n) node_id)
           (Serialise_message Connect_codec header TagConnect message));;
      HandleFindGroupResponse group
  end.

(** The branches on the result of [HandleGet] are empty.  The call in
    [MessageReceived] goes through [Child], which does not define a
    [HandleMessage] of its own. *)
Definition HandleGetData (get_data : GetData) (header : MessageHeader) : prog RoutingNode unit :=
  authority ← lift (λ n, OurAuthority n (data_name (gd_name_and_type_id get_data)) header);
  modify (λ n, set_child
    (HandleGet (source_ header) authority (gd_name_and_type_id get_data) (child n)) n).

(** Nothing calls the handler of [GetDataResponse], which is the derived class's. *)
Definition HandleGetDataResponse_call (HandleGetDataResponse : GetDataResponse → Child → Child)
    (response : GetDataResponse) : prog RoutingNode unit :=
  modify (λ n, set_child (HandleGetDataResponse response (child n)) n).

(** The handlers of [PutData], [PutDataResponse] and [Post] do nothing. *)
Definition HandlePutData (put_data : PutData) (original_header : MessageHeader)
    : prog RoutingNode unit := mret tt.
Definition HandlePutDataResponse (put_data_response : PutDataResponse) (original_header : MessageHeader)
    : prog RoutingNode unit := mret tt.
Definition HandlePost (post : Post) (original_header : MessageHeader) : prog RoutingNode unit :=
  mret tt.

(** ** A message is received *)

(** [Parse<M> (binary_input_stream)]: the stream moves on. *)
Definition parse_next {M} (c : Codec M) (stream : list byte) : prog RoutingNode (M * list byte) :=
  lift (λ _, ParseNext c stream).

(** Data that passes is cached. *)
Definition cache_response (tag : option MessageTypeTag) (stream : list byte)
    : prog RoutingNode (list byte) :=
  if bool_decide (tag = Some TagGetDataResponse) then
    '(response, stream') ← parse_next GetDataResponse_codec stream;
    match gdr_data response with
    | Some bytes =>
        modify (λ n, set_cache
          (lru_Add (data_name (gdr_name_and_type_id response)) bytes (cache_ n)) n)
    | None => mret tt
    end;;
    mret stream'
  else mret stream.

(** The cache is asked; the answer is not used. *)
Definition ask_cache (tag : option MessageTypeTag) (stream : list byte)
    : prog RoutingNode (list byte) :=
  if bool_decide (tag = Some TagGetData) then
    '(request, stream') ← parse_next GetData_codec stream;
    modify (λ n, set_cache
      (lru_Get (data_name (gd_name_and_type_id request)) (cache_ n)).2 n);;
    mret stream'
  else mret stream.

(** The [switch] over the tag. *)
Definition dispatch (tag : option MessageTypeTag) (stream : list byte) (header : MessageHeader)
    : prog RoutingNode unit :=
  match tag with
  | Some TagConnect => '(m, _) ← parse_next Connect_codec stream; HandleConnect m header
  | Some TagConnectResponse => '(m, _) ← parse_next ConnectResponse_codec stream; HandleConnectResponse m
  | Some TagFindGroup => '(m, _) ← parse_next FindGroup_codec stream; HandleFindGroup m header
  | Some TagFindGroupResponse =>
      '(m, _) ← parse_next FindGroupResponse_codec stream; HandleFindGroupResponse (fgr_group m)
  | Some TagGetData => '(m, _) ← parse_next GetData_codec stream; HandleGetData m header
  | Some TagGetDataResponse => mret tt
  | Some TagPutData => '(m, _) ← parse_next PutData_codec stream; HandlePutData m header
  | Some TagPost => '(m, _) ← parse_next Post_codec stream; HandlePost m header
  | _ => mret tt
  end.

(** A relayed message for a node connected to us. *)
Definition for_connected_node n (header : MessageHeader) : bool :=
  RelayedMessage header &&
  existsb (λ a, bool_decide (Some a = ReplyTo header)) (connected_nodes_ n).

(** A message that was not seen before. *)
Definition handle_new (serialised_message : SerialisedMessage) (header : MessageHeader)
    (tag : option MessageTypeTag) (stream : list byte) : prog RoutingNode unit :=
  stream1 ← cache_response tag stream;
  stream2 ← ask_cache tag stream1;
  n ← get;
  send_to_all (GetTarget (connection_manager_ n) (destination_ header).1) serialised_message;;
  n ← get;
  if for_connected_node n header then mret tt
  else if negb (in_range n (destination_ header).1) then mret tt
  else dispatch tag stream2 header.

Definition handle_received (serialised_message : SerialisedMessage) (header : MessageHeader)
    (tag : option MessageTypeTag) (stream : list byte) : prog RoutingNode unit :=
  n ← get;
  if lru_Check (FilterValue header) (filter_ n) then mret tt
  else
    modify (λ n, set_filter (lru_Add (FilterValue header) tt (filter_ n)) n);;
    handle_new serialised_message header tag stream.

(** A header that does not parse is logged and ignored. *)
Definition MessageReceived (serialised_message : SerialisedMessage) : prog RoutingNode unit := λ n,
  match Parse_header serialised_message with
  | Ok (header, tag, stream) => handle_received serialised_message header tag stream n
  | Throw _ => (Ok tt, n)
  | AssertFailed => (AssertFailed, n)
  | Undefined => (Undefined, n)
  end.
End routing_node.
