(* ===== verification/RoutingNodeProps.v ===== *)
(** * Properties of the routing node *)

From S2P Require Import Prelude CppStd Identity Types Accumulator MessageHeader Codec.
From S2P Require Import ConcreteIO Messages Sentinel ConnectionManager ConnectionManagerProps RoutingNode.

Section props.
Context `{FO : FobOps} `{EO : !EndpointOps} `{LO : LruCacheOps} `{BM : BuildMode}.
Context {Child : Type} (HandleGet : SourceAddress → Authority → NameAndTypeId → Child → Child).
Implicit Types (n : RoutingNode (Child:=Child)).

(** ** What handling a message leaves alone *)

(** Only the message id, the cache and the state of the child may differ. *)
Record quiet n n' : Prop := {
  q_pmid : our_pmid n' = our_pmid n;
  q_bootstrap : bootstrap_node_ n' = bootstrap_node_ n;
  q_manager : connection_manager_ n' = connection_manager_ n;
  q_filter : filter_ n' = filter_ n;
  q_sentinel : sentinel_ n' = sentinel_ n;
  q_connected : connected_nodes_ n' = connected_nodes_ n;
  q_sent : sent n' = sent n
}.

#[local] Instance quiet_preorder : PreOrder quiet.
Proof. split; [by intros n|]. intros n1 n2 n3 [] []. split; congruence. Qed.

(** Running [p] is never undefined, aborts only in a debug build, and leaves by
    an exception only with the node quiet; otherwise [Q] holds. *)
Definition obeys {A} (p : prog RoutingNode A) n (Q : A → RoutingNode → Prop) : Prop :=
  match p n with
  | (Ok a, n') => Q a n'
  | (Throw e, n') => e ∈ [parsing_error; invalid_argument] ∧ quiet n n'
  | (AssertFailed, n') => NDEBUG = false ∧ quiet n n'
  | (Undefined, _) => False
  end.

(** [p] and nothing but a quiet change. *)
Definition quietly {A} (p : prog RoutingNode A) : Prop := ∀ n, obeys p n (λ _ n', quiet n n').

Lemma obeys_bind {A B} (p : prog RoutingNode A) (f : A → prog RoutingNode B) n Q :
  obeys p n (λ a n', quiet n n' ∧ obeys (f a) n' Q) → obeys (p ≫= f) n Q.
Proof.
  unfold obeys, mbind, prog_bind. destruct (p n) as [[a| | |] n1]; try done.
  intros [Hq Hf]. destruct (f a n1) as [[]]; try done; destruct Hf as [? Hq']; split; try done;
    by etrans.
Qed.

Lemma obeys_weaken {A} (p : prog RoutingNode A) n (Q Q' : A → RoutingNode → Prop) :
  obeys p n Q → (∀ a n', Q a n' → Q' a n') → obeys p n Q'.
Proof. unfold obeys. destruct (p n) as [[] ?]; naive_solver. Qed.

Lemma obeys_seq {A B} (p : prog RoutingNode A) (f : A → prog RoutingNode B) n Q :
  quietly p → (∀ a n', quiet n n' → obeys (f a) n' Q) → obeys (p ≫= f) n Q.
Proof. intros Hp Hf. apply obeys_bind. eapply obeys_weaken; [apply Hp|]. eauto. Qed.

Lemma quietly_bind {A B} (p : prog RoutingNode A) (f : A → prog RoutingNode B) :
  quietly p → (∀ a, quietly (f a)) → quietly (p ≫= f).
Proof.
  intros Hp Hf n. apply obeys_seq; [done|]. intros a n1 Hq. eapply obeys_weaken; [apply Hf|].
  intros b n2 Hq2. by etrans.
Qed.

Lemma quietly_ret {A} (a : A) : quietly (mret a).
Proof. by intros n. Qed.
Lemma quietly_get : quietly get.
Proof. by intros n. Qed.

(** A function that changes nothing. *)
Definition clean {A} (o : outcome A) : Prop :=
  match o with
  | Ok _ => True
  | Throw e => e ∈ [parsing_error; invalid_argument]
  | AssertFailed => NDEBUG = false
  | Undefined => False
  end.

Lemma clean_bind {A B} (o : outcome A) (f : A → outcome B) :
  clean o → (∀ a, clean (f a)) → clean (o ≫= f).
Proof. destruct o; cbn; auto. Qed.

Lemma clean_assert b : clean (cpp_assert b).
Proof. unfold cpp_assert. by destruct NDEBUG eqn:E, b. Qed.

Lemma clean_Validate h : clean (Header_Validate h).
Proof. unfold Header_Validate. destruct (header_valid h); [done|by left]. Qed.

Lemma clean_signed d s i a sig : clean (MessageHeader_signed d s i a sig).
Proof. apply clean_bind; [apply clean_Validate|done]. Qed.

Lemma clean_new d s i a : clean (MessageHeader_new d s i a).
Proof. apply clean_bind; [apply clean_Validate|done]. Qed.

Lemma quietly_lift {A} (f : RoutingNode → outcome A) : (∀ n, clean (f n)) → quietly (lift f).
Proof. intros Hf n. specialize (Hf n). unfold obeys, lift. by destruct (f n). Qed.

Lemma quietly_parse {M} (c : Codec M) stream : quietly (parse_next c stream).
Proof.
  apply quietly_lift. intros n. unfold ParseNext. destruct (dec c stream); [done|by left].
Qed.

Lemma quietly_new_header d s i a : quietly (lift (λ _, MessageHeader_new d s i a)).
Proof. apply quietly_lift. intros n. apply clean_new. Qed.

Lemma quietly_next_id : quietly take_message_id.
Proof. by intros n. Qed.
#[local] Hint Resolve quietly_ret quietly_get quietly_parse quietly_new_header quietly_next_id : routing.
#[local] Hint Resolve quietly_bind : routing.

Lemma quietly_if {A} (b : bool) (p q : prog RoutingNode A) :
  quietly p → quietly q → quietly (if b then p else q).
Proof. by destruct b. Qed.

Lemma quietly_cache_response tag stream : quietly (cache_response tag stream).
Proof.
  unfold cache_response. apply quietly_if; [|auto with routing].
  apply quietly_bind; [auto with routing|]. intros [response stream'].
  apply quietly_bind; [|auto with routing]. by destruct (gdr_data response).
Qed.

Lemma quietly_ask_cache tag stream : quietly (ask_cache tag stream).
Proof.
  unfold ask_cache. apply quietly_if; [|auto with routing].
  apply quietly_bind; [auto with routing|]. intros [request stream']. by intros n.
Qed.

Lemma quietly_Connect_reply connect header : quietly (lift (λ n, Connect_reply n connect header)).
Proof.
  apply quietly_lift. intros n. apply clean_bind; [apply clean_assert|]. intros _.
  apply clean_bind; [apply clean_signed|done].
Qed.

Lemma quietly_FindGroup_reply find_group header :
  quietly (lift (λ n, FindGroup_reply n find_group header)).
Proof. apply quietly_lift. intros n. apply clean_bind; [apply clean_signed|done]. Qed.
#[local] Hint Resolve quietly_Connect_reply quietly_FindGroup_reply : routing.

Lemma quietly_FindGroupResponse group : quietly (HandleFindGroupResponse group).
Proof.
  induction group as [|p group IH]; [by intros n|]. cbn. apply quietly_bind; [auto with routing|].
  intros n. apply quietly_bind; [|done]. apply quietly_if; [auto with routing|].
  apply quietly_bind; [auto with routing|]. intros i.
  apply quietly_bind; [auto with routing|]. auto with routing.
Qed.

Lemma quietly_GetData get_data header : quietly (HandleGetData HandleGet get_data header).
Proof.
  unfold HandleGetData. apply quietly_bind; [|by intros a n].
  apply quietly_lift. intros n. unfold OurAuthority. repeat case_match; first [done|right; by left].
Qed.

(** ** What it changes *)

(** The node is quiet, or has started connecting to a node it is connected to,
    with the identity to expect. *)
Definition changed n n' : Prop :=
  ∃ n1, quiet n n1 ∧
    (n' = n1 ∨
     ∃ info eps, IsManaged (connection_manager_ n) (id info) = true ∧
       n' = set_manager (cm_AddNode (Some info) eps (connection_manager_ n)) n1).

Lemma quiet_changed n n' : quiet n n' → changed n n'.
Proof. intros Hq. exists n'. by split; [|left]. Qed.

Lemma quiet_changed_trans n1 n2 n3 : quiet n1 n2 → changed n2 n3 → changed n1 n3.
Proof.
  intros Hq (n & Hq' & Hn). exists n. split; [by etrans|]. destruct Hn as [|(info & eps & Hm & ->)].
  - by left.
  - right. exists info, eps. by rewrite <-(q_manager _ _ Hq).
Qed.

Lemma quietly_changed {A} (p : prog RoutingNode A) n : quietly p → obeys p n (λ _ n', changed n n').
Proof. intros Hp. eapply obeys_weaken; [apply Hp|]. eauto using quiet_changed. Qed.

Lemma obeys_changed {A B} (p : prog RoutingNode A) (f : A → prog RoutingNode B) n :
  quietly p → (∀ a n', quiet n n' → obeys (f a) n' (λ _ n'', changed n' n'')) →
  obeys (p ≫= f) n (λ _ n', changed n n').
Proof.
  intros Hp Hf. apply obeys_seq; [done|]. intros a n1 Hq. eapply obeys_weaken; [by apply Hf|].
  intros b n2. by apply quiet_changed_trans.
Qed.

Lemma AddNode_changed info eps n n1 :
  quiet n n1 → IsManaged (connection_manager_ n) (id info) = true →
  changed n (set_manager (cm_AddNode (Some info) eps (connection_manager_ n1)) n1).
Proof. intros Hq Hm. exists n1. rewrite (q_manager _ _ Hq). split; [done|right; eauto]. Qed.

Lemma obeys_get {A} (f : RoutingNode → prog RoutingNode A) n Q :
  obeys (f n) n Q → obeys (get ≫= f) n Q.
Proof. done. Qed.

Lemma HandleConnect_changed connect header n :
  obeys (HandleConnect connect header) n (λ _ n', changed n n').
Proof.
  unfold HandleConnect. apply obeys_get.
  destruct (IsManaged (connection_manager_ n) _) eqn:E; cbn [negb]; [|by apply quietly_changed].
  apply obeys_seq; [auto with routing|]. intros message n1 Hq. by apply AddNode_changed.
Qed.

Lemma HandleConnectResponse_changed response n :
  obeys (HandleConnectResponse response) n (λ _ n', changed n n').
Proof.
  unfold HandleConnectResponse. apply obeys_get.
  destruct (IsManaged (connection_manager_ n) _) eqn:E; cbn [negb]; [|by apply quietly_changed].
  by apply (AddNode_changed (mkNodeInfo (cr_requester_id response) (cr_receiver_fob response) true)).
Qed.

Lemma dispatch_changed tag stream header n :
  obeys (dispatch HandleGet tag stream header) n (λ _ n', changed n n').
Proof.
  destruct tag as [[]|]; cbn [dispatch]; try (by apply quietly_changed);
    (apply obeys_changed; [auto with routing|]; intros [m rest] n1 _).
  - apply HandleConnect_changed.
  - apply HandleConnectResponse_changed.
  - apply quietly_changed. unfold HandleFindGroup. apply quietly_bind; [auto with routing|].
    intros n2. apply quietly_bind; auto with routing.
  - apply quietly_changed, quietly_FindGroupResponse.
  - apply quietly_changed, quietly_GetData.
  - by apply quietly_changed.
  - by apply quietly_changed.
Qed.

Lemma handle_new_changed bytes header tag stream n :
  obeys (handle_new HandleGet bytes header tag stream) n (λ _ n', changed n n').
Proof.
  apply obeys_changed; [apply quietly_cache_response|]. intros s1 n1 _.
  apply obeys_changed; [apply quietly_ask_cache|]. intros s2 n2 _. apply obeys_get.
  apply obeys_changed; [by intros ?|]. intros _ n3 _. apply obeys_get.
  destruct (for_connected_node n3 header); [by apply quietly_changed|].
  destruct (in_range n3 (destination_ header).1); [apply dispatch_changed|by apply quietly_changed].
Qed.

(** The node that has noted a message as seen. *)
Definition seen (header : MessageHeader) n : RoutingNode :=
  set_filter (lru_Add (FilterValue header) tt (filter_ n)) n.

Lemma Parse_header_outcome bytes :
  (∃ r, Parse_header bytes = Ok r) ∨ (∃ e, Parse_header bytes = Throw e).
Proof.
  unfold Parse_header, ParseNext. destruct (dec _ bytes) as [[h s1]|]; cbn; [|by right; eexists].
  destruct (dec _ s1) as [[]|]; cbn; [left|right]; by eexists.
Qed.

(** The ways a message is received. *)
Lemma MessageReceived_cases bytes n :
  (∃ e, Parse_header bytes = Throw e ∧ MessageReceived HandleGet bytes n = (Ok tt, n)) ∨
  (∃ header tag stream, Parse_header bytes = Ok (header, tag, stream) ∧
     if lru_Check (FilterValue header) (filter_ n)
     then MessageReceived HandleGet bytes n = (Ok tt, n)
     else MessageReceived HandleGet bytes n = handle_new HandleGet bytes header tag stream (seen header n)).
Proof.
  unfold MessageReceived. destruct (Parse_header_outcome bytes) as [([[header tag] stream] & ->)|(e & ->)].
  - right. exists header, tag, stream. split; [done|].
    unfold handle_received, get, mbind, prog_bind. by destruct (lru_Check _ _).
  - left. by exists e.
Qed.

(** Receiving changes the node as [changed] says, after the message was noted. *)
Lemma MessageReceived_changed bytes n :
  let '(o, n') := MessageReceived HandleGet bytes n in
  o ≠ Undefined ∧ (o = AssertFailed → NDEBUG = false) ∧
  ∃ f, changed (set_filter f n) n'.
Proof.
  destruct (MessageReceived_cases bytes n) as [(e & _ & ->)|(header & tag & stream & _ & Hr)].
  { split_and!; [done|done|]. exists (filter_ n). apply quiet_changed. by destruct n. }
  destruct (lru_Check _ _); rewrite Hr.
  { split_and!; [done|done|]. exists (filter_ n). apply quiet_changed. by destruct n. }
  pose proof (handle_new_changed bytes header tag stream (seen header n)) as Ho. unfold obeys in Ho.
  destruct (handle_new _ _ _ _ _ _) as [o n'].
  destruct o; naive_solver eauto using quiet_changed.
Qed.

(** C14: Whatever bytes a node receives, it does not run into undefined behaviour
    (a release build does not abort either), its identity, its peers, its
    listening ports and what it is connected to stay as they are, and the most
    a message can do to the connections is start one attempt to connect, to a
    node that is already connected, which will accept that node only. *)
Theorem MessageReceived_safe bytes n :
  let '(o, n') := MessageReceived HandleGet bytes n in
  o ≠ Undefined ∧ (o = AssertFailed → NDEBUG = false) ∧
  our_pmid n' = our_pmid n ∧ bootstrap_node_ n' = bootstrap_node_ n ∧ sent n' = sent n ∧
  peers_ (connection_manager_ n') = peers_ (connection_manager_ n) ∧
  acceptors_ (connection_manager_ n') = acceptors_ (connection_manager_ n) ∧
  (connection_manager_ n' = connection_manager_ n ∨
   ∃ info eps, IsManaged (connection_manager_ n) (id info) = true ∧
     connection_manager_ n' = cm_AddNode (Some info) eps (connection_manager_ n)).
Proof.
  pose proof (MessageReceived_changed bytes n) as Ho. destruct (MessageReceived _ _ _) as [o n'].
  destruct Ho as (H1 & H2 & f & n1 & [] & Hn).
  cbn in *. split; [done|]. split; [done|].
  destruct Hn as [->|(info & eps & Hm & ->)]; cbn; [by split_and!; eauto; congruence|].
  split_and!; try done; [..|by eauto].
  all: unfold cm_AddNode; by destruct (connecting_socket _ _).
Qed.


Lemma OurAuthority_cases n element header :
  OurAuthority n element header =
    match FromGroup header with
    | None =>
        if decide ((destination_ header).1 = element)
        then if in_range n element then Ok nae_manager else Throw invalid_argument
        else if in_range n (FromNode header) then Ok client_manager else Throw invalid_argument
    | Some g =>
        if decide ((destination_ header).1 = element)
        then if in_range n element then Ok nae_manager
             else if decide (element = node_OurId n)
             then if in_range n g then Ok managed_node else Throw invalid_argument
             else Throw invalid_argument
        else if decide ((destination_ header).1 = node_OurId n)
        then if in_range n g then Ok managed_node else Throw invalid_argument
        else if in_range n (destination_ header).1 then Ok node_manager else Throw invalid_argument
    end.
Proof.
  unfold OurAuthority. destruct (FromGroup header) as [g|]; cbn [has negb andb];
    destruct (decide ((destination_ header).1 = element)) as [->|Hd];
    rewrite ?(bool_decide_eq_true_2 (element = element)), ?(bool_decide_eq_false_2 (element ≠ element)),
      ?(bool_decide_eq_true_2 (_ ≠ element)), ?(bool_decide_eq_false_2 (_ = element)) by naive_solver;
    rewrite ?andb_true_r, ?andb_false_r; [..|done|done].
  - destruct (in_range n element); [done|]. cbn. destruct (decide _); case_bool_decide; try done.
    all: by rewrite ?andb_true_r, ?andb_false_r.
  - destruct (decide _); repeat case_bool_decide; try done; by rewrite ?andb_true_r, ?andb_false_r.
Qed.

#[local] Ltac authority_leaf :=
  split_and!; try congruence; try (by eexists);
  try (intros ?; destruct_and?; try match goal with H : ∃ _, _ |- _ => destruct H as (? & ? & ?) end;
       congruence).

(** C25: The authority with which a node acts on a request for an element: client
    manager for a single node in our range when the request is sent elsewhere
    than to the element, NAE manager when it is sent to the element and that is
    in our range, and for a request from a group, node manager or managed node
    according to whether it is sent to another node or to us; when none of the
    four applies, and only then, [invalid_argument] is thrown. *)
Theorem OurAuthority_spec n element header :
  let destination := (destination_ header).1 in
  let for_client :=
    FromGroup header = None ∧ in_range n (FromNode header) = true ∧ destination ≠ element in
  let for_nae := destination = element ∧ in_range n element = true in
  let for_node :=
    FromGroup header ≠ None ∧ in_range n destination = true ∧ destination ≠ node_OurId n ∧
    destination ≠ element in
  let to_us :=
    destination = node_OurId n ∧ ¬ for_nae ∧
    ∃ g, FromGroup header = Some g ∧ in_range n g = true in
  match OurAuthority n element header with
  | Ok client_manager => for_client
  | Ok nae_manager => for_nae
  | Ok node_manager => for_node
  | Ok managed_node => to_us
  | Throw e => e = invalid_argument ∧ ¬ for_client ∧ ¬ for_nae ∧ ¬ for_node ∧ ¬ to_us
  | _ => False
  end.
Proof.
  cbn zeta. rewrite OurAuthority_cases. destruct (FromGroup header) as [g|];
    destruct (decide ((destination_ header).1 = element)) as [->|Hd].
  - destruct (in_range n element) eqn:E1; [done|].
    destruct (decide _) as [Ho|Ho]; [destruct (in_range n g) eqn:E2|]; authority_leaf.
  - destruct (decide _) as [Ho|Ho]; [destruct (in_range n g) eqn:E2|
      destruct (in_range n (destination_ header).1) eqn:E3]; authority_leaf.
  - destruct (in_range n element) eqn:E1; authority_leaf.
  - destruct (in_range n (FromNode header)) eqn:E1; authority_leaf.
Qed.

(** Data that passes through is cached: when a fresh response with data is
    received, and the name is not in the cache, the cache returns the data for
    that name, whoever the response is for. *)
Theorem response_cached `{!ArchiveLaws} `{!LruCacheLaws} header response bytes n :
  let name := data_name (gdr_name_and_type_id response) in
  header_sized header → size_ok bytes → gdr_data response = Some bytes →
  lru_Check (FilterValue header) (filter_ n) = false → lru_Check name (cache_ n) = false →
  let '(o, n') := MessageReceived HandleGet
    (Serialise_message GetDataResponse_codec header TagGetDataResponse response) n in
  o = Ok tt ∧ (lru_Get name (cache_ n')).1 = Some bytes.
Proof.
  intros name Hh Hb Hd Hf Hc.
  set (n1 := set_cache (lru_Add name bytes (cache_ n)) (seen header n)).
  assert (MessageReceived HandleGet
            (Serialise_message GetDataResponse_codec header TagGetDataResponse response) n
          = (Ok tt, n1)) as ->; [|split; [done|by apply lru_Get_Add]].
  unfold MessageReceived. rewrite Parse_header_wire by done.
  unfold handle_received, get, modify, mbind, prog_bind. rewrite Hf.
  unfold handle_new. rewrite (prog_bind_Ok _ _ _ n1 []).
  - unfold ask_cache, get, GetTarget, send_to_all, mbind, prog_bind, mret, prog_ret.
    rewrite bool_decide_eq_false_2 by done.
    destruct (for_connected_node n1 header); [done|]. by destruct (negb _).
  - unfold cache_response, parse_next, lift, mbind, prog_bind.
    rewrite bool_decide_eq_true_2 by done.
    rewrite <-(app_nil_r (Serialise _ response)).
    rewrite (ParseNext_Serialise _ _ _ _ rt_GetDataResponse); [by rewrite Hd|].
    intros d Heq. by rewrite Hd in Heq; injection Heq as <-.
Qed.

Lemma header_signed_Ok d s i a sig :
  IsInitialised (node_address s) = true → MessageHeader_signed d s i a sig = Ok (mkHeader d s i a (Some sig)).
Proof.
  intros Hi. unfold MessageHeader_signed, Header_Validate, header_valid. cbn. by rewrite Hi.
Qed.

(** The replies of a node stand up to the checks of the receiver: a reply to
    [Connect] (sent to us) or to [FindGroup] is made without an exception, goes
    to the address the request names for it with the id of the request, and its
    signature is accepted with our public key by the check the sentinel makes;
    the group in the reply to [FindGroup] is our close group and us. *)
Theorem replies_verify `{!ArchiveLaws} `{!FobLaws} connect find_group original n :
  let key := Pmid_public_key (our_public n) in
  IsInitialised (node_OurId n) = true → bootstrap_node_ n = None → header_sized original →
  c_receiver_id connect = node_OurId n →
  size_ok (cm_OurCloseGroup (connection_manager_ n) ++ [our_public n]) →
  ∃ reply1 reply2 header1 header2 payload1 payload2,
    Connect_reply n connect original = Ok reply1 ∧
    Parse_header reply1 = Ok (header1, Some TagConnectResponse, payload1) ∧
    signature_checks key (header1, TagConnectResponse, payload1) = true ∧
    FindGroup_reply n find_group original = Ok reply2 ∧
    Parse_header reply2 = Ok (header2, Some TagFindGroupResponse, payload2) ∧
    signature_checks key (header2, TagFindGroupResponse, payload2) = true ∧
    Parse FindGroupResponse_codec payload2 =
      Ok (mkFindGroupResponse (fg_target_id find_group)
            (cm_OurCloseGroup (connection_manager_ n) ++ [our_public n])) ∧
    Forall (λ h, destination_ h = ReturnDestinationAddress original ∧
                 message_id_ h = message_id_ original ∧ FromNode h = node_OurId n) [header1; header2].
Proof.
  intros key Hi Hb Hh Hr Hs. unfold Connect_reply, FindGroup_reply.
  rewrite bool_decide_eq_true_2, cpp_assert_true, bind_Ok by done.
  unfold OurSourceAddress. rewrite Hb, !header_signed_Ok, !bind_Ok by done.
  do 6 eexists. split; [done|]. split; [by apply Parse_header_wire|]. split; [apply CheckSignature_Sign|].
  split; [done|]. split; [by apply Parse_header_wire|]. split; [apply CheckSignature_Sign|].
  split; [|by repeat constructor]. by eapply Parse_Serialise; [exact rt_FindGroupResponse|].
Qed.

Lemma header_new_Ok d s i a :
  IsInitialised (node_address s) = true → MessageHeader_new d s i a = Ok (mkHeader d s i a None).
Proof.
  intros Hi. unfold MessageHeader_new, Header_Validate, header_valid. cbn. by rewrite Hi.
Qed.

(** A request takes a new message id and changes nothing else. *)
Definition takes_id (p : prog (RoutingNode (Child:=Child)) unit) : Prop :=
  ∀ n, IsInitialised (node_OurId n) = true → bootstrap_node_ n = None →
    p n = (Ok tt, set_message_id (next_message_id (last_message_id n)) n).

#[local] Ltac requests p :=
  intros n Hi Hb; unfold p, get, take_message_id, lift, OurSourceAddress, mbind, prog_bind;
  cbn [last_message_id]; by rewrite Hb, header_new_Ok by done.

Lemma Get_takes_id name : takes_id (Get name).
Proof. requests (@Get). Qed.
Lemma Put_takes_id to type_id bytes : takes_id (Put to type_id bytes).
Proof. requests (@Put). Qed.
Lemma Post_takes_id to type_id bytes : takes_id (node_Post to type_id bytes).
Proof. requests (@node_Post). Qed.
Lemma ConnectToCloseGroup_takes_id : takes_id ConnectToCloseGroup.
Proof. requests (@ConnectToCloseGroup). Qed.

(** The requests of the local user make their message and take a new message
    id, wrapping around after [2 ^ 32 - 1], but as [GetTarget] has no nodes
    nothing is sent, to whomever the node is connected. *)
Theorem requests_send_nothing name to type_id bytes n :
  IsInitialised (node_OurId n) = true → bootstrap_node_ n = None →
  let n' := set_message_id (next_message_id (last_message_id n)) n in
  Get name n = (Ok tt, n') ∧ Put to type_id bytes n = (Ok tt, n') ∧
  node_Post to type_id bytes n = (Ok tt, n') ∧ ConnectToCloseGroup n = (Ok tt, n') ∧
  sent n' = sent n.
Proof.
  intros Hi Hb n'. split_and!; [by apply Get_takes_id|by apply Put_takes_id|by apply Post_takes_id|
    by apply ConnectToCloseGroup_takes_id|done].
Qed.
End props.

(** ** Witnesses

    A cache that forgets nothing, fobs whose private key is the public one, and
    a child that keeps the names it was asked for.  The node 1 has the peer 7. *)
Module NodeWitness.
Import Concrete.
#[local] Existing Instance release_build.

#[export] Instance toy_lru : LruCacheOps := {|
  LruCache K V := list (K * V);
  lru_new _ _ _ := [];
  lru_Add _ _ _ k v c := assoc_set k v c;
  lru_Check _ _ _ k c := bool_decide (is_Some (assoc_find k c));
  lru_Get _ _ _ k c := (assoc_find k c, c)
|}.

#[export] Instance toy_lru_laws : LruCacheLaws.
Proof.
  split; intros K V Hdec k v c; cbn [lru_Check lru_Add lru_Get toy_lru fst];
    rewrite assoc_find_set, (bool_decide_eq_true_2 (k = k)); done.
Qed.

#[export] Instance toy_fobs : FobOps := {|
  Pmid := N * N;
  PrivateKey := N;
  Pmid_public p := p;
  Pmid_private_key p := p.2;
  Sign _ k := k;
  data_name d := d.1
|}.

#[export] Instance toy_fob_laws : FobLaws.
Proof. split. intros fob message. cbn. apply N.eqb_refl. Qed.

Definition addr (i : N) : Address := i.
Definition fob (i : N) : Pmid := (i, 3%N).
Definition names : Type := list NameAndTypeId.
Definition record_get (_ : SourceAddress) (_ : Authority) (name : NameAndTypeId) (c : names) : names :=
  c ++ [name].

(** The node when the peer 7 has connected. *)
Definition with_peer : RoutingNode (Child:=names) :=
  let n := RoutingNode_new (fob 1) 5%Z [] in
  set_manager (InsertPeer None (mkNodeInfo (addr 7) (fob 7) true) 0 (connection_manager_ n)) n.

Definition header (from : N) : MessageHeader :=
  mkHeader (addr 1, None) (mkSource (addr from) None None) 11%Z node None.
Definition item : NameAndTypeId := (9%N, 0%N).
Definition response : GetDataResponse := GetDataResponse_data item [4%Z; 5%Z].
Definition connect : Connect :=
  mkConnect EndpointPair_default (addr 7) (addr 1) (fob 7).


Lemma response_cached_witness :
  let '(o, n') := MessageReceived record_get
    (Serialise_message GetDataResponse_codec (header 7) TagGetDataResponse response) with_peer in
  o = Ok tt ∧ (lru_Get (data_name item) (cache_ n')).1 = Some [4%Z; 5%Z].
Proof.
  apply (response_cached record_get (header 7) response [4%Z; 5%Z] with_peer);
    [done|done|reflexivity|reflexivity|reflexivity].
Defined.

Lemma replies_verify_witness :
  ∃ reply1 reply2 header1 header2 payload1 payload2,
    Connect_reply with_peer connect (header 7) = Ok reply1 ∧
    Parse_header reply1 = Ok (header1, Some TagConnectResponse, payload1) ∧
    signature_checks 3%N (header1, TagConnectResponse, payload1) = true ∧
    FindGroup_reply with_peer (mkFindGroup (addr 7) (addr 1)) (header 7) = Ok reply2 ∧
    Parse_header reply2 = Ok (header2, Some TagFindGroupResponse, payload2) ∧
    signature_checks 3%N (header2, TagFindGroupResponse, payload2) = true ∧
    Parse FindGroupResponse_codec payload2 =
      Ok (mkFindGroupResponse (addr 1) [Pmid_public (fob 7); Pmid_public (fob 1)]) ∧
    Forall (λ h, destination_ h = ReturnDestinationAddress (header 7) ∧
                 message_id_ h = 11%Z ∧ FromNode h = addr 1) [header1; header2].
Proof.
  apply (replies_verify connect (mkFindGroup (addr 7) (addr 1)) (header 7) with_peer);
    (reflexivity || done).
Defined.

Lemma requests_send_nothing_witness :
  let n' := set_message_id 6%Z with_peer in
  Get item with_peer = (Ok tt, n') ∧ Put (addr 9) 0%N [1%Z] with_peer = (Ok tt, n') ∧
  node_Post (addr 9) 0%N [1%Z] with_peer = (Ok tt, n') ∧ ConnectToCloseGroup with_peer = (Ok tt, n') ∧
  sent n' = sent with_peer.
Proof. apply (requests_send_nothing item (addr 9) 0%N [1%Z] with_peer); reflexivity. Defined.

(** A request for data that is for us is parsed a second time from where the
    first reading of it ended, so that it is never handled. *)
Theorem GetData_not_handled :
  let bytes := Serialise_message GetData_codec (header 7) TagGetData
                 (mkGetData item (mkSource (addr 7) None None)) in
  (MessageReceived record_get bytes with_peer).1 = Throw parsing_error ∧
  child (MessageReceived record_get bytes with_peer).2 = [].
Proof. split; reflexivity. Qed.

(** [Connect] from a node that is not yet a peer is ignored. *)
Theorem Connect_from_new_node_ignored :
  let bytes := Serialise_message Connect_codec (header 8) TagConnect
                 (mkConnect EndpointPair_default (addr 8) (addr 1) (fob 8)) in
  pending (connection_manager_ (MessageReceived record_get bytes with_peer).2)
  = pending (connection_manager_ with_peer).
Proof. reflexivity. Qed.
End NodeWitness.
