(* ===== verification/NodeSentinel.v ===== *)
(** * Replies of nodes before a sentinel

    The composition of the routing node, the codecs and the sentinel: the bytes
    of a reply are parsed to header, tag and payload, and these are given to a
    sentinel (the place for it in [RoutingNode::MessageReceived] is marked with a
    FIXME).  A reply to [Connect] gets through with the key of the node; replies
    to [FindGroup] never do. *)

From S2P Require Import Prelude CppStd Identity Types Accumulator MessageHeader Codec ConcreteIO Messages.
From S2P Require Import Sentinel SentinelFacts SentinelProps SentinelLiveness.
From S2P Require Import ConnectionManager ConnectionManagerProps RoutingNode RoutingNodeProps.

Section node_sentinel.
Context `{IL : IdentityLaws} `{CO : !CryptoOps} `{AO : !ArchiveOps} `{AL : !ArchiveLaws}.
Context `{FO : !FobOps} `{FL : !FobLaws} `{EO : !EndpointOps} `{LO : LruCacheOps}.
Context `{AcO : AccountOps} `{BM : BuildMode} {Child : Type}.
Implicit Types (n : RoutingNode (Child:=Child)) (r v res : ResultType).

(** What is received, as the sentinel takes it. *)
Definition as_part (bytes : SerialisedMessage) : option ResultType :=
  match Parse_header bytes with
  | Ok (header, Some tag, payload) => Some (header, tag, payload)
  | _ => None
  end.

Lemma as_part_wire {M} (c : Codec M) h tag m :
  header_sized h → as_part (Serialise_message c h tag m) = Some (h, tag, Serialise c m).
Proof. intros Hh. unfold as_part. by rewrite Parse_header_wire. Qed.

(** ** Replies to [Connect] *)

Lemma Connect_reply_part n connect original :
  IsInitialised (node_OurId n) = true → bootstrap_node_ n = None → header_sized original →
  c_receiver_id connect = node_OurId n →
  ∃ bytes r, Connect_reply n connect original = Ok bytes ∧ as_part bytes = Some r ∧
    plain r ∧ part_group r = None ∧ part_node r = node_OurId n ∧ part_id r = message_id_ original ∧
    signature_checks (Pmid_public_key (our_public n)) r = true.
Proof.
  intros Hi Hb Hh Hr. unfold Connect_reply.
  rewrite bool_decide_eq_true_2, cpp_assert_true, bind_Ok by done.
  unfold OurSourceAddress. rewrite Hb, header_signed_Ok, bind_Ok by done.
  do 2 eexists. split; [done|]. split; [by apply as_part_wire|].
  split; [done|]. do 3 (split; [done|]). apply CheckSignature_Sign.
Qed.


(** ** Replies to [FindGroup] *)

(** A part that is the reply of a node to a request for a group. *)
Definition find_group_reply r : Prop :=
  ∃ n find_group original bytes,
    header_sized original ∧ size_ok (cm_OurCloseGroup (connection_manager_ n) ++ [our_public n]) ∧
    FindGroup_reply n find_group original = Ok bytes ∧ as_part bytes = Some r.

Lemma find_group_reply_parses r :
  find_group_reply r → result_tag r = TagFindGroupResponse ∧
  ∃ target group pmid, Parse FindGroupResponse_codec (result_message r) =
    Ok (mkFindGroupResponse target (group ++ [pmid])) ∧ Pmid_Name pmid = part_node r.
Proof.
  intros (n & find_group & original & bytes & Hh & Hs & Hb & Hp). unfold FindGroup_reply in Hb.
  destruct (MessageHeader_signed _ _ _ _ _) as [header| | |] eqn:Eh; [|done..].
  rewrite bind_Ok in Hb. injection Hb as <-. unfold MessageHeader_signed in Eh.
  destruct (Header_Validate _); [|done..]. rewrite bind_Ok in Eh. injection Eh as <-.
  rewrite as_part_wire in Hp by done. injection Hp as <-. split; [done|].
  exists (fg_target_id find_group), (cm_OurCloseGroup (connection_manager_ n)), (our_public n).
  split; [|done].
  exact (Parse_Serialise _ _ (mkFindGroupResponse _ _) rt_FindGroupResponse Hs).
Qed.

(** Each node ends its reply with itself. *)
Lemma find_group_replies_differ r v :
  find_group_reply r → find_group_reply v → result_message r = result_message v → part_node r = part_node v.
Proof.
  intros [_ (t1 & g1 & p1 & H1 & <-)]%find_group_reply_parses [_ (t2 & g2 & p2 & H2 & <-)]%find_group_reply_parses Heq.
  rewrite Heq, H2 in H1. injection H1 as _ Hg. by apply app_inj_2 in Hg as [_ [= ->]].
Qed.

(** Two of a list of distinct nodes are not in a list shorter by two. *)
Lemma two_not_in (l faulty : list Address) :
  NoDup l → length faulty + 2 ≤ length l →
  ∃ a b, a ∈ l ∧ b ∈ l ∧ a ≠ b ∧ (a ∉ faulty) ∧ (b ∉ faulty).
Proof.
  intros Hnd Hlen. set (k := filter (.∉ faulty) l).
  assert (NoDup k) as Hk by by apply NoDup_filter.
  assert (∀ a, a ∈ k → (a ∉ faulty) ∧ a ∈ l) as Hin by (intros a Ha; by apply list_elem_of_filter in Ha).
  assert (l ⊆ faulty ++ k) as Hsub.
  { intros a Ha. rewrite elem_of_app. destruct (decide (a ∈ faulty)); [by left|right].
    by apply list_elem_of_filter. }
  apply NoDup_subset_length in Hsub; [|done]. rewrite length_app in Hsub.
  destruct k as [|a [|b k]]; cbn in Hsub; [lia..|]. exists a, b.
  apply NoDup_cons in Hk as [Hab _]. rewrite elem_of_cons in Hab. set_solver.
Qed.

(** The replies of honest nodes to a request for a group would never get through
    a sentinel (the overview, [docs/sentinel.md], exempts them from its check): when all parts of the message but those of a list of nodes,
    shorter than a quorum by two, are replies as nodes make them (and none
    claims to transfer an account), [Add] never returns the message, whatever
    keys and other messages arrive, because every node adds itself to its reply
    and no two replies have the same payload. *)
Theorem find_group_never_gets_through ins g i faulty :
  (∀ r, r ∈ ins.*2 → is_part g i r →
     result_tag r ≠ TagAccountTransfer ∧ (part_node r ∈ faulty ∨ find_group_reply r)) →
  length faulty + 2 ≤ QuorumSize →
  ¬ ∃ res, lets_through ins res ∧ part_group res = Some g ∧ part_id res = i.
Proof.
  intros Hall Hlen (res & Hl & Hg & <-).
  destruct (lets_through_group ins res g Hl Hg) as (votes & Hq & Hnd & Hpart & Hres).
  destruct (two_not_in (part_node <$> votes) faulty) as (a & b & Ha & Hb & Hab & Hfa & Hfb);
    [done|rewrite length_fmap; by etrans|].
  apply list_elem_of_fmap in Ha as (v & -> & Hv), Hb as (w & -> & Hw).
  destruct Hres as [[_ Heq]|(head & rest & account & accounts & merged & -> & Htag & _)].
  - destruct (Hpart v Hv) as [Hv1 Hv2], (Hpart w Hw) as [Hw1 Hw2].
    destruct (Hall v Hv1 Hv2) as [_ [|Hrv]], (Hall w Hw1 Hw2) as [_ [|Hrw]]; [done..|].
    apply Hab, find_group_replies_differ; [done|done|]. by rewrite (Heq v Hv), (Heq w Hw).
  - destruct (Hpart head) as [H1 H2]; [by left|]. by destruct (Hall head H1 H2).
Qed.
End node_sentinel.

(** ** Concrete nodes *)

Module NodeSentinelWitness.
Import Concrete SentinelWitness LivenessWitness NodeWitness.
#[local] Existing Instances release_build toy_account.

(** The node [i] with no peers, and its reply to a request for the group 100. *)
Definition node_of (i : N) : RoutingNode (Child:=names) := RoutingNode_new (fob i) 5%Z [].
Definition request : FindGroup := mkFindGroup (addr 7) (addr 100).
Definition reply_bytes (i : N) : SerialisedMessage :=
  match FindGroup_reply (node_of i) request (NodeWitness.header 7) with Ok bytes => bytes | _ => [] end.
Definition reply (i : N) : ResultType := default client_message (as_part (reply_bytes i)).

Lemma replies_made : Forall (λ i, find_group_reply (Child:=names) (reply i)) nodes.
Proof.
  assert (Forall (λ i, FindGroup_reply (node_of i) request (NodeWitness.header 7) = Ok (reply_bytes i) ∧
                       as_part (reply_bytes i) = Some (reply i)) nodes) as Hr
    by (repeat constructor; vm_compute; reflexivity).
  eapply Forall_impl; [exact Hr|]. intros i [H1 H2].
  exists (node_of i), request, (NodeWitness.header 7), (reply_bytes i). by split_and!.
Qed.

Lemma find_group_never_gets_through_witness :
  ¬ ∃ res, lets_through (input <$> ((key_part 1 <$> nodes) ++ (reply <$> nodes))) res ∧
    part_group res = Some group ∧ part_id res = 11%Z.
Proof.
  apply (find_group_never_gets_through (Child:=names)
    (input <$> ((key_part 1 <$> nodes) ++ (reply <$> nodes))) group 11%Z []).
  - rewrite <-list_fmap_compose, list_fmap_id. pose proof replies_made as Hr. rewrite Forall_forall in Hr.
    intros r [(i & -> & _)%list_elem_of_fmap|(i & -> & Hi)%list_elem_of_fmap]%elem_of_app Hp.
    + by destruct Hp as (_ & _ & [_ ?]).
    + destruct (find_group_reply_parses _ (Hr i Hi)) as [Ht _]. rewrite Ht. split; [done|right; auto].
  - apply Nat.leb_le. vm_refl.
Defined.

(** The answers with the key of the node 3, to the request with the id 11. *)
Definition key_answer : GetClientKeyResponse := mkGetClientKeyResponse (addr 3) 3%N.
Definition answer (i : N) : ResultType :=
  (mkHeader (addr 1, None) (mkSource (addr i) (Some (addr 3)) None) 11%Z nae_manager (Some 1%N),
   TagGetClientKeyResponse, Serialise GetClientKeyResponse_codec key_answer).
Definition connect_3 : Connect := mkConnect EndpointPair_default (addr 7) (addr 3) (fob 7).

End NodeSentinelWitness.
