(* ===== verification/NodeSystem.v ===== *)
(** * A node in operation

    The whole of a [RoutingNode] from its construction to its destruction: the
    public functions post their work to one of two io_services, the connection
    manager completes the operations it has started, and the derived class is
    told of new connections.  [crux_asio_service_] runs the work on the
    connection manager, [asio_service_] the requests for data; the destructor
    stops the first.

    Work that was posted runs in any order and each piece of it atomically. *)

From S2P Require Import Prelude CppStd Identity Types Accumulator MessageHeader Codec ConcreteIO Messages.
From S2P Require Import Sentinel ConnectionManager ConnectionManagerProps RoutingNode RoutingNodeProps.

Section system.
Context `{FO : FobOps} `{EO : !EndpointOps} `{LO : LruCacheOps} `{BM : BuildMode}.
Context {Child : Type}.
Implicit Types (n : RoutingNode (Child:=Child)) (m : ConnectionManager).

(** The lambdas the public functions post. *)
Inductive NodeTask :=
  | TaskGet (name_and_type_id : NameAndTypeId)
  | TaskPut (to : Address) (type_id : DataTypeId) (bytes : SerialisedMessage)
  | TaskPost (to : Address) (type_id : DataTypeId) (functor : SerialisedMessage)
  | TaskAddContact (endpoint : Endpoint)
  | TaskStartAccepting (port : Z)
  | TaskShutdown.

(** The lambda is posted to [asio_service_], and not to [crux_asio_service_]. *)
Definition on_asio_service (t : NodeTask) : bool :=
  match t with TaskGet _ | TaskPut _ _ _ | TaskPost _ _ _ => true | _ => false end.

Definition run_node_task (t : NodeTask) : prog (RoutingNode (Child:=Child)) unit :=
  match t with
  | TaskGet name_and_type_id => Get name_and_type_id
  | TaskPut to type_id bytes => Put to type_id bytes
  | TaskPost to type_id functor => node_Post to type_id functor
  | TaskAddContact endpoint => modify (AddContact endpoint)
  | TaskStartAccepting port => modify (node_StartAccepting port)
  | TaskShutdown => modify node_Shutdown
  end.

(** The derived class is told of a new connection; the public functions it may
    call only post. *)
Context (HandleConnectionAdded : Address → Child → Child * list NodeTask).
Context (HandleGet : SourceAddress → Authority → NameAndTypeId → Child → Child).

Record System := mkSystem {
  sys_node : RoutingNode (Child:=Child);
  posted : list NodeTask;
  gone : bool (* the destructor has run up to [asio_service_] *)
}.
Implicit Types (s : System).

Definition set_node n s : System := mkSystem n (posted s) (gone s).

(** The constructor; it sets [on_connection_added_], and [on_receive_] stays
    empty. *)
Definition System_new (fob : Pmid) (random : MessageId) (c : Child) : System :=
  mkSystem (RoutingNode_new fob random c) [] false.

(** A public function is called. *)
Definition post (t : NodeTask) s : System := mkSystem (sys_node s) (posted s ++ [t]) (gone s).

(** [~RoutingNode] stops [crux_asio_service_]; the members are destroyed in the
    reverse order of their declaration, [asio_service_] after
    [connection_manager_]. *)
Definition Destroy_node s : System := mkSystem (sys_node s) (posted s) true.

(** The operations of the connection manager complete; [on_receive_] is not
    called. *)
Definition without_data {A} (r : completion A) : completion unit :=
  match r with Aborted => Aborted | Failed => Failed | Done _ => Done tt end.

Definition run_pending (on_added : option (Address → ConnectionManager → ConnectionManager))
    (p : Pending) (r : completion (list byte)) : prog ConnectionManager unit :=
  match p with
  | PAccept port socket => accept_done port socket (without_data r)
  | PAcceptExchange socket => accept_exchanged on_added socket r
  | PConnect endpoint socket assumed => connect_done endpoint socket assumed (without_data r)
  | PConnectExchange endpoint socket assumed => connect_exchanged on_added endpoint socket assumed r
  | PReceive guard => λ m, (Ok tt, receive_done (λ _ _ m, m) guard r m)
  end.

(** The peer that is in [m'] and was not in [m]. *)
Definition new_peer m m' : option Address :=
  head (filter (λ a, find_peer m a = None) (peers_ m').*1).

(** The [i]-th operation under way completes.  The handler for new connections
    is called with the new peer; a manager that calls its handler itself does the
    same ([NodeSystemProps.run_pending_hook]). *)
Definition complete (i : nat) (r : completion (list byte)) : prog System unit := λ s,
  let m := connection_manager_ (sys_node s) in
  match pending m !! i with
  | None => (Ok tt, s)
  | Some p =>
      let '(o, m') := run_pending None p r (finish i m) in
      let n := set_manager m' (sys_node s) in
      match new_peer m m' with
      | Some a =>
          let '(c, ts) := HandleConnectionAdded a (child n) in
          (o, mkSystem (set_child c n) (posted s ++ ts) (gone s))
      | None => (o, set_node n s)
      end
  end.

(** A function of the node is run. *)
Definition on_node (p : prog RoutingNode unit) : prog System unit := λ s,
  let '(o, n) := p (sys_node s) in (o, set_node n s).

(** The [i]-th lambda that was posted runs.  When the destructor has run, only
    [asio_service_] still has threads, and the members are gone. *)
Definition run_posted (i : nat) : prog System unit := λ s,
  match posted s !! i with
  | None => (Ok tt, s)
  | Some t =>
      let s' := mkSystem (sys_node s) (delete i (posted s)) (gone s) in
      if gone s then (if on_asio_service t then Undefined else Ok tt, s')
      else on_node (run_node_task t) s'
  end.

(** What happens to a node.  [MessageReceived] and [ConnectToCloseGroup] are
    called by nothing in the class; whatever a derived class makes of them is
    allowed for. *)
Inductive event :=
  | EPost (t : NodeTask)
  | ERun (i : nat)
  | EComplete (i : nat) (r : completion (list byte))
  | EReceived (bytes : SerialisedMessage)
  | EConnectToCloseGroup
  | EDestroy.

Definition sys_step (e : event) : prog System unit :=
  match e with
  | EPost t => modify (post t)
  | ERun i => run_posted i
  | EComplete i r => λ s, if gone s then (Ok tt, s) else complete i r s
  | EReceived bytes => λ s, if gone s then (Ok tt, s) else on_node (MessageReceived HandleGet bytes) s
  | EConnectToCloseGroup => λ s, if gone s then (Ok tt, s) else on_node ConnectToCloseGroup s
  | EDestroy => modify Destroy_node
  end.

Definition sys_run (es : list event) s : System := foldl (λ s e, (sys_step e s).2) s es.
End system.
