(* ===== verification/NodeSystemProps.v ===== *)
(** * A node in operation: properties

    The invariant of a node over everything that happens to it between its
    construction and its destruction, how the connection manager and the derived
    class work together, and what becomes of a peer once a datagram of it has
    arrived. *)

From S2P Require Import Prelude CppStd Identity Types Accumulator MessageHeader Codec ConcreteIO Messages.
From S2P Require Import Sentinel ConnectionManager ConnectionManagerProps RoutingNode RoutingNodeProps NodeSystem.

Section props.
Context `{IL : IdentityLaws} `{CO : !CryptoOps} `{AO : !ArchiveOps} `{FO : !FobOps}.
Context `{EO : !EndpointOps} `{LO : LruCacheOps} `{BM : BuildMode} {Child : Type}.
Implicit Types (n : RoutingNode (Child:=Child)) (m : ConnectionManager).

(** ** The connection manager and the derived class *)

Lemma find_peer_same m m' a :
  our_fob_ m' = our_fob_ m → peers_ m' = peers_ m → find_peer m' a = find_peer m a.
Proof. intros Hf Hp. unfold find_peer, peer_ltb, cm_our_id. by rewrite Hf, Hp. Qed.

(** None of these is new. *)
Lemma old_peers_filtered m (l : list Address) :
  map_ok (peer_ltb m) (peers_ m) → l ⊆ (peers_ m).*1 → filter (λ a, find_peer m a = None) l = [].
Proof.
  intros Hm Hsub. destruct (filter _ l) as [|a k] eqn:E; [done|].
  assert (a ∈ filter (λ a, find_peer m a = None) l) as Ha by (rewrite E; by left).
  apply list_elem_of_filter in Ha as [Hf ([k' p] & -> & Hin)%Hsub%list_elem_of_fmap].
  cbn [fst] in Hf. by rewrite (map_elem_find (peer_ltb m) _ _ _ Hm Hin : find_peer m k' = Some p) in Hf.
Qed.

Lemma new_peer_none m m' :
  map_ok (peer_ltb m) (peers_ m) → (peers_ m').*1 ⊆ (peers_ m).*1 → new_peer m m' = None.
Proof. intros Hm Hsub. unfold new_peer. by rewrite old_peers_filtered. Qed.

(** The manager with the new peer, before [on_connection_added_] is called. *)
Definition with_new_peer (info : NodeInfo) (socket : nat) m : ConnectionManager :=
  StartReceiving (next_object m)
    (set_peers (insert_by fst (peer_ltb m) (id info, PeerNode_new info socket (next_object m)) (peers_ m))
       (new_object m).2).

Lemma InsertPeer_eq on_added info socket m :
  map_ok (peer_ltb m) (peers_ m) →
  InsertPeer on_added info socket m =
    match find_peer m (id info), on_added with
    | Some _, _ => (new_object m).2
    | None, Some h => h (id info) (with_new_peer info socket m)
    | None, None => with_new_peer info socket m
    end.
Proof.
  intros Hm. unfold InsertPeer, find_peer. cbn [new_object].
  set (m1 := mkManager _ _ _ _ _ _ _ _ _). change (peer_ltb m1) with (peer_ltb m).
  change (peers_ m1) with (peers_ m).
  destruct (map_find (peer_ltb m) (id info) (peers_ m)) as [p|] eqn:Hf.
  - by rewrite (map_insert_present (peer_ltb m) _ _ p).
  - by rewrite (map_insert_absent (peer_ltb m)).
Qed.

Lemma with_new_peer_new info socket m m0 :
  map_ok (peer_ltb m) (peers_ m) → our_fob_ m0 = our_fob_ m → peers_ m0 = peers_ m →
  find_peer m (id info) = None → new_peer m0 (with_new_peer info socket m) = Some (id info).
Proof.
  intros Hm Hfob Hp Hf. unfold new_peer.
  assert (filter (λ a, find_peer m0 a = None) (peers_ (with_new_peer info socket m)).*1 = [id info]) as ->;
    [|done].
  apply Permutation_singleton_r. cbn [with_new_peer StartReceiving start set_peers peers_].
  rewrite insert_by_perm, fmap_cons. cbn [fst].
  rewrite filter_cons_True by by rewrite (find_peer_same m).
  rewrite old_peers_filtered; [done| |by rewrite Hp].
  unfold map_ok, peer_ltb, cm_our_id. by rewrite Hfob, Hp.
Qed.

Lemma receive_done_keys guard r m :
  manager_ok m → (peers_ (receive_done (λ _ _ m, m) guard r m)).*1 = (peers_ m).*1.
Proof.
  intros Hm. unfold receive_done. destruct (guarded_peer m guard) as [p|] eqn:Hg; [|by destruct r].
  destruct r as [| |datagram]; try done. destruct (guarded_peer_find m guard p Hm Hg) as (_ & Hf & _).
  pose proof (map_set_keys (peer_ltb m) (peer_id p) (received_buffer datagram p) (peers_ m) p
    (mo_sorted _ Hm) Hf) as Hk.
  destruct (negb _); [exact Hk|]. case_match; exact Hk.
Qed.

(** With a handler for new connections the manager does what it does without
    one, and the handler is called with the new peer, if there is one. *)
Lemma run_pending_hook h p r m m0 :
  manager_ok m → our_fob_ m0 = our_fob_ m → peers_ m0 = peers_ m →
  let '(o, m') := run_pending None p r m in
  run_pending (Some h) p r m = (o, match new_peer m0 m' with Some a => h a m' | None => m' end).
Proof.
  intros Hm Hfob Hp.
  assert (∀ m', (peers_ m').*1 = (peers_ m).*1 → new_peer m0 m' = None) as Hnone.
  { intros m' Hm'. apply new_peer_none; [|by rewrite Hm', Hp].
    unfold map_ok, peer_ltb, cm_our_id. rewrite Hfob, Hp. apply Hm. }
  assert (∀ info socket m1, our_fob_ m1 = our_fob_ m → peers_ m1 = peers_ m →
    InsertPeer (Some h) info socket m1 =
      match new_peer m0 (InsertPeer None info socket m1) with
      | Some a => h a (InsertPeer None info socket m1)
      | None => InsertPeer None info socket m1
      end) as Hins.
  { intros info socket m1 Hf1 Hp1.
    assert (map_ok (peer_ltb m1) (peers_ m1)) as Hm1
      by (unfold map_ok, peer_ltb, cm_our_id; rewrite Hf1, Hp1; apply Hm).
    rewrite !InsertPeer_eq by done. destruct (find_peer m1 (id info)) eqn:Ef;
      [by rewrite Hnone by by rewrite <-Hp1|].
    rewrite (with_new_peer_new info socket m1 m0); congruence || done. }
  destruct p; cbn [run_pending];
    unfold accept_done, accept_exchanged, connect_done, connect_exchanged.
  - assert (peers_ (start (PAcceptExchange socket) (StartAccepting port m)) = peers_ m) as Hsa
      by (unfold StartAccepting; by case_bool_decide).
    destruct (destroyed m), r; cbn [without_data]; by rewrite Hnone by first [done|by rewrite Hsa].
  - destruct (destroyed m), r as [| |data]; [by rewrite Hnone..|].
    destruct (Parse _ data); cbv beta iota; rewrite ?Hnone by done; [|done..]. by rewrite Hins.
  - destruct (negb _), r; cbn [without_data]; by rewrite Hnone.
  - destruct (negb _), r as [| |data]; [by rewrite Hnone..|].
    destruct (Parse _ data) as [pmid| | |]; cbv beta iota; rewrite ?Hnone by done; [|done..].
    destruct assumed as [info|]; [destruct (node_neb _ _); [by rewrite Hnone|]|]; by rewrite Hins.
  - by rewrite Hnone by by apply receive_done_keys.
Qed.

(** ** The invariant *)

(** The identity is that of the construction, nothing was sent, the sentinel has
    seen nothing and no handler for messages is set; the connection manager is
    well-formed. *)
Record node_ok (fob : Pmid) n : Prop := {
  no_pmid : our_pmid n = fob;
  no_bootstrap : bootstrap_node_ n = None;
  no_connected : connected_nodes_ n = [];
  no_sent : sent n = [];
  no_sentinel : sentinel_ n = Sentinel_new;
  no_fob : our_fob_ (connection_manager_ n) = Pmid_public fob;
  no_receive : on_receive_set (connection_manager_ n) = false;
  no_manager : manager_ok (connection_manager_ n)
}.

(** What the connection manager keeps of these, and which receive operations it
    may start: those of new peers. *)
Record manager_kept m m' : Prop := {
  mk_fob : our_fob_ m' = our_fob_ m;
  mk_receive : on_receive_set m' = on_receive_set m;
  mk_next : next_object m ≤ next_object m';
  mk_receives : ∀ g, g ∈ receives m' → g ∈ receives m ∨ next_object m ≤ g
}.

#[local] Instance manager_kept_preorder : PreOrder manager_kept.
Proof.
  split; [by intros m; split; auto|]. intros m1 m2 m3 [F1 R1 N1 H1] [F2 R2 N2 H2].
  split; [congruence|congruence|lia|]. intros g [[]%H1|]%H2; [by left|by right|right; lia].
Qed.

Lemma AddNode_kept assumed eps m : manager_kept m (cm_AddNode assumed eps m).
Proof.
  pose proof (public_step_shrinks _ _ (ps_AddNode m assumed eps)) as [Hf _ Hr Hn].
  split; [done| |done|rewrite Hr; auto]. unfold cm_AddNode. by destruct (connecting_socket _ _).
Qed.

Lemma StartAccepting_kept port m : manager_kept m (StartAccepting port m).
Proof.
  pose proof (public_step_shrinks _ _ (ps_StartAccepting m port)) as [Hf _ Hr Hn].
  split; [done| |done|rewrite Hr; auto]. unfold StartAccepting. by case_bool_decide.
Qed.

Lemma InsertPeer_kept info socket m :
  map_ok (peer_ltb m) (peers_ m) → manager_kept m (InsertPeer None info socket m).
Proof.
  intros Hm. rewrite InsertPeer_eq by done. destruct (find_peer _ _);
    (split; [done|done|cbn; lia|]); [by left|].
  intros g. unfold with_new_peer, StartReceiving. rewrite receives_receive.
  intros [| ->%list_elem_of_singleton]%elem_of_app; [by left|by right].
Qed.

Lemma start_kept x m : (∀ g, x ≠ PReceive g) → manager_kept m (start x m).
Proof. intros Hx. split; [done|done|done|]. rewrite receives_start by done. auto. Qed.

Lemma erase_connecting_kept e m : manager_kept m (erase_connecting e m).
Proof. split; [done|done|done|by left]. Qed.
#[local] Hint Resolve start_kept erase_connecting_kept : routing.

(** An operation completes: it is no longer under way. *)
Lemma finish_kept i x m : pending m !! i = Some x → manager_kept m (finish i m).
Proof.
  intros Hi. split; [done|done|done|]. intros g Hg. left.
  rewrite (receives_delete i x m Hi). apply elem_of_app. by right.
Qed.

Lemma run_pending_kept p r m :
  manager_ok m → on_receive_set m = false →
  manager_kept m (run_pending None p r m).2 ∧
  ((run_pending None p r m).1 = Ok tt ∨ (run_pending None p r m).1 = Throw parsing_error).
Proof.
  intros Hm Hrs.
  assert (∀ info socket m1, our_fob_ m1 = our_fob_ m → peers_ m1 = peers_ m → manager_kept m m1 →
    manager_kept m (InsertPeer None info socket m1)) as Hins.
  { intros info socket m1 Hf1 Hp1 Hk. etrans; [exact Hk|]. apply InsertPeer_kept.
    unfold map_ok, peer_ltb, cm_our_id. rewrite Hf1, Hp1. apply Hm. }
  destruct p; cbn [run_pending];
    unfold accept_done, accept_exchanged, connect_done, connect_exchanged, Parse.
  - destruct (destroyed m), r; cbn [without_data fst snd]; try (by split; [|left]).
    all: split; [|by left]; etrans; [apply StartAccepting_kept|]; by apply start_kept.
  - destruct (destroyed m), r as [| |data]; try (by split; [|left]).
    destruct (dec _ data) as [[pmid ?]|]; cbn [fst snd]; [split; [|by left]|by split; [|right]].
    by apply Hins.
  - destruct (negb _), r; cbn [without_data fst snd]; try (by split; [|left]).
    all: split; [|by left]; auto with routing.
  - destruct (negb _), r as [| |data]; try (by split; [|left]); cbn [snd fst];
      [split; [|by left]; auto with routing..|].
    destruct (dec _ data) as [[pmid ?]|]; cbn [fst snd]; [|split; [|by right]; auto with routing].
    destruct assumed as [info|]; [destruct (node_neb _ _)|]; (split; [|by left]);
      first [apply Hins; [done|done|]|idtac]; apply erase_connecting_kept.
  - split; [|by left]. cbn [snd]. unfold receive_done. destruct (guarded_peer m guard), r; try done.
    cbn [on_receive_set set_peers]. rewrite Hrs. split; [done|done|done|by left].
Qed.

(** ** The steps of the system *)
Context (HandleConnectionAdded : Address → Child → Child * list NodeTask).
Context (HandleGet : SourceAddress → Authority → NameAndTypeId → Child → Child).
Implicit Types (s : System (Child:=Child)) (e : event).

Notation step := (sys_step HandleConnectionAdded HandleGet).
Notation run := (sys_run HandleConnectionAdded HandleGet).

(** A change of the node that keeps all but its connection manager, cache,
    filter, message id and the state of the derived class. *)
Lemma node_ok_kept fob n n' :
  node_ok fob n → our_pmid n' = our_pmid n → bootstrap_node_ n' = bootstrap_node_ n →
  connected_nodes_ n' = connected_nodes_ n → sent n' = sent n → sentinel_ n' = sentinel_ n →
  manager_kept (connection_manager_ n) (connection_manager_ n') → manager_ok (connection_manager_ n') →
  node_ok fob n'.
Proof. intros [] ????? [] ?. split; congruence. Qed.

Definition proper_outcome (o : outcome unit) : Prop := o ≠ Undefined ∧ (o = AssertFailed → NDEBUG = false).

(** A run of [p] keeps the invariant. *)
Definition preserves fob (p : prog RoutingNode unit) : Prop :=
  ∀ n, node_ok fob n →
    let '(o, n') := p n in
    proper_outcome o ∧ node_ok fob n' ∧ manager_kept (connection_manager_ n) (connection_manager_ n').

Lemma manager_change_preserves fob (f : ConnectionManager → ConnectionManager) :
  (∀ m, manager_kept m (f m) ∧ (manager_ok m → manager_ok (f m))) →
  preserves fob (modify (λ n, set_manager (f (connection_manager_ n)) n)).
Proof.
  intros Hf n Hn. cbn. destruct (Hf (connection_manager_ n)) as [Hk Hok].
  split; [done|]. split; [|done]. eapply node_ok_kept; try done. by apply Hok, Hn.
Qed.

(** What the node does by itself. *)
Section steps.
Context (fob : Pmid) (Hfob : IsInitialised (Pmid_Name (Pmid_public fob)) = true).

Lemma takes_id_preserves p : takes_id p → preserves fob p.
Proof.
  intros Hp n Hn. rewrite Hp; [|by unfold node_OurId, our_public; rewrite (no_pmid _ _ Hn)|apply Hn].
  split; [done|]. split; [by destruct Hn|reflexivity].
Qed.

Lemma run_node_task_preserves t : preserves fob (run_node_task t).
Proof.
  destruct t as [name|to type_id bytes|to type_id functor|endpoint|port|]; cbn [run_node_task].
  - apply takes_id_preserves, Get_takes_id.
  - apply takes_id_preserves, Put_takes_id.
  - apply takes_id_preserves, Post_takes_id.
  - apply (manager_change_preserves fob (cm_AddNode None (EndpointPair_both endpoint))).
    intros m. split; [apply AddNode_kept|]. apply shrinks_ok, public_step_shrinks. constructor.
  - apply (manager_change_preserves fob (StartAccepting port)).
    intros m. split; [apply StartAccepting_kept|]. apply shrinks_ok, public_step_shrinks. constructor.
  - apply (manager_change_preserves fob Shutdown).
    intros m. split; [by split; auto|]. apply shrinks_ok, public_step_shrinks. constructor.
Qed.

Lemma MessageReceived_preserves bytes : preserves fob (MessageReceived HandleGet bytes).
Proof.
  intros n Hn. pose proof (MessageReceived_changed HandleGet bytes n) as Ho.
  destruct (MessageReceived _ _ _) as [o n']. destruct Ho as (H1 & H2 & f & n1 & [] & Hc). cbn in *.
  split; [done|]. pose proof (no_manager _ _ Hn) as Hm.
  assert (manager_kept (connection_manager_ n) (connection_manager_ n') ∧
          manager_ok (connection_manager_ n')) as [Hk Hok].
  { destruct Hc as [->|(info & eps & _ & ->)]; cbn; [by rewrite q_manager|]. split; [apply AddNode_kept|].
    eapply shrinks_ok; [apply public_step_shrinks; constructor|done]. }
  split; [|done]. destruct Hc as [->|(info & eps & _ & ->)]; eapply node_ok_kept; done || congruence.
Qed.

(** The completion of an operation of the connection manager. *)
Lemma complete_preserves i r s :
  node_ok fob (sys_node s) →
  let '(o, s') := complete HandleConnectionAdded i r s in
  proper_outcome o ∧ node_ok fob (sys_node s') ∧
  manager_kept (connection_manager_ (sys_node s)) (connection_manager_ (sys_node s')).
Proof.
  intros Hn. unfold complete. set (m := connection_manager_ (sys_node s)).
  destruct (pending m !! i) as [p|] eqn:Hi; [|by split_and!].
  pose proof (no_manager _ _ Hn : manager_ok m) as Hm. destruct (finish_ok i p m Hi Hm) as [Hf _].
  destruct (run_pending_kept p r (finish i m) Hf (no_receive _ _ Hn)) as [Hk Ho].
  assert (manager_ok (run_pending None p r (finish i m)).2) as Hok.
  { eapply (manager_step_ok None (λ _ _ m, m)); [done|done| |exact Hm]. destruct p; by econstructor. }
  destruct (run_pending None p r (finish i m)) as [o m']. cbn [fst snd] in *.
  assert (manager_kept m m') as Hk' by (etrans; [by eapply finish_kept|done]).
  assert (node_ok fob (set_manager m' (sys_node s))) as Hn' by by eapply node_ok_kept.
  assert (proper_outcome o) as Hpo by (destruct Ho as [->| ->]; done).
  destruct (new_peer m m') as [a|]; [|by split_and!].
  destruct (HandleConnectionAdded _ _) as [c ts]. split_and!; [done| |done]. by destruct Hn'.
Qed.

(** A step before the destruction, and a run. *)
Lemma step_preserves e s :
  e ≠ EDestroy → gone s = false → node_ok fob (sys_node s) →
  let '(o, s') := step e s in
  proper_outcome o ∧ gone s' = false ∧ node_ok fob (sys_node s') ∧
  manager_kept (connection_manager_ (sys_node s)) (connection_manager_ (sys_node s')).
Proof.
  intros He Hg Hn.
  assert (∀ p s0, preserves fob p → gone s0 = false → sys_node s0 = sys_node s →
    let '(o, s') := on_node p s0 in
    proper_outcome o ∧ gone s' = false ∧ node_ok fob (sys_node s') ∧
    manager_kept (connection_manager_ (sys_node s)) (connection_manager_ (sys_node s'))) as Hon.
  { intros p s0 Hp Hg0 Hs0. unfold on_node. specialize (Hp (sys_node s0)). rewrite Hs0 in *.
    destruct (p (sys_node s)) as [o n']. by destruct Hp as (? & ? & ?). }
  destruct e as [t|i|i r|bytes| |]; [..|done]; cbn [sys_step]; rewrite ?Hg.
  - by split_and!.
  - unfold run_posted. destruct (posted s !! i) as [t|]; [|by split_and!].
    rewrite Hg. by apply Hon; [apply run_node_task_preserves|..].
  - pose proof (complete_preserves i r s Hn) as Hc.
    assert (gone (complete HandleConnectionAdded i r s).2 = false) as Hgc
      by (unfold complete; by repeat case_match).
    destruct (complete _ _ _ _) as [o s']. by destruct Hc as (? & ? & ?).
  - by apply Hon; [apply MessageReceived_preserves|..].
  - by apply Hon; [apply takes_id_preserves, ConnectToCloseGroup_takes_id|..].
Qed.

Lemma run_preserves es s :
  EDestroy ∉ es → gone s = false → node_ok fob (sys_node s) →
  gone (run es s) = false ∧ node_ok fob (sys_node (run es s)) ∧
  manager_kept (connection_manager_ (sys_node s)) (connection_manager_ (sys_node (run es s))).
Proof.
  revert s. induction es as [|e es IH]; intros s He Hg Hn; [by split_and!|].
  apply not_elem_of_cons in He as [He Hes]. unfold sys_run. cbn [foldl].
  pose proof (step_preserves e s (not_eq_sym He) Hg Hn) as Hs. destruct (step e s) as [o s']. cbn [snd].
  destruct Hs as (_ & Hg' & Hn' & Hk). destruct (IH s' Hes Hg' Hn') as (H1 & H2 & H3).
  split; [done|]. split; [done|]. by etrans.
Qed.

Lemma node_ok_new random (c : Child) : node_ok fob (sys_node (System_new fob random c)).
Proof. split; try done. split; constructor. Qed.
End steps.

(** C8: A node is safe from its construction to its destruction: whatever public
    functions are called, in whatever order the lambdas they post run and the
    operations of the connection manager complete, with whatever results,
    whatever messages are handled and whatever the derived class posts when it
    is told of a new connection, no step runs into undefined behaviour (nor
    aborts in a release build), and the identity of the node stays, its peers
    are ordered by closeness and known under the identity they presented, and
    nothing is sent and no message reaches [MessageReceived] from a peer. *)
Theorem node_runs_safely fob random c es e :
  IsInitialised (Pmid_Name (Pmid_public fob)) = true → EDestroy ∉ es → e ≠ EDestroy →
  let s := run es (System_new fob random c) in
  node_ok fob (sys_node s) ∧ proper_outcome (step e s).1.
Proof.
  intros Hfob Hes He s.
  destruct (run_preserves fob Hfob es (System_new fob random c) Hes eq_refl (node_ok_new fob random c))
    as (Hg & Hn & _).
  split; [done|]. pose proof (step_preserves fob Hfob e s He Hg Hn) as Hs.
  destruct (step e s) as [o s']. apply Hs.
Qed.

(** As no handler for messages is set, a peer is heard once: when a receive
    operation for it has completed, whatever it brought, none is under way for
    that peer at any later time. *)
Theorem peer_heard_once fob random c es i r g es' :
  IsInitialised (Pmid_Name (Pmid_public fob)) = true → EDestroy ∉ es ++ es' →
  let s := run es (System_new fob random c) in
  pending (connection_manager_ (sys_node s)) !! i = Some (PReceive g) →
  g ∉ receives (connection_manager_ (sys_node (run es' (step (EComplete i r) s).2))).
Proof.
  intros Hfob [Hes Hes']%not_elem_of_app s Hi.
  destruct (run_preserves fob Hfob es (System_new fob random c) Hes eq_refl (node_ok_new fob random c))
    as (Hg & Hn & _). fold s in Hg, Hn.
  pose proof (step_preserves fob Hfob (EComplete i r) s ltac:(done) Hg Hn) as Hs.
  set (m := connection_manager_ (sys_node s)) in *.
  destruct (finish_ok i _ m Hi (no_manager _ _ Hn)) as [Hf Hfr].
  destruct (Hfr g eq_refl) as [Hlt Hno].
  assert (manager_kept (finish i m) (connection_manager_ (sys_node (step (EComplete i r) s).2))) as Hk.
  { cbn [sys_step]. rewrite Hg. unfold complete. fold m. rewrite Hi.
    destruct (run_pending_kept (PReceive g) r (finish i m) Hf (no_receive _ _ Hn)) as [Hk _].
    destruct (run_pending _ _ _ _) as [o m']. cbn [snd] in Hk.
    destruct (new_peer m m'); [|done]. by destruct (HandleConnectionAdded _ _). }
  destruct (step (EComplete i r) s) as [o s']. cbn [snd] in *. destruct Hs as (_ & Hg' & Hn' & _).
  destruct (run_preserves fob Hfob es' s' Hes' Hg' Hn') as (_ & _ & Hk').
  intros Hin. apply (mk_receives _ _ (transitivity Hk Hk')) in Hin as [|Hle]; [done|]. cbn in Hle. lia.
Qed.

(** The destructor stops only [crux_asio_service_]: a request that was posted to
    [asio_service_] and runs while the node is destroyed uses members that are
    gone. *)
Theorem request_during_destruction fob random c t :
  on_asio_service t = true →
  (step (ERun 0) (run [EPost t; EDestroy] (System_new fob random c))).1 = Undefined.
Proof. by destruct t. Qed.
End props.

(** ** A concrete node

    It accepts a connection of the node 7, and the derived class looks up its
    name when it is told. *)
Module SystemWitness.
Import Concrete NodeWitness.
#[local] Existing Instance release_build.

Definition on_connection (a : Address) (c : names) : names * list NodeTask :=
  (c, [TaskGet (a, 0%N)]).
Definition identity_of_7 : SerialisedMessage := Serialise ar_PublicPmid (Pmid_public (fob 7)).
Definition events : list event :=
  [EPost (TaskStartAccepting 5483); ERun 0; EComplete 0 (Done []); EComplete 1 (Done identity_of_7)].

#[local] Notation node_after := (sys_run on_connection record_get events (System_new (fob 1) 5%Z [])).

Lemma events_reach :
  (peers_ (connection_manager_ (sys_node node_after))).*1 = [addr 7] ∧
  posted node_after = [TaskGet (addr 7, 0%N)] ∧
  pending (connection_manager_ (sys_node node_after)) !! 1 = Some (PReceive 2).
Proof. split_and!; reflexivity. Qed.

Lemma events_alive : EDestroy ∉ events ++ [ERun 0].
Proof. unfold events. cbn [app]. rewrite !not_elem_of_cons. split_and!; [discriminate..|apply not_elem_of_nil]. Qed.

Lemma node_runs_safely_witness :
  let s := node_after in
  node_ok (fob 1) (sys_node s) ∧
  proper_outcome (sys_step on_connection record_get (EReceived [1%Z]) s).1.
Proof.
  refine (node_runs_safely on_connection record_get (fob 1) 5%Z [] events (EReceived [1%Z]) _ _ _).
  - reflexivity.
  - exact (proj1 (proj1 (not_elem_of_app _ _ _) events_alive)).
  - discriminate.
Defined.

Lemma peer_heard_once_witness :
  let s := node_after in
  2 ∉ receives (connection_manager_ (sys_node
        (sys_run on_connection record_get [ERun 0]
           (sys_step on_connection record_get (EComplete 1 (Done [5%Z])) s).2))).
Proof.
  refine (peer_heard_once on_connection record_get (fob 1) 5%Z [] events 1 (Done [5%Z]) 2 [ERun 0] _ _ _).
  - reflexivity.
  - exact events_alive.
  - exact (proj2 (proj2 events_reach)).
Defined.
End SystemWitness.
