(* ===== verification/AccountTransferInfo.v ===== *)
(** * Account transfer information ([account_transfer_info.h], [.cc])

    The base class of the accounts that are merged by the sentinel, and the
    pair of a name and a type that identifies one.  [ThisTypeId] is virtual and
    an argument.  [DataTypeId] is maidsafe-common's tagged [uint32_t]: what is
    used of it is a section parameter. *)

From S2P Require Import Prelude CppStd Identity Types MessageHeader Codec ConcreteIO.

Section account.
Context `{AO : ArchiveOps}.

(** [DataTypeId (value)], [operator==] and [operator<] *)
Context (DataTypeId_make : Z → DataTypeId).
Context `{EqDecision DataTypeId} (type_ltb : DataTypeId → DataTypeId → bool).

(** ** [AccountTransferInfo::NameAndTypeId] *)
Record AccountNameAndTypeId := mkAccountName {
  account_name : Identity;
  account_type_id : DataTypeId
}.

#[global] Instance AccountNameAndTypeId_eq_dec : EqDecision AccountNameAndTypeId.
Proof. solve_decision. Defined.

(** [NameAndTypeId ()]: the type is the greatest [uint32_t]. *)
Definition AccountNameAndTypeId_default : AccountNameAndTypeId :=
  mkAccountName Identity_default (DataTypeId_make (2 ^ 32 - 1)).

Definition AccountNameAndTypeId_codec : Codec AccountNameAndTypeId :=
  codec_iso (λ n, (account_name n, account_type_id n)) (λ '(i, t), mkAccountName i t)
    (codec_pair ar_Identity ar_DataTypeId).

(** The move constructor and the move assignment. *)
Definition AccountNameAndTypeId_move (other : AccountNameAndTypeId) : AccountNameAndTypeId :=
  mkAccountName (account_name other) (account_type_id other).

Definition account_tie (n : AccountNameAndTypeId) := (account_name n, account_type_id n).

Definition account_eqb (lhs rhs : AccountNameAndTypeId) : bool :=
  bool_decide (account_tie lhs = account_tie rhs).
Definition account_neb (lhs rhs : AccountNameAndTypeId) : bool := negb (account_eqb lhs rhs).
Definition account_ltb (lhs rhs : AccountNameAndTypeId) : bool :=
  pair_ltb Identity_ltb type_ltb (account_tie lhs) (account_tie rhs).
Definition account_gtb (lhs rhs : AccountNameAndTypeId) : bool := account_ltb rhs lhs.
Definition account_leb (lhs rhs : AccountNameAndTypeId) : bool := negb (account_gtb lhs rhs).
Definition account_geb (lhs rhs : AccountNameAndTypeId) : bool := negb (account_ltb lhs rhs).

(** ** [AccountTransferInfo] *)
Record AccountTransferInfo := mkAccountTransferInfo { ati_name_ : Identity }.

Definition AccountTransferInfo_default : AccountTransferInfo := mkAccountTransferInfo Identity_default.

(** The move constructor and the move assignment. *)
Definition AccountTransferInfo_move (other : AccountTransferInfo) : AccountTransferInfo :=
  mkAccountTransferInfo (ati_name_ other).

Definition ati_IsInitialised (info : AccountTransferInfo) : bool := IsInitialised (ati_name_ info).

Definition AccountTransferInfo_new (name : Identity) : outcome AccountTransferInfo :=
  let info := mkAccountTransferInfo name in
  if negb (ati_IsInitialised info) then Throw uninitialised else Ok info.

Definition Name (info : AccountTransferInfo) : outcome Identity :=
  if negb (ati_IsInitialised info) then Throw uninitialised else Ok (ati_name_ info).

Definition TypeId (ThisTypeId : Z) (info : AccountTransferInfo) : outcome DataTypeId :=
  if negb (ati_IsInitialised info) then Throw uninitialised else Ok (DataTypeId_make ThisTypeId).

Definition NameAndType (ThisTypeId : Z) (info : AccountTransferInfo) : outcome AccountNameAndTypeId :=
  if negb (ati_IsInitialised info) then Throw uninitialised
  else type_id ← TypeId ThisTypeId info; Ok (mkAccountName (ati_name_ info) type_id).

Definition account_save (info : AccountTransferInfo) : outcome (list byte) :=
  if negb (ati_IsInitialised info) then Throw uninitialised
  else Ok (Serialise ar_Identity (ati_name_ info)).

Definition account_load (s : list byte) : outcome (AccountTransferInfo * list byte) :=
  '(name, s') ← ParseNext ar_Identity s;
  let info := mkAccountTransferInfo name in
  if negb (ati_IsInitialised info) then Throw parsing_error else Ok (info, s').

(** ** Properties *)

(** No member is left out of a move. *)
Lemma account_moves_same (n : AccountNameAndTypeId) (info : AccountTransferInfo) :
  AccountNameAndTypeId_move n = n ∧ AccountTransferInfo_move info = info.
Proof. by destruct n, info. Qed.

(** An account with a name is made, answers with its name and type, and
    comes back from an archive as it was saved; without a name the constructor
    and every accessor throw [uninitialised] and nothing is written, and what
    [load] returns always has a name. *)
Theorem account_info_lifecycle `{!ArchiveLaws} type name rest s :
  let info := mkAccountTransferInfo name in
  (if IsInitialised name
   then AccountTransferInfo_new name = Ok info ∧ Name info = Ok name ∧
        NameAndType type info = Ok (mkAccountName name (DataTypeId_make type)) ∧
        ∃ bytes, account_save info = Ok bytes ∧ account_load (bytes ++ rest) = Ok (info, rest)
   else AccountTransferInfo_new name = Throw uninitialised ∧ Name info = Throw uninitialised ∧
        TypeId type info = Throw uninitialised ∧ NameAndType type info = Throw uninitialised ∧
        account_save info = Throw uninitialised) ∧
  (∀ info' s', account_load s = Ok (info', s') → ati_IsInitialised info' = true).
Proof.
  cbn zeta. unfold AccountTransferInfo_new, Name, NameAndType, TypeId, account_save, account_load,
    ati_IsInitialised. cbn [ati_name_]. split.
  - destruct (IsInitialised name) eqn:E; cbn [negb]; [|done]. split_and!; [done..|].
    eexists. split; [done|]. rewrite (ParseNext_Serialise (λ _, True)), bind_Ok by (done || apply rt_Identity).
    cbn [ati_name_]. by rewrite E.
  - intros info' s'. destruct (ParseNext ar_Identity s) as [[i r]| | |]; cbn; try done.
    destruct (IsInitialised i) eqn:E; [|done]. by intros [= <- <-].
Qed.

(** The comparison operators of a name with a type agree with each other:
    [==] is equality, of [<], [==] and [>] exactly one holds, [<=] and [>=] are
    the complements, and [<] is transitive. *)
Theorem account_comparisons `{!IdentityLaws} `{!StrictTotal type_ltb} (a b c : AccountNameAndTypeId) :
  (account_eqb a b = true ↔ a = b) ∧ account_neb a b = negb (account_eqb a b) ∧
  account_leb a b = account_ltb a b || account_eqb a b ∧
  account_geb a b = account_gtb a b || account_eqb a b ∧
  account_ltb a b && account_gtb a b = false ∧
  (account_ltb a b = true → account_ltb b c = true → account_ltb a c = true).
Proof.
  assert (StrictTotal account_ltb) as Ht by (apply (total_inj account_tie); [apply _|];
    by intros [] [] [= -> ->]).
  assert (account_eqb a b = true ↔ a = b) as Heq.
  { unfold account_eqb. rewrite bool_decide_eq_true. destruct a, b; cbn.
    split; [by intros [= -> ->]|by intros ->]. }
  destruct (comparisons_agree account_ltb account_eqb a b Heq) as (Hle & Hge & Hex).
  split_and!; try done. apply (ltb_trans (ltb:=account_ltb)).
Qed.
End account.

(** ** Witnesses *)
Module AccountWitness.
Import Concrete.

Definition name_7 : Identity := 7%N.
Definition make (z : Z) : DataTypeId := Z.to_N z.
Definition make_name (i : N) (t : N) : AccountNameAndTypeId := mkAccountName (i : Identity) (t : DataTypeId).

Lemma account_info_lifecycle_witness :
  let info := mkAccountTransferInfo name_7 in
  (AccountTransferInfo_new name_7 = Ok info ∧ Name info = Ok name_7 ∧
   NameAndType make 5 info = Ok (mkAccountName name_7 (make 5)) ∧
   ∃ bytes, account_save info = Ok bytes ∧ account_load (bytes ++ [3%Z]) = Ok (info, [3%Z])) ∧
  (∀ info' s', account_load [9%Z] = Ok (info', s') → ati_IsInitialised info' = true).
Proof. exact (account_info_lifecycle make 5 name_7 [3%Z] [9%Z]). Defined.

Lemma account_comparisons_witness :
  let a := make_name 1 2 in let b := make_name 1 3 in let c := make_name 2 0 in
  (account_eqb a b = true ↔ a = b) ∧ account_neb a b = negb (account_eqb a b) ∧
  account_leb N.ltb a b = account_ltb N.ltb a b || account_eqb a b ∧
  account_geb N.ltb a b = account_gtb N.ltb a b || account_eqb a b ∧
  account_ltb N.ltb a b && account_gtb N.ltb a b = false ∧
  (account_ltb N.ltb a b = true → account_ltb N.ltb b c = true → account_ltb N.ltb a c = true).
Proof.
  exact (account_comparisons (N.ltb : DataTypeId → DataTypeId → bool) (make_name 1 2) (make_name 1 3)
           (make_name 2 0)).
Defined.
End AccountWitness.
