(* ===== verification/BootstrapHandler.v ===== *)
(** * The bootstrap contacts ([bootstrap_handler.h], [.cc])

    [BootstrapHandler] keeps contacts in a table of a SQLite database.  The
    database is a parameter: a table of rows whose first column is the primary
    key, with what SQL documents of the three statements used.  Readings of the
    steady clock are arguments, in nanoseconds.  A transaction that is not
    committed leaves the table as it was. *)

From stdpp Require Import strings.
From S2P Require Import Prelude CppStd Identity Types MessageHeader Codec ConcreteIO.

(** ** Where the file is *)

(** The platform the code is compiled for: with a path given to the build, or one
    of the three that are known, or another.  On Windows the value of the variable
    [ALLUSERSPROFILE], a null pointer when it is not set. *)
Inductive Platform :=
  | BuildPath (path : string)
  | Win32 (all_users_profile : option string)
  | Apple
  | Linux
  | OtherPlatform.

(** ['/'] *)
Definition is_separator (c : Ascii.ascii) : bool := bool_decide (c = Ascii.ascii_of_nat 47).

(** [lhs / rhs] of [boost::filesystem::path]: a separator goes between when
    neither side has one there. *)
Definition path_append (lhs rhs : string) : string :=
  match rhs with
  | EmptyString => lhs
  | String c _ =>
      match last (String.list_ascii_of_string lhs) with
      | Some l => if is_separator l || is_separator c then lhs +:+ rhs else lhs +:+ "/" +:+ rhs
      | None => rhs
      end
  end.

Definition bootstrap_file_name : string := "bootstrap.cache".

Definition GetBootstrapFilePath (platform : Platform) (initial_path : string) (exists_file : string → bool)
    : outcome string :=
  let file_path := path_append initial_path bootstrap_file_name in
  if exists_file file_path then Ok file_path
  else match platform with
       | BuildPath path => Ok path
       | Win32 (Some profile) => Ok (path_append (path_append profile "MaidSafe") bootstrap_file_name)
       | Win32 None => Undefined
       | Apple =>
           Ok (path_append (path_append "/Library/Application Support/" "MaidSafe") bootstrap_file_name)
       | Linux => Ok (path_append (path_append (path_append "/opt/" "maidsafe") "sbin") bootstrap_file_name)
       | OtherPlatform => Throw invalid_argument
       end.

(** ** What is not of this repository *)

(** [NODEID], [PUBLIC_KEY] and [ENDPOINT] of a row. *)
Definition Row : Type := list byte * list byte * list byte.
Definition row_key (r : Row) : list byte := r.1.1.

Class DatabaseOps := {
  Database : Type;
  InsertLimit : Database → Z; (* an [int], the number of variables a statement can have *)
  insert_or_replace : list Row → Database → Database; (* [INSERT OR REPLACE ... VALUES ...] *)
  delete_all : Database → Database; (* [DELETE FROM] *)
  select_all : Database → list Row (* [SELECT], in an order that is not specified *)
}.

Class DatabaseLaws `{DatabaseOps} : Prop := {
  InsertLimit_int : ∀ d, (- 2 ^ 31 ≤ InsertLimit d < 2 ^ 31)%Z;
  insert_rows : ∀ rows d, rows ≠ [] →
    insert_or_replace rows d = foldl (λ d r, insert_or_replace [r] d) d rows;
  select_insert : ∀ r d r',
    r' ∈ select_all (insert_or_replace [r] d) ↔ r' = r ∨ (r' ∈ select_all d ∧ row_key r' ≠ row_key r);
  select_delete : ∀ d, select_all (delete_all d) = [];
  select_keys : ∀ d, NoDup (row_key <$> select_all d)
}.

Section bootstrap.
Context `{AO : ArchiveOps} `{EO : !EndpointOps} `{DO : DatabaseOps} `{BM : BuildMode}.

Definition MaxListSize : nat := 1500.
(** [std::chrono::hours (4)] *)
Definition UpdateDuration : Z := 4 * 3600 * 10 ^ 9.

Record BootstrapHandler := mkBootstrap {
  database_ : Database;
  last_updated_ : Z
}.
Implicit Types (h : BootstrapHandler).

Definition set_database (d : Database) h : BootstrapHandler := mkBootstrap d (last_updated_ h).

(** The constructor; the database is the one the file holds. *)
Definition BootstrapHandler_new (d : Database) (now : Z) : BootstrapHandler := mkBootstrap d now.

Definition OutOfDate (now : Z) h : bool := (last_updated_ h <? now + UpdateDuration)%Z.
Definition ResetTimer (now : Z) h : BootstrapHandler := mkBootstrap (database_ h) now.

(** The blobs bound for a contact. *)
Definition contact_row (c : Contact) : Row :=
  (Serialise ar_Identity (contact_id c), Serialise ar_PublicKey (contact_public_key c),
   Serialise Endpoint_codec (external (endpoint_pair c))).

(** One batch: the assertions of the inner loop, then the statement.  A batch
    without contacts would still have one group of variables, none of them
    bound, and fail on the [NOT NULL] key. *)
Definition insert_batch (batch : list Contact) : prog BootstrapHandler unit := λ h,
  match cpp_assert (forallb (λ c, bool_decide (external (endpoint_pair c) = local (endpoint_pair c)))
                      batch) with
  | Ok _ =>
      match batch with
      | [] => (Throw database_error, h)
      | _ => (Ok tt, set_database (insert_or_replace (contact_row <$> batch) (database_ h)) h)
      end
  | _ => (AssertFailed, h)
  end.

(** The loop over the batches; [contacts] are those from index [i] on.  A round
    that succeeds takes at least one, so their number is enough fuel. *)
Fixpoint insert_loop (fuel insertlimit : nat) (contacts : list Contact)
    : prog BootstrapHandler unit :=
  match contacts with
  | [] => mret tt
  | _ =>
      match fuel with
      | 0 => λ h, (Undefined, h)
      | S fuel =>
          let thisbatch := Nat.min (length contacts) insertlimit in
          insert_batch (take thisbatch contacts);;
          insert_loop fuel insertlimit (drop insertlimit contacts)
      end
  end.

(** The limit is an [int] that is cast to [std::size_t]. *)
Definition InsertBootstrapContacts (bootstrap_contacts : list Contact) : prog BootstrapHandler unit := λ h,
  let insertlimit := Z.to_nat (InsertLimit (database_ h) mod 2 ^ 64 / 3) in
  insert_loop (length bootstrap_contacts) insertlimit bootstrap_contacts h.

Definition RemoveBootstrapContacts : prog BootstrapHandler unit :=
  modify (λ h, set_database (delete_all (database_ h)) h).

(** [sqlite::Transaction]: rolled back when an exception leaves the block. *)
Definition transaction (p : prog BootstrapHandler unit) : prog BootstrapHandler unit := λ h,
  match p h with
  | (Throw e, _) => (Throw e, h)
  | r => r
  end.

Definition CheckBootstrapContacts : prog BootstrapHandler unit := mret tt.

Definition AddBootstrapContacts (now : Z) (bootstrap_contacts : list Contact)
    : prog BootstrapHandler unit :=
  transaction (InsertBootstrapContacts bootstrap_contacts);;
  h ← get;
  if OutOfDate now h then CheckBootstrapContacts else mret tt.

Definition ReplaceBootstrapContacts (bootstrap_contacts : list Contact) : prog BootstrapHandler unit :=
  let bootstrap_contacts :=
    if MaxListSize <? length bootstrap_contacts then take MaxListSize bootstrap_contacts
    else bootstrap_contacts in
  transaction (RemoveBootstrapContacts;; InsertBootstrapContacts bootstrap_contacts).

(** The contact of a row; its local endpoint is the stored one too. *)
Definition row_contact (r : Row) : outcome Contact :=
  id ← Parse ar_Identity r.1.1;
  endpoint ← Parse Endpoint_codec r.2;
  key ← Parse ar_PublicKey r.1.2;
  Ok (Contact_both id endpoint key).

Fixpoint read_rows (rows : list Row) : outcome (list Contact) :=
  match rows with
  | [] => Ok []
  | r :: rows => c ← row_contact r; cs ← read_rows rows; Ok (c :: cs)
  end.

Definition ReadBootstrapContacts h : outcome (list Contact) := read_rows (select_all (database_ h)).
End bootstrap.

(** ** Properties *)
Section props.
Context `{AL : ArchiveLaws} `{EO : !EndpointOps} `{EL : !EndpointLaws} `{DL : DatabaseLaws}
  `{BM : BuildMode}.
Implicit Types (h : BootstrapHandler) (cs : list Contact).

(** The contacts the handler is made for: reachable at one endpoint, which the
    archive keeps. *)
Definition storable (c : Contact) : Prop :=
  external (endpoint_pair c) = local (endpoint_pair c) ∧ portable (external (endpoint_pair c)).

(** Inserting the rows one by one. *)
Definition insert_each (rows : list Row) (d : Database) : Database :=
  foldl (λ d r, insert_or_replace [r] d) d rows.

Lemma insert_batch_Ok cs h :
  cs ≠ [] → Forall storable cs →
  insert_batch cs h = (Ok tt, set_database (insert_each (contact_row <$> cs) (database_ h)) h).
Proof.
  intros Hne Hs. unfold insert_batch.
  assert (forallb (λ c, bool_decide (external (endpoint_pair c) = local (endpoint_pair c))) cs = true) as ->.
  { apply forallb_forall. intros c Hc%list_elem_of_In. rewrite Forall_forall in Hs.
    apply bool_decide_eq_true_2, (Hs c Hc). }
  rewrite cpp_assert_true. unfold insert_each.
  rewrite <-insert_rows by by destruct cs. by destruct cs.
Qed.

Lemma insert_each_app rows1 rows2 d :
  insert_each (rows1 ++ rows2) d = insert_each rows2 (insert_each rows1 d).
Proof. apply foldl_app. Qed.

Lemma insert_loop_Ok fuel limit cs h :
  0 < limit → length cs ≤ fuel → Forall storable cs →
  insert_loop fuel limit cs h
  = (Ok tt, set_database (insert_each (contact_row <$> cs) (database_ h)) h).
Proof.
  intros Hl. revert cs h. induction fuel as [|fuel IH]; intros cs h Hf Hs;
    (destruct (decide (cs = [])) as [->|Hne]; [by destruct h|]).
  { destruct cs; [done|cbn in Hf; lia]. }
  assert (insert_loop (S fuel) limit cs =
    (insert_batch (take (Nat.min (length cs) limit) cs);; insert_loop fuel limit (drop limit cs)))
    as -> by by destruct cs.
  assert (take (Nat.min (length cs) limit) cs = take limit cs) as ->.
  { destruct (Nat.min_spec (length cs) limit) as [[? ->]|[? ->]]; [|done].
    by rewrite !take_ge by lia. }
  erewrite prog_bind_Ok; [|apply insert_batch_Ok; [|by apply Forall_take]].
  - rewrite IH; [..|by apply Forall_drop].
    + cbn. by rewrite <-insert_each_app, <-fmap_app, take_drop.
    + rewrite length_drop. lia.
  - destruct cs; [done|]. by destruct limit; [lia|].
Qed.

Lemma InsertBootstrapContacts_Ok cs h :
  (3 ≤ InsertLimit (database_ h))%Z → Forall storable cs →
  InsertBootstrapContacts cs h
  = (Ok tt, set_database (insert_each (contact_row <$> cs) (database_ h)) h).
Proof.
  intros Hl Hs. apply insert_loop_Ok; [|done|done].
  pose proof (InsertLimit_int (database_ h)). rewrite Z.mod_small by lia.
  pose proof (Z.div_le_lower_bound _ 3 1 ltac:(lia) Hl). lia.
Qed.


Lemma select_each rows d r :
  NoDup (row_key <$> rows) →
  r ∈ select_all (insert_each rows d) ↔
    r ∈ rows ∨ (r ∈ select_all d ∧ row_key r ∉ row_key <$> rows).
Proof.
  revert d. induction rows as [|r0 rows IH]; intros d Hn; cbn [insert_each foldl fmap list_fmap].
  { set_solver. }
  apply NoDup_cons in Hn as [Hn0 Hn]. change (foldl _ ?x rows) with (insert_each rows x).
  rewrite IH, select_insert by done.
  rewrite !elem_of_cons. naive_solver.
Qed.

Lemma row_contact_Ok c :
  storable c → row_contact (contact_row c) = Ok c.
Proof.
  destruct c as [i [l e] k]. intros [Heq Hp]. cbn in Heq, Hp. subst l.
  unfold row_contact, contact_row. cbn [fst snd contact_id contact_public_key endpoint_pair external].
  rewrite (Parse_Serialise (λ _, True) ar_Identity), bind_Ok by (done || apply rt_Identity).
  rewrite (Parse_Serialise portable), bind_Ok by (done || apply rt_Endpoint).
  by rewrite (Parse_Serialise (λ _, True) ar_PublicKey) by (done || apply rt_PublicKey).
Qed.

Lemma read_rows_Ok cs : Forall storable cs → read_rows (contact_row <$> cs) = Ok cs.
Proof.
  induction 1 as [|c cs Hc Hcs IH]; [done|]. cbn [read_rows fmap list_fmap].
  by rewrite (row_contact_Ok c Hc), bind_Ok, IH.
Qed.

Lemma read_rows_perm rows rows' l :
  rows ≡ₚ rows' → read_rows rows = Ok l → ∃ l', read_rows rows' = Ok l' ∧ l' ≡ₚ l.
Proof.
  intros Hp. revert l. induction Hp as [|r rows rows' _ IH|r1 r2 rows|? ? ? _ IH1 _ IH2]; intros l0.
  - by exists l0.
  - cbn. destruct (row_contact r) as [c| | |]; cbn; try done.
    destruct (read_rows rows) as [l1| | |]; cbn; try done. intros [= <-].
    destruct (IH l1 eq_refl) as (l' & -> & Hl). exists (c :: l'). split; [done|by constructor].
  - cbn. destruct (row_contact r2) as [c2| | |], (row_contact r1) as [c1| | |]; cbn; try done.
    destruct (read_rows rows) as [l1| | |]; cbn; try done. intros [= <-].
    eexists. split; [done|]. constructor.
  - intros [l1 [Hl1 Hp1]]%IH1. destruct (IH2 _ Hl1) as (l2 & Hl2 & Hp2). exists l2. split; [done|by etrans].
Qed.

Lemma contact_keys cs : NoDup (contact_id <$> cs) → NoDup (row_key <$> (contact_row <$> cs)).
Proof.
  rewrite <-list_fmap_compose. change (row_key ∘ contact_row) with (Serialise ar_Identity ∘ contact_id).
  rewrite list_fmap_compose. apply NoDup_fmap_2. intros i j Hij.
  apply (f_equal (Parse ar_Identity)) in Hij.
  rewrite !(Parse_Serialise (λ _, True)) in Hij by (done || apply rt_Identity). by injection Hij.
Qed.

(** C37: What replaces the contacts is read back: after [ReplaceBootstrapContacts]
    the contacts read are, in some order and each once, the first [MaxListSize]
    of those given, whatever the table held before, when the contacts given have
    different ids and endpoints that can be stored and a statement can have the
    variables of one contact. *)
Theorem Replace_Read_roundtrip cs h :
  (3 ≤ InsertLimit (delete_all (database_ h)))%Z → Forall storable cs → NoDup (contact_id <$> cs) →
  ∃ h' l, ReplaceBootstrapContacts cs h = (Ok tt, h') ∧ ReadBootstrapContacts h' = Ok l ∧
    l ≡ₚ take MaxListSize cs.
Proof.
  intros Hl Hs Hn. set (cs' := take MaxListSize cs).
  assert (Forall storable cs') as Hs' by by apply Forall_take.
  assert (NoDup (contact_id <$> cs')) as Hn'.
  { unfold cs'. rewrite fmap_take. by eapply sublist_NoDup; [apply Hn|apply sublist_take]. }
  set (h1 := set_database (delete_all (database_ h)) h).
  set (h' := set_database (insert_each (contact_row <$> cs') (delete_all (database_ h))) h).
  assert (ReplaceBootstrapContacts cs h = (Ok tt, h')) as Hr.
  { unfold ReplaceBootstrapContacts, transaction, RemoveBootstrapContacts.
    assert ((if MaxListSize <? length cs then take MaxListSize cs else cs) = cs') as ->.
    { destruct (Nat.ltb_spec MaxListSize (length cs)); [done|]. unfold cs'. by rewrite take_ge. }
    rewrite (prog_bind_Ok _ _ _ h1 tt) by done.
    by rewrite (InsertBootstrapContacts_Ok cs' h1 Hl Hs'). }
  exists h'. destruct (read_rows_perm (contact_row <$> cs') (select_all (database_ h')) cs')
    as (l & Hread & Hp); [|by apply read_rows_Ok|by exists l].
  apply NoDup_Permutation.
  - by eapply NoDup_fmap_1, contact_keys.
  - by eapply NoDup_fmap_1, select_keys.
  - intros r. cbn [database_ h' set_database].
    rewrite select_each, select_delete by by apply contact_keys. set_solver.
Qed.

(** [OutOfDate] does not say whether the contacts are out of date: the clock
    being steady, it holds from the moment they were updated on, as the
    duration is added to the present and not to the last update. *)
Theorem OutOfDate_always (now later : Z) h :
  (now ≤ later)%Z → OutOfDate later (ResetTimer now h) = true.
Proof. intros Hle. unfold OutOfDate, ResetTimer, UpdateDuration. cbn. lia. Qed.
End props.

(** The file in the directory the program was started in comes before that of the
    system; without one the paths are those documented for the platforms, and a
    platform that is not known is an error. *)
Theorem bootstrap_file_path platform initial_path exists_file :
  let local := path_append initial_path bootstrap_file_name in
  (exists_file local = true → GetBootstrapFilePath platform initial_path exists_file = Ok local) ∧
  (exists_file local = false →
   match platform with
   | Linux => GetBootstrapFilePath platform initial_path exists_file = Ok "/opt/maidsafe/sbin/bootstrap.cache"
   | Apple => GetBootstrapFilePath platform initial_path exists_file
              = Ok "/Library/Application Support/MaidSafe/bootstrap.cache"
   | OtherPlatform => GetBootstrapFilePath platform initial_path exists_file = Throw invalid_argument
   | _ => True
   end).
Proof. split; intros H; unfold GetBootstrapFilePath; rewrite H; by destruct platform. Qed.

(** ** Witnesses: a database that is a list of rows. *)
Module BootstrapWitness.
Import Concrete.
#[local] Existing Instance debug_build.

Definition list_insert (d : list Row) (r : Row) : list Row :=
  List.filter (λ r', negb (bool_decide (row_key r' = row_key r))) d ++ [r].

Lemma list_insert_elem d r r' : r' ∈ list_insert d r ↔ r' = r ∨ (r' ∈ d ∧ row_key r' ≠ row_key r).
Proof.
  unfold list_insert. rewrite elem_of_app, list_elem_of_In, filter_In, <-list_elem_of_In, negb_true_iff,
    bool_decide_eq_false, list_elem_of_singleton. naive_solver.
Qed.

Lemma list_insert_keys d r : NoDup (row_key <$> d) → NoDup (row_key <$> list_insert d r).
Proof.
  intros Hd. unfold list_insert. rewrite fmap_app, NoDup_app. split_and!.
  - eapply sublist_NoDup; [exact Hd|]. apply fmap_sublist, sublist_filter.
  - intros k Hk Hr. cbn in Hr. apply list_elem_of_singleton in Hr as ->.
    apply list_elem_of_fmap in Hk as (r' & Heq & Hr'). apply list_elem_of_In, filter_In in Hr' as [_ Hne].
    apply negb_true_iff, bool_decide_eq_false in Hne. by destruct Hne.
  - apply NoDup_singleton.
Qed.

(** A table without repeated keys. *)
Definition Table : Type := { d : list Row | NoDup (row_key <$> d) }.
Definition table_insert (d : Table) (r : Row) : Table :=
  list_insert (`d) r ↾ list_insert_keys (`d) r (proj2_sig d).
Definition table_empty : Table := [] ↾ NoDup_nil_2.

#[export] Instance toy_database : DatabaseOps := {|
  Database := Table;
  InsertLimit _ := 7%Z;
  insert_or_replace rows d := foldl table_insert d rows;
  delete_all _ := table_empty;
  select_all d := `d
|}.

#[export] Instance toy_database_laws : DatabaseLaws.
Proof.
  split.
  - done.
  - done.
  - intros r d r'. apply list_insert_elem.
  - done.
  - intros [d Hd]. exact Hd.
Qed.

Definition endpoint : Endpoint := (inl (1, 2, 3, 4)%Z, 5483%Z).
Definition contact (i : N) : Contact := Contact_both (i : Identity) endpoint (3%N : PublicKey).
Definition contacts : list Contact := contact <$> [7%N; 8%N; 9%N].
Definition start : BootstrapHandler := BootstrapHandler_new (table_insert table_empty ([5%Z], [], [])) 0.

Lemma contacts_storable : Forall storable contacts.
Proof.
  apply Forall_fmap, Forall_true. intros i. split; [done|]. split; [reflexivity|].
  change (ep_port _) with 5483%Z. lia.
Qed.
Lemma contacts_distinct : NoDup (contact_id <$> contacts).
Proof. by_bool. Qed.


Lemma Replace_Read_roundtrip_witness :
  ∃ h' l, ReplaceBootstrapContacts contacts start = (Ok tt, h') ∧ ReadBootstrapContacts h' = Ok l ∧
    l ≡ₚ take MaxListSize contacts.
Proof.
  apply (Replace_Read_roundtrip contacts start);
    [done|apply contacts_storable|apply contacts_distinct].
Defined.

Lemma OutOfDate_always_witness : OutOfDate 1 (ResetTimer 0 start) = true.
Proof. apply (OutOfDate_always 0 1 start). lia. Defined.
End BootstrapWitness.
