(* ===== verification/Client.v ===== *)
(** * The client ([client.h], [client.cc])

    [Client] takes messages and makes requests: the constructors,
    [MessageReceived] and its handlers, and the requests but [Get].  Most of the bodies are
    empty in the source, and so they are here. *)

From S2P Require Import Prelude CppStd Identity Types MessageHeader Codec.
From S2P Require Import Messages Accumulator Sentinel ConnectionManager RoutingNode.

Section client.
Context `{FO : FobOps} `{EO : !EndpointOps} `{LO : LruCacheOps} `{BM : BuildMode}.

(** The fields the functions use; [connected_peers_], [bootstrap_handler_] and
    the services are only constructed. *)
Record Client := mkClient {
  client_our_id : Address;
  client_keys : PrivateKey * PublicKey;
  client_message_id : MessageId;
  client_bootstrap_node : option Address;
  client_filter : LruCache FilterType unit;
  client_sentinel : Sentinel
}.
Implicit Types (c : Client).

(** The three constructors take the identity and the keys from different
    places; [random] is the message id drawn. *)
Definition Client_new (our_id : Identity) (our_keys : PrivateKey * PublicKey) (random : MessageId)
    : Client :=
  mkClient our_id our_keys random None (lru_new 20) Sentinel_new.

Definition set_client_filter (f : LruCache FilterType unit) c : Client :=
  mkClient (client_our_id c) (client_keys c) (client_message_id c) (client_bootstrap_node c) f
    (client_sentinel c).

(** The optional is read whether or not it has a value. *)
Definition client_OurSourceAddress c : outcome SourceAddress :=
  cpp_assert (has (client_bootstrap_node c));;
  match client_bootstrap_node c with
  | Some b => Ok (mkSource b None (Some (client_our_id c)))
  | None => Undefined
  end.

(** The handlers of the two kinds of message that are parsed. *)
Definition client_HandleConnectResponse (connect_response : ConnectResponse) : prog Client unit := mret tt.
Definition client_HandleGetDataResponse (response : GetDataResponse) : prog Client unit := mret tt.

Definition client_MessageReceived (message : SerialisedMessage) : prog Client unit := λ c,
  match Parse_header message with
  | Ok (header, tag, stream) =>
      if lru_Check (FilterValue header) (client_filter c) then (Ok tt, c)
      else
        let c1 := set_client_filter (lru_Add (FilterValue header) tt (client_filter c)) c in
        match tag with
        | Some TagConnectResponse =>
            (m ← lift (λ _, Parse ConnectResponse_codec stream); client_HandleConnectResponse m) c1
        | Some TagGetDataResponse =>
            (m ← lift (λ _, Parse GetDataResponse_codec stream); client_HandleGetDataResponse m) c1
        | _ => (Ok tt, c1)
        end
  | Throw _ => (Ok tt, c)
  | AssertFailed => (AssertFailed, c)
  | Undefined => (Undefined, c)
  end.

(** The other handlers, which nothing calls. *)
Definition client_HandlePost (post : Post) : prog Client unit := mret tt.
Definition client_HandlePostResponse : prog Client unit := mret tt.

(** ** Requests

    The handler of a request is a token; a request gives the handlers it calls.
    The lambda that [Bootstrap] posts is empty, and [Put], [Post] and [Request]
    post nothing.  [Get] is a template that cannot be instantiated, since its
    lambda calls a constructor of [GetData] that does not exist; it has no
    definition here. *)
Section requests.
Context {Handler : Type}.

Definition client_Bootstrap (handler : Handler) : prog Client (list Handler) := mret [].
Definition client_Bootstrap_endpoint (local_endpoint : Endpoint) (handler : Handler) :
    prog Client (list Handler) := mret [].
Definition client_Put (name : NameAndTypeId) (message : SerialisedMessage) (handler : Handler) :
    prog Client (list Handler) := mret [].
Definition client_Post (name : NameAndTypeId) (message : SerialisedMessage) (handler : Handler) :
    prog Client (list Handler) := mret [].
Definition client_Request (name : NameAndTypeId) (message : SerialisedMessage) (handler : Handler) :
    prog Client (list Handler) := mret [].

Inductive ClientOp :=
  | OpBootstrap (handler : Handler)
  | OpBootstrapFrom (endpoint : Endpoint) (handler : Handler)
  | OpPut (name : NameAndTypeId) (message : SerialisedMessage) (handler : Handler)
  | OpPost (name : NameAndTypeId) (message : SerialisedMessage) (handler : Handler)
  | OpRequest (name : NameAndTypeId) (message : SerialisedMessage) (handler : Handler)
  | OpReceive (message : SerialisedMessage).

Definition client_step (op : ClientOp) : prog Client (list Handler) :=
  match op with
  | OpBootstrap h => client_Bootstrap h
  | OpBootstrapFrom e h => client_Bootstrap_endpoint e h
  | OpPut name message h => client_Put name message h
  | OpPost name message h => client_Post name message h
  | OpRequest name message h => client_Request name message h
  | OpReceive message => client_MessageReceived message;; mret []
  end.

(** What is done with a client one after the other, until something fails: the
    handlers called and the client left. *)
Fixpoint client_run (ops : list ClientOp) (c : Client) : list Handler * Client :=
  match ops with
  | [] => ([], c)
  | op :: ops =>
      match client_step op c with
      | (Ok called, c') => let '(more, c'') := client_run ops c' in (called ++ more, c'')
      | (Throw _, c') => client_run ops c'
      | (_, c') => ([], c')
      end
  end.
End requests.
End client.
