(* ===== verification/ClientProps.v ===== *)
(** * Properties of the client *)

From S2P Require Import Prelude CppStd Identity Types MessageHeader Codec ConcreteIO.
From S2P Require Import Messages Sentinel ConnectionManager RoutingNode RoutingNodeProps Client.

Section props.
Context `{FO : FobOps} `{EO : !EndpointOps} `{LO : LruCacheOps} `{BM : BuildMode}.
Implicit Types (c : Client).

Lemma client_MessageReceived_cases message c :
  (client_MessageReceived message c = (Ok tt, c)) ∨
  ∃ header tag stream, Parse_header message = Ok (header, tag, stream) ∧
    lru_Check (FilterValue header) (client_filter c) = false ∧
    ((client_MessageReceived message c).1 = Ok tt ∨
     (client_MessageReceived message c).1 = Throw parsing_error) ∧
    (client_MessageReceived message c).2
    = set_client_filter (lru_Add (FilterValue header) tt (client_filter c)) c.
Proof.
  unfold client_MessageReceived.
  destruct (Parse_header_outcome message) as [([[header tag] stream] & ->)|(e & ->)]; [|by left].
  destruct (lru_Check _ _) eqn:E; [by left|right]. exists header, tag, stream. split; [done|].
  split; [done|]. unfold lift, Parse, mbind, prog_bind, client_HandleConnectResponse,
    client_HandleGetDataResponse, mret, prog_ret.
  destruct tag as [[]|]; try (split; [by left|done]).
  - destruct (dec ConnectResponse_codec stream) as [[]|]; (split; [by auto|done]).
  - destruct (dec GetDataResponse_codec stream) as [[]|]; (split; [by auto|done]).
Qed.


(** No function sets [bootstrap_node_]. *)
Lemma client_step_bootstrap_node {Handler} (op : ClientOp (Handler:=Handler)) c :
  client_bootstrap_node (client_step op c).2 = client_bootstrap_node c ∧
  (∀ called, (client_step op c).1 = Ok called → called = []).
Proof.
  destruct op; cbn [client_step]; try (split; [done|by intros called [= <-]]).
  - split.
    + destruct (client_MessageReceived_cases message c) as [Heq|(? & ? & ? & _ & _ & _ & Hc')].
      * unfold mbind, prog_bind. by rewrite Heq.
      * unfold mbind, prog_bind. destruct (client_MessageReceived message c) as [[] c'];
          cbn in Hc' |- *; by subst c'.
    + intros called. unfold mbind, prog_bind.
      destruct (client_MessageReceived message c) as [[] ?]; cbn; naive_solver.
Qed.

(** A client never gets anywhere: whatever is asked of it and whatever it
    receives, no handler of a request is ever called, it never has a bootstrap
    node, and so [OurSourceAddress] reads an empty optional, which aborts in a
    debug build and is undefined in a release build. *)
Theorem client_requests_fail {Handler} our_id keys random (ops : list (ClientOp (Handler:=Handler))) :
  let '(called, c) := client_run ops (Client_new our_id keys random) in
  called = [] ∧ client_bootstrap_node c = None ∧
  client_OurSourceAddress c = if NDEBUG then Undefined else AssertFailed.
Proof.
  assert (∀ c, client_bootstrap_node c = None →
    (client_run ops c).1 = [] ∧ client_bootstrap_node (client_run ops c).2 = None) as Hrun.
  { induction ops as [|op ops IH]; intros c Hc; [done|]. cbn [client_run].
    destruct (client_step_bootstrap_node op c) as [Hb Hcalled].
    destruct (client_step op c) as [[called| | |] c']; cbn [fst snd] in *; rewrite Hc in Hb;
      [|by apply IH|done|done].
    rewrite (Hcalled _ eq_refl). specialize (IH c' Hb). by destruct (client_run ops c'). }
  destruct (client_run ops _) as [called c] eqn:E. destruct (Hrun (Client_new our_id keys random)) as [Hc Hb]; [done|].
  rewrite E in Hc, Hb. cbn [fst snd] in *. split_and!; [done|done|].
  unfold client_OurSourceAddress, cpp_assert. rewrite Hb. cbn. by destruct NDEBUG.
Qed.
End props.

(** ** Witness: a response arrives twice. *)
Module ClientWitness.
Import Concrete NodeWitness.
#[local] Existing Instance release_build.

Definition the_client : Client := Client_new (addr 2) (3%N, 3%N) 9%Z.
Definition bytes : SerialisedMessage :=
  Serialise_message GetDataResponse_codec (header 7) TagGetDataResponse response.

End ClientWitness.
