(* ===== verification/ConnectionsSafety.v ===== *)
(** * Sending never loses its connection

    [Connections::Send] looks up the endpoint of an identity and then the
    connection of the endpoint, and asserts that there is one.  The invariant
    that makes this right, when endpoints are not taken over: every identity
    that is known has a connection whose socket is its own. *)

From S2P Require Import Prelude CppStd Identity Types MessageHeader.
From S2P Require Import Codec AsyncQueue AsyncExchange ConcreteIO Connections ConnectionsProps.

Section safety.
Context `{AO : ArchiveOps} `{EO : !EndpointOps} `{BM : BuildMode} {Handler : Type}.
Implicit Types (c : Connections (Handler:=Handler)) (t : Task (Handler:=Handler)).

Notation conn c e := (assoc_find e (connections_ c)).

(** The socket of an operation that has not identified the other side yet. *)
Definition pending_socket t : option nat :=
  match t with
  | TConnecting s _ | TConnectExchange _ s _ | TAccepting _ _ s _ | TAcceptExchange _ s _ => Some s
  | _ => None
  end.

Definition task_socket t : option nat :=
  match t with
  | TSending _ _ s _ | TReceiving _ _ s => Some s
  | _ => pending_socket t
  end.

(** [owner s]: the identity on the other side of socket [s], once it is known. *)
Definition task_safe (owner : nat → option Address) c t : Prop :=
  match t with
  | TSending id e s _ | TReceiving id e s =>
      owner s = Some id ∧ s < next_object c ∧ ∀ e', conn c e' = Some s → e' = e
  | TConnecting s _ => owner s = None ∧ s < next_object c
  | TConnectExchange e s _ | TAcceptExchange e s _ =>
      owner s = None ∧ s < next_object c ∧ ∀ e', conn c e' = Some s → e' = e
  | TAccepting _ _ s _ => owner s = None ∧ s < next_object c ∧ ∀ e', conn c e' ≠ Some s
  | _ => True
  end.

Record safe (owner : nat → option Address) c : Prop := {
  safe_alive : destroyed c = false;
  safe_unused : ∀ s, next_object c ≤ s → owner s = None;
  safe_keys : NoDup (connections_ c).*1;
  safe_sockets : ∀ e s, conn c e = Some s → s < next_object c;
  safe_unshared : ∀ e1 e2 s, conn c e1 = Some s → conn c e2 = Some s → e1 = e2;
  safe_ids : ∀ id e, assoc_find id (id_to_endpoint_map_ c) = Some e →
    ∃ s, conn c e = Some s ∧ owner s = Some id;
  safe_tasks : ∀ t, t ∈ tasks c → task_safe owner c t;
  safe_pending : NoDup (omap pending_socket (tasks c))
}.

(** ** The maps *)
Section maps.
Context {K V : Type} `{EqDecision K}.
Implicit Types (m : list (K * V)).

Lemma assoc_find_None k m : assoc_find k m = None ↔ k ∉ m.*1.
Proof.
  induction m as [|[k' v'] m IH]; [split; [intros _; apply not_elem_of_nil|done]|].
  unfold assoc_find in *. cbn. rewrite not_elem_of_cons. case_bool_decide; naive_solver.
Qed.

Lemma assoc_elem_find k v m : NoDup m.*1 → (k, v) ∈ m → assoc_find k m = Some v.
Proof.
  induction m as [|[k' v'] m IH]; [by intros _ ?%elem_of_nil|].
  cbn. intros [Hk Hn]%NoDup_cons [[= -> ->]|Hin]%elem_of_cons; unfold assoc_find; cbn.
  - by rewrite bool_decide_true.
  - rewrite bool_decide_false; [by apply IH|]. intros ->. apply Hk.
    by apply (list_elem_of_fmap_2 fst) in Hin.
Qed.

Lemma assoc_erase_NoDup k m : NoDup m.*1 → NoDup (assoc_erase k m).*1.
Proof.
  unfold assoc_erase. induction m as [|[k' v'] m IH]; [done|]. cbn. intros [Hk Hn]%NoDup_cons.
  case_bool_decide; cbn; [by apply IH|]. apply NoDup_cons. split; [|by apply IH].
  intros ([k1 v1] & -> & Hin)%list_elem_of_fmap. apply Hk, list_elem_of_fmap. exists (k1, v1). split; [done|].
  apply list_elem_of_In. apply list_elem_of_In, filter_In in Hin. tauto.
Qed.

Lemma assoc_set_NoDup k v m : NoDup m.*1 → NoDup (assoc_set k v m).*1.
Proof.
  intros Hm. unfold assoc_set. rewrite fmap_app. apply NoDup_app. split_and!.
  - by apply assoc_erase_NoDup.
  - intros k' Hk' ->%list_elem_of_singleton. apply (proj1 (assoc_find_None k (assoc_erase k m))) in Hk'; [done|].
    by rewrite assoc_find_erase, bool_decide_true.
  - apply NoDup_singleton.
Qed.
End maps.

Lemma socket_alive_conn owner c s : safe owner c → socket_alive c s = true → ∃ e, conn c e = Some s.
Proof.
  intros Hs ([e s'] & -> & Hin)%bool_decide_eq_true%list_elem_of_fmap. exists e.
  by apply assoc_elem_find; [apply safe_keys in Hs|].
Qed.

(** A task stays safe when its socket has the same owner and is not stored at
    another endpoint. *)
Lemma task_safe_mono owner owner' c c' t :
  task_safe owner c t → next_object c ≤ next_object c' →
  (∀ s, task_socket t = Some s → owner' s = owner s ∧ ∀ e, conn c' e = Some s → conn c e = Some s) →
  task_safe owner' c' t.
Proof.
  intros Ht Hn Hm. destruct t; cbn in *; try done;
    destruct (Hm _ eq_refl) as [-> He]; destruct_and?; split_and?; eauto; try lia.
  intros e' He'%He. naive_solver.
Qed.

(** ** The ways the state changes *)
Ltac proj := cbn [destroyed next_object connections_ id_to_endpoint_map_ tasks acceptors_ receive_queue_
  set_connections set_ids set_tasks set_acceptors set_queue start new_object snd].

Lemma task_socket_lt owner c t s : task_safe owner c t → task_socket t = Some s → s < next_object c.
Proof. destruct t; cbn; naive_solver. Qed.

(** Connections and identities go. *)
Lemma safe_shrink owner c c' :
  safe owner c → destroyed c' = false → next_object c' = next_object c → tasks c' = tasks c →
  NoDup (connections_ c').*1 → (∀ e s, conn c' e = Some s → conn c e = Some s) →
  (∀ id e, assoc_find id (id_to_endpoint_map_ c') = Some e →
     assoc_find id (id_to_endpoint_map_ c) = Some e ∧ ∃ s, conn c' e = Some s) →
  safe owner c'.
Proof.
  intros [Ha Hu Hk Hs Hi Hids Ht Hp] Ha' Hn' Ht' Hk' Hc Hid. split; try done.
  - by rewrite Hn'.
  - intros e s He. rewrite Hn'. eauto.
  - eauto.
  - intros id e (Hf & s & He)%Hid. exists s. split; [done|]. destruct (Hids id e Hf) as (s' & Hs' & Ho).
    apply Hc in He. congruence.
  - intros t. rewrite Ht'. intros Hin. eapply task_safe_mono; [by apply Ht|lia|]. intros s _. eauto.
  - by rewrite Ht'.
Qed.

(** A task is started. *)
Lemma safe_start owner c t :
  safe owner c → task_safe owner c t →
  (∀ s, pending_socket t = Some s → s ∉ omap pending_socket (tasks c)) → safe owner (start t c).
Proof.
  intros [Ha Hu Hk Hs Hi Hids Hts Hp] Ht Hnew. split; try done; proj.
  - intros t' [Hin| ->%list_elem_of_singleton]%elem_of_app; [|done].
    eapply task_safe_mono; [by apply Hts|done|]. intros s _. eauto.
  - rewrite omap_app. cbn. destruct (pending_socket t) as [s|]; [|by rewrite app_nil_r].
    apply NoDup_app. split_and!; [done| |apply NoDup_singleton].
    intros s' Hs' ->%list_elem_of_singleton. by apply (Hnew s eq_refl).
Qed.

(** A socket or an acceptor is made. *)
Lemma safe_new_object owner c : safe owner c → safe owner (new_object c).2.
Proof.
  intros [Ha Hu Hk Hs Hi Hids Ht Hp]. split; try done; proj.
  - intros s Hle. apply Hu. lia.
  - intros e s He. apply Hs in He. lia.
  - intros t Hin. eapply task_safe_mono; [by apply Ht|cbn; lia|]. intros s _. eauto.
Qed.

(** A socket that no task uses is stored at a free endpoint. *)
Lemma safe_store owner c e s l :
  safe owner c → conn c e = None → s < next_object c → (∀ e', conn c e' ≠ Some s) →
  (∀ t, t ∈ tasks c → task_socket t ≠ Some s) → NoDup l.*1 →
  (∀ e', assoc_find e' l = if bool_decide (e' = e) then Some s else conn c e') →
  safe owner (set_connections l c).
Proof.
  intros [Ha Hu Hk Hs Hi Hids Ht Hp] He Hlt Hns Hts Hl Hf. split; try done; proj.
  - intros e' s'. rewrite Hf. case_bool_decide; [by intros [= <-]|eauto].
  - intros e1 e2 s'. rewrite !Hf. do 2 case_bool_decide; subst; try done; [| |eauto].
    + intros [= <-] ?%Hns. done.
    + intros Hc [= <-]. by apply Hns in Hc.
  - intros id e' (s' & Hs' & Ho)%Hids. exists s'. rewrite Hf. case_bool_decide; [congruence|done].
  - intros t Hin. eapply task_safe_mono; [by apply Ht|done|]. intros s' Hs'. split; [done|].
    intros e'. proj. rewrite Hf. case_bool_decide; [|done]. intros [= <-]. by apply Hts in Hin.
Qed.

Definition own (owner : nat → option Address) (s : nat) (id : Address) : nat → option Address :=
  λ s', if decide (s' = s) then Some id else owner s'.

(** The other side of a socket becomes known. *)
Lemma safe_identified owner c his e s :
  safe owner c → conn c e = Some s → owner s = None → (∀ t, t ∈ tasks c → task_socket t ≠ Some s) →
  safe (own owner s his) (identified his e s c).
Proof.
  intros [Ha Hu Hk Hs Hi Hids Ht Hp] He Ho Hts.
  assert (∀ s', s' ≠ s → own owner s his s' = owner s') as Hown by (intros s' ?; unfold own; by case_decide).
  apply safe_start; [split; try done; proj| |done].
  - intros s' Hle. rewrite Hown; [auto|]. apply Hs in He. lia.
  - intros id e'. rewrite assoc_find_set. case_bool_decide.
    + subst. intros [= <-]. exists s. split; [done|]. unfold own. by rewrite decide_True.
    + intros (s' & Hs' & Ho')%Hids. exists s'. split; [done|]. rewrite Hown; [done|]. congruence.
  - intros t Hin. eapply task_safe_mono; [by apply Ht|done|]. intros s' Hs'. split; [|done].
    apply Hown. intros ->. by apply Hts in Hin.
  - cbn. unfold own. rewrite decide_True by done. split_and!; [done|by apply Hs in He|]. eauto.
Qed.

(** A task that is run has left the list, and no other task is pending on its
    socket. *)
Lemma safe_finish owner c i t :
  safe owner c → tasks c !! i = Some t →
  safe owner (finish i c) ∧ task_safe owner (finish i c) t ∧
  (∀ s, pending_socket t = Some s → ∀ t', t' ∈ tasks (finish i c) → task_socket t' ≠ Some s).
Proof.
  intros [Ha Hu Hk Hs Hi Hids Hts Hp] Ht.
  assert (t ∈ tasks c) as Hin by (by eapply list_elem_of_lookup_2).
  assert (tasks c ≡ₚ t :: tasks (finish i c)) as Hperm by (by apply delete_Permutation).
  assert (∀ t', t' ∈ tasks (finish i c) → t' ∈ tasks c) as Hsub.
  { intros t' Ht'. rewrite Hperm. by right. }
  rewrite Hperm in Hp. split; [|split; [by apply Hts|]].
  - split; try done; [|cbn in Hp; destruct (pending_socket t); [by apply NoDup_cons in Hp as []|done]].
    intros t' Ht'. by apply Hts, Hsub.
  - intros s Hs' t' Ht' Hsock. pose proof (Hts _ Hin) as Hsafe. pose proof (Hts _ (Hsub _ Ht')) as Hsafe'.
    assert (owner s = None) as Ho by (destruct t; cbn in *; naive_solver).
    destruct (pending_socket t') as [s'|] eqn:Hp'.
    + assert (s' = s) as -> by (destruct t'; cbn in *; congruence).
      cbn in Hp. rewrite Hs' in Hp. apply NoDup_cons in Hp as [Hnot _]. apply Hnot.
      apply list_elem_of_omap. eauto.
    + destruct t'; cbn in *; naive_solver.
Qed.

(** The side conditions: a socket connects to the endpoint it was made for, and
    an accepted one comes from an endpoint that is not in use. *)
Definition no_reuse c t (r : Completion) : Prop :=
  match t with
  | TConnecting s _ => failed (r_error r) = false → socket_alive c s = true → conn c (r_remote r) = Some s
  | TAccepting _ _ _ _ => failed (r_error r) = false → conn c (r_remote r) = None
  | _ => True
  end.

Definition task_ok (o : outcome (list (Call (Handler:=Handler)))) : Prop :=
  match o with
  | Ok _ => True
  | Throw e => e = parsing_error
  | AssertFailed | Undefined => False
  end.

Lemma safe_queue owner c q : safe owner c → safe owner (set_queue q c).
Proof. intros [Ha Hu Hk Hs Hi Hids Ht Hp]. by split. Qed.

Lemma safe_drop owner c id e s :
  safe owner c → conn c e = Some s → owner s = Some id → safe owner (drop_connection id e c).
Proof.
  intros Hsafe He Ho. pose proof Hsafe as [Ha Hu Hk Hs Hi Hids Ht Hp].
  apply (safe_shrink owner c); try done; unfold drop_connection; proj.
  - by apply assoc_erase_NoDup.
  - intros e' s'. rewrite assoc_find_erase. by case_bool_decide.
  - intros id' e'. rewrite assoc_find_erase. case_bool_decide; [done|]. intros Hid. split; [done|].
    destruct (Hids _ _ Hid) as (s' & Hs' & Ho'). exists s'. rewrite assoc_find_erase, bool_decide_false; [done|].
    intros ->. congruence.
Qed.

Lemma safe_erase owner c e s :
  safe owner c → conn c e = Some s → owner s = None → safe owner (erase_connection e c).
Proof.
  intros Hsafe He Ho. pose proof Hsafe as [Ha Hu Hk Hs Hi Hids Ht Hp].
  apply (safe_shrink owner c); try done; unfold erase_connection; proj.
  - by apply assoc_erase_NoDup.
  - intros e' s'. rewrite assoc_find_erase. by case_bool_decide.
  - intros id' e' Hid. split; [done|].
    destruct (Hids _ _ Hid) as (s' & Hs' & Ho'). exists s'. rewrite assoc_find_erase, bool_decide_false; [done|].
    intros ->. congruence.
Qed.

Lemma run_Send_safe owner c id bytes h :
  safe owner c → task_ok (run_Send id bytes h c).1 ∧ safe owner (run_Send id bytes h c).2.
Proof.
  intros Hsafe. pose proof Hsafe as [Ha Hu Hk Hs Hi Hids Ht Hp]. unfold run_Send, alive. rewrite Ha.
  destruct (assoc_find id (id_to_endpoint_map_ c)) as [e|] eqn:Hid; [|done].
  destruct (Hids _ _ Hid) as (s & He & Ho). rewrite He. split; [done|].
  apply safe_start; [done| |done]. cbn. split_and!; [done|by eapply Hs|]. eauto.
Qed.

Lemma run_Connect_safe owner c e h :
  safe owner c → task_ok (run_Connect e h c).1 ∧ safe owner (run_Connect e h c).2.
Proof.
  intros Hsafe. pose proof Hsafe as [Ha Hu Hk Hs Hi Hids Ht Hp]. unfold run_Connect, alive. rewrite Ha.
  apply safe_new_object in Hsafe as Hn. unfold new_object. unfold new_object in Hn. cbn [snd] in Hn.
  unfold assoc_insert. proj. destruct (conn c e) eqn:He; [done|]. split; [done|].
  assert (∀ t, t ∈ tasks c → task_socket t ≠ Some (next_object c)) as Hts.
  { intros t Hin Hsock. eapply task_socket_lt in Hsock; [|by apply Ht]. lia. }
  apply safe_start.
  - apply (safe_store _ _ e (next_object c)); proj; try done; [lia| | |].
    + intros e' He'. apply Hs in He'. lia.
    + rewrite fmap_app. apply NoDup_app. split_and!; [done| |apply NoDup_singleton].
      intros e' Hin ->%list_elem_of_singleton. by apply assoc_find_None in He.
    + intros e'. rewrite assoc_find_app, assoc_find_single. case_bool_decide; subst; [by rewrite He|].
      by destruct (conn c e').
  - cbn. split; [by apply Hu|lia].
  - intros s [= <-] (t & Hin & Hsock)%list_elem_of_omap. apply (Hts t Hin).
    destruct t; cbn in *; congruence.
Qed.

Lemma safe_set_acceptors owner c l : safe owner c → safe owner (set_acceptors l c).
Proof. intros [Ha Hu Hk Hs Hi Hids Ht Hp]. by split. Qed.

Lemma run_Accept_safe owner c port h :
  safe owner c → task_ok (run_Accept port h c).1 ∧ safe owner (run_Accept port h c).2.
Proof.
  intros Hsafe. unfold run_Accept, alive. rewrite (safe_alive _ _ Hsafe).
  set (p := match assoc_find port (acceptors_ c) with Some a => _ | None => _ end).
  assert (safe owner p.2) as Hp2.
  { unfold p. destruct (assoc_find _ _); [done|]. by apply safe_set_acceptors, safe_new_object. }
  destruct p as [acceptor c2]. cbn [snd] in Hp2. unfold new_object. split; [done|].
  pose proof Hp2 as [Ha Hu Hk Hs Hi Hids Ht Hp]. apply safe_start.
  - apply (safe_new_object owner c2 Hp2).
  - cbn. split_and!; [by apply Hu|lia|]. intros e' He'. apply Hs in He'. lia.
  - intros s [= <-] (t & Hin & Hsock)%list_elem_of_omap.
    assert (task_socket t = Some (next_object c2)) as Hts by (destruct t; cbn in *; congruence).
    eapply task_socket_lt in Hts; [|by apply Ht]. lia.
Qed.

Lemma push_received_safe owner c v : safe owner c → safe owner (push_received v c).2.
Proof. intros Hs. unfold push_received. destruct (Push v _). by apply safe_queue. Qed.

(** ** The completion handlers

    [c] is the state after the task has left the list. *)
Definition stays_safe (owner : nat → option Address) c (p : prog Connections (list (Call (Handler:=Handler)))) : Prop :=
  task_ok (p c).1 ∧ ∃ owner', safe owner' (p c).2.

Definition unused_by_tasks c (s : nat) : Prop := ∀ t, t ∈ tasks c → task_socket t ≠ Some s.

Lemma unused_not_pending c s : unused_by_tasks c s → s ∉ omap pending_socket (tasks c).
Proof.
  intros Hts (t & Hin & Hsock)%list_elem_of_omap. apply (Hts t Hin). destruct t; cbn in *; congruence.
Qed.

(** A socket that is still there is where its task says. *)
Lemma alive_at owner c e s :
  safe owner c → (∀ e', conn c e' = Some s → e' = e) → socket_alive c s = true → conn c e = Some s.
Proof.
  intros Hsafe He Halive. destruct (socket_alive_conn _ _ _ Hsafe Halive) as [e' He'].
  by rewrite <-(He _ He').
Qed.

Ltac unchanged := split; [done|eexists; eassumption].

Lemma sending_safe owner c id e s h error :
  safe owner c → task_safe owner c (TSending id e s h) → stays_safe owner c (sending_done id e s h error).
Proof.
  intros Hsafe (Ho & _ & He). unfold stays_safe, sending_done.
  destruct (socket_alive c s) eqn:Hal; cbn [negb]; [|by unchanged]. split; [done|]. exists owner.
  destruct (failed error); [|done]. eapply safe_drop; [done|by eapply alive_at|done].
Qed.

Lemma receiving_safe owner c id e s error bytes :
  safe owner c → task_safe owner c (TReceiving id e s) → stays_safe owner c (receiving_done id e s error bytes).
Proof.
  intros Hsafe (Ho & Hlt & He). unfold stays_safe, receiving_done, alive. rewrite (safe_alive _ _ Hsafe).
  destruct (socket_alive c s) eqn:Hal; cbn [negb].
  - set (c1 := if failed error then drop_connection id e c else c).
    assert (safe owner c1) as H1.
    { unfold c1. destruct (failed error); [|done]. eapply safe_drop; [done|by eapply alive_at|done]. }
    assert (failed error = false → c1 = c) as Hc1 by (unfold c1; by intros ->).
    unfold push_received. destruct (Push _ (receive_queue_ c1)) as [call q]. split; [done|]. exists owner.
    destruct (failed error); [by apply safe_queue|]. rewrite Hc1 by done.
    apply safe_start; [by apply safe_queue|done|done].
  - pose proof (push_received_safe owner c (operation_aborted, id,
      write_buffer bytes empty_buffer) Hsafe) as Hps.
    destruct (push_received _ c). split; [done|]. eauto.
Qed.

Lemma connecting_safe owner c s h error remote :
  safe owner c → task_safe owner c (TConnecting s h) → unused_by_tasks c s →
  (failed error = false → socket_alive c s = true → conn c remote = Some s) →
  stays_safe owner c (connecting_done s h error remote).
Proof.
  intros Hsafe [Ho Hlt] Hun Hr. pose proof Hsafe as [Ha Hu Hk Hs Hinj Hids Hts Hpend].
  unfold stays_safe, connecting_done. destruct (socket_alive c s) eqn:Hal; cbn [negb]; [|by unchanged].
  destruct (failed error); [by unchanged|]. specialize (Hr eq_refl eq_refl). split; [done|]. exists owner.
  assert (∀ e', assoc_find e' (assoc_set remote s (connections_ c)) = conn c e') as Hsame.
  { intros e'. rewrite assoc_find_set. case_bool_decide; by subst. }
  apply safe_start.
  - apply (safe_shrink owner c); try done; proj; [by apply assoc_set_NoDup| |].
    + intros e' s'. by rewrite Hsame.
    + intros id e Hid. split; [done|]. rewrite Hsame. destruct (Hids _ _ Hid) as (s' & He & _). eauto.
  - cbn [task_safe]. split_and!; [done|done|]. intros e'. proj. rewrite Hsame. eauto.
  - intros s' [= <-]. by apply unused_not_pending.
Qed.

Lemma accepting_safe owner c port acceptor s h error remote :
  safe owner c → task_safe owner c (TAccepting port acceptor s h) → unused_by_tasks c s →
  (failed error = false → conn c remote = None) →
  stays_safe owner c (accepting_done port acceptor s h error remote).
Proof.
  intros Hsafe (Ho & Hlt & Hns) Hun Hr. pose proof Hsafe as [Ha Hu Hk Hs Hinj Hids Hts Hpend].
  unfold stays_safe, accepting_done. destruct (acceptor_alive c acceptor); cbn [negb]; [|by unchanged].
  destruct (failed error); [by unchanged|]. specialize (Hr eq_refl). split; [done|]. exists owner. apply safe_start.
  - apply (safe_store _ _ remote s); proj; [|done|done|done|done|by apply assoc_set_NoDup|].
    { by apply safe_set_acceptors. }
    intros e'. by rewrite assoc_find_set.
  - cbn [task_safe]. split_and!; [done|done|]. intros e'. proj. rewrite assoc_find_set.
    case_bool_decide; [done|]. intros He'. by apply Hns in He'.
  - intros s' [= <-]. by apply unused_not_pending.
Qed.

(** The exchange of identities, on either side. *)
Lemma exchanged_safe owner c e s (call : Address → Call) (call_failed : error_code → Call)
    (aborted : Call (Handler:=Handler)) error data :
  safe owner c → owner s = None → (∀ e', conn c e' = Some s → e' = e) → unused_by_tasks c s →
  stays_safe owner c (λ c,
    if negb (socket_alive c s) then (Ok [aborted], c)
    else if failed error then (Ok [call_failed error], erase_connection e c)
    else match ParseNext ar_Identity data with
         | Ok (his_id, _) => (Ok [call his_id], identified his_id e s c)
         | Throw err => (Throw err, c)
         | AssertFailed => (AssertFailed, c)
         | Undefined => (Undefined, c)
         end).
Proof.
  intros Hsafe Ho He Hun. unfold stays_safe. destruct (socket_alive c s) eqn:Hal; cbn [negb]; [|by unchanged].
  pose proof (alive_at _ _ _ _ Hsafe He Hal) as Hc. destruct (failed error).
  { split; [done|]. exists owner. by eapply safe_erase. }
  unfold ParseNext. destruct (dec ar_Identity data) as [[his rest]|]; [|split; [done|eauto]].
  split; [done|]. eexists. by apply safe_identified.
Qed.

Lemma run_task_safe owner c i t r :
  safe owner c → tasks c !! i = Some t → no_reuse (finish i c) t r →
  stays_safe owner (finish i c) (run_task t r).
Proof.
  intros Hsafe Hi Hr. destruct (safe_finish _ _ _ _ Hsafe Hi) as (Hf & Ht & Hp). clear Hsafe Hi.
  revert Hf Ht Hp Hr. generalize (finish i c). clear c. intros c Hf Ht Hp Hr.
  destruct t; cbn [run_task]; cbn [no_reuse] in Hr.
  - destruct (run_Send_safe owner c remote_id bytes h Hf). by split; [|eauto].
  - unfold stays_safe, run_Receive, alive. rewrite (safe_alive _ _ Hf).
    destruct (AsyncPop _ _). split; [done|]. eauto using safe_queue.
  - destruct (run_Connect_safe owner c endpoint h Hf). by split; [|eauto].
  - destruct (run_Accept_safe owner c port h Hf). by split; [|eauto].
  - unfold stays_safe, run_Shutdown, alive. rewrite (safe_alive _ _ Hf). split; [done|]. exists owner.
    apply (safe_shrink owner c); try done; [by apply safe_alive in Hf|constructor].
  - by apply sending_safe.
  - apply connecting_safe; [done|done|exact (Hp _ eq_refl)|done].
  - destruct Ht as (Ho & _ & He). apply (exchanged_safe owner c remote_endpoint socket
      (CallConnect h (r_error r)) (λ e, CallConnect h e Identity_default)); try done. exact (Hp _ eq_refl).
  - apply accepting_safe; [done|done|exact (Hp _ eq_refl)|done].
  - destruct Ht as (Ho & _ & He). apply (exchanged_safe owner c remote_endpoint socket
      (CallAccept h (r_error r) remote_endpoint) (λ e, CallAccept h e remote_endpoint Identity_default)); try done.
    exact (Hp _ eq_refl).
  - by apply receiving_safe.
Qed.

(** ** Runs *)

(** The public functions are called at any time and the tasks run in any order,
    with any results that do not take over an endpoint. *)
Inductive fresh_run c : Connections → Prop :=
  | fresh_start : fresh_run c c
  | fresh_request c1 t : fresh_run c c1 → is_request t = true → fresh_run c (start t c1)
  | fresh_complete c1 i t r :
      fresh_run c c1 → tasks c1 !! i = Some t → no_reuse (finish i c1) t r →
      fresh_run c (run_task t r (finish i c1)).2.

Lemma safe_new our_id : safe (λ _, None) (Connections_new our_id).
Proof. split; try done; try constructor. by intros t ?%elem_of_nil. Qed.

Lemma fresh_run_safe our_id c : fresh_run (Connections_new our_id) c → ∃ owner, safe owner c.
Proof.
  induction 1 as [|c1 t _ [owner IH] Ht|c1 i t r _ [owner IH] Ht Hr].
  - exists (λ _, None). apply safe_new.
  - exists owner. apply safe_start; [done|by destruct t|by destruct t].
  - by destruct (run_task_safe owner c1 i t r IH Ht Hr) as [_ ?].
Qed.

(** C17: No task of [Connections] fails an assertion or does anything undefined
    while the object is there and endpoints are not taken over (a socket connects
    to the endpoint it was made for, and is accepted from an endpoint that is not
    in use): in particular [Send] always finds the connection of an identity it
    knows.  The only exception a task lets out is that of an identity that does
    not parse. *)
Theorem tasks_never_fail our_id c i t r :
  fresh_run (Connections_new our_id) c → tasks c !! i = Some t → no_reuse (finish i c) t r →
  task_ok (run_task t r (finish i c)).1.
Proof.
  intros [owner Hs]%fresh_run_safe Ht Hr. apply (run_task_safe owner c i t r Hs Ht Hr).
Qed.
End safety.

(** The node 0 accepts a connection from the node 7 and is asked to send to it. *)
Module ConnectionsSafetyWitness.
Import Concrete ConnectionsWitness.
#[local] Existing Instance release_build.

Definition c4 : conns := (run_task (TAcceptExchange endpoint 1 1) (ok (Serialise ar_Identity (addr 7))) (finish 0 c3)).2.
Definition c5 : conns := start (TSend (addr 7) [5%Z] 2) c4.

Lemma c5_run : fresh_run (Connections_new (addr 0)) c5.
Proof.
  apply fresh_request; [|done]. unfold c4. apply (fresh_complete _ c3 0); [|done|done].
  apply (fresh_complete _ c2 0 (TAccepting 5483 0 1 1) (ok [])); [|done|done].
  apply (fresh_complete _ c1 0 (TAccept 5483 1) (ok [])); [|done|done].
  apply fresh_request; [constructor|done].
Qed.

Lemma tasks_never_fail_witness :
  task_ok (run_task (TSend (addr 7) [5%Z] 2) (ok []) (finish 1 c5)).1.
Proof. apply (tasks_never_fail (addr 0) c5 1 (TSend (addr 7) [5%Z] 2) (ok [])); [apply c5_run|done|done]. Defined.
End ConnectionsSafetyWitness.
