(* ===== verification/Conversation.v ===== *)
(** * Two users of [Connections] talk

    Two [Connections] objects with a connection between them: what one sends is
    received by the other, in order.  The network between them is a queue for
    each direction (crux delivers the datagrams of a connection reliably and in
    order), into which a send operation puts its datagram when it is started and
    from which a receive operation takes the first. *)

From S2P Require Import Prelude CppStd Identity Types MessageHeader.
From S2P Require Import Codec AsyncQueue AsyncExchange ConcreteIO Connections ConnectionsProps.

Section conversation.
Context `{AO : ArchiveOps} `{AL : !ArchiveLaws} `{EO : !EndpointOps} `{BM : BuildMode} {Handler : Type}.
Implicit Types (c : Connections (Handler:=Handler)) (t : Task (Handler:=Handler)).

(** ** One side *)

(** The other side as this side knows it: its identity, the endpoint and the
    socket of the connection. *)
Record Link := mkLink {
  other : Address;
  at_endpoint : Endpoint;
  on_socket : nat
}.
Implicit Types (l : Link).

(** The object, the datagrams that are on their way to it, the calls of handlers
    it has made, what was given to [Send] and what has gone out. *)
Record Side := mkSide {
  conns : Connections (Handler:=Handler);
  inbox : list SerialisedMessage;
  calls : list (Call (Handler:=Handler));
  asked : list SerialisedMessage;
  said : list SerialisedMessage
}.
Implicit Types (s : Side).

Definition side_of c : Side := mkSide c [] [] [] [].

(** What [async_send] is given on the socket, when the task is run. *)
Definition sends_on (socket : nat) c t : list SerialisedMessage :=
  match t with
  | TSend id bytes _ =>
      match assoc_find id (id_to_endpoint_map_ c) with
      | Some e => if bool_decide (assoc_find e (connections_ c) = Some socket) then [bytes] else []
      | None => []
      end
  | _ => []
  end.

(** The tasks of a conversation: sending to the other side and receiving. *)
Definition talks l t : bool :=
  match t with
  | TSend id bytes _ => bool_decide (id = other l) && (Z.of_nat (length bytes) <=? max_message_size)%Z
  | TReceive _ => true
  | _ => false
  end.

Definition is_receiving t : bool := match t with TReceiving _ _ _ => true | _ => false end.

(** The bytes a [Send] that has not run is for. *)
Definition to_send t : option SerialisedMessage :=
  match t with TSend _ bytes _ => Some bytes | _ => None end.

(** [side_step l s put s']: a public function is called, a task runs without an
    error, or a receive operation completes with the first datagram; [put] goes
    out on the connection. *)
Inductive side_step l : Side → list SerialisedMessage → Side → Prop :=
  | side_request s t :
      talks l t = true →
      side_step l s []
        (mkSide (start t (conns s)) (inbox s) (calls s) (asked s ++ option_list (to_send t)) (said s))
  | side_task s i t cs c' :
      tasks (conns s) !! i = Some t → is_receiving t = false →
      run_task t (mkCompletion success (at_endpoint l) []) (finish i (conns s)) = (Ok cs, c') →
      let put := sends_on (on_socket l) (conns s) t in
      side_step l s put (mkSide c' (inbox s) (calls s ++ cs) (asked s) (said s ++ put))
  | side_receive s i id e bytes rest cs c' :
      tasks (conns s) !! i = Some (TReceiving id e (on_socket l)) → inbox s = bytes :: rest →
      run_task (TReceiving id e (on_socket l)) (mkCompletion success e bytes) (finish i (conns s)) = (Ok cs, c') →
      side_step l s [] (mkSide c' rest (calls s ++ cs) (asked s) (said s)).

(** What has arrived: given to handlers, or queued. *)
Definition heard s : list (error_code * Address * SerialisedMessage) :=
  delivered (calls s) ++ values (receive_queue_ (conns s)).

(** ** Both sides *)
Definition arrives (put : list SerialisedMessage) s : Side :=
  mkSide (conns s) (inbox s ++ put) (calls s) (asked s) (said s).

Inductive talk_step (la lb : Link) : Side * Side → Side * Side → Prop :=
  | talk_a a b put a' : side_step la a put a' → talk_step la lb (a, b) (a', arrives put b)
  | talk_b a b put b' : side_step lb b put b' → talk_step la lb (a, b) (arrives put a, b').

(** ** The invariant *)

(** The connection is there, one receive operation is under way on it, and
    nothing else but talk is to be done. *)
Definition talk_task l t : Prop :=
  talks l t = true ∨ (∃ h, t = TSending (other l) (at_endpoint l) (on_socket l) h) ∨
  t = TReceiving (other l) (at_endpoint l) (on_socket l).

Record link_ok l c : Prop := {
  lk_alive : destroyed c = false;
  lk_id : assoc_find (other l) (id_to_endpoint_map_ c) = Some (at_endpoint l);
  lk_conn : assoc_find (at_endpoint l) (connections_ c) = Some (on_socket l);
  lk_queue : queue_ok (receive_queue_ c);
  lk_tasks : Forall (talk_task l) (tasks c);
  lk_receiving : length (List.filter is_receiving (tasks c)) = 1
}.

Lemma receiving_delete i t c :
  tasks c !! i = Some t →
  length (List.filter is_receiving (tasks c)) =
    (if is_receiving t then 1 else 0) + length (List.filter is_receiving (tasks (finish i c))).
Proof.
  intros Ht. rewrite <-(take_drop_middle _ _ _ Ht) at 1. cbn [finish tasks set_tasks].
  rewrite delete_take_drop, !List.filter_app, !length_app. cbn. destruct (is_receiving t); cbn; lia.
Qed.

(** What fits into the buffer of a receive operation. *)
Definition small (bytes : SerialisedMessage) : Prop := (Z.of_nat (length bytes) ≤ max_message_size)%Z.

Lemma take_small bytes : small bytes → take (length empty_buffer) bytes = bytes.
Proof. unfold small, empty_buffer. rewrite repeat_length. intros Hl. apply take_ge. lia. Qed.

Lemma talk_small l t : talk_task l t → Forall small (option_list (to_send t)).
Proof.
  intros [Ht|[[h ->]| ->]]; [|done..]. destruct t; try done. cbn in *.
  apply andb_prop in Ht as [_ Ht%Z.leb_le]. by apply Forall_singleton.
Qed.

(** A task is done. *)
Lemma finish_talk l i t c :
  tasks c !! i = Some t → link_ok l c →
  talk_task l t ∧ Forall (talk_task l) (tasks (finish i c)) ∧
  (is_receiving t = false → link_ok l (finish i c)).
Proof.
  intros Ht [Ha Hid Hc Hq Htk Hr]. split; [by eapply Forall_lookup_1|].
  assert (Forall (talk_task l) (tasks (finish i c))) as Hf by by apply Forall_delete.
  split; [done|]. intros Hn. split; try done. rewrite (receiving_delete i t) in Hr by done. by rewrite Hn in Hr.
Qed.

Lemma start_talk l t c :
  link_ok l c → talk_task l t → is_receiving t = false → link_ok l (start t c).
Proof.
  intros [Ha Hid Hc Hq Htk Hr] Ht Hn. split; try done; cbn [start tasks set_tasks].
  - apply Forall_app. split; [done|]. by apply Forall_singleton.
  - rewrite List.filter_app, length_app. cbn. rewrite Hn, Hr. done.
Qed.

Definition unsent c : list SerialisedMessage := omap to_send (tasks c).

Lemma unsent_finish i t c :
  tasks c !! i = Some t → unsent c ≡ₚ option_list (to_send t) ++ unsent (finish i c).
Proof.
  intros Ht. unfold unsent. rewrite <-(take_drop_middle _ _ _ Ht) at 1. cbn [finish tasks set_tasks].
  rewrite delete_take_drop, !omap_app. cbn. destruct (to_send t); [|done].
  cbn. symmetry. apply Permutation_middle.
Qed.

Lemma unsent_start t c : unsent (start t c) = unsent c ++ option_list (to_send t).
Proof. unfold unsent, start. cbn [tasks set_tasks]. rewrite omap_app. cbn. by destruct (to_send t). Qed.

(** A task other than receiving: a send goes out on the connection. *)
Lemma run_talk l t c cs c' :
  link_ok l c → talk_task l t → is_receiving t = false →
  run_task t (mkCompletion success (at_endpoint l) []) c = (Ok cs, c') →
  link_ok l c' ∧ unsent c' = unsent c ∧ sends_on (on_socket l) c t = option_list (to_send t).
Proof.
  intros Hl Ht Hn Hrun. pose proof Hl as [Ha Hid Hc Hq _ _].
  pose proof (run_task_accounted _ _ _ _ _ Hq Hrun) as (Hq' & _ & _).
  destruct Ht as [Ht|[(h & ->)| ->]]; [destruct t as [id bytes h|h| | | | | | | | |]; try done|..|done].
  - cbn in Ht. apply andb_prop in Ht as [->%bool_decide_eq_true Hlen].
    cbn [run_task] in Hrun. unfold run_Send, alive in Hrun. rewrite Ha, Hid, Hc in Hrun.
    injection Hrun as <- <-. split; [|split].
    + apply start_talk; [done|right; left; by eexists|done].
    + by rewrite unsent_start, app_nil_r.
    + cbn. by rewrite Hid, bool_decide_eq_true_2.
  - cbn [run_task] in Hrun. unfold run_Receive, alive in Hrun. rewrite Ha in Hrun.
    destruct (AsyncPop h _) as [call q]. injection Hrun as <- <-.
    split; [|done]. destruct Hl. by split.
  - cbn [run_task] in Hrun. unfold sending_done in Hrun.
    rewrite (assoc_find_alive (at_endpoint l)) in Hrun by done. by injection Hrun as <- <-.
Qed.

(** A datagram is received: another receive operation is started. *)
Lemma run_receiving l c bytes :
  destroyed c = false → assoc_find (at_endpoint l) (connections_ c) = Some (on_socket l) →
  queue_ok (receive_queue_ c) → small bytes →
  ∃ cs q, run_task (TReceiving (other l) (at_endpoint l) (on_socket l))
            (mkCompletion success (at_endpoint l) bytes) c
          = (Ok cs, StartReceiving (other l) (at_endpoint l) (on_socket l) (set_queue q c)) ∧
    queue_ok q ∧
    values (receive_queue_ c) ++ [(success, other l, bytes)] = delivered cs ++ values q.
Proof.
  intros Ha Hc Hq Hsm. cbn [run_task r_error r_data]. unfold receiving_done, alive.
  rewrite Ha, (assoc_find_alive (at_endpoint l)) by done. change (failed success) with false.
  cbn [negb]. rewrite resize_written, take_small by done.
  unfold push_received.
  set (v := (success, other l, bytes)). destruct (accounted_queue c (OPush v) _ _ Hq (surjective_pairing _))
    as (Hq' & _ & Hv).
  exists (received_call <$> option_list (Push v (receive_queue_ c)).1), (Push v (receive_queue_ c)).2.
  split; [by destruct (Push _ _)|]. by split.
Qed.

(** A datagram of the other side, as a handler gets it. *)
Definition from l (bytes : SerialisedMessage) : error_code * Address * SerialisedMessage :=
  (success, other l, bytes).

Lemma heard_step s c' cs inbox' asked' said' arr :
  values (receive_queue_ (conns s)) ++ arr = delivered cs ++ values (receive_queue_ c') →
  heard (mkSide c' inbox' (calls s ++ cs) asked' said') = heard s ++ arr.
Proof.
  intros Hv. unfold heard, delivered in *. cbn [calls conns]. rewrite omap_app.
  by rewrite <-!(assoc_L (++)), Hv.
Qed.

(** The invariant of a side. *)
Definition side_ok l s : Prop :=
  link_ok l (conns s) ∧ asked s ≡ₚ said s ++ unsent (conns s) ∧ Forall small (inbox s).

Lemma side_step_ok l s put s' :
  side_ok l s → side_step l s put s' →
  side_ok l s' ∧ Forall small put ∧ said s' = said s ++ put ∧
  ∃ got, inbox s = got ++ inbox s' ∧ heard s' = heard s ++ (from l <$> got).
Proof.
  intros Hok Hst. revert Hok.
  destruct Hst as [s0 t Ht|s0 i t cs c' Hi Hn Hrun put0|s0 i id e bytes rest cs c' Hi Hin Hrun]; intros (Hl & Hask & Hin0).
  - split; [split_and!|split; [done|]].
    + apply start_talk; [done|by left|by destruct t].
    + cbn [asked said conns]. rewrite unsent_start, Hask. by rewrite (assoc (++)).
    + done.
    + cbn [said inbox]. rewrite app_nil_r. split; [done|]. exists []. cbn [app fmap list_fmap].
      by rewrite app_nil_r.
  - destruct (finish_talk l i t (conns s0) Hi Hl) as (Htk & _ & Hf). specialize (Hf Hn).
    destruct (run_talk l t _ cs c' Hf Htk Hn Hrun) as (Hl' & Hu & Hs).
    change (put0 = option_list (to_send t)) in Hs.
    destruct (run_task_accounted _ _ _ _ _ (lk_queue _ _ Hf) Hrun) as (_ & _ & Hv).
    split; [split_and!; [done| |done]|split; [rewrite Hs; by apply (talk_small l)|split; [done|]]].
    + cbn [asked said conns]. rewrite Hask, (unsent_finish i t), Hu, Hs by done. by rewrite (assoc (++)).
    + exists []. split; [done|]. apply heard_step. rewrite <-Hv. by destruct t.
  - destruct (finish_talk l i _ (conns s0) Hi Hl) as (Htk & Hfk & _).
    destruct Htk as [|[[h ?]|[= -> ->]]]; [done..|].
    destruct Hl as [Ha Hid Hc Hq _ Hr].
    rewrite Hin in Hin0. apply Forall_cons in Hin0 as [Hsm Hrest].
    destruct (run_receiving l (finish i (conns s0)) bytes Ha Hc Hq Hsm) as (cs' & q & Hrun' & Hq' & Hv).
    rewrite Hrun in Hrun'. injection Hrun' as <- ->.
    rewrite (receiving_delete i _ _ Hi) in Hr. cbn in Hr. split; [split_and!|split; [done|]].
    + split; try done; cbn [conns StartReceiving start set_queue tasks set_tasks].
      * apply Forall_app. split; [done|]. apply Forall_singleton. by right; right.
      * rewrite List.filter_app, length_app. cbn. unfold finish in Hr. cbn in Hr. lia.
    + cbn [asked said conns]. unfold StartReceiving. rewrite unsent_start, app_nil_r, Hask.
      by rewrite (unsent_finish i _ _ Hi).
    + done.
    + cbn [said inbox]. rewrite app_nil_r. split; [done|]. exists [bytes].
      split; [done|]. by apply heard_step.
Qed.

(** ** The conversation *)

(** What one side has put on the connection is what the other has heard, and
    what is on its way. *)
Definition hears l (speaker listener : Side) : Prop :=
  from l <$> said speaker = heard listener ++ (from l <$> inbox listener).

Definition talk_ok la lb (w : Side * Side) : Prop :=
  side_ok la w.1 ∧ side_ok lb w.2 ∧ hears lb w.1 w.2 ∧ hears la w.2 w.1.

Lemma hears_said l put speaker speaker' listener :
  said speaker' = said speaker ++ put → hears l speaker listener →
  hears l speaker' (arrives put listener).
Proof.
  intros Hs Hh. unfold hears in *. rewrite Hs, fmap_app, Hh. cbn [inbox arrives].
  by rewrite fmap_app, (assoc_L (++)).
Qed.

Lemma hears_got l put speaker listener listener' got :
  inbox listener = got ++ inbox listener' → heard listener' = heard listener ++ (from l <$> got) →
  hears l speaker listener → hears l (arrives put speaker) listener'.
Proof.
  intros Hi Hg Hh. unfold hears in *. cbn [said arrives]. rewrite Hh, Hi, fmap_app, Hg.
  by rewrite (assoc_L (++)).
Qed.

Lemma arrives_ok l put s : side_ok l s → Forall small put → side_ok l (arrives put s).
Proof. intros (Hl & Ha & Hi) Hp. split_and!; [done..|]. by apply Forall_app. Qed.

Lemma talk_step_ok la lb w w' : talk_step la lb w w' → talk_ok la lb w → talk_ok la lb w'.
Proof.
  intros [a b put a' Hst|a b put b' Hst] (Ha & Hb & Hab & Hba); cbn [fst snd] in *.
  - destruct (side_step_ok _ _ _ _ Ha Hst) as (Ha' & Hp & Hs & got & Hi & Hh).
    split; [done|]. split; [by apply arrives_ok|]. split; [by eapply hears_said|by eapply hears_got].
  - destruct (side_step_ok _ _ _ _ Hb Hst) as (Hb' & Hp & Hs & got & Hi & Hh).
    split; [by apply arrives_ok|]. split; [done|]. split; [by eapply hears_got|by eapply hears_said].
Qed.

(** What is on its way can be received. *)
Lemma can_receive l s bytes rest :
  side_ok l s → inbox s = bytes :: rest →
  ∃ s', side_step l s [] s' ∧ inbox s' = rest ∧ heard s' = heard s ++ [from l bytes].
Proof.
  intros Hok Hin. pose proof Hok as ([Ha Hid Hc Hq Htk Hr] & _ & Hsm).
  rewrite Hin in Hsm. apply Forall_cons in Hsm as [Hsm _].
  destruct (List.filter is_receiving (tasks (conns s))) as [|t ts] eqn:Hf; [done|].
  assert (t ∈ tasks (conns s) ∧ is_receiving t = true) as [Ht Hrt].
  { rewrite list_elem_of_In. apply filter_In. rewrite Hf. by left. }
  rewrite Forall_forall in Htk.
  destruct (Htk t Ht) as [Htl|[[h ->]| ->]]; [by destruct t|done|].
  apply list_elem_of_lookup in Ht as [i Hi].
  destruct (run_receiving l (finish i (conns s)) bytes Ha Hc Hq Hsm) as (cs & q & Hrun & _ & Hv).
  eexists. split; [by eapply side_receive|]. split; [done|]. by apply heard_step.
Qed.

(** What this means: the handlers given to [Receive] are called with what was said,
    in order, and all of it if one still waits and nothing is on its way; what
    was given to [Send] was said or its lambda has not run; what is on its way can
    be received. *)
Record listens l (speaker listener : Side) : Prop := {
  ls_order : delivered (calls listener) `prefix_of` (from l <$> said speaker);
  ls_all : handlers (receive_queue_ (conns listener)) ≠ [] → inbox listener = [] →
    delivered (calls listener) = from l <$> said speaker;
  ls_asked : asked speaker ≡ₚ said speaker ++ unsent (conns speaker);
  ls_next : ∀ bytes rest, inbox listener = bytes :: rest →
    ∃ s, side_step l listener [] s ∧ inbox s = rest ∧ heard s = heard listener ++ [from l bytes]
}.

Lemma hears_listens l l' speaker listener :
  side_ok l listener → side_ok l' speaker → hears l speaker listener → listens l speaker listener.
Proof.
  intros Hli Hsp Hh. split; [..|by apply Hsp|by intros bytes rest; apply can_receive].
  - rewrite Hh. unfold heard. rewrite <-(assoc_L (++)). by eexists.
  - intros Hn Hi. rewrite Hh, Hi. unfold heard. destruct Hli as [Hl _].
    destruct (lk_queue _ _ Hl) as [->|]; [by rewrite !app_nil_r|done].
Qed.

(** ** From the beginning *)

(** The first of the tasks runs. *)
Definition next_task (r : Completion) : prog (Connections (Handler:=Handler)) (list (Call (Handler:=Handler))) := λ c,
  match tasks c with
  | [] => (Ok [], c)
  | t :: ts => run_task t r (set_tasks ts c)
  end.

(** The lambda, the connection that is made and the exchange that brings [data]. *)
Definition three_tasks (remote : Endpoint) (data : SerialisedMessage)
    : prog (Connections (Handler:=Handler)) (list (Call (Handler:=Handler))) :=
  next_task (mkCompletion success remote []);;
  next_task (mkCompletion success remote []);;
  next_task (mkCompletion success remote data).

Lemma three_tasks_run remote data c0 c1 c2 cs c3 :
  next_task (mkCompletion success remote []) c0 = (Ok [], c1) →
  next_task (mkCompletion success remote []) c1 = (Ok [], c2) →
  next_task (mkCompletion success remote data) c2 = (Ok cs, c3) →
  three_tasks remote data c0 = (Ok cs, c3).
Proof. intros H1 H2 H3. unfold three_tasks. by rewrite (prog_bind_Ok _ _ _ _ _ H1), (prog_bind_Ok _ _ _ _ _ H2). Qed.

(** A side that has identified the other and has nothing else to do. *)
Definition fresh l c : Prop := link_ok l c ∧ unsent c = [] ∧ values (receive_queue_ c) = [].

Lemma identified_link his remote socket c :
  destroyed c = false → assoc_find remote (connections_ c) = Some socket →
  receive_queue_ c = AsyncQueue_new → tasks c = [] →
  fresh (mkLink his remote socket) (identified his remote socket c).
Proof.
  intros Ha Hc Hq Ht. unfold identified, StartReceiving, fresh, unsent.
  split; [|cbn; by rewrite Ht, Hq]. split;
    cbn [start set_tasks set_ids destroyed id_to_endpoint_map_ connections_ receive_queue_ tasks
         other at_endpoint on_socket]; rewrite ?Ht, ?Hq; try done.
  - by rewrite assoc_find_set, bool_decide_true.
  - by left.
  - apply Forall_singleton. by right; right.
Qed.

Lemma connected_link our_id his e remote rest h :
  ∃ c, three_tasks remote (Serialise ar_Identity his ++ rest) (Connect e h (Connections_new our_id))
         = (Ok [CallConnect h success his], c) ∧
    fresh (mkLink his remote 0) c.
Proof.
  set (c2 := mkConnections (Handler:=Handler) our_id [] (assoc_set remote 0 [(e, 0)]) [] AsyncQueue_new false 1 []).
  assert (assoc_find remote (connections_ c2) = Some 0) as He
    by (cbn [connections_ c2]; by rewrite assoc_find_set, bool_decide_true).
  exists (identified his remote 0 c2). split; [|by apply identified_link].
  eapply three_tasks_run; [reflexivity|reflexivity|].
  exact (proj1 (exchanged_identified his remote 0 h rest c2 He)).
Qed.

Lemma accepted_link our_id his port remote rest h :
  ∃ c, three_tasks remote (Serialise ar_Identity his ++ rest) (Accept port h (Connections_new our_id))
         = (Ok [CallAccept h success remote his], c) ∧
    fresh (mkLink his remote 1) c.
Proof.
  set (c2 := mkConnections (Handler:=Handler) our_id (assoc_erase port [(port, 0)]) (assoc_set remote 1 []) [] AsyncQueue_new false 2 []).
  assert (assoc_find remote (connections_ c2) = Some 1) as He
    by (cbn; by rewrite bool_decide_true).
  exists (identified his remote 1 c2). split; [|by apply identified_link].
  eapply three_tasks_run; [reflexivity|reflexivity|].
  exact (proj2 (exchanged_identified his remote 1 h rest c2 He)).
Qed.

(** C9: What is sent is received, in order, from the beginning: when one side
    accepts and the other connects and each is sent the other's identity, each
    side's handler is told whom it is connected to; and then, whatever messages of
    at most [max_message_size] bytes both sides send and in whatever order the lambdas and operations of both run, as long as
    none fails, the handlers a side gave to [Receive] are called with what the
    other side sent, complete and in the order in which it went out, all of it
    once a handler still waits and nothing is on its way; what was given to
    [Send] has gone out or its lambda has not run; and what is on its way can be
    received next. *)
Theorem connected_sides_talk id_a id_b e port remote_a remote_b rest_a rest_b h_a h_b :
  ∃ ca cb,
    three_tasks remote_b (Serialise ar_Identity id_b ++ rest_a) (Connect e h_a (Connections_new id_a))
      = (Ok [CallConnect h_a success id_b], ca) ∧
    three_tasks remote_a (Serialise ar_Identity id_a ++ rest_b) (Accept port h_b (Connections_new id_b))
      = (Ok [CallAccept h_b success remote_a id_a], cb) ∧
    let la := mkLink id_b remote_b 0 in
    let lb := mkLink id_a remote_a 1 in
    ∀ a b, rtc (talk_step la lb) (side_of ca, side_of cb) (a, b) →
      listens lb a b ∧ listens la b a.
Proof.
  destruct (connected_link id_a id_b e remote_b rest_a h_a) as (ca & Hca & Hla & Hua & Hva).
  destruct (accepted_link id_b id_a port remote_a rest_b h_b) as (cb & Hcb & Hlb & Hub & Hvb).
  exists ca, cb. split; [done|]. split; [done|]. intros la lb a b Hrun.
  assert (talk_ok la lb (side_of ca, side_of cb)) as Hok.
  { unfold talk_ok, side_ok, hears, heard. cbn [side_of fst snd conns asked said inbox calls].
    rewrite Hua, Hub, Hva, Hvb. split_and!; try done; by apply Forall_nil. }
  assert (talk_ok la lb (a, b)) as (Ha & Hb & Hab & Hba).
  { clear -Hrun Hok. induction Hrun; eauto using talk_step_ok. }
  split; by eapply hears_listens.
Qed.
End conversation.

(** ** A concrete conversation

    The node 7 connects to the node 0 and posts a message for it. *)
Module ConversationWitness.
Import Concrete ConnectionsWitness.
#[local] Existing Instance release_build.

Definition link_a : Link := mkLink (addr 0) endpoint 0.
Definition link_b : Link := mkLink (addr 7) endpoint 1.

Lemma connected_sides_talk_witness :
  ∃ ca cb,
    three_tasks endpoint (Serialise ar_Identity (addr 0) ++ []) (Connect endpoint 1 (Connections_new (addr 7)))
      = (Ok [CallConnect 1 success (addr 0)], ca) ∧
    three_tasks endpoint (Serialise ar_Identity (addr 7) ++ []) (Accept 5483 2 (Connections_new (addr 0)))
      = (Ok [CallAccept 2 success endpoint (addr 7)], cb) ∧
    let a := mkSide (start (TSend (addr 0) [5%Z] 3) ca) [] [] [[5%Z]] [] in
    listens link_b a (arrives [] (side_of cb)) ∧ listens link_a (arrives [] (side_of cb)) a.
Proof.
  destruct (connected_sides_talk (addr 7) (addr 0) endpoint 5483 endpoint endpoint [] [] 1 2)
    as (ca & cb & Ha & Hb & Htalk).
  exists ca, cb. split; [exact Ha|]. split; [exact Hb|]. apply Htalk, rtc_once, talk_a.
  exact (side_request link_a (side_of ca) (TSend (addr 0) [5%Z] 3) eq_refl).
Defined.
End ConversationWitness.
