(* ===== verification/Handshake.v ===== *)
(** * Two nodes meet

    The composition of [AsyncExchange] and two [ConnectionManager]s: the
    exchange of identities over a connection that one made and the other
    accepted, in any order of its four operations, and the first message. *)

From S2P Require Import Prelude CppStd Identity Types MessageHeader Codec ConcreteIO AsyncExchange.
From S2P Require Import ConnectionManager ConnectionManagerProps.

Section handshake.
Context `{IL : IdentityLaws} `{CO : !CryptoOps} `{AO : !ArchiveOps} `{AL : !ArchiveLaws} `{EO : !EndpointOps}.
Implicit Types (m a b : ConnectionManager) (p : PeerNode).

(** What the handler of an exchange whose operations succeed is given, whichever
    of them completes first, when the datagram fits the buffer. *)
Inductive exchanged (ours theirs : SerialisedMessage) : SerialisedMessage → Prop :=
  | exchanged_sent_first data :
      fits theirs → sent_first ours success success theirs = [(success, data)] → exchanged ours theirs data
  | exchanged_received_first data :
      fits theirs → received_first ours success success theirs = [(success, data)] →
      exchanged ours theirs data.

Lemma sent_first_exchanged ours theirs : fits theirs → exchanged ours theirs theirs.
Proof.
  intros Hfit. apply exchanged_sent_first; [done|]. rewrite sent_first_calls.
  by rewrite <-(exchange_buffer ours), take_ge by by apply fits_buffer.
Qed.

Lemma exchanged_parses {A} (c : Codec A) (x : A) ours data :
  roundtrips (λ _, True) c → exchanged ours (Serialise c x) data → Parse c data = Ok x.
Proof.
  intros Hc [data' Hfit%(fits_buffer ours) Hx|data' Hfit%(fits_buffer ours) Hx].
  - rewrite sent_first_calls, <-(exchange_buffer ours), take_ge in Hx by done. injection Hx as <-.
    by eapply Parse_Serialise.
  - rewrite received_first_calls, write_buffer_fits in Hx by done. revert Hx.
    generalize (drop (length (Serialise c x)) (rx_buffer (AsyncExchange ours))).
    intros rest Hx. injection Hx as <-.
    unfold exchanged_message. change (failed (joint_error success success)) with false. cbn iota.
    unfold Parse, Serialise. by rewrite Hc.
Qed.

(** A new peer is found under its name and by its guard, and is received from. *)
Lemma InsertPeer_new info socket m :
  manager_ok m → Pmid_Name (dht_fob info) = id info → find_peer m (id info) = None →
  let p := PeerNode_new info socket (next_object m) in
  let m' := InsertPeer None info socket m in
  manager_ok m' ∧ find_peer m' (id info) = Some p ∧ next_object m ∈ receives m' ∧
  on_receive_set m' = on_receive_set m ∧ our_fob_ m' = our_fob_ m.
Proof.
  intros Hm Hid Hf p m'.
  assert (manager_ok m') as Hm' by (apply InsertPeer_ok; [done|done|done]).
  split; [done|]. unfold m', InsertPeer. cbn [new_object].
  unfold find_peer in Hf. set (m1 := mkManager _ _ _ _ _ _ _ _ _).
  change (peer_ltb m1) with (peer_ltb m). change (peers_ m1) with (peers_ m).
  rewrite (map_insert_absent (peer_ltb m)) by done. split_and!; [|..|done|done].
  - unfold find_peer. apply (map_elem_find (peer_ltb m)).
    + apply map_ok_insert_by; [apply CloserToTarget_total|apply Hm|done].
    + change ((id info, p) ∈ insert_by fst (peer_ltb m) (id info, p) (peers_ m)).
      rewrite insert_by_perm. by left.
  - unfold StartReceiving. rewrite receives_receive, elem_of_app. right. by left.
Qed.

Lemma find_peer_guarded m x p :
  manager_ok m → find_peer m x = Some p → guarded_peer m (destroy_indicator_ p) = Some p.
Proof.
  intros Hm Hf%(map_find_elem (peer_ltb m)). unfold guarded_peer.
  destruct (List.find _ _) as [[k q]|] eqn:E; cbn.
  - apply find_some in E as [Hin%list_elem_of_In Heq%Nat.eqb_eq]. cbn in Heq.
    apply list_elem_of_lookup in Hf as [i Hi]. apply list_elem_of_lookup in Hin as [j Hj].
    assert (i = j) as ->.
    { eapply (NoDup_lookup (guards m)); [apply Hm| |]; unfold guards; rewrite list_lookup_fmap.
      - by rewrite Hi.
      - rewrite Hj. cbn. by rewrite Heq. }
    rewrite Hi in Hj. congruence.
  - apply List.find_none with (x:=(x, p)) in E; [|by apply list_elem_of_In]. cbn in E. by rewrite Nat.eqb_refl in E.
Qed.

(** What each side has when the exchange is over. *)
Definition knows m (other : PublicPmid) (socket : nat) : Prop :=
  manager_ok m ∧ ∃ p, find_peer m (Pmid_Name other) = Some p ∧ dht_fob (node_info_ p) = other ∧
    socket_ p = socket ∧ guarded_peer m (destroy_indicator_ p) = Some p ∧
    destroy_indicator_ p ∈ receives m.

Lemma InsertPeer_knows other socket m :
  manager_ok m → find_peer m (Pmid_Name other) = None →
  let m' := InsertPeer None (mkNodeInfo (Pmid_Name other) other true) socket m in
  knows m' other socket ∧ on_receive_set m' = on_receive_set m.
Proof.
  intros Hm Hf m'.
  destruct (InsertPeer_new (mkNodeInfo (Pmid_Name other) other true) socket m Hm eq_refl Hf)
    as (Hm' & Hf' & Hr & Hset & _).
  split; [|done]. split; [done|]. eexists. split; [exact Hf'|]. split_and!; [done|done| |done].
  by eapply (find_peer_guarded _ _ _ Hm').
Qed.

(** Two nodes that connect come to know each other: when one node's connection
    (made to a node it may expect under that name) is accepted by the other and
    the exchange of identities (which fit the buffer) succeeds on both sides, in
    whatever order the operations complete, each has the other as a peer under the name of its
    identity and is receiving from it; and the first object the connecting node
    then sends, of at most [MaxMessageSize] bytes, is given to the other's [on_receive_] callback under that name, in a
    buffer that parses to the object. *)
Theorem nodes_meet {A} (on_recv : Address → SerialisedMessage → ConnectionManager → ConnectionManager)
    (P : A → Prop) (c : Codec A) (o : A) a b endpoint sa sb assumed data_a data_b :
  manager_ok a → manager_ok b → socket_alive a sa = true → destroyed b = false → on_receive_set b = true →
  find_peer a (cm_our_id b) = None → find_peer b (cm_our_id a) = None →
  (∀ info, assumed = Some info → id info = cm_our_id b) →
  exchanged (Serialise ar_PublicPmid (our_fob_ a)) (Serialise ar_PublicPmid (our_fob_ b)) data_a →
  exchanged (Serialise ar_PublicPmid (our_fob_ b)) (Serialise ar_PublicPmid (our_fob_ a)) data_b →
  roundtrips P c → P o → (Z.of_nat (length (Serialise c o)) ≤ MaxMessageSize)%Z →
  let a' := (connect_exchanged None endpoint sa assumed (Done data_a) a).2 in
  let b' := (accept_exchanged None sb (Done data_b) b).2 in
  knows a' (our_fob_ b) sa ∧ knows b' (our_fob_ a) sb ∧
  ∃ guard m buffer, guard ∈ receives b' ∧ Parse c buffer = Ok o ∧
    receive_buffer_ <$> find_peer m (cm_our_id a) = Some buffer ∧
    let m' := on_recv (cm_our_id a) buffer m in
    let b'' := receive_done on_recv guard (Done (Serialise c o)) b' in
    (guarded_peer m' guard = None ∧ b'' = m') ∨
    (is_Some (guarded_peer m' guard) ∧ guard ∈ receives b'' ∧ peers_ b'' = peers_ m').
Proof.
  intros Ha Hb Hal Hd Hset Hfa Hfb Has Hda Hdb Hc Ho Hlen a' b'.
  apply (exchanged_parses ar_PublicPmid) in Hda; [|apply rt_PublicPmid].
  apply (exchanged_parses ar_PublicPmid) in Hdb; [|apply rt_PublicPmid].
  assert (knows a' (our_fob_ b) sa) as Hka.
  { unfold a', connect_exchanged. rewrite Hal, Hda. cbn [negb].
    assert (knows (InsertPeer None (mkNodeInfo (Pmid_Name (our_fob_ b)) (our_fob_ b) true) sa
              (erase_connecting endpoint a)) (our_fob_ b) sa) as Hk.
    { apply InsertPeer_knows; [|exact Hfa]. eapply shrinks_ok; [|exact Ha]. by split. }
    destruct assumed as [info|]; [|exact Hk]. unfold node_neb.
    rewrite bool_decide_eq_false_2; [exact Hk|]. intros Hne. apply Hne. by apply Has. }
  split; [exact Hka|].
  assert (b' = InsertPeer None (mkNodeInfo (Pmid_Name (our_fob_ a)) (our_fob_ a) true) sb b) as Hb'.
  { unfold b', accept_exchanged. by rewrite Hd, Hdb. }
  destruct (InsertPeer_knows (our_fob_ a) sb b Hb Hfb) as [Hk Hset']. rewrite <-Hb' in Hk, Hset'.
  split; [exact Hk|]. destruct Hk as (Hok & p & Hf & Hfob & _ & Hg & Hr).
  destruct (guarded_peer_find b' _ p Hok Hg) as (_ & _ & Hname).
  destruct (received_object_parses on_recv P c o (destroy_indicator_ p) b' p)
    as (m & buffer & Hp & Hbuf & Hcases); [done..|by rewrite Hset'|].
  exists (destroy_indicator_ p), m, buffer. split; [done|]. split; [done|].
  assert (peer_id p = cm_our_id a) as Hid by (unfold cm_our_id; congruence).
  rewrite <-Hid. split; [exact Hbuf|]. destruct Hcases as [?|(H1 & _ & H2 & H3)]; [by left|by right].
Qed.
End handshake.

(** ** Witness: the node 0 has connected to the node 7. *)
Module HandshakeWitness.
Import Concrete ManagerWitness.

Definition accepting : ConnectionManager :=
  (accept_done 5483 0 (Done tt) (finish 0 (StartAccepting 5483 (SetOnReceive (ConnectionManager_new (fob 7)))))).2.

Lemma accepting_ok : manager_ok accepting.
Proof.
  pose proof (manager_step_ok added receive added_public receive_public) as Hst.
  eapply Hst; [by apply (st_accept _ _ _ 0)|]. eapply Hst; [apply st_public, ps_StartAccepting|].
  eapply Hst; [apply st_public, ps_SetOnReceive|]. split; constructor.
Qed.

Lemma nodes_meet_witness :
  let a' := (connect_exchanged None endpoint 0 expected (Done (Serialise ar_PublicPmid (fob 7))) m2).2 in
  let b' := (accept_exchanged None 0 (Done (Serialise ar_PublicPmid (fob 0))) accepting).2 in
  knows a' (fob 7) 0 ∧ knows b' (fob 0) 0 ∧
  ∃ guard m buffer, guard ∈ receives b' ∧ Parse ar_PublicPmid buffer = Ok (fob 9) ∧
    receive_buffer_ <$> find_peer m (addr 0) = Some buffer ∧
    let m' := receive (addr 0) buffer m in
    let b'' := receive_done receive guard (Done (Serialise ar_PublicPmid (fob 9))) b' in
    (guarded_peer m' guard = None ∧ b'' = m') ∨
    (is_Some (guarded_peer m' guard) ∧ guard ∈ receives b'' ∧ peers_ b'' = peers_ m').
Proof.
  refine (nodes_meet receive (λ _, True) ar_PublicPmid (fob 9) m2 accepting endpoint 0 0 expected
    (Serialise ar_PublicPmid (fob 7)) (Serialise ar_PublicPmid (fob 0)) m2_ok accepting_ok _ _ _ _ _ _ _ _ _ I _).
  - reflexivity.
  - reflexivity.
  - reflexivity.
  - reflexivity.
  - reflexivity.
  - by intros info [= <-].
  - apply sent_first_exchanged. apply Z.leb_le. vm_refl.
  - apply sent_first_exchanged. apply Z.leb_le. vm_refl.
  - apply rt_PublicPmid.
  - apply Z.leb_le. vm_refl.
Defined.
End HandshakeWitness.
