(* ===== verification/NodesMeet.v ===== *)
(** * Two nodes from the start

    Two whole nodes, one that is given the other as a contact and one that
    accepts: after the connection and the exchange of identities each has the
    other as a peer, receives from it and has told its derived class. *)

From S2P Require Import Prelude CppStd Identity Types Accumulator MessageHeader Codec ConcreteIO Messages.
From S2P Require Import AsyncExchange ConnectionManager ConnectionManagerProps Handshake.
From S2P Require Import RoutingNode RoutingNodeProps NodeSystem NodeSystemProps.

Section meet.
Context `{IL : IdentityLaws} `{CO : !CryptoOps} `{AO : !ArchiveOps} `{AL : !ArchiveLaws} `{FO : !FobOps}.
Context `{EO : !EndpointOps} `{LO : LruCacheOps} `{BM : BuildMode} {Child : Type}.
Context (HandleConnectionAdded : Address → Child → Child * list NodeTask).
Context (HandleGet : SourceAddress → Authority → NameAndTypeId → Child → Child).
Implicit Types (s : System (Child:=Child)) (m : ConnectionManager).

Notation run := (sys_run HandleConnectionAdded HandleGet).

(** A contact is added and the connection to it is made; a port is opened and a
    connection is accepted. *)
Definition connecting_events (e : Endpoint) (data : SerialisedMessage) : list event :=
  [EPost (TaskAddContact e); ERun 0; EComplete 0 (Done []); EComplete 0 (Done data)].
Definition accepting_events (port : Z) (data : SerialisedMessage) : list event :=
  [EPost (TaskStartAccepting port); ERun 0; EComplete 0 (Done []); EComplete 1 (Done data)].

(** The derived class was told of the new peer. *)
Definition told (a : Address) (c : Child) s : Prop :=
  child (sys_node s) = (HandleConnectionAdded a c).1 ∧ posted s = (HandleConnectionAdded a c).2.

(** The end of an exchange that inserts a new peer. *)
Lemma complete_inserts s i p r other socket m1 :
  let m := connection_manager_ (sys_node s) in
  pending m !! i = Some p →
  run_pending None p r (finish i m) = (Ok tt, InsertPeer None (mkNodeInfo (Pmid_Name other) other true) socket m1) →
  manager_ok m1 → our_fob_ m = our_fob_ m1 → peers_ m = peers_ m1 →
  find_peer m1 (Pmid_Name other) = None → posted s = [] →
  let s' := (complete HandleConnectionAdded i r s).2 in
  knows (connection_manager_ (sys_node s')) other socket ∧ told (Pmid_Name other) (child (sys_node s)) s'.
Proof.
  intros m Hi Hrun Hm1 Hfob Hp Hf Hpost. unfold complete. fold m. rewrite Hi, Hrun.
  destruct (InsertPeer_knows other socket m1 Hm1 Hf) as [Hk _].
  set (info := mkNodeInfo (Pmid_Name other) other true) in *.
  assert (new_peer m (InsertPeer None info socket m1) = Some (id info)) as ->.
  { rewrite InsertPeer_eq by apply Hm1. rewrite (Hf : find_peer m1 (id info) = None).
    by apply with_new_peer_new; [apply Hm1|..]. }
  unfold told. cbn [child set_manager]. rewrite Hpost.
  change (id info) with (Pmid_Name other). by destruct (HandleConnectionAdded _ _) as [c ts].
Qed.

(** A run that ends with a completion. *)
Lemma run_completes es i r s :
  gone (run es s) = false →
  run (es ++ [EComplete i r]) s = (complete HandleConnectionAdded i r (run es s)).2.
Proof. intros Hg. unfold sys_run in *. rewrite foldl_snoc. cbn [sys_step]. by rewrite Hg. Qed.

(** A manager without peers and receive operations. *)
Lemma empty_manager_ok m : peers_ m = [] → receives m = [] → manager_ok m.
Proof. intros Hp Hr. split; unfold guards; rewrite ?Hp, ?Hr; constructor. Qed.

Lemma connecting_node fob random c e data other :
  Parse ar_PublicPmid data = Ok other →
  let s := run (connecting_events e data) (System_new fob random c) in
  knows (connection_manager_ (sys_node s)) other 0 ∧ told (Pmid_Name other) c s.
Proof.
  intros Hp. set (s3 := run (take 3 (connecting_events e data)) (System_new fob random c)).
  change (connecting_events e data) with (take 3 (connecting_events e data) ++ [EComplete 0 (Done data)]).
  rewrite run_completes by done. fold s3.
  set (endpoint := external (EndpointPair_both e)).
  apply (complete_inserts s3 0 (PConnectExchange endpoint 0 None) (Done data) other 0
    (erase_connecting endpoint (finish 0 (connection_manager_ (sys_node s3)))));
    [reflexivity| |by apply empty_manager_ok|reflexivity..].
  cbn [run_pending]. unfold connect_exchanged.
  change (socket_alive _ 0) with true. cbn [negb]. by rewrite Hp.
Qed.

(** The node when a connection was accepted: it accepts the next one, too. *)
Lemma accepted_connection fob random c port :
  run [EPost (TaskStartAccepting port); ERun 0; EComplete 0 (Done [])] (System_new fob random c) =
  mkSystem (set_manager (mkManager (Pmid_public fob) [port] [] [] [] false false 2
                           [PAccept port 1; PAcceptExchange 0]) (RoutingNode_new fob random c)) [] false.
Proof.
  set (m1 := mkManager (Pmid_public fob) [port] [] [] [] false false 1 [PAccept port 0]).
  change (run [EPost (TaskStartAccepting port); ERun 0; EComplete 0 (Done [])] (System_new fob random c))
    with (complete HandleConnectionAdded 0 (Done [])
            (mkSystem (set_manager m1 (RoutingNode_new fob random c)) [] false)).2.
  unfold complete. cbn [sys_node connection_manager_ set_manager].
  change (pending m1 !! 0) with (Some (PAccept port 0)). cbn [run_pending without_data].
  unfold accept_done. change (destroyed (finish 0 m1)) with false. cbv iota.
  assert (StartAccepting port (finish 0 m1) =
    mkManager (Pmid_public fob) [port] [] [] [] false false 2 [PAccept port 1]) as ->; [|done].
  unfold StartAccepting. by rewrite bool_decide_eq_true_2 by by left.
Qed.

Lemma accepting_node fob random c port data other :
  Parse ar_PublicPmid data = Ok other →
  let s := run (accepting_events port data) (System_new fob random c) in
  knows (connection_manager_ (sys_node s)) other 0 ∧ told (Pmid_Name other) c s.
Proof.
  intros Hp. change (accepting_events port data)
    with ([EPost (TaskStartAccepting port); ERun 0; EComplete 0 (Done [])] ++ [EComplete 1 (Done data)]).
  rewrite run_completes; rewrite accepted_connection; [|done]. set (s3 := mkSystem _ _ _).
  apply (complete_inserts s3 1 (PAcceptExchange 0) (Done data) other 0
    (finish 1 (connection_manager_ (sys_node s3))));
    [reflexivity| |by apply empty_manager_ok|reflexivity..].
  cbn [run_pending]. unfold accept_exchanged. change (destroyed _) with false. cbv iota. by rewrite Hp.
Qed.

(** C18: Two nodes that are new meet: when one is given the endpoint of the other
    as a contact, the other accepts on a port, the connection is made and the
    exchange of identities (which fit its buffer) succeeds on both sides in whatever order its
    operations complete, then each node has the other as a peer under the name
    of its identity, is receiving from it, and has told its derived class, whose
    calls are posted. *)
Theorem new_nodes_meet fob_a fob_b random_a random_b c_a c_b e port data_a data_b :
  exchanged (Serialise ar_PublicPmid (Pmid_public fob_a)) (Serialise ar_PublicPmid (Pmid_public fob_b)) data_a →
  exchanged (Serialise ar_PublicPmid (Pmid_public fob_b)) (Serialise ar_PublicPmid (Pmid_public fob_a)) data_b →
  let a := run (connecting_events e data_a) (System_new fob_a random_a c_a) in
  let b := run (accepting_events port data_b) (System_new fob_b random_b c_b) in
  knows (connection_manager_ (sys_node a)) (Pmid_public fob_b) 0 ∧
  told (Pmid_Name (Pmid_public fob_b)) c_a a ∧
  knows (connection_manager_ (sys_node b)) (Pmid_public fob_a) 0 ∧
  told (Pmid_Name (Pmid_public fob_a)) c_b b.
Proof.
  intros Ha%(exchanged_parses ar_PublicPmid) Hb%(exchanged_parses ar_PublicPmid) a b; [|apply rt_PublicPmid..].
  destruct (connecting_node fob_a random_a c_a e data_a _ Ha) as [H1 H2].
  by destruct (accepting_node fob_b random_b c_b port data_b _ Hb) as [H3 H4].
Qed.
End meet.

(** ** The nodes 1 and 7 *)
Module MeetWitness.
Import Concrete NodeWitness SystemWitness.
#[local] Existing Instance release_build.

Definition contact : Endpoint := (inl (1, 2, 3, 4)%Z, 5483%Z).
Definition identity_of (i : N) : SerialisedMessage := Serialise ar_PublicPmid (Pmid_public (fob i)).

Lemma identities_exchanged : exchanged (identity_of 1) (identity_of 7) (identity_of 7) ∧
  exchanged (identity_of 7) (identity_of 1) (identity_of 1).
Proof. split; apply sent_first_exchanged; apply Z.leb_le; vm_refl. Qed.

Lemma new_nodes_meet_witness :
  let a := sys_run on_connection record_get (connecting_events contact (identity_of 7)) (System_new (fob 1) 5%Z []) in
  let b := sys_run on_connection record_get (accepting_events 5483 (identity_of 1)) (System_new (fob 7) 6%Z []) in
  knows (connection_manager_ (sys_node a)) (Pmid_public (fob 7)) 0 ∧
  told on_connection (Pmid_Name (Pmid_public (fob 7))) [] a ∧
  knows (connection_manager_ (sys_node b)) (Pmid_public (fob 1)) 0 ∧
  told on_connection (Pmid_Name (Pmid_public (fob 1))) [] b.
Proof.
  exact (new_nodes_meet on_connection record_get (fob 1) (fob 7) 5%Z 6%Z [] [] contact 5483
    (identity_of 7) (identity_of 1) (proj1 identities_exchanged) (proj2 identities_exchanged)).
Defined.
End MeetWitness.
