(* ===== verification/CppString.v ===== *)
(** * Strings of C++

    [std::string] as the list of its characters, with what the command line
    tools use of it: [find], [rfind], [substr], [atoi], reading a number from a
    stream, and splitting at spaces.  [npos] is [None]. *)

From Stdlib Require Import Ascii.
From stdpp Require Import strings.
From S2P Require Import Prelude.

Definition std_string : Type := list Ascii.ascii.

(** A literal. *)
Definition lit (s : string) : std_string := String.list_ascii_of_string s.

(** [s.find (p)]: where [p] begins for the first time. *)
Fixpoint find (p s : std_string) : option nat :=
  if decide (p `prefix_of` s) then Some 0
  else match s with
       | [] => None
       | _ :: s' => S <$> find p s'
       end.

(** [s.rfind (c)]: the last place of a character. *)
Fixpoint rfind (c : Ascii.ascii) (s : std_string) : option nat :=
  match s with
  | [] => None
  | c' :: s' =>
      match rfind c s' with
      | Some i => Some (S i)
      | None => if decide (c' = c) then Some 0 else None
      end
  end.

(** [pos + n] where [pos] may be [npos], the greatest [size_t]. *)
Definition npos_add (pos : option nat) (n : nat) : nat :=
  match pos with
  | Some i => i + n
  | None => n - 1
  end.

(** [s.substr (pos, n)]; with [n = npos], to the end. *)
Definition substr (pos : nat) (n : option nat) (s : std_string) : outcome std_string :=
  if length s <? pos then Throw out_of_range
  else Ok (match n with
           | Some n => take n (drop pos s)
           | None => drop pos s
           end).

(** ** Numbers *)
Definition is_space (c : Ascii.ascii) : bool :=
  let n := Ascii.nat_of_ascii c in (n =? 32) || ((9 <=? n) && (n <=? 13)).

Definition digit (c : Ascii.ascii) : option Z :=
  let n := Ascii.nat_of_ascii c in
  if (48 <=? n) && (n <=? 57) then Some (Z.of_nat n - 48)%Z else None.

Fixpoint skip_spaces (s : std_string) : std_string :=
  match s with
  | c :: s' => if is_space c then skip_spaces s' else s
  | [] => []
  end.

(** The digits at the start: how many there are, and their value on top of
    [acc]. *)
Fixpoint read_digits (acc : Z) (s : std_string) : nat * Z :=
  match s with
  | c :: s' =>
      match digit c with
      | Some d => let '(n, v) := read_digits (acc * 10 + d) s' in (S n, v)
      | None => (0, acc)
      end
  | [] => (0, acc)
  end.

(** A sign, if any, and the digits after it. *)
Definition read_signed (s : std_string) : bool * (nat * Z) :=
  match skip_spaces s with
  | c :: s' =>
      if decide (c = "-"%char) then (true, read_digits 0 s')
      else if decide (c = "+"%char) then (false, read_digits 0 s')
      else (false, read_digits 0 (c :: s'))
  | [] => (false, (0, 0%Z))
  end.

Definition int_ok (z : Z) : bool := (- 2 ^ 31 <=? z)%Z && (z <? 2 ^ 31)%Z.

(** [atoi]: undefined when the number does not fit an [int]. *)
Definition atoi (s : std_string) : outcome Z :=
  let '(negative, (_, v)) := read_signed s in
  let z := if negative : bool then (- v)%Z else v in
  if int_ok z then Ok z else Undefined.

(** [stream >> x]: the value read, or what a failed extraction leaves in [x];
    [None] when there is nothing to read and [x] keeps its value. *)
Definition is_blank (s : std_string) : bool :=
  match skip_spaces s with [] => true | _ => false end.

(** For an [int x]: without digits 0 is stored, out of range the nearest value. *)
Definition extract_int (s : std_string) : Z + option Z :=
  if is_blank s then inr None
  else
    let '(negative, (n, v)) := read_signed s in
    let z := if negative : bool then (- v)%Z else v in
    if n =? 0 then inr (Some 0%Z)
    else if int_ok z then inl z
    else inr (Some (if negative then - 2 ^ 31 else 2 ^ 31 - 1)%Z).

(** For a [uint16_t x]: a negative number becomes a great one. *)
Definition extract_uint16 (s : std_string) : Z + option Z :=
  if is_blank s then inr None
  else
    let '(negative, (n, v)) := read_signed s in
    let z := if negative : bool then ((- v) mod 2 ^ 64)%Z else v in
    if n =? 0 then inr (Some 0%Z)
    else if (z <? 2 ^ 16)%Z then inl z
    else inr (Some (2 ^ 16 - 1)%Z).

(** The decimal digits of a number, in front of [acc]. *)
Fixpoint decimal (fuel : nat) (n : Z) (acc : std_string) : std_string :=
  match fuel with
  | 0 => acc
  | S fuel =>
      let acc := Ascii.ascii_of_nat (Z.to_nat (48 + n mod 10)) :: acc in
      if (n <? 10)%Z then acc else decimal fuel (n / 10) acc
  end.

(** [std::to_string] of an unsigned number of 32 bits, which has at most 10
    digits. *)
Definition to_string (n : Z) : std_string := decimal 10 n [].

(** ** Words *)

(** The characters up to the next one that satisfies [sep], and the rest. *)
Fixpoint take_word (sep : Ascii.ascii → bool) (s : std_string) : std_string * std_string :=
  match s with
  | [] => ([], [])
  | c :: s' =>
      if sep c then ([], s)
      else let '(w, r) := take_word sep s' in (c :: w, r)
  end.

(** [stream >> x] for a [std::string x]: the first word, if there is one. *)
Definition extract_word (s : std_string) : std_string + option std_string :=
  match (take_word is_space (skip_spaces s)).1 with
  | [] => inr None
  | w => inl w
  end.

(** [boost::tokenizer] with [char_separator (" ")], which drops empty tokens:
    [word] is the token being read. *)
Fixpoint tokens_from (word s : std_string) : list std_string :=
  let emit := match word with [] => [] | _ => [reverse word] end in
  match s with
  | [] => emit
  | c :: s' =>
      if decide (c = " "%char) then emit ++ tokens_from [] s'
      else tokens_from (c :: word) s'
  end.

Definition tokenize (s : std_string) : list std_string := tokens_from [] s.

(** ** Facts *)
Lemma find_absent c p s : c ∉ s → find (c :: p) s = None.
Proof.
  induction s as [|c' s IH]; intros Hc; cbn.
  - destruct (decide _) as [Hp|]; [|done]. by apply prefix_nil_not in Hp.
  - apply not_elem_of_cons in Hc as [Hne Hc].
    destruct (decide _) as [[r Hr]|]; [by injection Hr|]. by rewrite IH.
Qed.

(** A pattern is found where it was put when its first character is nowhere
    before. *)
Lemma find_app c p s r : c ∉ s → find (c :: p) (s ++ (c :: p) ++ r) = Some (length s).
Proof.
  induction s as [|c' s IH]; intros Hc.
  - cbn. destruct (decide _) as [|Hn]; [done|]. destruct Hn. by exists r.
  - apply not_elem_of_cons in Hc as [Hne Hc].
    change ((c' :: s) ++ _) with (c' :: (s ++ (c :: p) ++ r)). cbn [find].
    destruct (decide _) as [[r' Hr]|]; [by injection Hr|]. by rewrite IH.
Qed.

Lemma rfind_absent c s : c ∉ s → rfind c s = None.
Proof.
  induction s as [|c' s IH]; intros Hc; cbn; [done|]. apply not_elem_of_cons in Hc as [Hne Hc].
  rewrite IH by done. by destruct (decide _) as [->|].
Qed.

Lemma rfind_app c s r : c ∉ r → rfind c (s ++ c :: r) = Some (length s).
Proof.
  intros Hr. induction s as [|c' s IH]; cbn; [|by rewrite IH].
  rewrite rfind_absent by done. by rewrite decide_True.
Qed.

Lemma substr_app s t r : substr (length s) (Some (length t)) (s ++ t ++ r) = Ok t.
Proof.
  unfold substr. destruct (Nat.ltb_spec (length (s ++ t ++ r)) (length s)) as [Hl|Hl].
  - rewrite length_app in Hl. lia.
  - by rewrite drop_app_length, take_app_length.
Qed.

Lemma int_ok_spec z : int_ok z = true ↔ (- 2 ^ 31 ≤ z < 2 ^ 31)%Z.
Proof. unfold int_ok. rewrite andb_true_iff, Z.leb_le, Z.ltb_lt. done. Qed.

Lemma atoi_range s z : atoi s = Ok z → (- 2 ^ 31 ≤ z < 2 ^ 31)%Z.
Proof.
  unfold atoi. destruct (read_signed s) as [neg [n v]].
  destruct (int_ok _) eqn:E; [|done]. intros [= <-]. by apply int_ok_spec.
Qed.

(** Tokens are not empty and have no spaces. *)
Definition is_token (t : std_string) : Prop := t ≠ [] ∧ " "%char ∉ t.

Lemma emitted_token (word : std_string) :
  " "%char ∉ word → Forall is_token (match word with [] => [] | _ => [reverse word] end).
Proof.
  destruct word as [|c w] eqn:E; [done|]. rewrite <-E. intros Hw.
  repeat constructor; [|by rewrite elem_of_reverse].
  intros Hr%(f_equal length). by rewrite length_reverse, E in Hr.
Qed.

Lemma tokens_from_words word s : " "%char ∉ word → Forall is_token (tokens_from word s).
Proof.
  revert word. induction s as [|c s IH]; intros word Hw; cbn [tokens_from].
  - by apply emitted_token.
  - destruct (decide (c = " "%char)) as [->|Hc]; [|apply IH, not_elem_of_cons; done].
    apply Forall_app. split; [by apply emitted_token|apply IH, not_elem_of_nil].
Qed.

Lemma tokenize_words s : Forall is_token (tokenize s).
Proof. apply tokens_from_words, not_elem_of_nil. Qed.

(** ** [to_string] and [atoi] *)
Lemma digit_of_value d : (0 ≤ d < 10)%Z → digit (Ascii.ascii_of_nat (Z.to_nat (48 + d))) = Some d.
Proof.
  intros Hd. unfold digit. rewrite Ascii.nat_ascii_embedding by lia.
  rewrite (proj2 (Nat.leb_le _ _)), (proj2 (Nat.leb_le _ _)) by lia. cbn. f_equal. lia.
Qed.

Lemma decimal_length fuel n acc : length (decimal fuel n acc) ≤ fuel + length acc.
Proof.
  revert n acc. induction fuel as [|fuel IH]; intros n acc; cbn [decimal]; [done|].
  destruct (n <? 10)%Z; [cbn; lia|]. etrans; [apply IH|]. cbn. lia.
Qed.

Lemma to_string_length n : length (to_string n) ≤ 10.
Proof. etrans; [apply decimal_length|]. cbn. lia. Qed.

Lemma decimal_read fuel n acc v :
  (0 < fuel) → (0 ≤ n < 10 ^ Z.of_nat fuel)%Z →
  ∃ k c r, decimal fuel n acc = c :: r ∧ is_Some (digit c) ∧
    (0 ≤ k)%Z ∧ (read_digits v (c :: r)).2 = (read_digits (v * 10 ^ k + n) acc).2.
Proof.
  revert n acc. induction fuel as [|fuel IH]; intros n acc Hf Hn; [lia|]. cbn [decimal].
  pose proof (Z.mod_pos_bound n 10 ltac:(lia)) as Hm.
  assert (∀ w, (read_digits w (Ascii.ascii_of_nat (Z.to_nat (48 + n mod 10)) :: acc)).2
             = (read_digits (w * 10 + n mod 10) acc).2) as Hstep.
  { intros w. cbn [read_digits]. rewrite digit_of_value by done. by destruct (read_digits _ _). }
  destruct (Z.ltb_spec n 10) as [Hlt|Hge].
  - exists 1%Z. do 2 eexists. split_and!; [done| |lia|].
    + rewrite digit_of_value by done. done.
    + rewrite Hstep. rewrite Z.mod_small by lia. do 2 f_equal.
  - destruct (IH (n / 10)%Z (Ascii.ascii_of_nat (Z.to_nat (48 + n mod 10)) :: acc))
      as (k & c & r & -> & Hc & Hk & Hr).
    { destruct fuel; [|lia]. cbn in Hn. lia. }
    { rewrite Nat2Z.inj_succ, Z.pow_succ_r in Hn by lia. split; [apply Z.div_pos; lia|].
      apply Z.div_lt_upper_bound; lia. }
    exists (k + 1)%Z, c, r. split_and!; [done|done|lia|]. rewrite Hr, Hstep. do 2 f_equal.
    rewrite Z.pow_add_r by lia. pose proof (Z.div_mod n 10). lia.
Qed.

Lemma digit_char c : is_Some (digit c) → is_space c = false ∧ c ≠ "-"%char ∧ c ≠ "+"%char.
Proof.
  unfold digit, is_space. intros [d Hd]. case_match eqn:E; [|done].
  apply andb_true_iff in E as [E1%Nat.leb_le E2%Nat.leb_le].
  split; [|split; intros ->; vm_compute in E1; lia].
  rewrite (proj2 (Nat.eqb_neq _ _)) by lia. cbn.
  apply andb_false_iff. right. apply Nat.leb_gt. lia.
Qed.

(** Reading back a number that was printed. *)
Lemma atoi_to_string n : (0 ≤ n < 2 ^ 31)%Z → atoi (to_string n) = Ok n.
Proof.
  intros Hn. destruct (decimal_read 10 n [] 0) as (k & c & r & Hd & Hc & _ & Hr); [lia|lia|].
  unfold atoi, to_string, read_signed. rewrite Hd. destruct (digit_char c Hc) as (Hs & Hm & Hp).
  cbn [skip_spaces]. rewrite Hs, !decide_False by done.
  destruct (read_digits 0 (c :: r)) as [len v]. cbn [read_digits snd] in Hr. rewrite Z.mul_0_l, Z.add_0_l in Hr. subst v.
  rewrite (proj2 (int_ok_spec n)) by lia. done.
Qed.

Lemma decimal_digits fuel n acc :
  (0 ≤ n)%Z → Forall (λ c, is_Some (digit c)) acc → Forall (λ c, is_Some (digit c)) (decimal fuel n acc).
Proof.
  revert n acc. induction fuel as [|fuel IH]; intros n acc Hn Ha; cbn [decimal]; [done|].
  pose proof (Z.mod_pos_bound n 10 ltac:(lia)) as Hm.
  assert (Forall (λ c, is_Some (digit c)) (Ascii.ascii_of_nat (Z.to_nat (48 + n mod 10)) :: acc)).
  { constructor; [|done]. by rewrite digit_of_value. }
  destruct (n <? 10)%Z; [done|]. apply IH; [apply Z.div_pos; lia|done].
Qed.

Lemma to_string_digits n c : (0 ≤ n)%Z → c ∈ to_string n → is_Some (digit c).
Proof.
  intros Hn. pose proof (decimal_digits 10 n [] Hn (Forall_nil_2 _)) as Hd.
  rewrite Forall_forall in Hd. apply Hd.
Qed.
