(* ===== verification/ToolEnv.v ===== *)
(** * What the command line tools stand on

    The console, code that may wait for ever, and the parameters for what is
    not in the repository: the text form of identities, the keys of passport,
    the [GenericNode] the tools drive, its random numbers, and the files. *)

From stdpp Require Import strings.
From S2P Require Import Prelude CppStd CppString Identity Types.

(** ** The console

    A line written to [std::cout] is the list of what the code streams. *)
Section pieces.
Context `{IdentityOps} `{EndpointOps}.

Inductive piece :=
  | Txt (s : string)
  | Str (s : std_string)
  | Num (z : Z)
  | Id (a : Identity) (* [HexSubstr], [DebugId] or [operator<<] of an identity *)
  | Ep (e : Endpoint)
  | Ratio (num den : Z). (* a [double] quotient *)

Definition line : Type := list piece.
End pieces.

(** ** Waiting

    A run that gives [None] never returns: the thread waits on a condition
    variable that nobody notifies, or loops until the process is killed. *)
Definition waiting (S A : Type) : Type := prog S (option A).

#[export] Instance waiting_ret {S} : MRet (waiting S) := λ A a s, (Ok (Some a), s).
#[export] Instance waiting_bind {S} : MBind (waiting S) := λ A B f m s,
  match m s with
  | (Ok (Some a), s') => f a s'
  | (Ok None, s') => (Ok None, s')
  | (Throw e, s') => (Throw e, s')
  | (AssertFailed, s') => (AssertFailed, s')
  | (Undefined, s') => (Undefined, s')
  end.

(** Code that always returns, inside code that may wait. *)
Definition run {S A} (p : prog S A) : waiting S A := λ s,
  match p s with
  | (Ok a, s') => (Ok (Some a), s')
  | (Throw e, s') => (Throw e, s')
  | (AssertFailed, s') => (AssertFailed, s')
  | (Undefined, s') => (Undefined, s')
  end.

Definition never_returns {S A} : waiting S A := λ s, (Ok None, s).

Lemma wbind_returns {S A B} (m : waiting S A) (f : A → waiting S B) s b s' :
  (m ≫= f) s = (Ok (Some b), s') ↔
  ∃ a s1, m s = (Ok (Some a), s1) ∧ f a s1 = (Ok (Some b), s').
Proof.
  unfold mbind, waiting_bind. destruct (m s) as [[[a|]|e| |] s1]; naive_solver.
Qed.

Lemma wbind_Ok {S A B} (m : waiting S A) (f : A → waiting S B) s a s1 :
  m s = (Ok (Some a), s1) → (m ≫= f) s = f a s1.
Proof. intros Hm. unfold mbind, waiting_bind. by rewrite Hm. Qed.

Lemma wbind_assoc {S A B C} (m : waiting S A) (f : A → waiting S B) (g : B → waiting S C) s :
  ((m ≫= f) ≫= g) s = (m ≫= λ a, f a ≫= g) s.
Proof. unfold mbind, waiting_bind. by destruct (m s) as [[[a|]|e| |] s1]. Qed.

Lemma wbind_ext {S A B} (m : waiting S A) (f g : A → waiting S B) s :
  (∀ a s', f a s' = g a s') → (m ≫= f) s = (m ≫= g) s.
Proof. intros Hfg. unfold mbind, waiting_bind. destruct (m s) as [[[a|]|e| |] s1]; auto. Qed.

Lemma run_Ok {S A} (p : prog S A) s a s' : p s = (Ok a, s') → run p s = (Ok (Some a), s').
Proof. intros Hp. unfold run. by rewrite Hp. Qed.

Lemma run_lift_Ok {S A} (f : S → outcome A) s a : f s = Ok a → run (lift f) s = (Ok (Some a), s).
Proof. intros Hf. apply run_Ok. unfold lift. by rewrite Hf. Qed.

(** ** Machine integers *)
Definition to_size_t (z : Z) : Z := (z mod 2 ^ 64)%Z.
Definition to_uint32 (z : Z) : Z := (z mod 2 ^ 32)%Z.
Definition to_uint16 (z : Z) : Z := (z mod 2 ^ 16)%Z.
Definition to_int (z : Z) : Z := ((z + 2 ^ 31) mod 2 ^ 32 - 2 ^ 31)%Z.

(** Signed arithmetic that overflows is undefined. *)
Definition int_result (z : Z) : outcome Z := if int_ok z then Ok z else Undefined.
Definition int64_result (z : Z) : outcome Z :=
  if (- 2 ^ 63 <=? z)%Z && (z <? 2 ^ 63)%Z then Ok z else Undefined.

(** Unsigned division; by zero it is undefined. *)
Definition udiv (a b : Z) : outcome Z := if (b =? 0)%Z then Undefined else Ok (a / b)%Z.
Definition umod (a b : Z) : outcome Z := if (b =? 0)%Z then Undefined else Ok (a mod b)%Z.

(** ** Identities as text: [Identity::string] and the constructor from a
    string, which throws unless it has 64 characters *)
Class AddressText `{IdentityOps} := {
  Address_string : Identity → std_string;
  Address_of_string : std_string → outcome Identity;
  (** [DeserializeNodeIdList] *)
  DeserializeNodeIdList : std_string → outcome (list Identity)
}.

Class AddressTextLaws `{AddressText} : Prop := {
  Address_string_length : ∀ a, IsInitialised a = true → length (Address_string a) = 64;
  Address_of_string_string : ∀ a,
    IsInitialised a = true → Address_of_string (Address_string a) = Ok a
}.

(** ** Keys: [passport::detail::AnmaidToPmid] *)
Class KeyOps `{CryptoOps} := {
  AnmaidToPmid : Type;
  pmid_name : AnmaidToPmid → Identity;
  pmid_public_key : AnmaidToPmid → PublicKey;
  maid_name : AnmaidToPmid → Identity
}.

(** ** [test::GenericNode]

    A parameter: the declarations of [tests/routing_network.h] are commented
    out.  The callbacks a node is given are run by the environment, see
    [Commands]. *)
Section node_info.
Context `{CryptoOps}.

(** The fields of the peer that [ZeroStateJoin] is given. *)
Record PeerInfo := mkPeerInfo {
  peer_id : Address;
  peer_public_key : PublicKey;
  peer_connection_id : Address
}.
End node_info.

Class GenericNodeOps `{KeyOps} `{EndpointOps} := {
  GenericNode : Type;
  (** [GenericNode (pmid)] and [GenericNode (maid)] *)
  node_of_pmid : AnmaidToPmid → GenericNode;
  node_of_maid : AnmaidToPmid → GenericNode;
  node_joined : GenericNode → bool;
  node_set_joined : bool → GenericNode → GenericNode;
  node_Address : GenericNode → Identity;
  node_endpoint : GenericNode → Endpoint;
  node_expected : GenericNode → Z;
  node_nat_type : GenericNode → Z;
  node_ReturnRoutingTable : GenericNode → list Identity;
  node_SerializeRoutingTable : GenericNode → std_string;
  node_ZeroStateJoin : Endpoint → PeerInfo → GenericNode → Z * GenericNode;
  node_Join : GenericNode → GenericNode;
  (** What the node passes to [functors_.network_status]: during [Join], and in
      the 20 seconds after it. *)
  node_statuses_joining : GenericNode → list Z;
  node_statuses_after : GenericNode → list Z;
  node_SendDirect : Identity → std_string → GenericNode → GenericNode;
  node_SendGroup : Identity → std_string → GenericNode → GenericNode
}.

Class GenericNodeLaws `{GenericNodeOps} : Prop := {
  node_joined_set : ∀ b n, node_joined (node_set_joined b n) = b
}.

(** ** Random numbers and network parameters

    [Random... n] is the [n]th drawn. *)
Class ToolOps `{IdentityOps} `{EndpointOps} := {
  RandomUint32 : nat → Z;
  RandomId : nat → Identity; (* [Address (RandomString (Address::kSize))] *)
  RandomAlphaNumericString : Z → nat → outcome std_string;
  parameters_group_size : Z; (* [Parameters::group_size] *)
  address_from_string : std_string → outcome IpAddress (* [ip::address::from_string] *)
}.

Class ToolLaws `{ToolOps} : Prop := {
  RandomAlphaNumericString_length : ∀ size n, (0 ≤ size < 2 ^ 31)%Z →
    ∃ text, RandomAlphaNumericString size n = Ok text ∧ Z.of_nat (length text) = size;
  parameters_group_size_range : (1 ≤ parameters_group_size < 2 ^ 32)%Z
}.

(** ** The responses the node passes to the functors of the messages sent

    Message [which] of a batch is answered at a time, by a text or, when the
    node gives up waiting, by an empty one.  [n] is the number of messages sent
    so far in the session. *)
Record Arrival := mkArrival { which : nat; at_time : Z; response : std_string }.

Class ArrivalOps := {
  send_time : nat → Z;
  arrivals_after : nat → list Arrival; (* before the sender goes on *)
  arrivals_waiting : nat → list Arrival; (* while the sender waits *)
  spurious_wakeup : nat → option nat; (* the wait ends unnotified, after so many of them *)
  functor_exception_caught : bool; (* by the node that calls the functor *)
  interrupted_after : nat (* messages of an infinite test before Ctrl+C *)
}.

(** ** Files: [bootstrap_file_operations.h] and [boost::filesystem] *)
Class FileOps `{EndpointOps} := {
  Files : Type;
  OverrideBootstrapFilePath : std_string; (* [detail::GetOverrideBootstrapFilePath<false>] *)
  WriteBootstrapContacts : list Endpoint → std_string → prog Files unit;
  ReadBootstrapContacts : std_string → Files → outcome (list Endpoint);
  fs_exists : std_string → Files → bool;
  fs_remove : std_string → prog Files bool
}.

Class FileLaws `{FileOps} : Prop := {
  ReadBootstrapContacts_written : ∀ contacts path f f',
    WriteBootstrapContacts contacts path f = (Ok tt, f') →
    ReadBootstrapContacts path f' = Ok contacts
}.
