(* ===== verification/SharedResponse.v ===== *)
(** * The responses to one sent message

    [tools/shared_response.h] and [tools/shared_response.cc].  Times are in
    microseconds, as [boost::posix_time] counts them. *)

From stdpp Require Import strings.
From S2P Require Import Prelude CppStd CppString Identity Types ToolEnv.

Section shared_response.
Context `{AT : AddressText} `{EO : !EndpointOps} `{TO : !ToolOps}.

(** [responded_nodes_] is a [std::set]. *)
Record SharedResponse := mkSharedResponse {
  closest_nodes_ : list Address;
  responded_nodes_ : list (Address * unit);
  expected_responses_ : Z;
  msg_send_time_ : Z;
  average_response_time_ : Z
}.

(** Made at [now]. *)
Definition SharedResponse_new (closest_nodes : list Address) (expect_responses now : Z) : SharedResponse :=
  mkSharedResponse closest_nodes [] expect_responses now 0.

(** [time_duration::total_milliseconds] *)
Definition total_milliseconds (t : Z) : Z := (t ÷ 1000)%Z.

Definition response_count (r : SharedResponse) : Z := Z.of_nat (length (responded_nodes_ r)).

(** The lines printed, and the responders for which [EXPECT_TRUE] reports a
    failure. *)
Definition CheckAndPrintResult (r : SharedResponse) : outcome (list line * list Address) :=
  match responded_nodes_ r with
  | [] => Ok ([], [])
  | responded =>
      average ← udiv (to_size_t (total_milliseconds (average_response_time_ r))) (response_count r);
      Ok ([Txt "Received response from following nodes :"]
            :: ((λ a, [Txt "\t"; Id a]) <$> responded.*1)
            ++ [[Txt "Average time taken for receiving msg:"; Num average; Txt " milliseconds"]],
          filter (λ a, a ∉ closest_nodes_ r) (responded.*1))
  end.

(** [npos + 3] is 2. *)
Definition PrintRoutingTable_response (response : std_string) : outcome (list line) :=
  match find (lit "request_routing_table") response with
  | None => Ok []
  | Some _ =>
      let start := npos_add (find (lit "---") response) 3 in
      response_node_list_msg ← substr start (Some (length response - start)) response;
      node_list ← DeserializeNodeIdList response_node_list_msg;
      Ok ([Txt "RECEIVED ROUTING TABLE::::"] :: ((λ a, [Txt "\t"; Id a]) <$> node_list))
  end.

(** The responder of a response. *)
Definition response_id (response : std_string) : outcome Address :=
  text ← substr (npos_add (find (lit "+++") response) 3) (Some 64) response;
  Address_of_string text.

Definition record_response (responder : Address) (now : Z) (r : SharedResponse) : SharedResponse :=
  mkSharedResponse (closest_nodes_ r)
    (map_insert Identity_ltb responder tt (responded_nodes_ r)).1
    (expected_responses_ r) (msg_send_time_ r)
    (average_response_time_ r + (now - msg_send_time_ r)).

(** A response read at [now]; [timeout] is [default_response_timeout].  The
    responses are read one at a time, under the mutex. *)
Definition CollectResponse (response : std_string) (print_performance : bool) (now timeout : Z) :
    prog (SharedResponse * list line) bool := λ '(r, out),
  match response_id response with
  | Ok responder =>
      let out := out ++ [[Txt "a message from "; Id responder]] in
      let duration := total_milliseconds (now - msg_send_time_ r) in
      let size := Z.of_nat (length response) in
      if (duration <? timeout)%Z then
        match map_find Identity_ltb responder (responded_nodes_ r) with
        | Some _ => (Ok false, (r, out ++ [[Txt "Wrong message from "; Id responder]]))
        | None =>
            (Ok true,
             (record_response responder now r,
              if print_performance
              then out ++ [[Txt "Direct message sent to "; Id responder; Txt " completed in ";
                            Num duration; Txt " milliseconds, has throughput rate ";
                            Ratio (to_size_t (size * 2)) duration;
                            Txt " kBytes/s when data_size is "; Num size; Txt " Bytes"]]
              else out))
        end
      else
        (Ok true,
         (r, out ++ [[Txt "timed out ( "; Num (duration ÷ 1000); Txt " s) to "; Id responder;
                      Txt " when data_size is "; Num size]]))
  | Throw e => (Throw e, (r, out))
  | AssertFailed => (AssertFailed, (r, out))
  | Undefined => (Undefined, (r, out))
  end.

(** [data_size] is an [int]. *)
Definition PrintGroupPerformance (data_size : Z) (r : SharedResponse) : outcome (list line) :=
  if (response_count r <? parameters_group_size)%Z then
    Ok [[Txt "Only received "; Num (response_count r); Txt " responses for a group msg of ";
         Num data_size; Txt " Bytes"]]
  else
    duration ← udiv (to_size_t (total_milliseconds (average_response_time_ r))) (response_count r);
    doubled ← int_result (data_size * 2);
    Ok [[Txt " completed in "; Num duration; Txt " milliseconds, has throughput rate ";
         Ratio doubled duration; Txt " kBytes/s when data_size is "; Num data_size; Txt " Bytes"]].
End shared_response.
