(* ===== verification/Commands.v ===== *)
(** * The interactive test node

    [tools/commands.h] and [tools/commands.cc]: the shell that reads commands
    and sends test messages through a [GenericNode]. *)

From Stdlib Require Import Ascii.
From stdpp Require Import strings.
From S2P Require Import Prelude CppStd CppString Identity Types ToolEnv SharedResponse.

Inductive DestinationType := kDirect | kGroup.

#[export] Instance DestinationType_eq_dec : EqDecision DestinationType.
Proof. solve_decision. Defined.

Section commands.
Context `{AT : AddressText} `{CO : !CryptoOps} `{EO : !EndpointOps} `{KO : !KeyOps}.
Context `{GO : !GenericNodeOps} `{TO : !ToolOps} `{FO : !FileOps} `{AO : !ArrivalOps}.

(** ** State *)
Record Commands := mkCommands {
  demo_node_ : GenericNode;
  all_keys_ : list AnmaidToPmid;
  all_ids_ : list Address;
  identity_index_ : Z;
  bootstrap_peer_ep_ : Endpoint;
  data_size_ : Z;
  data_rate_ : Z;
  result_arrived_ : bool;
  finish_ : bool
}.

(** What is around the object: the [mark_results_arrived_] tasks posted to the
    node's service and not yet run, [Parameters::default_response_timeout], how
    many random numbers were drawn and messages sent, the files, and what was
    printed. *)
Record World := mkWorld {
  posted : nat;
  default_response_timeout : Z;
  draws : nat;
  sends : nat;
  files : Files;
  cout : list line
}.

Record Shell := mkShell { commands : Commands; world : World }.
Implicit Types (c : Commands) (w : World) (s : Shell).

Definition on_commands (f : Commands → Commands) s : Shell := mkShell (f (commands s)) (world s).
Definition on_world (f : World → World) s : Shell := mkShell (commands s) (f (world s)).

Definition set_node n c : Commands :=
  mkCommands n (all_keys_ c) (all_ids_ c) (identity_index_ c) (bootstrap_peer_ep_ c) (data_size_ c)
    (data_rate_ c) (result_arrived_ c) (finish_ c).
Definition set_ids ids c : Commands :=
  mkCommands (demo_node_ c) (all_keys_ c) ids (identity_index_ c) (bootstrap_peer_ep_ c)
    (data_size_ c) (data_rate_ c) (result_arrived_ c) (finish_ c).
Definition set_peer_ep ep c : Commands :=
  mkCommands (demo_node_ c) (all_keys_ c) (all_ids_ c) (identity_index_ c) ep (data_size_ c)
    (data_rate_ c) (result_arrived_ c) (finish_ c).
Definition set_data_size z c : Commands :=
  mkCommands (demo_node_ c) (all_keys_ c) (all_ids_ c) (identity_index_ c) (bootstrap_peer_ep_ c) z
    (data_rate_ c) (result_arrived_ c) (finish_ c).
Definition set_data_rate z c : Commands :=
  mkCommands (demo_node_ c) (all_keys_ c) (all_ids_ c) (identity_index_ c) (bootstrap_peer_ep_ c)
    (data_size_ c) z (result_arrived_ c) (finish_ c).
Definition set_result_arrived b c : Commands :=
  mkCommands (demo_node_ c) (all_keys_ c) (all_ids_ c) (identity_index_ c) (bootstrap_peer_ep_ c)
    (data_size_ c) (data_rate_ c) b (finish_ c).
Definition set_finish b c : Commands :=
  mkCommands (demo_node_ c) (all_keys_ c) (all_ids_ c) (identity_index_ c) (bootstrap_peer_ep_ c)
    (data_size_ c) (data_rate_ c) (result_arrived_ c) b.

Definition set_posted n w : World :=
  mkWorld n (default_response_timeout w) (draws w) (sends w) (files w) (cout w).
Definition set_timeout t w : World :=
  mkWorld (posted w) t (draws w) (sends w) (files w) (cout w).
Definition next_draw w : World :=
  mkWorld (posted w) (default_response_timeout w) (S (draws w)) (sends w) (files w) (cout w).
Definition next_send w : World :=
  mkWorld (posted w) (default_response_timeout w) (draws w) (S (sends w)) (files w) (cout w).
Definition set_files f w : World :=
  mkWorld (posted w) (default_response_timeout w) (draws w) (sends w) f (cout w).
Definition add_lines ls w : World :=
  mkWorld (posted w) (default_response_timeout w) (draws w) (sends w) (files w) (cout w ++ ls).

Definition print_lines (ls : list line) : prog Shell unit := modify (on_world (add_lines ls)).
Definition print (l : line) : prog Shell unit := print_lines [l].
Definition update (f : Commands → Commands) : prog Shell unit := modify (on_commands f).

(** [draw f]: [f n] for the [n]th number drawn. *)
Definition draw {A} (f : nat → A) : prog Shell A :=
  s ← get;
  modify (on_world next_draw);;
  mret (f (draws (world s))).

Definition print_ids (ids : list Address) : prog Shell unit :=
  print_lines ((λ a, [Txt "\t"; Id a]) <$> ids).

(** ** Construction *)
Definition Commands_new (demo_node : GenericNode) (all_keys : list AnmaidToPmid) (identity_index : Z)
    : Commands :=
  mkCommands demo_node all_keys
    (pmid_name <$> take (length all_keys / 2) all_keys)
    identity_index Endpoint_default (1024 * 1024) (1024 * 1024) false false.

(** The [message_received] functor: what it passes to [reply_functor]. *)
Definition message_received (n : GenericNode) (wrapped_message : std_string) : std_string :=
  let reply_msg := wrapped_message ++ lit "+++" ++ Address_string (node_Address n) in
  match find (lit "request_routing_table") wrapped_message with
  | Some _ => reply_msg ++ lit "---" ++ node_SerializeRoutingTable n
  | None => reply_msg
  end.

(** The [request_public_key] functor: the key passed to [give_public_key], if
    it is called. *)
Definition Validate (address : Address) c : option PublicKey :=
  if bool_decide (address = Identity_default) then None
  else pmid_public_key <$> List.find (λ k, bool_decide (pmid_name k = address)) (all_keys_ c).

(** ** Commands that do not send *)
Definition PrintRoutingTable : prog Shell unit :=
  s ← get;
  print [Txt "ROUTING TABLE::::"];;
  print_ids (node_ReturnRoutingTable (demo_node_ (commands s))).

(** The [try] block of [GetPeer]: the port is set before the address is read. *)
Definition parse_peer (peer : std_string) : prog Shell unit :=
  let delim := rfind ":"%char peer in
  port_text ← lift (λ _, substr (npos_add delim 1) None peer);
  port ← lift (λ _, atoi port_text);
  update (λ c, set_peer_ep (ep_make (ep_address (bootstrap_peer_ep_ c)) (to_uint16 port)) c);;
  address_text ← lift (λ _, substr 0 delim peer);
  address ← lift (λ _, address_from_string address_text);
  update (λ c, set_peer_ep (ep_make address (ep_port (bootstrap_peer_ep_ c))) c);;
  s ← get;
  print [Txt "Going to bootstrap from endpoint "; Ep (bootstrap_peer_ep_ (commands s))].

(** [try { p } catch (...) { handler }] *)
Definition try_catch (p handler : prog Shell unit) : prog Shell unit := λ s,
  match p s with
  | (Throw _, s') => handler s'
  | r => r
  end.

Definition on_files {A} (p : prog Files A) : prog Shell A := λ s,
  let '(r, f) := p (files (world s)) in (r, on_world (set_files f) s).

Definition GetPeer (peer : std_string) : prog Shell unit :=
  try_catch (parse_peer peer)
    (print [Txt "Could not parse IPv4 peer endpoint from "; Str peer]);;
  on_files (fs_remove OverrideBootstrapFilePath);;
  s ← get;
  try_catch
    (on_files (WriteBootstrapContacts
       [node_endpoint (demo_node_ (commands s)); bootstrap_peer_ep_ (commands s)]
       OverrideBootstrapFilePath))
    (mret tt).

Definition at_index {A} (l : list A) (i : nat) : outcome A :=
  match l !! i with Some x => Ok x | None => Undefined end.

Definition kSuccess : Z := 0.

Definition ZeroStateJoin : prog Shell unit :=
  s ← get;
  let c := commands s in
  if node_joined (demo_node_ c) then print [Txt "Current node already joined"]
  else if (1 <? identity_index_ c)%Z then
    print [Txt "can't exec ZeroStateJoin as a non-bootstrap node"]
  else
    key ← lift (λ _, at_index (all_keys_ c) (if (identity_index_ c =? 0)%Z then 1 else 0));
    let peer_node_info := mkPeerInfo (pmid_name key) (pmid_public_key key) (pmid_name key) in
    let '(ret_code, n) := node_ZeroStateJoin (bootstrap_peer_ep_ c) peer_node_info (demo_node_ c) in
    update (set_node (if (ret_code =? kSuccess)%Z then node_set_joined true n else n)).

(** The [network_status] functor; [waited] while [Join] is running, so that the
    condition variable it refers to exists.  Gives whether it notified. *)
Definition network_status (waited : bool) (result : Z) : prog Shell bool :=
  s ← get;
  let n := demo_node_ (commands s) in
  if (result <? kSuccess)%Z then mret false (* [ASSERT_GE] fails and returns *)
  else if (result =? to_int (node_expected n))%Z && negb (node_joined n) then
    update (set_node (node_set_joined true n));;
    if waited then mret true else lift (λ _, Undefined)
  else
    print [Txt "Network Status Changed"];;
    PrintRoutingTable;;
    mret false.

Fixpoint network_statuses (results : list Z) : prog Shell unit :=
  match results with
  | [] => mret tt
  | result :: results => network_status true result;; network_statuses results
  end.

Definition Join : prog Shell unit :=
  s ← get;
  let n := demo_node_ (commands s) in
  if node_joined n then print [Txt "Current node already joined"]
  else
    update (set_node (node_Join n));;
    network_statuses (node_statuses_joining n);;
    s ← get;
    (if node_joined (demo_node_ (commands s)) then mret tt
     else network_statuses (node_statuses_after n));;
    print [Txt "Current Node joined, following is the routing table :"];;
    PrintRoutingTable.

(** ** Sending

    One message sent: what the functor passed with it has captured. *)
Record Sent := mkSent {
  shared_response : SharedResponse;
  expect_respondent : Z;
  group_performance : bool;
  sent_size : Z
}.

(** The variables of the sending function that the functors refer to.
    [notified]: whether [notify_one] was called since it was last cleared. *)
Record Batch := mkBatch {
  successful_count : Z;
  operation_count : Z;
  notified : bool;
  sent : list Sent
}.
Implicit Types (b : Batch).

Definition Batch_new : Batch := mkBatch 0 0 false [].

Definition set_shared (i : nat) (r : SharedResponse) b : Batch :=
  mkBatch (successful_count b) (operation_count b) (notified b)
    (alter (λ m, mkSent r (expect_respondent m) (group_performance m) (sent_size m)) i (sent b)).
Definition count_success b : Batch :=
  mkBatch (to_int (successful_count b + 1)) (operation_count b) (notified b) (sent b).
Definition count_operation b : Batch :=
  mkBatch (successful_count b) (to_uint32 (operation_count b + 1)) (notified b) (sent b).
Definition set_notified n b : Batch :=
  mkBatch (successful_count b) (operation_count b) n (sent b).

(** The operations after which [notify_one] is called: an [int] times an
    [unsigned int]. *)
Definition all_operations (messages_count expect : Z) : Z := to_uint32 (messages_count * expect).

(** The [else] branch of the functor prints the time and counts the operation,
    like the end of the other branch: *)
Definition finish_operation (messages_count : Z) (m : Sent) (r : SharedResponse) :
    prog (Batch * list line) unit := λ '(b, out),
  let b := count_operation b in
  if (operation_count b =? all_operations messages_count (expect_respondent m))%Z then
    match (if group_performance m then PrintGroupPerformance (to_int (sent_size m)) r else Ok []) with
    | Ok ls => (Ok tt, (set_notified true b, out ++ ls))
    | Throw e => (Throw e, (b, out))
    | AssertFailed => (AssertFailed, (b, out))
    | Undefined => (Undefined, (b, out))
    end
  else (Ok tt, (b, out)).

(** What the functor prints and counts once [CollectResponse] has returned
    true. *)
Definition check_responses (text : std_string) (r : SharedResponse) :
    prog (Batch * list line) unit := λ '(b, out),
  match (ls ← (if (expected_responses_ r =? 1)%Z then PrintRoutingTable_response text else Ok []);
         checked ← (if length (responded_nodes_ r) =? length (closest_nodes_ r)
                    then CheckAndPrintResult r else Ok ([], []));
         Ok (ls ++ checked.1)) with
  | Ok ls =>
      (Ok tt,
       (if length (responded_nodes_ r) =? length (closest_nodes_ r) then count_success b else b,
        out ++ ls))
  | Throw e => (Throw e, (b, out))
  | AssertFailed => (AssertFailed, (b, out))
  | Undefined => (Undefined, (b, out))
  end.

(** The functor [callable], run for an answer to message [which]; [timeout] is
    [default_response_timeout]. *)
Definition callable (messages_count timeout : Z) (a : Arrival) : prog (Batch * list line) unit :=
  λ '(b, out),
  match sent b !! which a with
  | None => (Ok tt, (b, out)) (* no such message *)
  | Some m =>
      let r := shared_response m in
      match response a with
      | [] =>
          finish_operation messages_count m r
            (b, out ++ [[Txt "Error Response received in "; Num (at_time a - msg_send_time_ r)]])
      | text =>
          let out := out ++ [[Txt "Received message: "; Str (take 20 text)]] in
          match CollectResponse text (negb (group_performance m)) (at_time a) timeout (r, out) with
          | (Ok true, (r', out')) =>
              (check_responses text r';; finish_operation messages_count m r')
                (set_shared (which a) r' b, out')
          | (Ok false, (_, out')) => (Ok tt, (b, out'))
          | (Throw e, (_, out')) => (Throw e, (b, out'))
          | (AssertFailed, (_, out')) => (AssertFailed, (b, out'))
          | (Undefined, (_, out')) => (Undefined, (b, out'))
          end
      end
  end.

(** An answer comes in on a thread of the node; an exception that leaves the
    functor is caught there or ends the program ([std::terminate]). *)
Definition deliver (messages_count timeout : Z) (a : Arrival) : prog (Batch * list line) unit := λ st,
  match callable messages_count timeout a st with
  | (Throw _, st') => (if functor_exception_caught then Ok tt else AssertFailed, st')
  | r => r
  end.

Fixpoint deliver_all (messages_count timeout : Z) (arrivals : list Arrival) :
    prog (Batch * list line) unit :=
  match arrivals with
  | [] => mret tt
  | a :: arrivals => deliver messages_count timeout a;; deliver_all messages_count timeout arrivals
  end.

(** [cond_var.wait (lock)], without a predicate: returns at the next
    [notify_one], or without one after [spurious] answers. *)
Fixpoint wait_notified (messages_count timeout : Z) (spurious : option nat) (arrivals : list Arrival) :
    waiting (Batch * list line) unit := λ '(b, out),
  if notified b || bool_decide (spurious = Some 0) then (Ok (Some tt), (b, out))
  else match arrivals with
       | [] => (Ok None, (b, out))
       | a :: arrivals =>
           (run (deliver messages_count timeout a);; wait_notified messages_count timeout (pred <$> spurious) arrivals)
             (b, out)
       end.

(** The functors run with the shell's console and timeout. *)
Definition with_batch {A} (p : Z → prog (Batch * list line) A) : prog (Shell * Batch) A := λ '(s, b),
  let '(r, (b', out)) := p (default_response_timeout (world s)) (b, []) in
  (r, (on_world (add_lines out) s, b')).

Definition on_shell {A} (p : prog Shell A) : prog (Shell * Batch) A := λ '(s, b),
  let '(r, s') := p s in (r, (s', b)).

Definition on_batch (f : Batch → Batch) : prog (Shell * Batch) unit := modify (λ '(s, b), (s, f b)).

Definition SendAMessage (messages_count expect : Z) (closest_nodes : list Address)
    (dest_id : Address) (data : std_string) : prog (Shell * Batch) unit :=
  let group_performance := (1 <? expect)%Z && bool_decide (closest_nodes = []) in
  st ← get;
  let n := sends (world st.1) in
  let shared_response := SharedResponse_new closest_nodes expect (send_time n) in
  on_batch (λ b, mkBatch (successful_count b) (operation_count b) (notified b)
    (sent b ++ [mkSent shared_response expect group_performance (Z.of_nat (length data))]));;
  on_shell (modify (on_world next_send));;
  (if (expect =? 1)%Z then on_shell (update (λ c, set_node (node_SendDirect dest_id data (demo_node_ c)) c))
   else
     on_shell ((if group_performance then print [Txt "Group message sent to "; Id dest_id] else mret tt);;
               update (λ c, set_node (node_SendGroup dest_id data (demo_node_ c)) c)));;
  with_batch (λ timeout, deliver_all messages_count timeout (arrivals_after n)).

(** The closest of the pool, not counting the target itself; [all_ids_] is left
    sorted.  The returned address is the last of them. *)
Definition CalculateClosests (target_id : Address) (num_of_closests : nat) :
    prog Shell (list Address * Address) :=
  s ← get;
  let ids := all_ids_ (commands s) in
  let last_of closests :=
    farthest ← lift (λ _, at_index closests (length closests - 1)); mret (closests, farthest) in
  if length ids <=? num_of_closests then last_of ids
  else
    let sorted := sort_by (λ a, a) (λ lhs rhs, CloserToTarget lhs rhs target_id) ids in
    update (set_ids sorted);;
    first ← lift (λ _, at_index sorted 0);
    let skipped := if bool_decide (first = target_id) then 1 else 0 in
    last_of (take num_of_closests (drop skipped sorted)).

(** The number of respondents, the nodes expected to respond and the
    destination. *)
Definition MakeMessage (id_index : Z) (destination_type : DestinationType) :
    prog Shell (Z * list Address * Address) :=
  s ← get;
  let keys := all_keys_ (commands s) in
  let size := Z.of_nat (length keys) in
  identity_index ←
    (if (0 <=? id_index)%Z then mret id_index
     else random ← draw RandomUint32;
          i ← lift (λ _, umod random (size / 2));
          mret (to_int i));
  if (0 <=? identity_index)%Z && (size <=? to_uint32 identity_index)%Z then
    print [Txt "ERROR : destination index out of range"];;
    mret (0%Z, [], Identity_default)
  else
    dest_id ←
      (if (0 <=? identity_index)%Z then
         match destination_type with
         | kGroup => draw RandomId
         | kDirect => key ← lift (λ _, at_index keys (Z.to_nat identity_index)); mret (pmid_name key)
         end
       else mret Identity_default);
    print [Txt "Sending a msg from : "; Id (node_Address (demo_node_ (commands s))); Txt " to ";
           Txt (match destination_type with kGroup => "group : " | kDirect => ": " end);
           Id dest_id; Txt " , expect receive response from :"];;
    let expected := match destination_type with kGroup => 4 | kDirect => 1 end in
    closests ←
      match destination_type with
      | kGroup => r ← CalculateClosests dest_id expected; mret r.1
      | kDirect => mret [dest_id]
      end;
    print_ids closests;;
    mret (Z.of_nat expected, closests, dest_id).

(** The pause between two messages, in milliseconds. *)
Definition CalculateTimeToSleep c : outcome Z :=
  num_msgs_per_second ← udiv (data_rate_ c) (data_size_ c);
  udiv 1000 num_msgs_per_second.

Definition numbered (before after : string) (message_id : Z) (data : std_string) : std_string :=
  lit before ++ to_string message_id ++ lit after ++ data.

(** The sending loop, [n] messages to go; [expect] is the last number of
    respondents.  [None]: [SendMessages] returns early. *)
Fixpoint send_loop (n : nat) (id_index : Z) (destination_type : DestinationType)
    (messages_count message_id expect : Z) (data data_to_send : std_string) :
    prog (Shell * Batch) (option Z) :=
  match n with
  | 0 => mret (Some expect)
  | S n =>
      message ← on_shell (MakeMessage id_index destination_type);
      let '(expect, closest_nodes, dest_id) := message in
      if (expect =? 0)%Z then mret None
      else
        let message_id := to_uint32 (message_id + 1) in
        SendAMessage messages_count expect closest_nodes dest_id
          (numbered ">:< " " <:>" message_id data);;
        send_loop n id_index destination_type messages_count message_id expect data_to_send data_to_send
  end.

(** The wait for the answers still to come. *)
Definition wait_for_operations (messages_count expect : Z) : waiting (Shell * Batch) unit := λ '(s, b),
  if (operation_count b =? all_operations messages_count expect)%Z then (Ok (Some tt), (s, b))
  else
    with_batch
      (λ timeout, wait_notified messages_count timeout (spurious_wakeup (sends (world s)))
                    (arrivals_waiting (sends (world s))))
      (s, set_notified false b).

(** Code with a batch of its own. *)
Definition in_batch {A} (p : waiting (Shell * Batch) A) : waiting Shell A := λ s,
  let '(r, (s', _)) := p (s, Batch_new) in (r, s').

(** After the loop. *)
Definition report_batch (messages_count expect timeout : Z) : waiting (Shell * Batch) unit :=
  wait_for_operations messages_count expect;;
  run (st ← get;
       let succeeded := successful_count st.2 in
       failed ← lift (λ _, int_result (messages_count - succeeded));
       on_shell (print [Txt "Succcessfully received messages count::"; Num succeeded]);;
       on_shell (print [Txt "Unsucccessfully received messages count::"; Num failed]);;
       on_shell (modify (on_world (set_timeout timeout)))).

Definition respondents (destination_type : DestinationType) : Z :=
  match destination_type with kGroup => 4 | kDirect => 1 end.

(** [messages_count] is -1 for an endless test, which is left by Ctrl+C. *)
Definition SendMessages (id_index : Z) (destination_type : DestinationType) (is_routing_req : bool)
    (messages_count : Z) : waiting Shell unit :=
  s ← run get;
  data ← run (if is_routing_req then mret (lit "request_routing_table")
              else string ← draw (RandomAlphaNumericString (data_size_ (commands s)));
                   lift (λ _, string));
  let data_to_send := if is_routing_req then [] else data in
  _ ← run (lift (λ s, CalculateTimeToSleep (commands s)));
  let infinite := (messages_count =? -1)%Z in
  let timeout := default_response_timeout (world s) in
  run (print [Txt "message_count "; Num messages_count]);;
  total ← run (lift (λ _, int_result (messages_count * respondents destination_type)));
  run (if (10 <? total)%Z then
         longer ← lift (λ _, int64_result (timeout * total));
         modify (on_world (set_timeout longer))
       else mret tt);;
  in_batch
    (ended ← run (send_loop (if infinite then interrupted_after else Z.to_nat messages_count)
                    id_index destination_type messages_count 0 0 data data_to_send);
     match ended with
     | None => mret tt
     | Some expect =>
         if infinite then never_returns else report_batch messages_count expect timeout
     end).

(** ** Performance test *)

(** One message, answered before the next is sent. *)
Definition perform_one (expect message_id : Z) (data : std_string) (routing_node : Address) :
    waiting Shell unit :=
  in_batch
    (run (SendAMessage 1 expect [] routing_node (numbered ">:<" "<:>" message_id data));;
     wait_for_operations 1 expect).

(** The messages to the nodes of the routing table; gives the last message id. *)
Fixpoint perform_round (expect message_id : Z) (data : std_string) (routing_nodes : list Address) :
    waiting Shell Z :=
  match routing_nodes with
  | [] => mret message_id
  | routing_node :: routing_nodes =>
      let message_id := to_uint32 (message_id + 1) in
      perform_one expect message_id data routing_node;;
      perform_round expect message_id data routing_nodes
  end.

(** The loop, with [fuel] for its rounds. *)
Fixpoint performance_loop (fuel : nat) (expect message_id iteration : Z) : waiting Shell unit :=
  match fuel with
  | 0 => never_returns
  | S fuel =>
      s ← run get;
      if (data_size_ (commands s) <? 1024 * 1024 + 1024)%Z then
        data ← run (string ← draw (RandomAlphaNumericString (data_size_ (commands s)));
                    lift (λ _, string));
        message_id ← perform_round expect message_id data
                       (node_ReturnRoutingTable (demo_node_ (commands s)));
        size ← run (lift (λ _, int_result (1000 * iteration)));
        run (update (set_data_size (to_size_t size)));;
        iteration ← run (lift (λ _, int_result (iteration * 2)));
        performance_loop fuel expect message_id iteration
      else mret tt
  end.

(** The data sizes double, so that a few rounds are enough: see
    [RunPerformanceTest_rounds]. *)
Definition performance_rounds : nat := 13.

Definition RunPerformanceTest (is_send_group : bool) : waiting Shell unit :=
  run (update (set_data_size 1));;
  performance_loop performance_rounds (if is_send_group then parameters_group_size else 1) 0 1.

Definition PerformanceTest : waiting Shell unit :=
  run (print [Txt "*************  Performance Test Sending Direct Message *************"]);;
  RunPerformanceTest false;;
  run (print [Txt "*************  Performance Test Sending Group Message *************"]);;
  RunPerformanceTest true.

(** ** The shell *)

(** The lines of [PrintUsage]: the command, and what follows it. *)
Definition usage : list (string * string) :=
  [("help", " Print options.");
   ("peer", " <endpoint> Set BootStrap peer endpoint.");
   ("zerostatejoin", " ZeroStateJoin.");
   ("join", " Normal Join.");
   ("prt", " Print Local Routing Table.");
   ("rrt", " <dest_index> Request Routing Table from peer node with the specified identity-index.");
   ("senddirect", " <dest_index> <num_msg> Send a msg to a node with specified  identity-index. -1 for infinite (Default 1)");
   ("sendgroup", " <dest_index> Send a msg to group (default is Random GroupId, dest_index for using existing identity as a group_id)");
   ("sendmultiple", " <num_msg> Send num of msg to randomly picked-up destination. -1 for infinite (Default 10)");
   ("sendgroupmultiple", " <num_msg> Send num of group msg to randomly  picked-up destination. -1 for infinite");
   ("datasize", " <data_size> Set the data_size for the message.");
   ("datarate", " <data_rate> Set the data_rate for the message.");
   ("attype", " Print the NatType of this node.");
   ("performance", " Execute performance test from this node.");
   ("exit", " Exit application.")]%string.

Definition PrintUsage : prog Shell unit :=
  print_lines ((λ '(command, rest), [Txt "\t"; Txt command; Txt rest]) <$> usage).

(** What the first word of a line selects. *)
Inductive Command :=
  | Help | Prt | Rrt | Peer | Zerostatejoin | JoinCommand | Senddirect | Sendgroup
  | Sendgroupmultiple | Sendmultiple | Datasize | Datarate | Nattype | Performance | Exit.

#[global] Instance Command_eq_dec : EqDecision Command.
Proof. solve_decision. Defined.

Definition command_names : list (string * Command) :=
  [("help", Help); ("prt", Prt); ("rrt", Rrt); ("peer", Peer); ("zerostatejoin", Zerostatejoin);
   ("join", JoinCommand); ("senddirect", Senddirect); ("sendgroup", Sendgroup);
   ("sendgroupmultiple", Sendgroupmultiple); ("sendmultiple", Sendmultiple);
   ("datasize", Datasize); ("datarate", Datarate); ("nattype", Nattype);
   ("performance", Performance); ("exit", Exit)]%string.

Definition command_of (cmd : std_string) : option Command :=
  snd <$> List.find (λ '(name, _), bool_decide (cmd = lit name)) command_names.

Definition try_correct_option : waiting Shell unit :=
  run (print [Txt "Error : Try correct option"]).
Definition infinite_notice : waiting Shell unit :=
  run (print [Txt " Running infinite messaging test. press Ctrl + C to terminate the program"]).
Definition to_number (text : std_string) : waiting Shell Z := run (lift (λ _, atoi text)).

(** The branches of [ProcessCommand]. *)
Definition run_command (command : Command) (args : list std_string) : waiting Shell unit :=
  match command with
  | Help => run PrintUsage
  | Prt => run PrintRoutingTable
  | Rrt =>
      match args with
      | [index] => i ← to_number index; SendMessages i kDirect true 1
      | _ => try_correct_option
      end
  | Peer =>
      match args with
      | [peer] => run (GetPeer peer)
      | _ => try_correct_option
      end
  | Zerostatejoin => run ZeroStateJoin
  | JoinCommand => run Join
  | Senddirect =>
      match args with
      | [index] => i ← to_number index; SendMessages i kDirect false 1
      | [index; num] =>
          count ← to_number num;
          if (count <? 0)%Z then
            infinite_notice;;
            i ← to_number index; SendMessages i kDirect false (-1)
          else
            i ← to_number index; SendMessages i kDirect false count
      | _ => mret tt
      end
  | Sendgroup =>
      match args with
      | [] => SendMessages (-1) kGroup false 1
      | index :: _ => i ← to_number index; SendMessages i kGroup false 1
      end
  | Sendgroupmultiple =>
      match args with
      | [num] => n ← to_number num; SendMessages (-1) kGroup false n
      | _ => mret tt
      end
  | Sendmultiple =>
      num_msg ← match args with [] => mret 10%Z | num :: _ => to_number num end;
      (if (num_msg =? -1)%Z then
         infinite_notice;;
         SendMessages (-1) kDirect false (-1)
       else SendMessages (-1) kDirect false num_msg);;
      run (print [Txt "Sent "; Num num_msg;
                  Txt " messages to randomly picked-up targets. Finished in :"])
  | Datasize =>
      match args with
      | [size] => z ← to_number size; run (update (set_data_size (to_size_t z)))
      | _ => try_correct_option
      end
  | Datarate =>
      match args with
      | [rate] => z ← to_number rate; run (update (set_data_rate (to_size_t z)))
      | _ => try_correct_option
      end
  | Nattype =>
      run (s ← get; print [Txt "NatType for this node is : "; Num (node_nat_type (demo_node_ (commands s)))])
  | Performance => PerformanceTest
  | Exit => run (print [Txt "Exiting application..."];; update (set_finish true))
  end.

(** [PostTaskToAsioService (mark_results_arrived_)] *)
Definition post_result : waiting Shell unit :=
  run (modify (on_world (λ w, set_posted (S (posted w)) w))).

Definition ProcessCommand (cmdline : std_string) : waiting Shell unit :=
  match cmdline with
  | [] => post_result
  | _ =>
      let '(cmd, args) := match tokenize cmdline with [] => ([], []) | cmd :: args => (cmd, args) end in
      match command_of cmd with
      | Some command => run_command command args
      | None => run (print [Txt "Invalid command : "; Str cmd];; PrintUsage)
      end;;
      post_result
  end.

(** A posted task takes [wait_mutex_], so it runs while [Run] waits. *)
Definition MarkResultArrived : prog Shell unit := update (set_result_arrived true).

Definition wait_result : waiting Shell unit := λ s,
  if result_arrived_ (commands s) then (Ok (Some tt), s)
  else match posted (world s) with
       | 0 => (Ok None, s)
       | S n => run MarkResultArrived (on_world (set_posted n) s)
       end.

(** The loop of [Run] on what is typed; at the end of the input [getline] gives
    the empty string. *)
Fixpoint run_loop (fuel : nat) (input : list std_string) : waiting Shell unit :=
  match fuel with
  | 0 => never_returns
  | S fuel =>
      s ← run get;
      if finish_ (commands s) then mret tt
      else
        run (print [Txt "Enter command > "]);;
        ProcessCommand (default [] (head input));;
        wait_result;;
        run (update (set_result_arrived false));;
        run_loop fuel (tail input)
  end.

(** What [Run] does before its loop. *)
Definition startup : prog Shell unit :=
  PrintUsage;;
  s ← get;
  if negb (node_joined (demo_node_ (commands s))) && (2 <=? identity_index_ (commands s))%Z
  then print [Txt "Joining the node ......"];; Join
  else mret tt.

Definition Run (fuel : nat) (input : list std_string) : waiting Shell unit :=
  run startup;;
  run_loop fuel input.
End commands.
