(* ===== verification/CommandsFacts.v ===== *)
(** * The interactive test node: what its commands leave alone

    Code that relates the state before to the state after on every exit, and
    that every operation of [Commands] keeps the keys, the identities, the
    ranges of the sizes and the flags of the shell's loop. *)

From Stdlib Require Import Ascii.
From stdpp Require Import strings.
From S2P Require Import Prelude CppStd CppString Identity Types ToolEnv SharedResponse Commands.

(** ** Code that relates the state before to the state after, on every exit *)
Definition stays {S A} (R : relation S) (p : prog S A) : Prop := ∀ s, R s (p s).2.

Section stays.
Context {S : Type} (R : relation S) `{!PreOrder R}.

Lemma stays_ret {A} (a : A) : stays R (mret (M:=prog S) a).
Proof. intros s. by cbn. Qed.
Lemma stays_wret {A} (a : A) : stays R (mret (M:=waiting S) a).
Proof. intros s. by cbn. Qed.
Lemma stays_never {A} : stays R (never_returns (A:=A)).
Proof. intros s. by cbn. Qed.
Lemma stays_get : stays R get.
Proof. intros s. by cbn. Qed.
Lemma stays_lift {A} (f : S → outcome A) : stays R (lift f).
Proof. intros s. by cbn. Qed.
Lemma stays_modify (f : S → S) : (∀ s, R s (f s)) → stays R (modify f).
Proof. intros Hf s. apply Hf. Qed.

Lemma stays_bind {A B} (m : prog S A) (f : A → prog S B) :
  stays R m → (∀ a, stays R (f a)) → stays R (mbind (M:=prog S) f m).
Proof.
  intros Hm Hf s. specialize (Hm s). unfold mbind, prog_bind.
  destruct (m s) as [[a|e| |] s'] eqn:E; cbn in Hm |- *; try done. etrans; [done|apply Hf].
Qed.

Lemma stays_wbind {A B} (m : waiting S A) (f : A → waiting S B) :
  stays R m → (∀ a, stays R (f a)) → stays R (mbind (M:=waiting S) f m).
Proof.
  intros Hm Hf s. specialize (Hm s). unfold mbind, waiting_bind.
  destruct (m s) as [[[a|]|e| |] s'] eqn:E; cbn in Hm |- *; try done. etrans; [done|apply Hf].
Qed.

(** Code that reads the state first may use what it read. *)
Lemma stays_get_bind {B} (f : S → prog S B) : (∀ s, R s (f s s).2) → stays R (get ≫= f).
Proof. intros Hf s. apply Hf. Qed.

Lemma stays_run {A} (p : prog S A) : stays R p → stays R (run p).
Proof. intros Hp s. specialize (Hp s). unfold run. by destruct (p s) as [[] s']. Qed.
End stays.

#[export] Hint Resolve stays_ret stays_wret stays_never stays_get stays_lift stays_run : routing.
#[export] Hint Extern 2 (stays _ (mbind _ _)) => apply stays_bind : routing.
#[export] Hint Extern 2 (stays _ (mbind _ _)) => apply stays_wbind : routing.

(** Splits the code into its parts. *)
Ltac stays_split :=
  repeat match goal with
  | |- stays _ (mbind (M:=waiting _) _ _) => apply stays_wbind; [typeclasses eauto| |intros ?]
  | |- stays _ (mbind (M:=prog _) _ _) => apply stays_bind; [typeclasses eauto| |intros ?]
  | |- stays _ (run _) => apply stays_run
  | |- stays _ (match ?x with _ => _ end) => destruct x
  | |- stays _ (let '_ := ?x in _) => destruct x
  end.

Ltac stays_auto := auto with routing typeclass_instances.

Section frame.
Context `{AT : AddressText} `{CO : !CryptoOps} `{EO : !EndpointOps} `{KO : !KeyOps}.
Context `{GO : !GenericNodeOps} `{TO : !ToolOps} `{FO : !FileOps} `{AO : !ArrivalOps}.
Implicit Types (c : Commands) (s : Shell).

Definition size_t_ok (z : Z) : Prop := (0 ≤ z < 2 ^ 64)%Z.

(** What no command changes: the keys, the index and, but for their order, the
    identities of the vaults; the sizes stay in the range of [size_t]; the tasks
    posted, and the flags of the loop. *)
Record frame s s' : Prop := {
  frame_keys : all_keys_ (commands s') = all_keys_ (commands s);
  frame_index : identity_index_ (commands s') = identity_index_ (commands s);
  frame_ids : all_ids_ (commands s') ≡ₚ all_ids_ (commands s);
  frame_size : size_t_ok (data_size_ (commands s)) → size_t_ok (data_size_ (commands s'));
  frame_rate : size_t_ok (data_rate_ (commands s)) → size_t_ok (data_rate_ (commands s'));
  frame_arrived : result_arrived_ (commands s') = result_arrived_ (commands s);
  frame_finish : finish_ (commands s') = finish_ (commands s);
  frame_posted : posted (world s') = posted (world s)
}.

#[global] Instance frame_preorder : PreOrder frame.
Proof.
  split; [done|]. intros s1 s2 s3 [] []. split; try congruence; auto. by etrans.
Qed.

Definition frame_batch (st st' : Shell * Batch) : Prop := frame st.1 st'.1.
#[global] Instance frame_batch_preorder : PreOrder frame_batch.
Proof. split; [intros st; unfold frame_batch; done|]. intros st1 st2 st3. unfold frame_batch. apply transitivity. Qed.

Lemma stays_lines ls : stays frame (print_lines ls).
Proof. by apply stays_modify. Qed.
Lemma stays_print l : stays frame (print l).
Proof. apply stays_lines. Qed.
Lemma stays_draw {A} (f : nat → A) : stays frame (draw f).
Proof. by intros s. Qed.
Lemma stays_set_node (n : GenericNode) : stays frame (update (set_node n)).
Proof. by apply stays_modify. Qed.
Lemma stays_set_peer_ep (f : Commands → Endpoint) : stays frame (update (λ c, set_peer_ep (f c) c)).
Proof. by apply stays_modify. Qed.
Lemma stays_on_files {A} (p : prog Files A) : stays frame (on_files p).
Proof. intros s. unfold on_files. by destruct (p _). Qed.
Lemma stays_try_catch p h : stays frame p → stays frame h → stays frame (try_catch p h).
Proof.
  intros Hp Hh s. specialize (Hp s). unfold try_catch. destruct (p s) as [[] s']; cbn in *; try done.
  etrans; [done|apply Hh].
Qed.
Hint Resolve stays_lines stays_print stays_draw stays_set_node stays_set_peer_ep stays_on_files
  stays_try_catch : routing.

Lemma stays_PrintRoutingTable : stays frame PrintRoutingTable.
Proof. unfold PrintRoutingTable, print_ids. stays_split; stays_auto. Qed.
Hint Resolve stays_PrintRoutingTable : routing.

Lemma stays_GetPeer peer : stays frame (GetPeer peer).
Proof.
  unfold GetPeer. stays_split; [|stays_auto..].
  apply stays_try_catch; [|stays_auto]. unfold parse_peer. stays_split; stays_auto.
Qed.

Lemma stays_ZeroStateJoin : stays frame ZeroStateJoin.
Proof. unfold ZeroStateJoin. stays_split; stays_auto. Qed.

Lemma stays_network_status waited result : stays frame (network_status waited result).
Proof. unfold network_status. stays_split; stays_auto. Qed.
Hint Resolve stays_network_status : routing.

Lemma stays_network_statuses results : stays frame (network_statuses results).
Proof. induction results; cbn [network_statuses]; stays_split; stays_auto. Qed.
Hint Resolve stays_network_statuses : routing.

Lemma stays_Join : stays frame Join.
Proof. unfold Join. stays_split; stays_auto. Qed.
Hint Resolve stays_GetPeer stays_ZeroStateJoin stays_Join : routing.

(** ** Sending *)
Lemma stays_on_shell {A} (p : prog Shell A) : stays frame p → stays frame_batch (on_shell p).
Proof. intros Hp [s b]. specialize (Hp s). unfold on_shell. by destruct (p s). Qed.
Lemma stays_on_batch f : stays frame_batch (on_batch f).
Proof. by intros [s b]. Qed.
Lemma stays_with_batch {A} (p : Z → prog (Batch * list line) A) : stays frame_batch (with_batch p).
Proof. intros [s b]. unfold with_batch. by destruct (p _ _) as [r [b' out]]. Qed.
Lemma stays_in_batch {A} (p : waiting (Shell * Batch) A) : stays frame_batch p → stays frame (in_batch p).
Proof.
  intros Hp s. specialize (Hp (s, Batch_new)). unfold in_batch. by destruct (p _) as [r [s' b']].
Qed.
Lemma stays_set_node_fun (f : Commands → GenericNode) : stays frame (update (λ c, set_node (f c) c)).
Proof. by apply stays_modify. Qed.
Lemma stays_next_send : stays frame (modify (on_world next_send)).
Proof. by apply stays_modify. Qed.
Lemma stays_set_timeout t : stays frame (modify (on_world (set_timeout t))).
Proof. by apply stays_modify. Qed.
Hint Resolve stays_on_shell stays_on_batch stays_with_batch stays_in_batch stays_set_node_fun
  stays_next_send stays_set_timeout : routing.

Lemma stays_SendAMessage messages_count expect closest_nodes dest_id data :
  stays frame_batch (SendAMessage messages_count expect closest_nodes dest_id data).
Proof.
  unfold SendAMessage. stays_split; stays_auto.
  apply stays_on_shell. stays_split; stays_auto.
Qed.
Hint Resolve stays_SendAMessage : routing.

Lemma stays_CalculateClosests target n : stays frame (CalculateClosests target n).
Proof.
  apply stays_get_bind. intros s. cbn zeta. destruct (_ <=? n).
  { refine (stays_bind frame _ _ _ _ s); stays_auto. }
  set (sorted := sort_by _ _ _).
  etrans; [|refine (stays_bind frame _ _ _ _ (on_commands (set_ids sorted) s));
            intros; stays_split; stays_auto].
  split; cbn; try done. apply sort_by_perm.
Qed.
Hint Resolve stays_CalculateClosests : routing.

Lemma stays_MakeMessage id_index destination_type : stays frame (MakeMessage id_index destination_type).
Proof. unfold MakeMessage, print_ids. stays_split; stays_auto. Qed.
Hint Resolve stays_MakeMessage : routing.

Lemma stays_send_loop n id_index destination_type messages_count message_id expect data data_to_send :
  stays frame_batch
    (send_loop n id_index destination_type messages_count message_id expect data data_to_send).
Proof.
  revert message_id expect data. induction n as [|n IH]; intros message_id expect data;
    cbn [send_loop]; stays_split; stays_auto.
Qed.
Hint Resolve stays_send_loop : routing.

Lemma stays_wait_for_operations messages_count expect :
  stays frame_batch (wait_for_operations messages_count expect).
Proof.
  intros [s b]. unfold wait_for_operations. destruct (_ =? _)%Z; [done|].
  apply (stays_with_batch _ (s, set_notified false b)).
Qed.
Hint Resolve stays_wait_for_operations : routing.

Lemma stays_SendMessages id_index destination_type is_routing_req messages_count :
  stays frame (SendMessages id_index destination_type is_routing_req messages_count).
Proof.
  unfold SendMessages. stays_split; stays_auto; apply stays_in_batch; unfold report_batch;
    stays_split; stays_auto.
Qed.
Hint Resolve stays_SendMessages : routing.

Lemma stays_set_data_size z : size_t_ok z → stays frame (update (set_data_size z)).
Proof. intros Hz. apply stays_modify. by intros s. Qed.
Lemma stays_set_data_rate z : size_t_ok z → stays frame (update (set_data_rate z)).
Proof. intros Hz. apply stays_modify. by intros s. Qed.
Lemma to_size_t_ok z : size_t_ok (to_size_t z).
Proof. unfold size_t_ok, to_size_t. apply Z.mod_pos_bound. lia. Qed.
Hint Resolve stays_set_data_size stays_set_data_rate to_size_t_ok : routing.

Lemma stays_perform_round expect message_id data routing_nodes :
  stays frame (perform_round expect message_id data routing_nodes).
Proof.
  revert message_id. induction routing_nodes; intros message_id; cbn [perform_round];
    unfold perform_one; stays_split; stays_auto.
Qed.
Hint Resolve stays_perform_round : routing.

Lemma stays_performance_loop fuel expect message_id iteration :
  stays frame (performance_loop fuel expect message_id iteration).
Proof.
  revert message_id iteration. induction fuel; intros; cbn [performance_loop]; stays_split;
    stays_auto.
Qed.
Hint Resolve stays_performance_loop : routing.

Lemma stays_PerformanceTest : stays frame PerformanceTest.
Proof.
  unfold PerformanceTest, RunPerformanceTest. stays_split; stays_auto;
    apply stays_set_data_size; unfold size_t_ok; lia.
Qed.
Lemma stays_PrintUsage : stays frame PrintUsage.
Proof. unfold PrintUsage. stays_auto. Qed.
Hint Resolve stays_PerformanceTest stays_PrintUsage : routing.

Lemma stays_startup : stays frame startup.
Proof. unfold startup. stays_split; stays_auto. Qed.

(** Only [exit] raises the flag that ends the loop. *)
Lemma stays_run_command command args : command ≠ Exit → stays frame (run_command command args).
Proof.
  intros He. destruct command; try done; cbn [run_command];
    unfold try_correct_option, infinite_notice, to_number; stays_split; stays_auto.
Qed.
End frame.
