(* ===== verification/CommandsProps.v ===== *)
(** * The interactive test node: what its commands achieve

    The loop of the shell: when it returns, and that it never does when the
    input ends without [exit]. *)

From Stdlib Require Import Ascii.
From stdpp Require Import strings.
From S2P Require Import Prelude CppStd CppString Identity Types ToolEnv SharedResponse Commands.
From S2P Require Import CommandsFacts.

Section shell.
Context `{AT : AddressText} `{CO : !CryptoOps} `{EO : !EndpointOps} `{KO : !KeyOps}.
Context `{GO : !GenericNodeOps} `{TO : !ToolOps} `{FO : !FileOps} `{AO : !ArrivalOps}.
Implicit Types (c : Commands) (s : Shell).

(** ** The loop of the shell *)

(** The line that ends the session. *)
Definition is_exit (cmdline : std_string) : bool :=
  bool_decide (head (tokenize cmdline) = Some (lit "exit")).

(** Between two commands. *)
Definition idle s : Prop := posted (world s) = 0 ∧ result_arrived_ (commands s) = false.

Definition prompted s : Shell := on_world (add_lines [[Txt "Enter command > "]]) s.
Definition resumed s : Shell :=
  on_commands (set_result_arrived false) (on_world (set_posted (pred (posted (world s)))) s).

(** The commands of [lines], each of which returns. *)
Inductive processed : Shell → list std_string → Shell → Prop :=
  | processed_nil s : processed s [] s
  | processed_cons s cmdline s1 lines s2 :
      ProcessCommand cmdline (prompted s) = (Ok (Some tt), s1) →
      processed (resumed s1) lines s2 →
      processed s (cmdline :: lines) s2.

Lemma command_of_Exit cmd : command_of cmd = Some Exit ↔ cmd = lit "exit".
Proof.
  split; [|by intros ->]. unfold command_of. intros ([name command] & Hf & Hc)%fmap_Some.
  apply List.find_some in Hf as [Hin Hname]. cbn in Hc. subst command.
  apply bool_decide_eq_true in Hname as ->.
  cbn in Hin. by repeat destruct Hin as [[= <-]|Hin].
Qed.

(** A command that returns has posted one task, left the flag of the loop for
    the task to set, and ended the session only if it is [exit]. *)
Lemma ProcessCommand_returns cmdline s s' :
  ProcessCommand cmdline s = (Ok (Some tt), s') →
  posted (world s') = S (posted (world s)) ∧
  result_arrived_ (commands s') = result_arrived_ (commands s) ∧
  finish_ (commands s') = is_exit cmdline || finish_ (commands s).
Proof.
  unfold ProcessCommand, is_exit. destruct cmdline as [|c0 cmdline].
  { intros [= <-]. done. }
  set (line := c0 :: cmdline). clearbody line.
  destruct (tokenize line) as [|cmd args]; cbn [head].
  { intros [= <-]. done. }
  destruct (command_of cmd) as [command|] eqn:Hc;
    intros (a & s1 & H1 & [= <-])%wbind_returns; cbn.
  - destruct (decide (command = Exit)) as [->|He].
    + apply command_of_Exit in Hc as ->. injection H1 as _ <-. by rewrite bool_decide_true.
    + rewrite bool_decide_false.
      2:{ intros [= ->]. by rewrite (proj2 (command_of_Exit _)) in Hc by done; injection Hc as <-. }
      destruct (stays_run_command command args He s) as [_ _ _ _ _ Ha Hf Hp].
      rewrite H1 in Ha, Hf, Hp. cbn in *. by rewrite Ha, Hf, Hp.
  - rewrite bool_decide_false.
    2:{ intros [= ->]. by rewrite (proj2 (command_of_Exit _)) in Hc. }
    injection H1 as _ <-. done.
Qed.

Lemma run_loop_step fuel input s s1 :
  idle s → finish_ (commands s) = false →
  ProcessCommand (default [] (head input)) (prompted s) = (Ok (Some tt), s1) →
  run_loop (S fuel) input s = run_loop fuel (tail input) (resumed s1) ∧
  idle (resumed s1) ∧
  finish_ (commands (resumed s1)) = is_exit (default [] (head input)).
Proof.
  intros [Hp Ha] Hf HP. destruct (ProcessCommand_returns _ _ _ HP) as (Hp1 & Ha1 & Hf1).
  cbn in Hp1, Ha1, Hf1. rewrite Hp in Hp1. rewrite Ha in Ha1. rewrite Hf, orb_false_r in Hf1.
  split; [|split; [split; cbn; [by rewrite Hp1|done]|done]].
  cbn [run_loop]. erewrite wbind_Ok by done. cbn beta. rewrite Hf.
  erewrite wbind_Ok by done. cbn beta. erewrite wbind_Ok by exact HP. cbn beta.
  assert (wait_result s1 = (Ok (Some tt), on_commands (set_result_arrived true) (on_world (set_posted 0) s1))) as Hw.
  { unfold wait_result. by rewrite Ha1, Hp1. }
  erewrite wbind_Ok by exact Hw. cbn beta. erewrite wbind_Ok by done. cbn beta.
  unfold resumed. by rewrite Hp1.
Qed.

Lemma ProcessCommand_exit cmdline s :
  is_exit cmdline = true → ∃ s1, ProcessCommand cmdline s = (Ok (Some tt), s1).
Proof.
  unfold is_exit. intros Hh%bool_decide_eq_true. unfold ProcessCommand.
  destruct cmdline as [|c0 cmdline]; [done|].
  destruct (tokenize (c0 :: cmdline)) as [|cmd args]; [done|]. injection Hh as ->.
  rewrite (proj2 (command_of_Exit _)) by done. by eexists.
Qed.

Lemma run_loop_processed s lines s' more fuel :
  processed s lines s' → idle s → finish_ (commands s) = false →
  Forall (λ l, is_exit l = false) lines →
  run_loop (length lines + fuel) (lines ++ more) s = run_loop fuel more s' ∧
  idle s' ∧ finish_ (commands s') = false.
Proof.
  induction 1 as [s|s cmdline s1 lines s2 HP Hr IH]; intros Hi Hf Hl; [done|].
  apply Forall_cons in Hl as [Hl1 Hl2].
  destruct (run_loop_step (length lines + fuel) ((cmdline :: lines) ++ more) s s1) as (Heq & Hi1 & Hf1);
    [done..|].
  cbn [app tail] in Heq. change (finish_ (commands (resumed s1)) = is_exit cmdline) in Hf1.
  rewrite Hl1 in Hf1.
  cbn [length Nat.add app]. rewrite Heq. by apply IH.
Qed.

Lemma run_loop_end_of_input fuel s :
  idle s → finish_ (commands s) = false → (run_loop fuel [] s).1 = Ok None.
Proof.
  revert s. induction fuel as [|fuel IH]; intros s Hi Hf; [done|].
  destruct (run_loop_step fuel [] s
    (on_world (λ w, set_posted (S (posted w)) w) (prompted s))) as (Heq & Hi1 & Hf1); [done..|].
  etrans; [exact (f_equal fst Heq)|]. by apply IH.
Qed.

Lemma run_loop_no_exit s lines s' fuel :
  processed s lines s' → idle s → finish_ (commands s) = false →
  Forall (λ l, is_exit l = false) lines → (run_loop fuel lines s).1 = Ok None.
Proof.
  intros HP. revert fuel. induction HP as [s|s cmdline s1 lines s2 HP Hr IH]; intros fuel Hi Hf Hl.
  { by apply run_loop_end_of_input. }
  destruct fuel as [|fuel]; [done|]. apply Forall_cons in Hl as [Hl1 Hl2].
  destruct (run_loop_step fuel (cmdline :: lines) s s1) as (-> & Hi1 & Hf1); [done..|].
  change (finish_ (commands (resumed s1)) = is_exit cmdline) in Hf1. rewrite Hl1 in Hf1. by apply IH.
Qed.

Lemma Join_returns s : ∃ s', Join s = (Ok tt, s').
Proof.
  assert (∀ result s, ∃ b s', network_status true result s = (Ok b, s')) as H1.
  { clear s. intros result s. unfold network_status.
    erewrite prog_bind_Ok by done. cbn beta zeta.
    destruct (_ <? _)%Z; [by do 2 eexists|]. destruct (_ && _); by do 2 eexists. }
  assert (∀ results s, ∃ s', network_statuses results s = (Ok tt, s')) as Hn.
  { clear s. induction results as [|result results IH]; intros s; cbn; [by eexists|].
    destruct (H1 result s) as (b & s1 & E). erewrite prog_bind_Ok by exact E. apply IH. }
  unfold Join. erewrite prog_bind_Ok by done. cbn beta zeta. case_match; [by eexists|].
  erewrite prog_bind_Ok by done. cbn beta.
  destruct (Hn (node_statuses_joining (demo_node_ (commands s)))
    (on_commands (set_node (node_Join (demo_node_ (commands s)))) s)) as [s1 E1].
  erewrite prog_bind_Ok by exact E1. cbn beta. erewrite prog_bind_Ok by done. cbn beta.
  case_match; [by eexists|].
  destruct (Hn (node_statuses_after (demo_node_ (commands s))) s1) as [s2 E2].
  erewrite prog_bind_Ok by exact E2. by eexists.
Qed.

(** Before the loop [Run] always gets to it. *)
Definition started s : Shell := (startup s).2.

Lemma Run_started fuel input s : Run fuel input s = run_loop fuel input (started s).
Proof.
  unfold Run, started. assert (∃ s', startup s = (Ok tt, s')) as [s' E].
  { unfold startup. erewrite prog_bind_Ok by done. cbn beta. erewrite prog_bind_Ok by done. cbn beta.
    case_match; [|by eexists]. erewrite prog_bind_Ok by done. apply Join_returns. }
  erewrite wbind_Ok by (apply run_Ok; exact E). by rewrite E.
Qed.

(** C31: The loop of the shell ends at [exit] and nowhere else: a session whose
    commands all return ends, whatever follows, when the line [exit] is typed
    (the wait for the result of a command never lasts), and goes on for ever
    when the input ends without it. *)
Theorem Run_ends_at_exit s lines s' :
  posted (world s) = 0 → result_arrived_ (commands s) = false → finish_ (commands s) = false →
  processed (started s) lines s' → Forall (λ l, is_exit l = false) lines →
  (∀ cmdline more fuel, is_exit cmdline = true → length lines + 2 ≤ fuel →
     (Run fuel (lines ++ cmdline :: more) s).1 = Ok (Some tt)) ∧
  (∀ fuel, (Run fuel lines s).1 = Ok None).
Proof.
  intros Hp Ha Hf HP Hl. destruct (stays_startup s) as [_ _ _ _ _ Ha' Hf' Hp'].
  assert (idle (started s)) as Hi by (split; unfold started; congruence).
  assert (finish_ (commands (started s)) = false) as Hfs by (unfold started; congruence).
  split.
  - intros cmdline more fuel He Hfuel. rewrite Run_started.
    replace fuel with (length lines + (S (S (fuel - length lines - 2)))) by lia.
    destruct (run_loop_processed _ _ _ (cmdline :: more) (S (S (fuel - length lines - 2))) HP Hi Hfs Hl)
      as (-> & Hi1 & Hf1).
    destruct (ProcessCommand_exit cmdline (prompted s') He) as [s1 HE].
    destruct (run_loop_step (S (fuel - length lines - 2)) (cmdline :: more) s' s1) as (-> & _ & Hf2);
      [done..|].
    change (finish_ (commands (resumed s1)) = is_exit cmdline) in Hf2. rewrite He in Hf2.
    cbn [run_loop]. erewrite wbind_Ok by done. cbn beta. by rewrite Hf2.
  - intros fuel. rewrite Run_started. by eapply run_loop_no_exit.
Qed.
End shell.
