(* ===== verification/CommandsSending.v ===== *)
(** * The interactive test node: sending test messages

    Theorems about the sending half of [Commands] and about [SharedResponse]:
    who is expected to respond, the pause between messages, the count of the
    answers, the performance test, and the reply to a test message. *)

From Stdlib Require Import Ascii.
From stdpp Require Import strings.
From S2P Require Import Prelude CppStd CppString Identity Types ToolEnv SharedResponse Commands.
From S2P Require Import CommandsFacts.

Section sending.
Context `{AT : AddressText} `{CO : !CryptoOps} `{EO : !EndpointOps} `{KO : !KeyOps}.
Context `{GO : !GenericNodeOps} `{TO : !ToolOps} `{FO : !FileOps} `{AO : !ArrivalOps}.
Implicit Types (c : Commands) (s : Shell).

(** ** Who is expected to respond *)
Section closests.
Context `{IL : !IdentityLaws}.

Lemma filter_Forall {A} (P : A → Prop) `{!∀ x, Decision (P x)} (l : list A) :
  Forall P l → filter P l = l.
Proof.
  induction 1 as [|x l Hx Hl IH]; [done|]. by rewrite filter_cons_True, IH.
Qed.

Notation by_distance target := (sort_by (λ a : Identity, a) (λ lhs rhs, CloserToTarget lhs rhs target)).

Lemma by_distance_sorted target ids :
  NoDup ids → sorted_by (λ a, a) (λ lhs rhs, CloserToTarget lhs rhs target) (by_distance target ids).
Proof.
  intros Hn. apply sort_by_sorted; [typeclasses eauto|]. by rewrite list_fmap_id.
Qed.

(** Skipping the first when it is the target is leaving out the target. *)
Lemma skip_target target ids first rest :
  NoDup ids → by_distance target ids = first :: rest →
  drop (if bool_decide (first = target) then 1 else 0) (first :: rest) =
  filter (.≠ target) (first :: rest).
Proof.
  intros Hn Hs. pose proof (by_distance_sorted target ids Hn) as Hsorted. rewrite Hs in Hsorted.
  assert (NoDup (first :: rest)) as [Hf Hr]%NoDup_cons.
  { rewrite <-Hs, sort_by_perm. done. }
  assert (Forall (.≠ target) rest) as Hrest.
  { apply Forall_forall. intros a Ha ->. apply StronglySorted_cons in Hsorted as [Hx _].
    rewrite Forall_forall in Hx. specialize (Hx _ Ha). by rewrite CloserToTarget_self in Hx. }
  rewrite filter_cons. destruct (decide (first = target)) as [->|Hne].
  - rewrite bool_decide_true, decide_False by auto. cbn. by rewrite filter_Forall.
  - rewrite bool_decide_false, decide_True by auto. cbn. by rewrite filter_Forall.
Qed.

Lemma at_index_last {A} (l : list A) (a : A) :
  last l = Some a → at_index l (length l - 1) = Ok a.
Proof. intros Hl. unfold at_index. rewrite last_lookup, <-Nat.sub_1_r in Hl. by rewrite Hl. Qed.

Lemma last_or_nil {A} (l : list A) : l ≠ [] → ∃ a, last l = Some a.
Proof. intros Hl. destruct (last l) as [a|] eqn:E; [by exists a|]. by apply last_None in E. Qed.

(** [l] are [k] identities of the pool, none of them the target, and no other
    one is closer to it. *)
Definition closest_others (target : Address) (k : nat) (pool l : list Address) : Prop :=
  length l = k ∧ (target ∉ l) ∧ (l ⊆ pool) ∧
  ∀ a b, a ∈ l → b ∈ pool → b ≠ target → b ∉ l → CloserToTarget a b target = true.

Lemma closest_others_take target k ids :
  NoDup ids → k < length ids →
  closest_others target k ids (take k (filter (.≠ target) (by_distance target ids))).
Proof.
  intros Hn Hk. set (others := filter _ _).
  assert (sorted_by (λ a, a) (λ lhs rhs, CloserToTarget lhs rhs target) others) as Hs.
  { eapply sorted_by_sublist; [apply stdpp.list_relations.list.sublist_filter|by apply by_distance_sorted]. }
  assert (∀ a, a ∈ others ↔ a ∈ ids ∧ a ≠ target) as Hin.
  { intros a. unfold others. rewrite list_elem_of_filter, sort_by_perm. tauto. }
  assert (length ids ≤ S (length others)) as Hlen.
  { assert (length (by_distance target ids) = length ids) as <- by (by rewrite sort_by_perm).
    unfold others. destruct (by_distance target ids) as [|first rest] eqn:E; [cbn; lia|].
    rewrite <-(skip_target target ids) by done. rewrite length_drop. case_match; lia. }
  assert (∀ a, a ∈ take k others → a ∈ others) as Htake.
  { intros a. apply subseteq_take. }
  split_and!.
  - rewrite length_take. unfold Address in *. lia.
  - intros Ht%Htake%Hin. tauto.
  - intros a Ha%Htake%Hin. tauto.
  - intros a b Ha Hb Hbt Hbn. rewrite <-(take_drop k others) in Hs.
    eapply (sorted_by_app (λ a, a) _ _ _ a b Hs); [done|].
    assert (b ∈ take k others ++ drop k others) as [?|?]%elem_of_app by (rewrite take_drop; by apply Hin);
      done.
Qed.

(** C33: The nodes expected to respond to a group message: [CalculateClosests]
    gives the whole pool when it has at most [k] identities, and otherwise [k]
    of them, without the target, such that every other one is farther from the
    target; the address returned is the last of them.  Only an empty pool makes
    it undefined. *)
Theorem CalculateClosests_spec s target k :
  let ids := all_ids_ (commands s) in
  0 < k → NoDup ids →
  match ids with
  | [] => (CalculateClosests target k s).1 = Undefined
  | _ => ∃ closests farthest,
      (CalculateClosests target k s).1 = Ok (closests, farthest) ∧ last closests = Some farthest ∧
      if length ids <=? k then closests = ids else closest_others target k ids closests
  end.
Proof.
  intros ids Hk Hn. unfold CalculateClosests. erewrite prog_bind_Ok by done. cbn beta zeta.
  fold ids. destruct ids as [|first0 rest0] eqn:Hids; [done|]. rewrite <-Hids in *.
  assert (ids ≠ []) as Hne by (by rewrite Hids).
  destruct (Nat.leb_spec (length ids) k) as [Hle|Hgt].
  { destruct (last_or_nil ids Hne) as [a Ha]. exists ids, a. split_and!; [|done..].
    erewrite prog_bind_Ok by (unfold lift; rewrite (at_index_last _ a Ha); done). done. }
  erewrite prog_bind_Ok by done. cbn beta.
  destruct (by_distance target ids) as [|first rest] eqn:E.
  { apply (f_equal length) in E. rewrite sort_by_perm in E. cbn in E. unfold Address in *. lia. }
  erewrite prog_bind_Ok by done. cbn beta.
  rewrite (skip_target target ids) by done. rewrite <-E.
  pose proof (closest_others_take target k ids Hn Hgt) as Hc.
  set (closests := take k _) in *.
  destruct (last_or_nil closests) as [a Ha].
  { intros Hnil. destruct Hc as [Hl _]. rewrite Hnil in Hl. cbn in Hl. lia. }
  exists closests, a. split_and!; [|done..].
  erewrite prog_bind_Ok by exact (f_equal (λ r, (r, _)) (at_index_last _ a Ha)). done.
Qed.
End closests.

(** ** The pause between two messages *)

(** C35: The pause is defined exactly when the data rate is at least the data
    size and the size is not 0; it is then at most a second, and positive
    when at most 1000 messages are to be sent in a second.  With other settings
    the division by the number of messages per second is undefined. *)
Theorem CalculateTimeToSleep_bounds c :
  size_t_ok (data_size_ c) → size_t_ok (data_rate_ c) →
  if (0 <? data_size_ c)%Z && (data_size_ c <=? data_rate_ c)%Z
  then ∃ t, CalculateTimeToSleep c = Ok t ∧ (0 ≤ t ≤ 1000)%Z ∧
       ((data_rate_ c < 1001 * data_size_ c)%Z → (0 < t)%Z)
  else CalculateTimeToSleep c = Undefined.
Proof.
  unfold size_t_ok, CalculateTimeToSleep, udiv. intros [Hs _] [Hr _].
  set (size := data_size_ c) in *. set (rate := data_rate_ c) in *.
  destruct (Z.eqb_spec size 0) as [->|Hne]; [done|].
  rewrite (proj2 (Z.ltb_lt 0 size)) by lia. cbn [andb mbind outcome_bind].
  destruct (Z.leb_spec size rate) as [Hle|Hlt].
  - assert (1 ≤ rate / size)%Z as Hd by (apply Z.div_le_lower_bound; lia).
    rewrite (proj2 (Z.eqb_neq _ _)) by lia. eexists. split_and!; [done|apply Z.div_pos; lia| |].
    + apply Z.div_le_upper_bound; nia.
    + intros Hr'. assert (rate / size < 1001)%Z by (apply Z.div_lt_upper_bound; lia).
      apply Z.div_str_pos. lia.
  - rewrite Z.div_small by lia. done.
Qed.

(** ** Replies *)
Section replies.
Context `{IL : !IdentityLaws} `{ATL : !AddressTextLaws}.

(** The reply of a node names the node. *)
Lemma reply_id n message :
  "+"%char ∉ message → IsInitialised (node_Address n) = true →
  response_id (message_received n message) = Ok (node_Address n).
Proof.
  intros Hp Hi. unfold response_id, message_received.
  assert (∀ rest, find (lit "+++") (message ++ lit "+++" ++ rest) = Some (length message)) as Hfind.
  { intros rest. apply find_app. done. }
  set (id := Address_string (node_Address n)).
  assert (length id = 64) as Hlen by (by apply Address_string_length).
  assert (∀ rest, substr (length message + 3) (Some 64) (message ++ lit "+++" ++ id ++ rest) = Ok id)
    as Hsub.
  { intros rest. rewrite (assoc_L (++) message). rewrite <-Hlen.
    replace (length message + 3) with (length (message ++ lit "+++")) by (by rewrite length_app).
    apply substr_app. }
  destruct (find (lit "request_routing_table") message).
  - rewrite <-!(assoc_L (++)), Hfind. cbn [npos_add]. rewrite Hsub. by apply Address_of_string_string.
  - rewrite Hfind. cbn [npos_add].
    rewrite <-(app_nil_r id), Hsub. by apply Address_of_string_string.
Qed.

Lemma numbered_no_plus message_id data :
  (0 ≤ message_id)%Z → "+"%char ∉ data → "+"%char ∉ numbered ">:< " " <:>" message_id data.
Proof.
  intros Hm Hd. unfold numbered. rewrite !not_elem_of_app. split_and!; [|intros Hc| |done].
  - by_bool.
  - apply to_string_digits, digit_char in Hc; [|done]. naive_solver.
  - by_bool.
Qed.

(** C34: What a node replies to a test message counts for that node: when the
    data has no plus sign, the reply to a numbered message that comes in time is
    recorded under the address of the node that replied and no other, and
    further replies of the same node are refused. *)
Theorem reply_recorded n data r :
  let reply message_id := message_received n (numbered ">:< " " <:>" message_id data) in
  let in_time timeout now := (total_milliseconds (now - msg_send_time_ r) < timeout)%Z in
  "+"%char ∉ data → IsInitialised (node_Address n) = true →
  map_ok Identity_ltb (responded_nodes_ r) →
  map_find Identity_ltb (node_Address n) (responded_nodes_ r) = None →
  ∀ message_id print_performance now timeout out, (0 ≤ message_id)%Z → in_time timeout now →
  ∃ r1 out1,
  CollectResponse (reply message_id) print_performance now timeout (r, out) = (Ok true, (r1, out1)) ∧
  (∀ a, map_find Identity_ltb a (responded_nodes_ r1) =
        if bool_decide (a = node_Address n) then Some tt else map_find Identity_ltb a (responded_nodes_ r)) ∧
  (∀ message_id' now' out', (0 ≤ message_id')%Z → in_time timeout now' → ∃ out2,
     CollectResponse (reply message_id') print_performance now' timeout (r1, out') = (Ok false, (r1, out2))).
Proof.
  intros reply in_time Hd Hi Hok Hnew message_id pp now timeout out Hm Ht. unfold in_time in *.
  assert (∀ i, (0 ≤ i)%Z → response_id (reply i) = Ok (node_Address n)) as Hid.
  { intros i Hi0. by apply reply_id; [apply numbered_no_plus|]. }
  assert (∀ a, map_find Identity_ltb a (responded_nodes_ (record_response (node_Address n) now r)) =
    if bool_decide (a = node_Address n) then Some tt else map_find Identity_ltb a (responded_nodes_ r))
    as Hfind.
  { intros a. cbn. rewrite (map_find_insert Identity_ltb) by done. rewrite Hnew. case_bool_decide as Ha.
    - subst a. by rewrite (key_equiv_refl Identity_ltb).
    - by rewrite (key_equiv_ne Identity_ltb). }
  exists (record_response (node_Address n) now r). eexists. split_and!; [|done|].
  - unfold CollectResponse. rewrite Hid, (proj2 (Z.ltb_lt _ _)), Hnew by done. done.
  - intros message_id' now' out' Hm' Ht'. unfold CollectResponse.
    rewrite Hid, Hfind, bool_decide_true, (proj2 (Z.ltb_lt _ _)) by done. by eexists.
Qed.
End replies.
End sending.
