(* ===== verification/Answers.v ===== *)
(** * Counting the answers to test messages

    The functor that [Commands::SendAMessage] passes to the node counts every
    answer that is empty (the node gave up) or comes from a node that had not
    answered yet, and the last one wakes the sender. *)

From Stdlib Require Import Ascii.
From stdpp Require Import strings.
From S2P Require Import Prelude CppStd CppString Identity Types ToolEnv SharedResponse Commands.
From S2P Require Import CommandsFacts.

Section answers.
Context `{AT : AddressText} `{CO : !CryptoOps} `{EO : !EndpointOps} `{KO : !KeyOps}.
Context `{GO : !GenericNodeOps} `{TO : !ToolOps} `{FO : !FileOps} `{AO : !ArrivalOps}.
Context `{IL : !IdentityLaws} `{TL : !ToolLaws}.
Implicit Types (b : Batch) (r : SharedResponse).

(** ** Answers as the node gives them

    To the first [k] messages of a batch; [seen] are the nodes that have already
    answered a message.  A text names a node that has not, and has a readable
    routing table if one was asked for. *)
Inductive good_answers (k : nat) :
    list (nat * Address) → list Arrival → list (nat * Address) → Prop :=
  | good_nil seen : good_answers k seen [] seen
  | good_empty seen a l seen' :
      which a < k → response a = [] →
      good_answers k seen l seen' → good_answers k seen (a :: l) seen'
  | good_text seen a responder ls l seen' :
      which a < k → response_id (response a) = Ok responder → (which a, responder) ∉ seen →
      PrintRoutingTable_response (response a) = Ok ls →
      good_answers k ((which a, responder) :: seen) l seen' → good_answers k seen (a :: l) seen'.

Lemma good_answers_app k seen l1 seen1 l2 seen2 :
  good_answers k seen l1 seen1 → good_answers k seen1 l2 seen2 → good_answers k seen (l1 ++ l2) seen2.
Proof. induction 1; cbn; eauto using good_answers. Qed.

(** ** The batch while the answers come in

    Every message expects [expect] answers; [j] of all have been counted. *)
Record counting (expect : Z) (seen : list (nat * Address)) (j : Z) b : Prop := {
  counting_count : operation_count b = j;
  counting_success : (j < 2 ^ 31)%Z → (0 ≤ successful_count b ≤ j)%Z;
  counting_sent : ∀ i m, sent b !! i = Some m →
    expect_respondent m = expect ∧
    (group_performance m = true → (0 ≤ sent_size m < 2 ^ 30)%Z) ∧
    ∀ a, a ∈ (responded_nodes_ (shared_response m)).*1 → (i, a) ∈ seen
}.

Lemma to_int_small z : (- 2 ^ 31 ≤ z < 2 ^ 31)%Z → to_int z = z.
Proof. intros Hz. unfold to_int. rewrite Z.mod_small by lia. lia. Qed.

Lemma CheckAndPrintResult_Ok r : ∃ checked, CheckAndPrintResult r = Ok checked.
Proof.
  unfold CheckAndPrintResult, response_count, udiv. destruct (responded_nodes_ r) as [|p l]; [by eexists|].
  rewrite (proj2 (Z.eqb_neq _ _)) by (cbn; lia). by eexists.
Qed.

Lemma PrintGroupPerformance_Ok size r :
  (0 ≤ size < 2 ^ 30)%Z → ∃ ls, PrintGroupPerformance (to_int size) r = Ok ls.
Proof.
  intros Hs. unfold PrintGroupPerformance, udiv, int_result.
  destruct (Z.ltb_spec (response_count r) parameters_group_size) as [|Hge]; [by eexists|].
  pose proof parameters_group_size_range. rewrite (proj2 (Z.eqb_neq _ _)) by lia.
  rewrite to_int_small by lia.
  cbn [mbind outcome_bind]. rewrite (proj2 (int_ok_spec _)) by lia. by eexists.
Qed.

Lemma finish_operation_counts messages_count m r b out :
  (group_performance m = true → (0 ≤ sent_size m < 2 ^ 30)%Z) →
  ∃ out', finish_operation messages_count m r (b, out) =
    (Ok tt, (mkBatch (successful_count b) (to_uint32 (operation_count b + 1))
       ((to_uint32 (operation_count b + 1) =? all_operations messages_count (expect_respondent m))%Z
          || notified b) (sent b), out')).
Proof.
  intros Hs. unfold finish_operation. cbn [operation_count count_operation].
  destruct (_ =? _)%Z; [|by eexists].
  destruct (group_performance m) eqn:E; [|by eexists].
  destruct (PrintGroupPerformance_Ok (sent_size m) r) as [ls ->]; [auto|]. by eexists.
Qed.

Lemma check_responses_Ok text r b out ls :
  PrintRoutingTable_response text = Ok ls →
  ∃ n out', check_responses text r (b, out) =
    (Ok tt, (mkBatch n (operation_count b) (notified b) (sent b), out')) ∧
    (n = successful_count b ∨ n = to_int (successful_count b + 1)).
Proof.
  intros Hls. unfold check_responses. destruct (CheckAndPrintResult_Ok r) as [checked Hc].
  rewrite Hls, Hc. destruct b.
  destruct (_ =? 1)%Z, (_ =? length _); cbn; do 2 eexists; split; eauto.
Qed.

Lemma response_id_nonempty text responder : response_id text = Ok responder → ∃ c rest, text = c :: rest.
Proof. destruct text as [|c rest]; [done|by do 2 eexists]. Qed.

(** What [CollectResponse] leaves of a message that a new node answers. *)
Lemma CollectResponse_new text responder print_performance now timeout r out :
  response_id text = Ok responder → responder ∉ (responded_nodes_ r).*1 →
  ∃ r' out', CollectResponse text print_performance now timeout (r, out) = (Ok true, (r', out')) ∧
    ∀ a, a ∈ (responded_nodes_ r').*1 → a = responder ∨ a ∈ (responded_nodes_ r).*1.
Proof.
  intros Hid Hnew. unfold CollectResponse. rewrite Hid.
  apply (map_find_None Identity_ltb) in Hnew.
  destruct (_ <? timeout)%Z; [|by do 2 eexists; eauto]. rewrite Hnew. do 2 eexists. split; [done|].
  intros a. cbn. rewrite map_insert_absent by done. cbn.
  rewrite insert_by_perm. cbn. rewrite elem_of_cons. tauto.
Qed.

Lemma to_uint32_small z : (0 ≤ z < 2 ^ 32)%Z → to_uint32 z = z.
Proof. apply Z.mod_small. Qed.

(** What a counted answer does to the batch. *)
Definition counted (messages_count expect : Z) (seen : list (nat * Address)) (j : Z) b b' : Prop :=
  counting expect seen (j + 1) b' ∧ length (sent b') = length (sent b) ∧
  notified b' = (j + 1 =? all_operations messages_count expect)%Z || notified b.

Lemma deliver_empty messages_count timeout expect seen j a b out :
  counting expect seen j b → (0 ≤ j)%Z → (j + 1 < 2 ^ 32)%Z →
  which a < length (sent b) → response a = [] →
  ∃ b' out', deliver messages_count timeout a (b, out) = (Ok tt, (b', out')) ∧
    counted messages_count expect seen j b b'.
Proof.
  intros [Hj Hn Hs] Hj0 Hj1 Hw Hr. unfold deliver, callable.
  destruct (lookup_lt_is_Some_2 (sent b) (which a) Hw) as [m Hm]. rewrite Hm, Hr.
  destruct (Hs _ _ Hm) as (He & Hg & _).
  match goal with |- context [finish_operation _ _ ?r (_, ?out)] =>
    destruct (finish_operation_counts messages_count m r b out Hg) as [out' ->] end.
  rewrite Hj, He, to_uint32_small by lia. do 2 eexists. split; [done|].
  split_and!; [|done|done]. split; [done|cbn; lia|done].
Qed.

Lemma set_shared_lookup i r b i' m' :
  sent (set_shared i r b) !! i' = Some m' →
  ∃ m, sent b !! i' = Some m ∧ expect_respondent m' = expect_respondent m ∧
    group_performance m' = group_performance m ∧ sent_size m' = sent_size m ∧
    shared_response m' = if bool_decide (i' = i) then r else shared_response m.
Proof.
  cbn. intros H'. case_bool_decide as Hi.
  - subst i'. rewrite list_lookup_alter_eq in H'. apply fmap_Some in H' as (m & Hm & ->).
    exists m. done.
  - rewrite list_lookup_alter_ne in H' by done. by exists m'.
Qed.

Lemma deliver_text messages_count timeout expect seen j a responder ls b out :
  counting expect seen j b → (0 ≤ j)%Z → (j + 1 < 2 ^ 32)%Z →
  which a < length (sent b) → response_id (response a) = Ok responder →
  (which a, responder) ∉ seen → PrintRoutingTable_response (response a) = Ok ls →
  ∃ b' out', deliver messages_count timeout a (b, out) = (Ok tt, (b', out')) ∧
    counted messages_count expect ((which a, responder) :: seen) j b b'.
Proof.
  intros [Hj Hsucc Hs] Hj0 Hj1 Hw Hid Hnew Hls. unfold deliver, callable.
  destruct (lookup_lt_is_Some_2 (sent b) (which a) Hw) as [m Hm]. rewrite Hm.
  destruct (Hs _ _ Hm) as (He & Hg & Hseen).
  destruct (response_id_nonempty _ _ Hid) as (c & rest & Htext).
  destruct (response a) as [|c' rest'] eqn:Ha; [done|]. rewrite <-Ha in *.
  match goal with |- context [CollectResponse _ ?pp ?now _ (?r, ?out)] =>
    destruct (CollectResponse_new (response a) responder pp now timeout r out Hid) as (r' & out1 & -> & Hr') end.
  { intros Hin. by apply Hnew, Hseen. }
  destruct (check_responses_Ok (response a) r' (set_shared (which a) r' b) out1 ls Hls) as (n & out2 & Hck & Hn).
  erewrite prog_bind_Ok by exact Hck.
  match goal with |- context [finish_operation _ _ r' (?b', _)] =>
    destruct (finish_operation_counts messages_count m r' b' out2 Hg) as [out' ->] end.
  cbn [operation_count successful_count notified sent].
  change (operation_count (set_shared (which a) r' b)) with (operation_count b).
  rewrite Hj, He, to_uint32_small by lia. do 2 eexists. split; [done|]. split_and!; [|cbn; by rewrite length_alter|done].
  split; [done|..].
  { cbn. intros Hj2. destruct Hn as [->| ->]; cbn; [lia|]. rewrite to_int_small by lia. lia. }
  cbn [sent]. intros i m' (m0 & Hm0 & E1 & E2 & E3 & E4)%set_shared_lookup.
  rewrite E1, E2, E3, E4. destruct (Hs _ _ Hm0) as (He0 & Hg0 & Hseen0). split_and!; [done..|].
  intros x Hx. apply elem_of_cons. case_bool_decide as Hi; [|auto]. subst i.
  rewrite Hm in Hm0. injection Hm0 as <-. destruct (Hr' _ Hx) as [->|]; auto.
Qed.

(** The first of some good answers. *)
Lemma deliver_good messages_count timeout expect k seen a l seen' j b out :
  good_answers k seen (a :: l) seen' → k ≤ length (sent b) → counting expect seen j b →
  (0 ≤ j)%Z → (j + 1 < 2 ^ 32)%Z →
  ∃ seen1 b' out', deliver messages_count timeout a (b, out) = (Ok tt, (b', out')) ∧
    counted messages_count expect seen1 j b b' ∧ good_answers k seen1 l seen'.
Proof.
  inversion 1; subst; intros Hk Hc Hj0 Hj1.
  - destruct (deliver_empty messages_count timeout expect seen j a b out) as (b' & out' & Hd & Hb');
      [done..|lia|done|]. by exists seen, b', out'.
  - destruct (deliver_text messages_count timeout expect seen j a responder ls b out)
      as (b' & out' & Hd & Hb'); [done|done|done|lia|done|done|done|].
    by exists ((which a, responder) :: seen), b', out'.
Qed.

Lemma deliver_all_good messages_count timeout expect k l seen seen' j b out :
  good_answers k seen l seen' → k ≤ length (sent b) → counting expect seen j b →
  (0 ≤ j)%Z → (j + Z.of_nat (length l) < 2 ^ 32)%Z →
  ∃ b' out', deliver_all messages_count timeout l (b, out) = (Ok tt, (b', out')) ∧
    counting expect seen' (j + Z.of_nat (length l)) b' ∧ length (sent b') = length (sent b).
Proof.
  revert seen j b out. induction l as [|a l IH]; intros seen j b out Hg Hk Hc Hj0 Hj1.
  - inversion Hg; subst. exists b, out. rewrite Z.add_0_r. done.
  - cbn [length] in Hj1.
    destruct (deliver_good messages_count timeout expect k seen a l seen' j b out)
      as (seen1 & b1 & out1 & Hd & (Hc1 & Hl1 & _) & Hg1); [done..|lia|].
    cbn [deliver_all]. erewrite prog_bind_Ok by exact Hd.
    destruct (IH seen1 (j + 1)%Z b1 out1) as (b' & out' & -> & Hc' & Hl'); [done|lia|done|lia|lia|].
    exists b', out'. split_and!; [done| |congruence].
    by replace (j + Z.of_nat (length (a :: l)))%Z with (j + 1 + Z.of_nat (length l))%Z by (cbn; lia).
Qed.

(** The sender wakes when the answers it waits for have come in. *)
Lemma wait_notified_returns messages_count timeout spurious expect k l seen seen' j b out :
  good_answers k seen l seen' → k ≤ length (sent b) → counting expect seen j b →
  (0 ≤ j)%Z → (j + Z.of_nat (length l) < 2 ^ 32)%Z →
  all_operations messages_count expect = (j + Z.of_nat (length l))%Z → (l = [] → notified b = true) →
  ∃ b' out', wait_notified messages_count timeout spurious l (b, out) = (Ok (Some tt), (b', out')) ∧
    ∃ seen1 j1, (j1 ≤ j + Z.of_nat (length l))%Z ∧ counting expect seen1 j1 b'.
Proof.
  revert spurious seen j b out. induction l as [|a l IH]; intros spurious seen j b out Hg Hk Hc Hj0 Hj1 Hall Hn.
  - exists b, out. cbn. rewrite Hn by done. split; [done|]. exists seen, j. split; [lia|done].
  - cbn [wait_notified]. destruct (notified b || bool_decide (spurious = Some 0)) eqn:En.
    { exists b, out. split; [done|]. exists seen, j. split; [lia|done]. }
    cbn [length] in Hj1, Hall.
    destruct (deliver_good messages_count timeout expect k seen a l seen' j b out)
      as (seen1 & b1 & out1 & Hd & (Hc1 & Hl1 & Hn1) & Hg1); [done..|lia|].
    erewrite wbind_Ok by (apply run_Ok; exact Hd).
    destruct (IH (pred <$> spurious) seen1 (j + 1)%Z b1 out1) as (b' & out' & Hw & seen2 & j2 & Hj2 & Hc2);
      [done|lia|done|lia|lia|lia| |].
    { intros ->. cbn [length] in Hall. rewrite Hn1, Hall. cbn. by rewrite Z.eqb_refl. }
    exists b', out'. split; [done|]. exists seen2, j2. split; [cbn [length]; lia|done].
Qed.

(** ** Answers that are not counted *)

(** A second answer of a node, in time. *)
Definition duplicate (timeout : Z) b (a : Arrival) : Prop :=
  ∃ m responder, sent b !! which a = Some m ∧ response_id (response a) = Ok responder ∧
    map_find Identity_ltb responder (responded_nodes_ (shared_response m)) = Some tt ∧
    (total_milliseconds (at_time a - msg_send_time_ (shared_response m)) < timeout)%Z.

Lemma deliver_duplicate messages_count timeout a b out :
  duplicate timeout b a → ∃ out', deliver messages_count timeout a (b, out) = (Ok tt, (b, out')).
Proof.
  intros (m & responder & Hm & Hid & Hf & Ht). unfold deliver, callable. rewrite Hm.
  destruct (response_id_nonempty _ _ Hid) as (c & rest & Htext).
  destruct (response a) as [|c' rest'] eqn:Ha; [done|].
  unfold CollectResponse. rewrite Hid, (proj2 (Z.ltb_lt _ _)), Hf by done. by eexists.
Qed.

(** They never wake the sender, unless it wakes by itself. *)
Theorem duplicates_never_wake messages_count timeout l b out :
  notified b = false → Forall (duplicate timeout b) l →
  (wait_notified messages_count timeout None l (b, out)).1 = Ok None.
Proof.
  intros Hn Hl. revert out. induction Hl as [|a l Ha Hl IH]; intros out; cbn [wait_notified]; rewrite Hn; [done|].
  destruct (deliver_duplicate messages_count timeout a b out Ha) as [out' E].
  erewrite wbind_Ok by (apply run_Ok; exact E). apply IH.
Qed.

(** ** The sender *)
Lemma numbered_length before after message_id data :
  length (numbered before after message_id data) ≤
  length (lit before) + 10 + length (lit after) + length data.
Proof. unfold numbered. rewrite !length_app. pose proof (to_string_length message_id). lia. Qed.


Lemma counting_new expect : counting expect [] 0 Batch_new.
Proof. split; [done|done|]. intros i m Hm. cbn in Hm. by rewrite lookup_nil in Hm. Qed.

(** The wait after the last message of a batch of [k]. *)
Lemma wait_for_operations_returns messages_count expect k seen seen' j st :
  good_answers k seen (arrivals_waiting (sends (world st.1))) seen' →
  k ≤ length (sent st.2) → counting expect seen j st.2 → (0 ≤ j)%Z →
  all_operations messages_count expect = (j + Z.of_nat (length (arrivals_waiting (sends (world st.1)))))%Z →
  ∃ st', wait_for_operations messages_count expect st = (Ok (Some tt), st') ∧
    sends (world st'.1) = sends (world st.1) ∧
    ∃ seen1 j1, (j1 ≤ all_operations messages_count expect)%Z ∧ counting expect seen1 j1 st'.2.
Proof.
  destruct st as [s b]. cbn [fst snd]. intros Hg Hk Hc Hj Hall. unfold wait_for_operations.
  rewrite (counting_count _ _ _ _ Hc).
  assert (all_operations messages_count expect < 2 ^ 32)%Z as Hlt.
  { unfold all_operations, to_uint32. apply Z.mod_pos_bound. lia. }
  destruct (Z.eqb_spec j (all_operations messages_count expect)) as [Heq|Hne].
  { eexists. split; [done|]. split; [done|]. exists seen, j. split; [lia|done]. }
  unfold with_batch. set (t := default_response_timeout (world s)).
  destruct (wait_notified_returns messages_count t (spurious_wakeup (sends (world s))) expect k
    (arrivals_waiting (sends (world s))) seen seen' j (set_notified false b) [])
    as (b' & out' & -> & seen1 & j1 & Hj1 & Hc1); [done|done| |done|lia|done| |].
  - destruct Hc. by split.
  - intros Hnil. rewrite Hnil in Hall. cbn in Hall. lia.
  - eexists. split; [done|]. split; [done|]. exists seen1, j1. split; [lia|done].
Qed.

Lemma SendAMessage_good messages_count expect closest_nodes dest_id data k seen seen' j st :
  (Z.of_nat (length data) < 2 ^ 30)%Z →
  length (sent st.2) = k → counting expect seen j st.2 → (0 ≤ j)%Z →
  let answers := arrivals_after (sends (world st.1)) in
  good_answers (S k) seen answers seen' → (j + Z.of_nat (length answers) < 2 ^ 32)%Z →
  ∃ st', SendAMessage messages_count expect closest_nodes dest_id data st = (Ok tt, st') ∧
    counting expect seen' (j + Z.of_nat (length answers)) st'.2 ∧ length (sent st'.2) = S k ∧
    sends (world st'.1) = S (sends (world st.1)) ∧
    default_response_timeout (world st'.1) = default_response_timeout (world st.1).
Proof.
  destruct st as [s b]. cbn [fst snd]. intros Hd Hk [Hcj Hcn Hcs] Hj. cbn zeta. set (answers := arrivals_after _). intros Hg Hj1.
  unfold SendAMessage. erewrite prog_bind_Ok by done. cbn [fst snd].
  set (gp := (1 <? expect)%Z && _). set (b1 := mkBatch (successful_count b) (operation_count b) (notified b)
    (sent b ++ [mkSent (SharedResponse_new closest_nodes expect (send_time (sends (world s)))) expect gp
                  (Z.of_nat (length data))])).
  assert (counting expect seen j b1) as Hc1.
  { split; [done|done|]. intros i m Hm. cbn [b1 sent] in Hm.
    apply lookup_app_Some in Hm as [Hm|(Hi & Hm)]; [by apply Hcs|].
    apply list_lookup_singleton_Some in Hm as [_ <-]. split_and!; [done|intros _; cbn; lia|].
    intros a Ha. by apply not_elem_of_nil in Ha. }
  assert (length (sent b1) = S k) as Hl1 by (cbn; rewrite length_app; cbn; lia).
  assert (∀ s2, sends (world s2) = S (sends (world s)) →
    default_response_timeout (world s2) = default_response_timeout (world s) →
    ∃ st', with_batch (λ timeout, deliver_all messages_count timeout answers) (s2, b1) = (Ok tt, st') ∧
      counting expect seen' (j + Z.of_nat (length answers)) st'.2 ∧ length (sent st'.2) = S k ∧
      sends (world st'.1) = S (sends (world s)) ∧
      default_response_timeout (world st'.1) = default_response_timeout (world s)) as Hfin.
  { intros s2 Hs2 Ht2. unfold with_batch.
    destruct (deliver_all_good messages_count (default_response_timeout (world s2)) expect (S k)
      answers seen seen' j b1 []) as (b' & out' & -> & Hc' & Hl'); [done|lia|done..|].
    eexists. split; [done|]. cbn [fst snd]. split_and!; [done|congruence|done|done]. }
  erewrite (prog_bind_Ok (on_batch _)) by done. erewrite (prog_bind_Ok (on_shell _)) by done.
  destruct (expect =? 1)%Z; [|destruct gp]; erewrite prog_bind_Ok by done; by apply Hfin.
Qed.
End answers.
