(* ===== verification/PerformanceTest.v ===== *)
(** * The performance test of the interactive test node

    [Commands::RunPerformanceTest] ends: its loop is a fixed sequence of
    rounds, and every message of a round is waited for until its answers have
    been counted. *)

From Stdlib Require Import Ascii.
From stdpp Require Import strings.
From S2P Require Import Prelude CppStd CppString Identity Types ToolEnv SharedResponse Commands.
From S2P Require Import CommandsFacts Answers.

Section rounds.
Context `{AT : AddressText} `{CO : !CryptoOps} `{EO : !EndpointOps} `{KO : !KeyOps}.
Context `{GO : !GenericNodeOps} `{TO : !ToolOps} `{FO : !FileOps} `{AO : !ArrivalOps}.
Implicit Types (s : Shell).

(** ** The rounds of the loop *)

(** A round with data of a given size. *)
Definition perform_size (expect message_id size : Z) : waiting Shell Z :=
  run (update (set_data_size size));;
  s ← run get;
  data ← run (string ← draw (RandomAlphaNumericString size); lift (λ _, string));
  perform_round expect message_id data (node_ReturnRoutingTable (demo_node_ (commands s))).

Fixpoint perform_sizes (expect message_id : Z) (sizes : list Z) : waiting Shell Z :=
  match sizes with
  | [] => mret message_id
  | size :: sizes =>
      message_id ← perform_size expect message_id size;
      perform_sizes expect message_id sizes
  end.

(** The sizes of the test. *)
Definition performance_sizes : list Z :=
  [1; 1000; 2000; 4000; 8000; 16000; 32000; 64000; 128000; 256000; 512000; 1024000]%Z.

Fixpoint doubling (iteration : Z) (n : nat) : list Z :=
  match n with
  | 0 => []
  | S n => (1000 * iteration)%Z :: doubling (iteration * 2) n
  end.

Lemma performance_loop_step fuel expect message_id iteration size s :
  (size < 1024 * 1024 + 1024)%Z → (0 ≤ iteration)%Z → (1000 * iteration < 2 ^ 31)%Z →
  (run (update (set_data_size size));; performance_loop (S fuel) expect message_id iteration) s =
  (message_id ← perform_size expect message_id size;
   run (update (set_data_size (1000 * iteration)));;
   performance_loop fuel expect message_id (iteration * 2)) s.
Proof.
  intros Hs Hi Hb. unfold perform_size. cbn [performance_loop].
  assert (int_result (1000 * iteration) = Ok (1000 * iteration)%Z) as H1.
  { unfold int_result. by rewrite (proj2 (int_ok_spec _)) by lia. }
  assert (int_result (iteration * 2) = Ok (iteration * 2)%Z) as H2.
  { unfold int_result. by rewrite (proj2 (int_ok_spec _)) by lia. }
  assert (to_size_t (1000 * iteration) = (1000 * iteration)%Z) as H3.
  { unfold to_size_t. apply Z.mod_small. lia. }
  erewrite wbind_Ok by done. cbn beta. erewrite wbind_Ok by done. cbn beta.
  cbn [commands on_commands set_data_size data_size_]. rewrite (proj2 (Z.ltb_lt _ _)) by done.
  rewrite wbind_assoc. symmetry. erewrite wbind_Ok by done. cbn beta.
  rewrite wbind_assoc. erewrite wbind_Ok by done. cbn beta.
  rewrite wbind_assoc. apply wbind_ext. intros data s1. apply wbind_ext. intros message_id' s2.
  erewrite (wbind_Ok (run (lift _))) by (apply run_lift_Ok; exact H1). rewrite H3.
  apply wbind_ext. intros _ s3. by erewrite (wbind_Ok (run (lift _))) by (apply run_lift_Ok; exact H2).
Qed.

Lemma performance_loop_unroll n expect message_id iteration size s :
  (size < 1024 * 1024 + 1024)%Z → (0 ≤ iteration)%Z →
  Forall (λ z, z < 1024 * 1024 + 1024)%Z (doubling iteration n) →
  (1024 * 1024 + 1024 ≤ 1000 * (iteration * 2 ^ Z.of_nat n) < 2 ^ 31)%Z →
  (run (update (set_data_size size));; performance_loop (S (S n)) expect message_id iteration) s =
  (perform_sizes expect message_id (size :: doubling iteration n);;
   run (update (set_data_size (1000 * (iteration * 2 ^ Z.of_nat n))))) s.
Proof.
  revert message_id iteration size s. induction n as [|n IH]; intros message_id iteration size s Hs Hi Hd Hb.
  - cbn [Z.of_nat] in *. rewrite Z.pow_0_r, Z.mul_1_r in *.
    rewrite performance_loop_step by lia. cbn [perform_sizes doubling].
    rewrite wbind_assoc. apply wbind_ext. intros message_id' s1.
    erewrite wbind_Ok by done. cbn beta. cbn [performance_loop]. erewrite wbind_Ok by done. cbn beta.
    cbn [commands on_commands set_data_size data_size_]. rewrite (proj2 (Z.ltb_ge _ _)) by lia. done.
  - rewrite Nat2Z.inj_succ, Z.pow_succ_r, (Z.mul_assoc iteration) in * by lia.
    cbn [doubling] in Hd |- *. apply Forall_cons in Hd as [Hd1 Hd2].
    assert (1 ≤ 2 ^ Z.of_nat n)%Z as Hpow by (apply (Z.pow_le_mono_r 2 0); lia).
    rewrite performance_loop_step by nia.
    change (perform_sizes expect message_id (size :: ?l)) with
      (message_id' ← perform_size expect message_id size; perform_sizes expect message_id' l).
    rewrite wbind_assoc. apply wbind_ext. intros message_id' s1.
    apply IH; [lia|lia|done|lia].
Qed.

(** The performance test is a fixed sequence of rounds: whatever the
    network does, the loop, whose bound depends on a size it changes itself, sends
    to every node of the routing table once for each of twelve data sizes, from
    one byte to 1,024,000, and leaves the data size at 2,048,000. *)
Theorem RunPerformanceTest_rounds is_send_group s :
  RunPerformanceTest is_send_group s =
  (perform_sizes (if is_send_group then parameters_group_size else 1) 0 performance_sizes;;
   run (update (set_data_size 2048000))) s.
Proof.
  unfold RunPerformanceTest. change performance_sizes with (1%Z :: doubling 1 11).
  apply (performance_loop_unroll 11 _ 0 1 1 s); [lia|lia| |cbn; lia].
  repeat constructor; cbn; lia.
Qed.

(** ** The test ends when its messages are answered *)
Section completes.
Context `{IL : !IdentityLaws} `{TL : !ToolLaws}.

(** Message [n] of the session, alone in its batch, gets its [expect] answers. *)
Definition answered (expect : Z) (n : nat) : Prop :=
  ∃ seen seen',
    good_answers 1 [] (arrivals_after n) seen ∧
    good_answers 1 seen (arrivals_waiting (S n)) seen' ∧
    (Z.of_nat (length (arrivals_after n)) + Z.of_nat (length (arrivals_waiting (S n))) = expect)%Z.

Lemma perform_one_returns expect message_id data routing_node s :
  (Z.of_nat (length data) < 2 ^ 29)%Z → (0 ≤ expect < 2 ^ 32)%Z → answered expect (sends (world s)) →
  ∃ s', perform_one expect message_id data routing_node s = (Ok (Some tt), s') ∧
    sends (world s') = S (sends (world s)).
Proof.
  intros Hd He (seen & seen' & Hg & Hg' & Hlen). unfold perform_one, in_batch.
  destruct (SendAMessage_good 1 expect [] routing_node (numbered ">:<" "<:>" message_id data)
    0 [] seen 0 (s, Batch_new)) as (st1 & E1 & Hc1 & Hl1 & Hs1 & _);
    [|done|apply counting_new|lia|done|cbn [fst]; lia|].
  { pose proof (numbered_length ">:<" "<:>" message_id data) as Hn.
    change (length (lit ">:<")) with 3 in Hn. change (length (lit "<:>")) with 3 in Hn. lia. }
  erewrite wbind_Ok by (apply run_Ok; exact E1). cbn [fst] in Hs1, Hc1.
  destruct (wait_for_operations_returns 1 expect 1 seen seen' (0 + Z.of_nat (length (arrivals_after (sends (world s))))) st1)
    as ([s' b'] & -> & Hs' & _); rewrite ?Hs1; [done|lia|done|lia| |].
  { unfold all_operations. rewrite to_uint32_small by lia. lia. }
  exists s'. split; [done|]. cbn [fst] in Hs'. congruence.
Qed.

Lemma perform_round_returns expect message_id data routing_nodes s :
  (Z.of_nat (length data) < 2 ^ 29)%Z → (0 ≤ expect < 2 ^ 32)%Z →
  (∀ n, sends (world s) ≤ n → answered expect n) →
  ∃ message_id' s', perform_round expect message_id data routing_nodes s = (Ok (Some message_id'), s') ∧
    sends (world s) ≤ sends (world s').
Proof.
  intros Hd He. revert message_id s. induction routing_nodes as [|routing_node routing_nodes IH];
    intros message_id s Ha; cbn [perform_round]; [by do 2 eexists|].
  destruct (perform_one_returns expect (to_uint32 (message_id + 1)) data routing_node s)
    as (s1 & E1 & Hs1); [done|done|auto|].
  erewrite wbind_Ok by exact E1.
  destruct (IH (to_uint32 (message_id + 1)) s1) as (message_id' & s' & E' & Hs').
  { intros n Hn. apply Ha. lia. }
  exists message_id', s'. split; [done|lia].
Qed.

Lemma perform_sizes_returns expect message_id sizes s :
  Forall (λ size, 0 ≤ size < 2 ^ 29)%Z sizes → (0 ≤ expect < 2 ^ 32)%Z →
  (∀ n, sends (world s) ≤ n → answered expect n) →
  ∃ message_id' s', perform_sizes expect message_id sizes s = (Ok (Some message_id'), s').
Proof.
  intros Hs He. revert message_id s. induction Hs as [|size sizes Hsize Hsizes IH];
    intros message_id s Ha; cbn [perform_sizes]; [by do 2 eexists|]. unfold perform_size.
  rewrite wbind_assoc. erewrite wbind_Ok by done. cbn beta.
  rewrite wbind_assoc. erewrite wbind_Ok by done. cbn beta. rewrite wbind_assoc.
  destruct (RandomAlphaNumericString_length size (draws (world s))) as (data & Hdata & Hlen); [lia|].
  match goal with |- context [perform_round _ _ _ (node_ReturnRoutingTable ?n)] => set (table := node_ReturnRoutingTable n) end.
  erewrite wbind_Ok.
  2:{ apply run_Ok. erewrite prog_bind_Ok by done. unfold lift. cbn [world on_commands draws]. by rewrite Hdata. }
  match goal with |- ∃ _ _, (perform_round _ _ _ _ ≫= _) ?s1 = _ =>
    destruct (perform_round_returns expect message_id data table s1) as (message_id1 & s2 & E2 & Hs2) end;
    [lia|done|done|].
  erewrite wbind_Ok by exact E2. apply IH. intros n Hn. apply Ha. cbn in Hs2. lia.
Qed.

(** C32: The performance test ends: if every message gets the answers it expects
    (an answer of a node that had not answered it, or the empty one the node gives
    when it stops waiting), whether before or while the sender waits, each wait
    is woken, and the test returns with the data size left at 2,048,000. *)
Theorem RunPerformanceTest_completes (is_send_group : bool) s :
  (∀ n, sends (world s) ≤ n → answered (if is_send_group then parameters_group_size else 1%Z) n) →
  ∃ s', RunPerformanceTest is_send_group s = (Ok (Some tt), s') ∧ data_size_ (commands s') = 2048000%Z.
Proof.
  intros Ha. unfold RunPerformanceTest. change performance_rounds with (S (S 11)).
  rewrite (performance_loop_unroll 11 _ 0 1 1 s); [|lia|lia|repeat constructor; cbn; lia|cbn; lia].
  pose proof parameters_group_size_range.
  destruct (perform_sizes_returns (if is_send_group then parameters_group_size else 1%Z) 0
    (1%Z :: doubling 1 11) s) as (message_id & s1 & E1); [| |done|].
  { repeat constructor; cbn; lia. }
  { destruct is_send_group; lia. }
  erewrite wbind_Ok by exact E1. by eexists.
Qed.
End completes.
End rounds.
