(* ===== verification/SendMessagesProps.v ===== *)
(** * A command that sends messages returns

    [Commands::SendMessages] sends the number of messages it is asked for, waits
    until the last answer has been counted, and restores the response timeout;
    and the ways in which it does not. *)

From Stdlib Require Import Ascii.
From stdpp Require Import strings.
From S2P Require Import Prelude CppStd CppString Identity Types ToolEnv SharedResponse Commands.
From S2P Require Import CommandsFacts Answers.

Section send_messages.
Context `{AT : AddressText} `{CO : !CryptoOps} `{EO : !EndpointOps} `{KO : !KeyOps}.
Context `{GO : !GenericNodeOps} `{TO : !ToolOps} `{FO : !FileOps} `{AO : !ArrivalOps}.
Implicit Types (s : Shell).

(** ** Making a message *)

(** Neither the number of messages sent nor the timeout change. *)
Definition same_net s s' : Prop :=
  sends (world s') = sends (world s) ∧
  default_response_timeout (world s') = default_response_timeout (world s).
#[local] Instance same_net_preorder : PreOrder same_net.
Proof. split; [done|]. intros s1 s2 s3 [] []. split; congruence. Qed.

Lemma same_net_lines ls : stays same_net (print_lines ls).
Proof. by apply stays_modify. Qed.
Lemma same_net_print l : stays same_net (print l).
Proof. by apply stays_modify. Qed.
Lemma same_net_draw {A} (f : nat → A) : stays same_net (draw f).
Proof. by intros s. Qed.
Lemma same_net_update f : stays same_net (update f).
Proof. by apply stays_modify. Qed.
#[local] Hint Resolve same_net_lines same_net_print same_net_draw same_net_update : routing.

Lemma same_net_MakeMessage id_index destination_type :
  stays same_net (MakeMessage id_index destination_type).
Proof. unfold MakeMessage, CalculateClosests, print_ids. stays_split; stays_auto. Qed.

(** The settings with which a message can be made for key [id_index]. *)
Definition can_make (id_index : Z) (destination_type : DestinationType) s : Prop :=
  (0 ≤ id_index < 2 ^ 31)%Z ∧ (id_index < Z.of_nat (length (all_keys_ (commands s))))%Z ∧
  (destination_type = kGroup → all_ids_ (commands s) ≠ []).

Lemma can_make_frame id_index destination_type s s' :
  frame s s' → can_make id_index destination_type s → can_make id_index destination_type s'.
Proof.
  intros [Hk _ Hids _ _ _ _ _] (Hi & Hl & Hg). split; [done|split; [by rewrite Hk|]].
  intros Hd Hnil. rewrite Hnil in Hids. apply Permutation_nil_l in Hids. by apply Hg.
Qed.

Lemma CalculateClosests_Ok target k s :
  0 < k → all_ids_ (commands s) ≠ [] → ∃ r s', CalculateClosests target k s = (Ok r, s').
Proof.
  intros Hk Hne. unfold CalculateClosests. erewrite prog_bind_Ok by done. cbn beta zeta.
  assert (∀ (l : list Address) s1, l ≠ [] →
    ∃ r s', (farthest ← lift (λ _, at_index l (length l - 1)); mret (l, farthest)) s1 = (Ok r, s')) as Hlast.
  { intros l s1 Hl. destruct (lookup_lt_is_Some_2 l (length l - 1)) as [a Ha].
    { destruct l; [done|cbn; lia]. }
    unfold mbind, prog_bind, lift, at_index. rewrite Ha. by do 2 eexists. }
  destruct (Nat.leb_spec (length (all_ids_ (commands s))) k) as [Hle|Hgt]; [by apply Hlast|].
  erewrite prog_bind_Ok by done. cbn beta.
  set (sorted := sort_by _ _ _). assert (length sorted = length (all_ids_ (commands s))) as Hl.
  { unfold sorted. by rewrite sort_by_perm. }
  destruct (lookup_lt_is_Some_2 sorted 0) as [first Hf]; [unfold Address in *; lia|].
  erewrite (prog_bind_Ok (lift _)).
  2:{ unfold lift, at_index. rewrite Hf. done. }
  apply Hlast. intros Hnil%(f_equal length). rewrite length_take, length_drop in Hnil.
  unfold Address in *. cbn in Hnil. case_bool_decide; lia.
Qed.

Lemma MakeMessage_Ok id_index destination_type s :
  can_make id_index destination_type s →
  ∃ closests dest s', MakeMessage id_index destination_type s =
    (Ok (respondents destination_type, closests, dest), s').
Proof.
  intros (Hi & Hl & Hg). unfold MakeMessage. erewrite prog_bind_Ok by done. cbn beta zeta.
  rewrite (proj2 (Z.leb_le 0 id_index)) by lia.
  erewrite (prog_bind_Ok (mret id_index)) by done. cbn beta.
  rewrite (proj2 (Z.leb_le 0 id_index)) by lia. rewrite to_uint32_small by lia.
  rewrite (proj2 (Z.leb_gt _ id_index)) by lia. cbn [andb]. destruct destination_type.
  - destruct (lookup_lt_is_Some_2 (all_keys_ (commands s)) (Z.to_nat id_index)) as [key Hkey]; [lia|].
    unfold at_index. rewrite Hkey. by do 3 eexists.
  - erewrite prog_bind_Ok by done. cbn beta. erewrite prog_bind_Ok by done. cbn beta.
    match goal with |- context [CalculateClosests ?t _ ≫= _] => set (target := t) end.
    match goal with |- ∃ _ _ _, _ ?s1 = _ =>
      destruct (CalculateClosests_Ok target 4 s1) as (r & s2 & E); [lia|by apply Hg|] end.
    erewrite prog_bind_Ok by (erewrite prog_bind_Ok by exact E; done).
    by do 3 eexists.
Qed.

(** ** The loop *)
Section completes.
Context `{IL : !IdentityLaws} `{TL : !ToolLaws}.

(** The answers to a batch of which [k] messages have been sent and [left] are to
    be sent, the first of them as message [n] of the session: some after each
    message, the others while the sender waits; [total] in all. *)
Inductive good_batch : nat → nat → nat → list (nat * Address) → Z → Prop :=
  | good_wait k n seen seen' :
      good_answers k seen (arrivals_waiting n) seen' →
      good_batch k 0 n seen (Z.of_nat (length (arrivals_waiting n)))
  | good_send k left n seen seen' total :
      good_answers (S k) seen (arrivals_after n) seen' →
      good_batch (S k) left (S n) seen' total →
      good_batch k (S left) n seen (Z.of_nat (length (arrivals_after n)) + total).

Lemma good_batch_total k left n seen total : good_batch k left n seen total → (0 ≤ total)%Z.
Proof. induction 1; lia. Qed.

(** The batch when all is sent: what is still to come is what the wait is for. *)
Definition all_sent (destination_type : DestinationType) (k : nat) (total : Z) (st : Shell * Batch) : Prop :=
  ∃ seen seen' j, (0 ≤ j)%Z ∧ counting (respondents destination_type) seen j st.2 ∧ k ≤ length (sent st.2) ∧
    good_answers k seen (arrivals_waiting (sends (world st.1))) seen' ∧
    total = (j + Z.of_nat (length (arrivals_waiting (sends (world st.1)))))%Z.

Lemma send_loop_good id_index destination_type messages_count data_to_send left :
  (Z.of_nat (length data_to_send) < 2 ^ 29)%Z → ∀ k seen total j message_id expect data st,
  (Z.of_nat (length data) < 2 ^ 29)%Z → can_make id_index destination_type st.1 →
  length (sent st.2) = k → counting (respondents destination_type) seen j st.2 → (0 ≤ j)%Z →
  good_batch k left (sends (world st.1)) seen total → (j + total < 2 ^ 32)%Z →
  ∃ st', send_loop left id_index destination_type messages_count message_id expect data data_to_send st =
    (Ok (Some (if decide (left = 0) then expect else respondents destination_type)), st') ∧
    all_sent destination_type (k + left) (j + total) st' ∧
    sends (world st'.1) = sends (world st.1) + left ∧
    default_response_timeout (world st'.1) = default_response_timeout (world st.1).
Proof.
  intros Hd0. induction left as [|left IH]; intros k seen total j message_id expect data [s b];
    cbn [fst snd]; intros Hd Hm Hk Hc Hj Hg Ht.
  { inversion Hg; subst. eexists. split; [done|]. split; [|split; [cbn; lia|done]].
    exists seen, seen', j. cbn [fst snd]. split_and!; [done|done|lia| |done]. by rewrite Nat.add_0_r. }
  inversion Hg as [|? ? ? ? seen1 total1 Hg1 Hg2]; subst. cbn [send_loop].
  pose proof (good_batch_total _ _ _ _ _ Hg2) as Ht1.
  destruct (MakeMessage_Ok id_index destination_type s Hm) as (closests & dest & s1 & E1).
  destruct (same_net_MakeMessage id_index destination_type s) as [Hs1 Ht1'].
  pose proof (stays_MakeMessage id_index destination_type s) as Hf1. rewrite E1 in Hs1, Ht1', Hf1.
  cbn [snd] in Hs1, Ht1', Hf1.
  erewrite prog_bind_Ok by (unfold on_shell; rewrite E1; done). cbn beta iota.
  assert ((respondents destination_type =? 0)%Z = false) as -> by (by destruct destination_type).
  destruct (SendAMessage_good messages_count (respondents destination_type) closests dest
    (numbered ">:< " " <:>" (to_uint32 (message_id + 1)) data) (length (sent b)) seen seen1 j (s1, b))
    as (st2 & E2 & Hc2 & Hl2 & Hs2 & Ht2); cbn [fst snd]; rewrite ?Hs1; [|done..|lia|].
  { pose proof (numbered_length ">:< " " <:>" (to_uint32 (message_id + 1)) data) as Hn.
    change (length (lit ">:< ")) with 4 in Hn. change (length (lit " <:>")) with 4 in Hn. lia. }
  cbn [fst snd] in Hc2, Hs2, Ht2. rewrite Hs1 in Hc2, Hs2.
  pose proof (stays_SendAMessage messages_count (respondents destination_type) closests dest
    (numbered ">:< " " <:>" (to_uint32 (message_id + 1)) data) (s1, b)) as Hf2.
  rewrite E2 in Hf2. erewrite prog_bind_Ok by exact E2. cbn beta.
  destruct (IH (S (length (sent b))) seen1 total1 (j + Z.of_nat (length (arrivals_after (sends (world s)))))%Z
    (to_uint32 (message_id + 1)) (respondents destination_type) data_to_send st2)
    as (st' & E' & Ha' & Hs' & Ht'); [done| |done|done|lia|by rewrite Hs2|lia|].
  { eapply can_make_frame; [exact Hf2|]. by eapply can_make_frame. }
  exists st'. rewrite E', (decide_False (P:=S left = 0)) by lia.
  split_and!; [by case_decide| |lia|congruence].
  rewrite Nat.add_succ_r, Z.add_assoc. done.
Qed.
End completes.

(** ** The command *)
Section command.
Context `{IL : !IdentityLaws} `{TL : !ToolLaws}.

(** Settings with which messages can be sent: the pause is defined, and the
    numbers fit their types. *)
Definition can_send (destination_type : DestinationType) (messages_count : Z) s : Prop :=
  let total := (messages_count * respondents destination_type)%Z in
  (0 < data_size_ (commands s) ≤ data_rate_ (commands s))%Z ∧ (data_size_ (commands s) < 2 ^ 29)%Z ∧
  (1 ≤ messages_count)%Z ∧ (total < 2 ^ 31)%Z ∧
  (0 ≤ default_response_timeout (world s) * total < 2 ^ 63)%Z.

(** The timeout while the messages are sent. *)
Definition long_timeout (destination_type : DestinationType) (messages_count : Z) s : Z :=
  let total := (messages_count * respondents destination_type)%Z in
  if (10 <? total)%Z then (default_response_timeout (world s) * total)%Z
  else default_response_timeout (world s).

Lemma CalculateTimeToSleep_Ok (c : Commands) :
  (0 < data_size_ c ≤ data_rate_ c)%Z → ∃ t, CalculateTimeToSleep c = Ok t.
Proof.
  intros Hs. unfold CalculateTimeToSleep, udiv. rewrite (proj2 (Z.eqb_neq (data_size_ c) 0)) by lia.
  assert (1 ≤ data_rate_ c / data_size_ c)%Z by (apply Z.div_le_lower_bound; lia).
  cbn [mbind outcome_bind]. rewrite (proj2 (Z.eqb_neq _ _)) by lia. by eexists.
Qed.

(** What comes before the loop. *)
Lemma SendMessages_starts id_index destination_type messages_count s :
  can_send destination_type messages_count s →
  ∃ data s1,
    SendMessages id_index destination_type false messages_count s =
    in_batch
      (ended ← run (send_loop (Z.to_nat messages_count) id_index destination_type messages_count 0 0 data data);
       match ended with
       | None => mret tt
       | Some expect => report_batch messages_count expect (default_response_timeout (world s))
       end) s1 ∧
    (Z.of_nat (length data) < 2 ^ 29)%Z ∧ frame s s1 ∧ sends (world s1) = sends (world s) ∧
    default_response_timeout (world s1) = long_timeout destination_type messages_count s.
Proof.
  intros (Hs & Hs1 & Hm & Ht & Hl). unfold SendMessages, long_timeout. cbn zeta in *.
  set (total := (messages_count * respondents destination_type)%Z) in *.
  destruct (RandomAlphaNumericString_length (data_size_ (commands s)) (draws (world s)))
    as (data & Hdata & Hlen); [lia|].
  exists data. erewrite wbind_Ok by done. cbn beta.
  erewrite wbind_Ok.
  2:{ apply run_Ok. erewrite prog_bind_Ok by done. unfold lift. by rewrite Hdata. }
  destruct (CalculateTimeToSleep_Ok (commands s) Hs) as [pause Hp].
  erewrite wbind_Ok by (apply run_lift_Ok; exact Hp). erewrite wbind_Ok by done.
  assert (- 2 ^ 31 ≤ total)%Z as Hneg by (unfold total; destruct destination_type; cbn; lia).
  erewrite wbind_Ok.
  2:{ apply run_lift_Ok. unfold int_result. by rewrite (proj2 (int_ok_spec total)) by lia. }
  cbn beta. rewrite (proj2 (Z.eqb_neq messages_count (-1))) by lia.
  destruct (10 <? total)%Z.
  - unfold int64_result. rewrite (proj2 (Z.leb_le _ _)), (proj2 (Z.ltb_lt _ _)) by lia.
    eexists. split; [by erewrite wbind_Ok by done|]. split_and!; [lia|by split|done|done].
  - eexists. split; [by erewrite wbind_Ok by done|]. split_and!; [lia|by split|done|done].
Qed.

(** C30: A command that sends messages returns: with settings for which the pause
    between messages is defined and a destination in range, [SendMessages] sends
    the number of messages it is asked for, and once every message has got its
    answers (before or while the sender waits) it returns, with the response
    timeout as it was; the answers may also be cut short by a spurious wake-up.
    This is for the commands that send data, not for those that ask for a routing
    table. *)
Theorem SendMessages_completes id_index destination_type messages_count s :
  can_make id_index destination_type s → can_send destination_type messages_count s →
  good_batch 0 (Z.to_nat messages_count) (sends (world s)) []
    (messages_count * respondents destination_type) →
  ∃ s', SendMessages id_index destination_type false messages_count s = (Ok (Some tt), s') ∧
    sends (world s') = sends (world s) + Z.to_nat messages_count ∧
    default_response_timeout (world s') = default_response_timeout (world s).
Proof.
  intros Hmake Hsend Hg. pose proof Hsend as (_ & _ & Hm & Ht & _). cbn zeta in Ht.
  destruct (SendMessages_starts id_index destination_type messages_count s Hsend)
    as (data & s1 & -> & Hd & Hf1 & Hs1 & _).
  set (total := (messages_count * respondents destination_type)%Z) in *.
  assert (0 ≤ total)%Z as Htot by (unfold total; destruct destination_type; cbn; lia).
  unfold in_batch.
  destruct (send_loop_good id_index destination_type messages_count data (Z.to_nat messages_count) Hd
    0 [] total 0 0 0 data (s1, Batch_new)) as (st2 & E2 & (seen & seen' & j & Hj & Hc & Hk & Hga & Hall) & Hs2 & _);
    [done|by eapply can_make_frame|done|apply counting_new|lia|cbn [fst]; by rewrite Hs1|lia|].
  cbn [fst] in Hs2. rewrite decide_False in E2 by lia.
  erewrite wbind_Ok by (apply run_Ok; exact E2). cbn beta iota. unfold report_batch.
  destruct (wait_for_operations_returns messages_count (respondents destination_type)
    (0 + Z.to_nat messages_count) seen seen' j st2)
    as (st3 & E3 & Hs3 & seen1 & j1 & Hj1 & Hc1); [done..| |].
  { unfold all_operations. fold total. rewrite to_uint32_small by lia. lia. }
  erewrite wbind_Ok by exact E3.
  unfold all_operations in Hj1. fold total in Hj1. rewrite to_uint32_small in Hj1 by lia.
  pose proof (counting_success _ _ _ _ Hc1 ltac:(lia)) as Hsucc.
  destruct st3 as [s3 b3]. cbn [fst snd] in *.
  unfold run, mbind at 1, prog_bind at 1, get. cbn [snd fst].
  assert (int_result (messages_count - successful_count b3) = Ok (messages_count - successful_count b3)%Z) as Hi.
  { unfold int_result. rewrite (proj2 (int_ok_spec _)); [done|].
    assert (messages_count ≤ total)%Z by (unfold total; destruct destination_type; cbn; lia). lia. }
  erewrite (prog_bind_Ok (lift _)) by (unfold lift; rewrite Hi; done).
  eexists. split; [done|]. split; [|done]. cbn. lia.
Qed.
End command.
End send_messages.
