(* ===== verification/CommandsEdge.v ===== *)
(** * The interactive test node: its peer, and its edge cases

    [Commands::GetPeer], and what the commands do with settings and answers
    their author did not mean. *)

From Stdlib Require Import Ascii.
From stdpp Require Import strings.
From S2P Require Import Prelude CppStd CppString Identity Types ToolEnv SharedResponse Commands.
From S2P Require Import CommandsFacts Answers SendMessagesProps.

Section edge.
Context `{AT : AddressText} `{CO : !CryptoOps} `{EO : !EndpointOps} `{KO : !KeyOps}.
Context `{GO : !GenericNodeOps} `{TO : !ToolOps} `{FO : !FileOps} `{AO : !ArrivalOps}.
Implicit Types (s : Shell).

(** ** The bootstrap peer *)
Section peer.
Context `{EL : !EndpointLaws} `{FL : !FileLaws}.

Definition peer_text (address port : std_string) : std_string := address ++ ":"%char :: port.

Lemma rfind_peer_text address port :
  ":"%char ∉ port → rfind ":"%char (peer_text address port) = Some (length address).
Proof. intros Hp. unfold peer_text. by apply rfind_app. Qed.

Lemma substr_port address port :
  substr (length address + 1) None (peer_text address port) = Ok port.
Proof.
  unfold substr, peer_text. rewrite length_app. cbn [length].
  rewrite (proj2 (Nat.ltb_ge _ _)) by lia. f_equal.
  rewrite drop_app_ge by lia. by replace (length address + 1 - length address) with 1 by lia.
Qed.

Lemma substr_address address port :
  substr 0 (Some (length address)) (peer_text address port) = Ok address.
Proof. apply (substr_app [] address (":"%char :: port)). Qed.

(** The peer as [GetPeer] sets it, and the contacts it writes. *)
Lemma GetPeer_parsed address port ip p s :
  ":"%char ∉ port → atoi port = Ok p → address_from_string address = Ok ip →
  ∃ s1, try_catch (parse_peer (peer_text address port))
      (print [Txt "Could not parse IPv4 peer endpoint from "; Str (peer_text address port)]) s = (Ok tt, s1) ∧
    bootstrap_peer_ep_ (commands s1) = ep_make ip (to_uint16 p) ∧
    demo_node_ (commands s1) = demo_node_ (commands s) ∧ files (world s1) = files (world s).
Proof.
  intros Hc Hp Ha. unfold try_catch, parse_peer. rewrite (rfind_peer_text address port Hc).
  cbn [npos_add].
  erewrite (prog_bind_Ok (lift _)) by (unfold lift; rewrite substr_port; done).
  erewrite (prog_bind_Ok (lift _)) by (unfold lift; rewrite Hp; done).
  erewrite prog_bind_Ok by done.
  erewrite (prog_bind_Ok (lift _)) by (unfold lift; rewrite substr_address; done).
  erewrite (prog_bind_Ok (lift _)) by (unfold lift; rewrite Ha; done).
  erewrite prog_bind_Ok by done. erewrite prog_bind_Ok by done.
  eexists. split; [done|]. split_and!; [|done|done]. cbn. f_equal.
  apply ep_port_make. unfold to_uint16. apply Z.mod_pos_bound. lia.
Qed.

(** Setting the bootstrap peer: for a text made of an address asio can read,
    a colon and a number, the peer's endpoint is that address with the number as
    port (kept to 16 bits), and when the file can be removed and written, reading
    it gives the node's own endpoint and then the peer's. *)
Theorem GetPeer_sets_peer address port ip p s :
  ":"%char ∉ port → atoi port = Ok p → address_from_string address = Ok ip →
  (∀ f, ∃ b f', fs_remove OverrideBootstrapFilePath f = (Ok b, f')) →
  (∀ contacts f, ∃ f', WriteBootstrapContacts contacts OverrideBootstrapFilePath f = (Ok tt, f')) →
  ∃ s', GetPeer (peer_text address port) s = (Ok tt, s') ∧
    bootstrap_peer_ep_ (commands s') = ep_make ip (to_uint16 p) ∧
    ReadBootstrapContacts OverrideBootstrapFilePath (files (world s')) =
      Ok [node_endpoint (demo_node_ (commands s)); ep_make ip (to_uint16 p)].
Proof.
  intros Hc Hp Ha Hrm Hwr. unfold GetPeer.
  destruct (GetPeer_parsed address port ip p s Hc Hp Ha) as (s1 & E1 & Hep & Hn & Hf).
  erewrite prog_bind_Ok by exact E1. destruct (Hrm (files (world s1))) as (b & f1 & E2).
  erewrite prog_bind_Ok by (unfold on_files; rewrite E2; done).
  erewrite prog_bind_Ok by done.
  set (contacts := [node_endpoint _; _]). destruct (Hwr contacts f1) as [f2 E3].
  unfold try_catch, on_files. cbn [files world on_world set_files].
  rewrite E3. eexists. split; [done|]. split; [done|]. cbn.
  rewrite (ReadBootstrapContacts_written _ _ _ _ E3). unfold contacts. cbn. by rewrite Hn, Hep.
Qed.
End peer.

(** A peer whose address cannot be read has already replaced the port. *)
Theorem GetPeer_bad_address_sets_port address port p e s :
  ":"%char ∉ port → atoi port = Ok p → address_from_string address = Throw e →
  ∃ s1, parse_peer (peer_text address port) s = (Throw e, s1) ∧
    bootstrap_peer_ep_ (commands s1) =
      ep_make (ep_address (bootstrap_peer_ep_ (commands s))) (to_uint16 p).
Proof.
  intros Hc Hp Ha. unfold parse_peer. rewrite (rfind_peer_text address port Hc). cbn [npos_add].
  erewrite (prog_bind_Ok (lift _)) by (unfold lift; rewrite substr_port; done).
  erewrite (prog_bind_Ok (lift _)) by (unfold lift; rewrite Hp; done).
  erewrite prog_bind_Ok by done.
  erewrite (prog_bind_Ok (lift _)) by (unfold lift; rewrite substr_address; done).
  unfold mbind at 1, prog_bind at 1, lift. rewrite Ha. by eexists.
Qed.

(** ** Settings *)

(** With a data size above the data rate nothing can be sent. *)
Theorem send_undefined_above_rate id_index destination_type messages_count s :
  (0 ≤ data_rate_ (commands s) < data_size_ (commands s))%Z →
  (SendMessages id_index destination_type true messages_count s).1 = Undefined.
Proof.
  intros Hs. unfold SendMessages. erewrite wbind_Ok by done. cbn beta. erewrite wbind_Ok by done. cbn beta.
  unfold mbind at 1, waiting_bind at 1, run, lift. cbn beta. unfold CalculateTimeToSleep, udiv.
  rewrite (proj2 (Z.eqb_neq (data_size_ (commands s)) 0)) by lia. cbn [mbind outcome_bind].
  by rewrite Z.div_small by lia.
Qed.

(** A destination index outside the pool: the command returns without restoring
    the timeout it has enlarged. *)
Theorem bad_index_keeps_long_timeout `{TL : !ToolLaws} id_index destination_type messages_count s :
  can_send destination_type messages_count s →
  (Z.of_nat (length (all_keys_ (commands s))) ≤ id_index < 2 ^ 31)%Z →
  ∃ s', SendMessages id_index destination_type false messages_count s = (Ok (Some tt), s') ∧
    sends (world s') = sends (world s) ∧
    default_response_timeout (world s') = long_timeout destination_type messages_count s.
Proof.
  intros Hsend Hi. pose proof Hsend as (_ & _ & Hm & _).
  destruct (SendMessages_starts id_index destination_type messages_count s Hsend)
    as (data & s1 & -> & _ & Hf1 & Hs1 & Ht1).
  unfold in_batch. destruct (Z.to_nat messages_count) as [|n] eqn:En; [lia|]. cbn [send_loop].
  destruct Hf1 as [Hk _ _ _ _ _ _ _].
  assert (∃ s2, MakeMessage id_index destination_type s1 = (Ok (0%Z, [], Identity_default), s2) ∧
    sends (world s2) = sends (world s1) ∧
    default_response_timeout (world s2) = default_response_timeout (world s1)) as (s2 & E2 & Hs2 & Ht2).
  { unfold MakeMessage. erewrite prog_bind_Ok by done. cbn beta zeta.
    rewrite (proj2 (Z.leb_le 0 id_index)) by lia. erewrite (prog_bind_Ok (mret id_index)) by done. cbn beta.
    rewrite (proj2 (Z.leb_le 0 id_index)), to_uint32_small, (proj2 (Z.leb_le _ id_index)) by (rewrite ?Hk; lia).
    by eexists. }
  erewrite wbind_Ok.
  2:{ apply run_Ok. erewrite prog_bind_Ok by (unfold on_shell; rewrite E2; done). done. }
  eexists. split; [done|]. split; congruence.
Qed.

(** The index given to [sendgroup] makes no difference. *)
Theorem sendgroup_ignores_index i j s :
  can_make i kGroup s → can_make j kGroup s → MakeMessage i kGroup s = MakeMessage j kGroup s.
Proof.
  intros (Hi & Hil & _) (Hj & Hjl & _). unfold MakeMessage.
  erewrite !(prog_bind_Ok get) by done. cbn beta zeta.
  rewrite (proj2 (Z.leb_le 0 i)), (proj2 (Z.leb_le 0 j)) by lia.
  erewrite (prog_bind_Ok (mret i)), (prog_bind_Ok (mret j)) by done. cbn beta.
  rewrite (proj2 (Z.leb_le 0 i)), (proj2 (Z.leb_le 0 j)), !to_uint32_small by lia.
  by rewrite (proj2 (Z.leb_gt _ i)), (proj2 (Z.leb_gt _ j)) by lia.
Qed.

(** A pool of one key has no vault to pick at random. *)
Theorem random_destination_of_one_key key destination_type id_index s :
  all_keys_ (commands s) = [key] → (id_index < 0)%Z →
  (MakeMessage id_index destination_type s).1 = Undefined.
Proof.
  intros Hk Hi. unfold MakeMessage. erewrite prog_bind_Ok by done. cbn beta zeta. rewrite Hk.
  by rewrite (proj2 (Z.leb_gt 0 id_index)) by lia.
Qed.

(** ** The help and the commands *)

(** What is advertised and not recognised, and the other way round. *)
Theorem usage_and_commands :
  filter (λ name, command_of (lit name) = None) usage.*1 = ["attype"%string] ∧
  filter (λ name, name ∉ usage.*1) command_names.*1 = ["nattype"%string].
Proof. split; vm_compute; reflexivity. Qed.

(** ** Joining *)

(** A status that comes after [Join] gave up waiting notifies a condition
    variable that no longer exists. *)
Theorem late_status_undefined s :
  (0 ≤ node_expected (demo_node_ (commands s)) < 2 ^ 31)%Z →
  node_joined (demo_node_ (commands s)) = false →
  (network_status false (node_expected (demo_node_ (commands s))) s).1 = Undefined.
Proof.
  intros He Hj. unfold network_status. erewrite prog_bind_Ok by done. cbn beta zeta.
  rewrite (proj2 (Z.ltb_ge _ _)) by (unfold kSuccess; lia).
  by rewrite to_int_small, Z.eqb_refl, Hj by lia.
Qed.
End edge.
