(* ===== verification/CreateBootstrap.v ===== *)
(** * The bootstrap file tool

    [tools/create_bootstrap.cc]: a menu that edits a list of endpoints and
    reads and writes it, on the lines typed.  Of what is printed, the prompts,
    the rules, the complaints about lines that do not parse and the texts of
    exceptions are left out, and so is turning the echo of the terminal on and
    off. *)

From Stdlib Require Import Ascii.
From stdpp Require Import strings.
From S2P Require Import Prelude CppStd CppString Identity Types ToolEnv CommandsFacts.

Section create_bootstrap.
Context `{IO : IdentityOps} `{EO : EndpointOps} `{TO : !ToolOps} `{FO : !FileOps}.

(** [bootstrap_contacts], the lines still to be read, the files, and what was
    printed. *)
Record Tool := mkTool {
  bootstrap_contacts : list Endpoint;
  input : list std_string;
  tool_files : Files;
  tool_cout : list line
}.
Implicit Types (t : Tool).

Definition set_contacts l t : Tool := mkTool l (input t) (tool_files t) (tool_cout t).
Definition set_input l t : Tool := mkTool (bootstrap_contacts t) l (tool_files t) (tool_cout t).
Definition set_tool_files f t : Tool := mkTool (bootstrap_contacts t) (input t) f (tool_cout t).
Definition show (ls : list line) : prog Tool unit :=
  modify (λ t, mkTool (bootstrap_contacts t) (input t) (tool_files t) (tool_cout t ++ ls)).

(** ** Reading *)

(** The loop of [Get]: [command] is the value of the variable read into, [None]
    while it has none.  Gives the value returned and the lines left. *)
Fixpoint get_loop {T} (extract : std_string → T + option T) (command : option T)
    (lines : list std_string) : outcome T * list std_string :=
  match lines with
  | [] => (match command with Some v => Ok v | None => Undefined end, [])
  | l :: lines =>
      match extract l with
      | inl v => (Ok v, lines)
      | inr stored => get_loop extract (match stored with Some _ => stored | None => command end) lines
      end
  end.

Definition Get {T} (extract : std_string → T + option T) (initial : option T) (display_message : string) :
    prog Tool T := λ t,
  let '(_, t) := show [[Txt display_message]] t in
  let '(r, lines) := get_loop extract initial (input t) in
  (r, set_input lines t).

(** A string is empty before it is read into, a number has no value. *)
Definition Get_string : string → prog Tool std_string := Get extract_word (Some []).
Definition Get_int : string → prog Tool Z := Get extract_int None.
Definition Get_uint16 : string → prog Tool Z := Get extract_uint16 None.

(** ** The commands *)
Definition AddEndPoint : prog Tool unit :=
  ip_address ← Get_string "please enter IP addess";
  port ← Get_uint16 "please enter port";
  address ← lift (λ _, address_from_string ip_address);
  modify (λ t, set_contacts (bootstrap_contacts t ++ [ep_make address port]) t).

Definition list_line (count : nat) (e : Endpoint) : line :=
  [Txt " ID: "; Num (Z.of_nat count); Txt " IP Address : "; Ep e; Txt " Port : "; Num (ep_port e)].

Definition ListEndPoints : prog Tool unit :=
  t ← get;
  show (imap (λ i e, list_line (S i) e) (bootstrap_contacts t)).

Definition DeleteEndPoint : prog Tool unit :=
  ListEndPoints;;
  n ← Get_int "please enter ID to remove";
  let id := to_size_t n in
  t ← get;
  if (id <? Z.of_nat (length (bootstrap_contacts t)))%Z then
    modify (set_contacts (erase_at (Z.to_nat id) (bootstrap_contacts t)))
  else mret tt.

Definition ReadFile : prog Tool unit :=
  filename ← Get_string "please enter filename to load";
  t ← get;
  match ReadBootstrapContacts filename (tool_files t) with
  | Throw _ => show [[Txt "Could not read bootstrap file. Error : "]]
  | r => contacts ← lift (λ _, r); modify (set_contacts contacts)
  end.

Definition WriteFile : prog Tool unit :=
  filename ← Get_string "please enter filename to write";
  t ← get;
  let '(r, f) := WriteBootstrapContacts (bootstrap_contacts t) filename (tool_files t) in
  modify (set_tool_files f);;
  match r with
  | Throw _ => show [[Txt "Could not write bootstrap file. Error : "]]
  | r => lift (λ _, r)
  end.

Definition Help : prog Tool unit :=
  show [[Txt "maidsafe bootstrap create tool"]; [Txt "1:  add_endpoint  Add an endpoint"];
        [Txt "2:  list endpoints  list endpoints"]; [Txt "3:  del_endpoint  remove an endpoint"];
        [Txt "4:  write_file  write to a file"]; [Txt "5:  read_file  read from  a file"];
        [Txt "0:  exit the system;"]].

(** Gives whether the program goes on; 0 calls [exit]. *)
Definition Process (command : Z) : prog Tool bool :=
  match command with
  | 0%Z => mret false
  | 1%Z => AddEndPoint;; mret true
  | 2%Z => ListEndPoints;; mret true
  | 3%Z => DeleteEndPoint;; mret true
  | 4%Z => WriteFile;; mret true
  | 5%Z => ReadFile;; mret true
  | _ => show [[Txt "unknown option "]];; Help;; mret true
  end.

(** The endless loop of [main], with fuel; [None]: it would go on. *)
Fixpoint main_loop (fuel : nat) : waiting Tool unit :=
  match fuel with
  | 0 => never_returns
  | S fuel =>
      goes_on ← run (Help;; command ← Get_int ""; Process command);
      if goes_on : bool then main_loop fuel else mret tt
  end.

(** ** The input *)

Lemma get_loop_lines {T} (extract : std_string → T + option T) command lines r rest :
  get_loop extract command lines = (r, rest) → rest `suffix_of` lines ∧
  (command = None → r ≠ Undefined → length rest < length lines).
Proof.
  revert command. induction lines as [|l lines IH]; intros command; cbn [get_loop].
  - intros [= <- <-]. split; [done|]. by intros ->.
  - destruct (extract l) as [v|stored].
    + intros [= <- <-]. split; [by apply suffix_cons_r|]. cbn. lia.
    + intros Hr. destruct (IH _ Hr) as [Hs Hl]. split; [by apply suffix_cons_r|].
      intros _ _. apply suffix_length in Hs. cbn. lia.
Qed.

(** Code reads lines from the front of the input. *)
Definition reads t t' : Prop := input t' `suffix_of` input t.
#[local] Instance reads_preorder : PreOrder reads.
Proof. unfold reads. split; [by intros t|]. intros t1 t2 t3 H12 H23. by etrans. Qed.

Lemma reads_Get {T} (extract : std_string → T + option T) initial message :
  stays reads (Get extract initial message).
Proof.
  intros t. unfold Get, reads. cbn. destruct (get_loop _ _ _) as [r lines] eqn:E. cbn.
  by destruct (get_loop_lines _ _ _ _ _ E).
Qed.
Lemma reads_show ls : stays reads (show ls).
Proof. apply stays_modify. unfold reads. done. Qed.
Lemma reads_set_contacts f : stays reads (modify (λ t, set_contacts (f t) t)).
Proof. apply stays_modify. unfold reads. done. Qed.
Lemma reads_set_files f : stays reads (modify (set_tool_files f)).
Proof. apply stays_modify. unfold reads. done. Qed.
#[local] Hint Resolve reads_Get reads_show reads_set_contacts reads_set_files : routing.

Lemma reads_Process command : stays reads (Process command).
Proof.
  assert (∀ contacts, stays reads (modify (set_contacts contacts))) as Hc.
  { intros contacts. apply (reads_set_contacts (λ _, contacts)). }
  unfold Process, AddEndPoint, ListEndPoints, DeleteEndPoint, WriteFile, ReadFile, ListEndPoints, Help,
    Get_string, Get_int, Get_uint16.
  stays_split; stays_auto.
Qed.

(** An iteration of the loop that goes on has read a line. *)
Lemma iteration_reads t goes_on t' :
  (Help;; command ← Get_int ""; Process command) t = (Ok goes_on, t') → length (input t') < length (input t).
Proof.
  unfold Help. erewrite prog_bind_Ok by done. unfold mbind, prog_bind.
  set (t0 := mkTool _ _ _ _). destruct (Get_int "" t0) as [[command|e| |] t1] eqn:E; [|done..].
  intros HP. pose proof (reads_Process command t1) as Hr. rewrite HP in Hr. cbn in Hr.
  apply suffix_length in Hr. unfold Get_int, Get in E. cbn in E.
  destruct (get_loop extract_int None (input t)) as [r lines] eqn:El. injection E as -> <-.
  cbn in Hr. destruct (get_loop_lines _ _ _ _ _ El) as [_ Hl]. specialize (Hl eq_refl ltac:(done)). lia.
Qed.

(** The bootstrap file tool stops on every input: its endless loop has ended
    (by the exit command, an exception or undefined behaviour) before it has read
    more lines than there are. *)
Theorem main_stops t fuel : length (input t) < fuel → (main_loop fuel t).1 ≠ Ok None.
Proof.
  revert t. induction fuel as [|fuel IH]; intros t Hf; [lia|]. cbn [main_loop].
  set (iteration := (Help;; command ← Get_int ""; Process command)).
  unfold mbind at 1, waiting_bind, run. destruct (iteration t) as [[goes_on|e| |] t'] eqn:E; [|done..].
  apply iteration_reads in E. destruct goes_on; [|done]. apply IH. lia.
Qed.

(** ** Files *)

(** Writing the contacts to a file and reading them from it later gives them
    back, whatever the contacts are in between. *)
Theorem WriteFile_ReadFile `{FL : !FileLaws} t name l rest rest' others f' :
  extract_word l = inl name → input t = l :: rest →
  WriteBootstrapContacts (bootstrap_contacts t) name (tool_files t) = (Ok tt, f') →
  ∃ t1 t2, WriteFile t = (Ok tt, t1) ∧
    ReadFile (set_input (l :: rest') (set_contacts others t1)) = (Ok tt, t2) ∧
    bootstrap_contacts t2 = bootstrap_contacts t ∧ input t2 = rest'.
Proof.
  intros Hl Hi Hw.
  assert (∀ t0 rest0, input t0 = l :: rest0 → ∀ message,
    ∃ t0', Get_string message t0 = (Ok name, t0') ∧ input t0' = rest0 ∧ tool_files t0' = tool_files t0 ∧
      bootstrap_contacts t0' = bootstrap_contacts t0) as Hget.
  { intros t0 rest0 H0 message. unfold Get_string, Get. cbn. rewrite H0. cbn. rewrite Hl. by eexists. }
  destruct (Hget t rest Hi "please enter filename to write"%string) as (t0 & E0 & Hi0 & Hf0 & Hc0).
  eexists. unfold WriteFile. erewrite prog_bind_Ok by exact E0. erewrite prog_bind_Ok by done. cbn beta.
  rewrite Hc0, Hf0, Hw.
  set (t1 := set_tool_files f' t0).
  destruct (Hget (set_input (l :: rest') (set_contacts others t1)) rest' eq_refl
    "please enter filename to load"%string) as (t2 & E2 & Hi2 & Hf2 & Hc2).
  eexists. split; [done|]. unfold ReadFile. erewrite prog_bind_Ok by exact E2.
  erewrite prog_bind_Ok by done. cbn beta. rewrite Hf2. cbn [tool_files set_input set_contacts t1 set_tool_files].
  rewrite (ReadBootstrapContacts_written _ _ _ _ Hw). split; [done|]. done.
Qed.

(** At the end of the input a number that was never read is used: choosing from
    the menu, like deleting or giving a port, has no defined result. *)
Theorem menu_undefined_at_end fuel t :
  input t = [] → (main_loop (S fuel) t).1 = Undefined.
Proof. destruct t as [contacts lines f out]. cbn [input]. by intros ->. Qed.

(** ** Deleting *)

(** The list shows the first contact as 1, but the number typed is used as an
    index from 0: what goes is the contact shown with the next number. *)
Theorem DeleteEndPoint_erases_next t l n rest e :
  input t = l :: rest → extract_int l = inl (Z.of_nat n) → (Z.of_nat n < 2 ^ 31)%Z →
  bootstrap_contacts t !! n = Some e →
  ∃ t', DeleteEndPoint t = (Ok tt, t') ∧
    bootstrap_contacts t ≡ₚ e :: bootstrap_contacts t' ∧
    list_line (S n) e ∈ imap (λ i e, list_line (S i) e) (bootstrap_contacts t).
Proof.
  intros Hi Hn Hr He. unfold DeleteEndPoint, ListEndPoints. erewrite prog_bind_Ok by done.
  assert (∃ t1, Get_int "please enter ID to remove"
      (show (imap (λ i e, list_line (S i) e) (bootstrap_contacts t)) t).2 = (Ok (Z.of_nat n), t1) ∧
    bootstrap_contacts t1 = bootstrap_contacts t) as (t1 & E1 & Hc1).
  { unfold Get_int, Get. cbn. rewrite Hi. cbn. rewrite Hn. by eexists. }
  erewrite prog_bind_Ok by exact E1. erewrite prog_bind_Ok by done. cbn beta.
  apply lookup_lt_Some in He as Hlt.
  unfold to_size_t. rewrite Z.mod_small, Hc1, (proj2 (Z.ltb_lt _ _)), Nat2Z.id by lia.
  eexists. split; [done|]. cbn. split; [by apply erase_at_perm|].
  apply list_elem_of_lookup. exists n. by rewrite list_lookup_imap, He.
Qed.
End create_bootstrap.
