(* ===== verification/ToolsMain.v ===== *)
(** * The programs: [routing_node] and [key_helper]

    [tools/routing_node.cc] and [tools/key_helper.cc]: what they do with their
    options, up to the session of [Commands]. *)

From Stdlib Require Import Ascii.
From stdpp Require Import strings.
From S2P Require Import Prelude CppStd CppString Identity Types ToolEnv SharedResponse Commands.

(** ** Options

    [boost::program_options] as it is used: the options typed, and those that
    have a default value. *)
Inductive value :=
  | VNone
  | VBool (b : bool)
  | VInt (z : Z)
  | VString (s : std_string).

Record variable_value := mkVariable { value_of : value; defaulted : bool }.

Definition typed_options : Type := list (string * value).

(** [po::store]: what was typed goes before the defaults. *)
Definition variables_map (defaults typed : typed_options) (name : string) : option variable_value :=
  match assoc_find name typed with
  | Some v => Some (mkVariable v false)
  | None => (λ v, mkVariable v true) <$> assoc_find name defaults
  end.

Definition count (name : string) (vm : string → option variable_value) : bool :=
  match vm name with Some _ => true | None => false end.
Definition given (name : string) (vm : string → option variable_value) : bool :=
  match vm name with Some v => negb (defaulted v) | None => false end.

(** [as<T> ()], which throws for a value of another type; a number that does not
    fit is already refused when the options are parsed. *)
Definition as_int (v : option variable_value) : outcome Z :=
  match v with
  | Some (mkVariable (VInt z) _) => if int_ok z then Ok z else Throw invalid_argument
  | _ => Throw invalid_argument
  end.
Definition as_size (v : option variable_value) : outcome Z :=
  match v with
  | Some (mkVariable (VInt z) _) =>
      if (0 <=? z)%Z && (z <? 2 ^ 64)%Z then Ok z else Throw invalid_argument
  | _ => Throw invalid_argument
  end.
Definition as_bool (v : option variable_value) : outcome bool :=
  match v with Some (mkVariable (VBool b) _) => Ok b | _ => Throw invalid_argument end.
Definition as_string (v : option variable_value) : outcome std_string :=
  match v with Some (mkVariable (VString s) _) => Ok s | _ => Throw invalid_argument end.

Definition ConflictingOptions (vm : string → option variable_value) (opt1 opt2 : string) : outcome unit :=
  if count opt1 vm && given opt1 vm && count opt2 vm && given opt2 vm then Throw logic_error else Ok tt.

Definition OptionDependency (vm : string → option variable_value) (for_what required : string) : outcome unit :=
  if count for_what vm && given for_what vm then
    if negb (count required vm) || negb (given required vm) then Throw logic_error else Ok tt
  else Ok tt.

(** ** Key files: passport's [ReadKeyChainList] and [WriteKeyChainList], and
    [maidsafe::GetPathFromProgramOptions] *)
Class KeyFileOps `{KeyOps} `{FileOps} := {
  ReadKeyChainList : std_string → Files → outcome (list AnmaidToPmid);
  WriteKeyChainList : std_string → list AnmaidToPmid → Files → bool * Files;
  fs_remove_ec : std_string → Files → bool * Files;
  GetPathFromProgramOptions : std_string → Files → outcome std_string;
  temp_directory_path_ec : Files → std_string; (* empty when there is none *)
  path_append : std_string → std_string → std_string; (* [fs::path]'s operator / *)
  new_key : nat → outcome AnmaidToPmid (* [AnmaidToPmid ()], the [n]th made *)
}.

Class KeyFileLaws `{KeyFileOps} : Prop := {
  ReadKeyChainList_written : ∀ path keys f f',
    WriteKeyChainList path keys f = (true, f') → ReadKeyChainList path f' = Ok keys;
  fs_exists_written : ∀ path keys f f',
    WriteKeyChainList path keys f = (true, f') → fs_exists path f' = true
}.

Section programs.
Context `{AT : AddressText} `{CO : !CryptoOps} `{EO : !EndpointOps} `{KO : !KeyOps}.
Context `{GO : !GenericNodeOps} `{TO : !ToolOps} `{FO : !FileOps} `{AO : !ArrivalOps}.
Context `{KF : !KeyFileOps}.

(** ** [routing_node] *)
Definition node_defaults (f : Files) : typed_options :=
  [("client", VBool false); ("peer", VString []); ("identity_index", VInt (-1));
   ("pmids_path", VString (path_append (temp_directory_path_ec f) (lit "pmids_list.dat")))]%string.

(** What [main] hands to [Commands]. *)
Record Start := mkStart {
  start_node : GenericNode;
  start_keys : list AnmaidToPmid;
  start_index : Z;
  start_client : bool;
  start_peer : std_string
}.

(** The checks of [main]; [None]: it returns 0 after printing why. *)
Notation checks := (prog (list line)).
Definition tell (l : line) : checks unit := modify (λ out, out ++ [l]).
Definition stop (l : line) : checks (option Start) := tell l;; mret None.

(** The keys and the index into them. *)
Definition load_keys (vm : string → option variable_value) (f : Files) :
    checks (option (list AnmaidToPmid * Z)) :=
  identity_index ← lift (λ _, as_int (vm "identity_index"%string));
  path_text ← lift (λ _, as_string (vm "pmids_path"%string));
  pmids_path ← lift (λ _, GetPathFromProgramOptions path_text f);
  if fs_exists pmids_path f then
    match ReadKeyChainList pmids_path f with
    | Throw _ =>
        tell [Txt "Error: Failed to read key chain list at path : "; Str pmids_path];; mret None
    | r =>
        all_keys ← lift (λ _, r);
        let size := Z.of_nat (length all_keys) in
        if (size =? 0)%Z then tell [Txt "Error: loaded "; Num size; Txt " fobs."];; mret None
        else
          tell [Txt "Loaded "; Num size; Txt " fobs."];;
          if (size <=? to_uint32 identity_index)%Z || (identity_index <? 0)%Z then
            tell [Txt "ERROR : index exceeds fob pool -- pool has "; Num size;
                  Txt " fobs, while identity_index is "; Num identity_index];;
            mret None
          else
            key ← lift (λ _, at_index all_keys (Z.to_nat identity_index));
            tell [Txt "Using identity #"; Num identity_index; Txt " from keys file , value is : ";
                  Id (pmid_name key)];;
            mret (Some (all_keys, identity_index))
    end
  else tell [Txt "ERROR : pmid list file not found at : "; Str path_text];; mret None.

Definition check_start (vm : string → option variable_value) (f : Files) : checks (option Start) :=
  if count "help" vm || negb (count "start" vm) then stop [Txt "Options"]
  else
    loaded ← load_keys vm f;
    match loaded with
    | None => mret None
    | Some (all_keys, identity_index) =>
        lift (λ _, ConflictingOptions vm "client" "bootstrap");;
        lift (λ _, OptionDependency vm "start" "identity_index");;
        lift (λ _, OptionDependency vm "peer" "identity_index");;
        client_only_node ← lift (λ _, as_bool (vm "client"%string));
        let half := Z.of_nat (length all_keys / 2) in
        if client_only_node && (identity_index <? half)%Z then
          stop [Txt "ERROR : Incorrect identity_index used for a client, must between "; Num half;
                Txt " and "; Num (Z.of_nat (length all_keys) - 1)]
        else if negb client_only_node && (half <=? identity_index)%Z then
          stop [Txt "ERROR : Incorrect identity_index used for a vault, must between 0 and ";
                Num (to_size_t (half - 1))]
        else
          tell [Txt "Creating node..."];;
          local_key ← lift (λ _, at_index all_keys (Z.to_nat identity_index));
          let demo_node := if client_only_node : bool then node_of_maid local_key else node_of_pmid local_key in
          if count "bootstrap" vm && (2 <=? identity_index)%Z then
            stop [Txt "ERROR : trying to use non-bootstrap identity"]
          else
            (if count "bootstrap" vm then
               tell [Txt "------ Current BootStrap node endpoint info : "; Ep (node_endpoint demo_node);
                     Txt " ------ "]
             else mret tt);;
            peer ← lift (λ _, as_string (vm "peer"%string));
            mret (Some (mkStart demo_node all_keys identity_index client_only_node peer))
    end.

(** The session, from the world [main] leaves. *)
Definition run_session (fuel : nat) (lines : list std_string) (start : Start) (w : World) :
    outcome (option unit) * Shell :=
  (run (match start_peer start with [] => mret tt | peer => GetPeer peer end);;
   Run fuel lines;;
   run (print [Txt "Node stopped successfully."]))
    (mkShell (Commands_new (start_node start) (start_keys start) (start_index start)) w).

(** [main]: the exit code, when it returns; exceptions are caught. *)
Definition routing_node_main (fuel : nat) (typed : typed_options) (lines : list std_string) (w : World) :
    outcome (option Z) * World :=
  match check_start (variables_map (node_defaults (files w)) typed) (files w) [] with
  | (Ok None, out) => (Ok (Some 0%Z), add_lines out w)
  | (Ok (Some start), out) =>
      let '(r, s) := run_session fuel lines start (add_lines out w) in
      (match r with
       | Ok (Some _) => Ok (Some 0%Z)
       | Ok None => Ok None
       | Throw _ => Ok (Some (-1)%Z)
       | AssertFailed => AssertFailed
       | Undefined => Undefined
       end,
       add_lines (match r with Throw _ => [[Txt "Error: "]] | _ => [] end) (world s))
  | (Throw _, out) => (Ok (Some (-1)%Z), add_lines (out ++ [[Txt "Error: "]]) w)
  | (AssertFailed, out) => (AssertFailed, add_lines out w)
  | (Undefined, out) => (Undefined, add_lines out w)
  end.

(** ** [key_helper] *)
Definition helper_defaults (f : Files) : typed_options :=
  [("pmids_count", VInt 12);
   ("pmids_path", VString (path_append (temp_directory_path_ec f) (lit "pmids_list.dat")))]%string.

Definition PrintKeys (all_keys : list AnmaidToPmid) : list line :=
  imap (λ i k, [Num (Z.of_nat i); Txt " PMID "; Id (pmid_name k); Num (Z.of_nat i); Txt " MAID ";
                Id (maid_name k); Txt (if i <? 2 then " (bootstrap)" else "")]) all_keys.

(** Makes [n] more keys, the [i]th first; false when one could not be made. *)
Fixpoint create_keys (n i : nat) (all_keys : list AnmaidToPmid) : outcome (bool * list AnmaidToPmid) :=
  match n with
  | 0 => Ok (true, all_keys)
  | S n =>
      match new_key i with
      | Ok k => create_keys n (S i) (all_keys ++ [k])
      | Throw _ => Ok (false, all_keys)
      | AssertFailed => AssertFailed
      | Undefined => Undefined
      end
  end.
Definition CreateKeys (keys_count : nat) : outcome (bool * list AnmaidToPmid) := create_keys keys_count 0 [].

(** The state of [key_helper]: the files and what was printed. *)
Notation helper := (prog (Files * list line)).
Definition helper_tell (ls : list line) : helper unit := modify (λ '(f, out), (f, out ++ ls)).

(** The [create] and [load] branches: the keys. *)
Definition helper_create (keys_count : nat) (path : std_string) : helper (list AnmaidToPmid) :=
  made ← lift (λ _, CreateKeys keys_count);
  let '(ok, all_keys) := made in
  if ok : bool then
    helper_tell [[Txt "Created "; Num (Z.of_nat (length all_keys)); Txt " fobs."]];;
    st ← get;
    let '(written, f) := WriteKeyChainList path all_keys st.1 in
    modify (λ '(_, out), (f, out));;
    helper_tell [[Txt (if written : bool then "Wrote pmids to " else "Could not write pmids to "); Str path]];;
    mret all_keys
  else
    helper_tell [[Txt "Could not create pmids."]];;
    mret all_keys.

Definition helper_load (path : std_string) : helper (list AnmaidToPmid) :=
  st ← get;
  match ReadKeyChainList path st.1 with
  | Throw _ => helper_tell [[Txt "Could not load fobs from "; Str path]];; mret []
  | r =>
      all_keys ← lift (λ _, r);
      helper_tell [[Txt "Loaded "; Num (Z.of_nat (length all_keys)); Txt " pmids from "; Str path]];;
      mret all_keys
  end.

Definition helper_delete (path : std_string) : helper unit :=
  st ← get;
  let '(removed, f) := fs_remove_ec path st.1 in
  modify (λ '(_, out), (f, out));;
  helper_tell [[Txt (if removed : bool then "Deleted " else "Could not delete "); Str path]].

(** The [try] block of [main]. *)
Definition helper_commands (vm : string → option variable_value) : helper unit :=
  let do_create := count "create" vm in
  let do_load := count "load" vm in
  let do_delete := count "delete" vm in
  let do_print := count "print" vm in
  pmids_count ← lift (λ _, as_size (vm "pmids_count"%string));
  if count "help" vm || (negb do_create && negb do_load && negb do_delete && negb do_print) then
    helper_tell [[Txt "Commands are executed in this order: [c|l] p d"]]
  else
    path_text ← lift (λ _, as_string (vm "pmids_path"%string));
    pmids_path ← lift (λ st, GetPathFromProgramOptions path_text st.1);
    all_keys ← (if do_create then helper_create (Z.to_nat pmids_count) pmids_path
                else if do_load then helper_load pmids_path
                else mret []);
    (if do_print then helper_tell (PrintKeys all_keys) else mret tt);;
    (if do_delete then helper_delete pmids_path else mret tt).

(** [main]: the exit code. *)
Definition key_helper_main (typed : typed_options) : helper Z := λ '(f, out),
  match helper_commands (variables_map (helper_defaults f) typed)
          (f, out ++ [[Txt "MaidSafe Routing KeysHelper "]]) with
  | (Throw _, (f', out')) => (Ok (-2)%Z, (f', out' ++ [[Txt "Error: "]]))
  | (Ok _, st') => (Ok 0%Z, st')
  | (AssertFailed, st') => (AssertFailed, st')
  | (Undefined, st') => (Undefined, st')
  end.

(** ** What the checks of [routing_node] ensure *)
(** What a piece of code gives when it returns; the only exception it throws, and
    no other way to end. *)
Definition gives {A} (r : outcome A) (Q : A → Prop) (E : error → Prop) : Prop :=
  match r with
  | Ok a => Q a
  | Throw e => E e
  | AssertFailed | Undefined => False
  end.

Lemma gives_bind {S A B} (p : prog S A) (k : A → prog S B) s Q E :
  gives (p s).1 (λ a, gives (k a (p s).2).1 Q E) E → gives ((p ≫= k) s).1 Q E.
Proof. unfold mbind, prog_bind. by destruct (p s) as [[] s']. Qed.

Lemma as_int_gives v : gives (as_int v) (λ z, - 2 ^ 31 ≤ z < 2 ^ 31)%Z (.= invalid_argument).
Proof.
  unfold as_int. destruct v as [[[] ?]|]; try done. destruct (int_ok _) eqn:E; [|done].
  by apply int_ok_spec.
Qed.
Lemma as_bool_gives v : gives (as_bool v) (λ _, True) (.= invalid_argument).
Proof. unfold as_bool. by destruct v as [[[] ?]|]. Qed.
Lemma as_string_gives v : gives (as_string v) (λ _, True) (.= invalid_argument).
Proof. unfold as_string. by destruct v as [[[] ?]|]. Qed.

(** An index in the pool was typed: the default is below it. *)
Lemma index_given typed index f :
  as_int (variables_map (node_defaults f) typed "identity_index"%string) = Ok index → (0 ≤ index)%Z →
  given "identity_index" (variables_map (node_defaults f) typed) = true.
Proof.
  unfold given, variables_map. destruct (assoc_find _ typed) as [v|]; [done|].
  cbn. intros [= <-]. lia.
Qed.

Lemma OptionDependency_index typed for_what f :
  given "identity_index" (variables_map (node_defaults f) typed) = true →
  OptionDependency (variables_map (node_defaults f) typed) for_what "identity_index" = Ok tt.
Proof.
  intros Hg. unfold OptionDependency. rewrite Hg. destruct (_ && _); [|done].
  unfold given in Hg. unfold count. by destruct (variables_map _ _ _).
Qed.

Definition has_option (name : string) (typed : typed_options) : bool :=
  match assoc_find name typed with Some _ => true | None => false end.

Lemma count_typed name typed f :
  assoc_find name (node_defaults f) = None → count name (variables_map (node_defaults f) typed) = has_option name typed.
Proof. intros Hd. unfold count, has_option, variables_map. rewrite Hd. by destruct (assoc_find name typed). Qed.

Lemma ConflictingOptions_typed typed a b f :
  ConflictingOptions (variables_map (node_defaults f) typed) a b =
  if has_option a typed && has_option b typed then Throw logic_error else Ok tt.
Proof.
  unfold ConflictingOptions, has_option, count, given, variables_map.
  by destruct (assoc_find a typed), (assoc_find b typed), (assoc_find a (node_defaults f)),
    (assoc_find b (node_defaults f)).
Qed.

Lemma client_default typed b f :
  as_bool (variables_map (node_defaults f) typed "client"%string) = Ok b →
  has_option "client" typed = false → b = false.
Proof.
  unfold has_option, variables_map. destruct (assoc_find "client"%string typed); [done|]. by intros [= <-].
Qed.

Section checked.
Variable f : Files.
Hypothesis path_found : ∀ text, ∃ path, GetPathFromProgramOptions text f = Ok path.
Hypothesis keys_read : ∀ path, gives (ReadKeyChainList path f) (λ _, True) (λ _, True).

Lemma load_keys_gives vm out :
  gives (load_keys vm f out).1
    (λ loaded, match loaded with
               | Some (all_keys, index) =>
                   as_int (vm "identity_index"%string) = Ok index ∧
                   (0 ≤ index < Z.of_nat (length all_keys))%Z
               | None => True
               end)
    (.= invalid_argument).
Proof.
  unfold load_keys. apply gives_bind. cbn [lift fst snd].
  pose proof (as_int_gives (vm "identity_index"%string)) as Hi.
  destruct (as_int (vm "identity_index"%string)) as [i| | |]; cbn in Hi; try done.
  apply gives_bind. cbn [lift fst snd]. pose proof (as_string_gives (vm "pmids_path"%string)) as Hs.
  destruct (as_string (vm "pmids_path"%string)) as [text| | |]; cbn in Hs; try done.
  destruct (path_found text) as [path Hpath]. apply gives_bind. cbn [lift fst snd]. rewrite Hpath.
  cbn [gives]. destruct (fs_exists path f); [|done].
  pose proof (keys_read path) as Hk. destruct (ReadKeyChainList path f) as [keys| | |]; try done.
  apply gives_bind. cbn [lift fst snd gives].
  destruct (_ =? 0)%Z; [done|]. apply gives_bind. cbn [tell modify fst snd gives].
  destruct (_ || _) eqn:Hr; [done|].
  apply orb_false_iff in Hr as [Hr1%Z.leb_gt Hr2%Z.ltb_ge].
  unfold to_uint32 in Hr1. rewrite Z.mod_small in Hr1 by lia.
  apply gives_bind. cbn [lift fst snd]. unfold at_index.
  destruct (lookup_lt_is_Some_2 keys (Z.to_nat i)) as [key ->]; [lia|]. done.
Qed.

(** What a node that is started satisfies. *)
Definition start_ok (typed : typed_options) (start : Start) : Prop :=
  let half := Z.of_nat (length (start_keys start) / 2) in
  let index := start_index start in
  (0 ≤ index < Z.of_nat (length (start_keys start)))%Z ∧
  (if start_client start then (half ≤ index)%Z else (index < half)%Z) ∧
  (has_option "bootstrap" typed = true → (index < 2)%Z ∧ start_client start = false) ∧
  ∃ key, start_keys start !! Z.to_nat index = Some key ∧
    start_node start = if start_client start then node_of_maid key else node_of_pmid key.

Definition start_error (typed : typed_options) (e : error) : Prop :=
  match e with
  | logic_error => has_option "client" typed = true ∧ has_option "bootstrap" typed = true
  | _ => e = invalid_argument
  end.

(** A session of the test node is started only with checked options: the
    index names a key of the file, clients use the upper half of the keys and
    vaults the lower half, a bootstrap node is a vault and uses one of the first
    two keys, and the node is made from the key of the index.  The checks do
    nothing undefined, and the only exception of their own is the one for
    [client] together with [bootstrap]: the dependency of [start] on
    [identity_index] is never what stops them. *)
Theorem start_checked typed out :
  gives (check_start (variables_map (node_defaults f) typed) f out).1
    (λ start, match start with Some start => start_ok typed start | None => True end)
    (start_error typed).
Proof.
  unfold check_start. destruct (_ || _); [done|]. apply gives_bind.
  pose proof (load_keys_gives (variables_map (node_defaults f) typed) out) as Hl.
  destruct (load_keys _ f out) as [[[[all_keys index]|]|e| |] out1]; cbn [fst snd gives] in *;
    [|done|by subst e|done|done].
  destruct Hl as [Hi Hr]. pose proof (index_given typed index f Hi ltac:(lia)) as Hg.
  apply gives_bind. cbn [lift fst snd]. rewrite ConflictingOptions_typed.
  destruct (has_option "client" typed && has_option "bootstrap" typed) eqn:Hconf.
  { by apply andb_true_iff in Hconf. }
  cbn [gives]. apply gives_bind. cbn [lift fst snd]. rewrite OptionDependency_index by done. cbn [gives].
  apply gives_bind. cbn [lift fst snd]. rewrite OptionDependency_index by done. cbn [gives].
  apply gives_bind. cbn [lift fst snd].
  pose proof (as_bool_gives (variables_map (node_defaults f) typed "client"%string)) as Hb.
  destruct (as_bool _) as [client_only|e| |] eqn:Hclient; cbn [gives] in *; [|by subst e|done|done].
  set (half := Z.of_nat (length all_keys / 2)).
  destruct (client_only && (index <? half)%Z) eqn:H1; [done|].
  destruct (negb client_only && (half <=? index)%Z) eqn:H2; [done|].
  apply gives_bind. cbn [tell modify fst snd gives]. apply gives_bind. cbn [lift fst snd]. unfold at_index.
  destruct (lookup_lt_is_Some_2 all_keys (Z.to_nat index)) as [key Hkey]; [lia|]. rewrite Hkey. cbn [gives].
  rewrite count_typed by done. destruct (has_option "bootstrap" typed && (2 <=? index)%Z) eqn:H3; [done|].
  apply gives_bind.
  assert (∀ (b : bool) l out2, ∃ out3, (if b then tell l else mret tt) out2 = (Ok tt, out3)) as Htell.
  { intros [] l out2; by eexists. }
  match goal with |- context [(if ?b then tell ?l else _) ?o] => destruct (Htell b l o) as [out3 ->] end.
  cbn [fst snd gives]. apply gives_bind. cbn [lift fst snd].
  pose proof (as_string_gives (variables_map (node_defaults f) typed "peer"%string)) as Hs.
  destruct (as_string _) as [peer|e| |]; cbn [gives] in *; [|by subst e|done|done].
  split; [done|]. cbn [start_keys start_index start_client]. split; [|split].
  - destruct client_only; cbn in H1, H2; [by apply Z.ltb_ge in H1|by apply Z.leb_gt in H2].
  - intros Hboot. rewrite Hboot in H3, Hconf. rewrite andb_true_r in Hconf.
    split; [by apply Z.leb_gt in H3|by eapply client_default].
  - exists key. done.
Qed.
End checked.

(** ** The keys of [key_helper] *)
Definition temp_pmids_path (f : Files) : std_string :=
  path_append (temp_directory_path_ec f) (lit "pmids_list.dat").

Lemma create_keys_length n i acc keys :
  create_keys n i acc = Ok (true, keys) → length keys = n + length acc.
Proof.
  revert i acc. induction n as [|n IH]; intros i acc; cbn [create_keys]; [by intros [= <-]|].
  destruct (new_key i); try done. intros ->%IH. rewrite length_app. cbn. lia.
Qed.

Lemma helper_create_keys n keys path f f' out :
  (0 ≤ n < 2 ^ 31)%Z → CreateKeys (Z.to_nat n) = Ok (true, keys) →
  GetPathFromProgramOptions (temp_pmids_path f) f = Ok path →
  WriteKeyChainList path keys f = (true, f') →
  ∃ out1, helper_commands
    (variables_map (helper_defaults f) [("create", VNone); ("pmids_count", VInt n)]%string) (f, out) =
    (Ok tt, (f', out1)).
Proof.
  intros Hn Hc Hp Hw. unfold helper_commands. set (vm := variables_map _ _).
  change (count "create" vm) with true. change (count "load" vm) with false.
  change (count "delete" vm) with false. change (count "print" vm) with false.
  change (count "help" vm) with false. change (vm "pmids_count"%string) with (Some (mkVariable (VInt n) false)).
  change (vm "pmids_path"%string) with (Some (mkVariable (VString (temp_pmids_path f)) true)).
  unfold as_size. rewrite (proj2 (Z.leb_le 0 n)), (proj2 (Z.ltb_lt n (2 ^ 64))) by lia. cbn [andb negb orb].
  erewrite (prog_bind_Ok (lift _)) by done. cbn beta iota.
  erewrite (prog_bind_Ok (lift _)) by done. cbn beta.
  erewrite (prog_bind_Ok (lift _)) by (unfold lift; cbn [fst]; rewrite Hp; done). cbn beta.
  assert (∃ out1, helper_create (Z.to_nat n) path (f, out) = (Ok keys, (f', out1))) as [out1 E].
  { unfold helper_create. erewrite (prog_bind_Ok (lift _)) by (unfold lift; rewrite Hc; done).
    cbn beta iota zeta. erewrite prog_bind_Ok by done. erewrite prog_bind_Ok by done. cbn [fst]. rewrite Hw.
    by eexists. }
  erewrite prog_bind_Ok by exact E. by eexists.
Qed.

(** The keys that [key_helper] creates are those [routing_node] finds: when
    [--create] could make the number of keys asked for and write them, the program
    returns 0, and [routing_node] started with an index below that number and the
    same path loads exactly these keys and that index. *)
Theorem created_keys_are_loaded `{KL : !KeyFileLaws} n keys path typed index f f' out :
  (0 ≤ n < 2 ^ 31)%Z → CreateKeys (Z.to_nat n) = Ok (true, keys) →
  GetPathFromProgramOptions (temp_pmids_path f) f = Ok path →
  GetPathFromProgramOptions (temp_pmids_path f') f' = Ok path →
  WriteKeyChainList path keys f = (true, f') →
  assoc_find "identity_index"%string typed = Some (VInt index) →
  assoc_find "pmids_path"%string typed = None → (0 ≤ index < n)%Z →
  ∃ out1 out2,
    key_helper_main [("create", VNone); ("pmids_count", VInt n)]%string (f, out) = (Ok 0%Z, (f', out1)) ∧
    load_keys (variables_map (node_defaults f') typed) f' out = (Ok (Some (keys, index)), out2) ∧
    length keys = Z.to_nat n.
Proof.
  intros Hn Hc Hp Hp' Hw Hi Ht Hr. pose proof (create_keys_length _ _ _ _ Hc) as Hlen. cbn in Hlen.
  destruct (helper_create_keys n keys path f f'
    (out ++ [[Txt "MaidSafe Routing KeysHelper "]]) Hn Hc Hp Hw) as [out1 E1].
  assert (∃ out2, load_keys (variables_map (node_defaults f') typed) f' out = (Ok (Some (keys, index)), out2))
    as [out2 E2].
  { unfold load_keys. erewrite (prog_bind_Ok (lift _)).
    2:{ unfold lift, variables_map, as_int. rewrite Hi. by rewrite (proj2 (int_ok_spec _)) by lia. }
    erewrite (prog_bind_Ok (lift _)) by (unfold lift, variables_map; rewrite Ht; done).
    erewrite (prog_bind_Ok (lift _)) by (unfold lift; cbn [as_string]; unfold temp_pmids_path in Hp'; rewrite Hp'; done).
    rewrite (fs_exists_written _ _ _ _ Hw), (ReadKeyChainList_written _ _ _ _ Hw).
    erewrite (prog_bind_Ok (lift _)) by done. cbn beta zeta.
    rewrite (proj2 (Z.eqb_neq _ _)) by lia. erewrite prog_bind_Ok by done.
    unfold to_uint32. rewrite Z.mod_small by lia.
    rewrite (proj2 (Z.leb_gt _ index)), (proj2 (Z.ltb_ge _ _)) by lia. cbn [orb]. unfold at_index.
    destruct (lookup_lt_is_Some_2 keys (Z.to_nat index)) as [key ->]; [lia|]. by eexists. }
  exists out1, out2. unfold key_helper_main. rewrite E1. split_and!; [done|done|lia].
Qed.
End programs.
