(* ===== verification/ToolConcrete.v ===== *)
(** * A concrete environment for the command line tools

    Instances of the parameters of [ToolEnv] that satisfy their laws, for the
    witnesses: identities of 64 bytes, keys that are their names, a node that
    answers nothing by itself, and files in a list. *)

From Stdlib Require Import Ascii.
From stdpp Require Import strings.
From S2P Require Import Prelude CppStd CppString Identity Types MessageHeader Codec ConcreteIO ToolEnv ToolsMain.
Import Concrete.

(** The [k] lowest bytes of a number, and back. *)
Fixpoint bytes_of (k : nat) (n : N) : std_string :=
  match k with
  | 0 => []
  | S k => ascii_of_N (n mod 256) :: bytes_of k (n / 256)
  end.

Fixpoint number_of (s : std_string) : N :=
  match s with
  | [] => 0%N
  | c :: s => (N_of_ascii c + 256 * number_of s)%N
  end.

Lemma bytes_of_length k n : length (bytes_of k n) = k.
Proof. revert n. induction k as [|k IH]; intros n; cbn; [done|]. by rewrite IH. Qed.

Lemma number_of_bytes k n : (n < 256 ^ N.of_nat k)%N → number_of (bytes_of k n) = n.
Proof.
  revert n. induction k as [|k IH]; intros n Hn; cbn [bytes_of number_of]; [cbn in Hn; lia|].
  rewrite Nat2N.inj_succ, N.pow_succ_r' in Hn.
  rewrite IH by (apply N.Div0.div_lt_upper_bound; lia).
  rewrite N_ascii_embedding by (apply N.mod_lt; lia).
  pose proof (N.div_mod n 256 ltac:(lia)). lia.
Qed.

#[export] Instance toy_text : AddressText := {|
  Address_string := bytes_of 64;
  Address_of_string := λ s, if length s =? 64 then Ok (number_of s) else Throw invalid_identity;
  DeserializeNodeIdList := λ s, Ok (if length s =? 64 then [number_of s] else [])
|}.

#[export] Instance toy_text_laws : AddressTextLaws.
Proof.
  split; cbn [Address_string Address_of_string toy_text IsInitialised xor_identity].
  - intros a _. apply bytes_of_length.
  - intros a Ha%N.ltb_lt. rewrite bytes_of_length. cbn [Nat.eqb]. f_equal.
    apply number_of_bytes. by change (256 ^ N.of_nat 64)%N with (2 ^ xor_bits)%N.
Qed.

#[export] Instance toy_keys : KeyOps := {|
  AnmaidToPmid := N;
  pmid_name := λ k, k;
  pmid_public_key := λ k, (k + 1)%N;
  maid_name := λ k, k
|}.

(** A node: its identity and whether it has joined. *)
#[export] Instance toy_node : GenericNodeOps := {|
  GenericNode := N * bool;
  node_of_pmid := λ k, (k, false);
  node_of_maid := λ k, (k, false);
  node_joined := snd;
  node_set_joined := λ b n, (n.1, b);
  node_Address := fst;
  node_endpoint := λ _, Endpoint_default;
  node_expected := λ _, 2%Z;
  node_nat_type := λ _, 0%Z;
  node_ReturnRoutingTable := λ _, [5%N];
  node_SerializeRoutingTable := λ _, [];
  node_ZeroStateJoin := λ _ _ n, (0%Z, n);
  node_Join := λ n, n;
  node_statuses_joining := λ _, [1%Z];
  node_statuses_after := λ _, [2%Z];
  node_SendDirect := λ _ _ n, n;
  node_SendGroup := λ _ _ n, n
|}.

#[export] Instance toy_node_laws : GenericNodeLaws.
Proof. by split. Qed.

#[export] Instance toy_tool : ToolOps := {|
  RandomUint32 := λ _, 7%Z;
  RandomId := λ n, N.of_nat n;
  RandomAlphaNumericString := λ size _, Ok (replicate (Z.to_nat size) "a"%char);
  parameters_group_size := 2%Z;
  address_from_string := λ s,
    match s with
    | [a; b; c; d] => Ok (ip_v4 (Z.of_N (N_of_ascii a), Z.of_N (N_of_ascii b), Z.of_N (N_of_ascii c), Z.of_N (N_of_ascii d)))
    | _ => Throw invalid_argument
    end
|}.

#[export] Instance toy_tool_laws : ToolLaws.
Proof.
  split; [|by cbn]. intros size n Hs. eexists. split; [done|].
  rewrite length_replicate. lia.
Qed.

(** The contacts of the bootstrap files and the keys of the key files. *)
#[export] Instance toy_files : FileOps := {|
  Files := list (std_string * list Endpoint) * list (std_string * list N);
  OverrideBootstrapFilePath := lit "bootstrap";
  WriteBootstrapContacts := λ contacts path f, (Ok tt, (assoc_set path contacts f.1, f.2));
  ReadBootstrapContacts := λ path f,
    match assoc_find path f.1 with Some contacts => Ok contacts | None => Throw parsing_error end;
  fs_exists := λ path f,
    match assoc_find path f.1, assoc_find path f.2 with None, None => false | _, _ => true end;
  fs_remove := λ path f, (Ok true, (assoc_erase path f.1, assoc_erase path f.2))
|}.

#[export] Instance toy_files_laws : FileLaws.
Proof.
  split. intros contacts path f f' [= <-]. cbn [ReadBootstrapContacts toy_files fst]. by rewrite assoc_find_set, bool_decide_true by done.
Qed.

#[export] Instance toy_key_files : KeyFileOps := {|
  ReadKeyChainList := λ path (f : Files),
    match assoc_find path f.2 with Some keys => Ok keys | None => Throw parsing_error end;
  WriteKeyChainList := λ path (keys : list AnmaidToPmid) (f : Files), (true, (f.1, assoc_set path keys f.2));
  fs_remove_ec := λ path (f : Files), (true, (assoc_erase path f.1, assoc_erase path f.2));
  GetPathFromProgramOptions := λ text _, Ok text;
  temp_directory_path_ec := λ _, [];
  path_append := λ p q, p ++ q;
  new_key := λ n, Ok (N.of_nat n)
|}.

#[export] Instance toy_key_files_laws : KeyFileLaws.
Proof.
  split; intros path keys f f' [= <-]; cbn [ReadKeyChainList toy_key_files fs_exists toy_files fst snd];
    rewrite assoc_find_set, bool_decide_true by done.
  - done.
  - by case_match.
Qed.
