(* ===== verification/ToolWitness.v ===== *)
(** * The tools in a concrete environment

    Each theorem about the tools that has hypotheses, applied to the environment
    of [ToolConcrete]. *)

From Stdlib Require Import Ascii.
From stdpp Require Import strings.
From S2P Require Import Prelude CppStd CppString Identity Types ConcreteIO ToolEnv ToolConcrete.
From S2P Require Import SharedResponse Commands CommandsFacts CommandsProps CommandsSending Answers.
From S2P Require Import PerformanceTest SendMessagesProps CommandsEdge CreateBootstrap ToolsMain.
Import Concrete.

(** A pool of six keys, a vault that has joined, and its session. *)
Definition pool : list AnmaidToPmid := [10; 11; 12; 13; 14; 15]%N.
Definition vault : GenericNode := (10%N, true).
Definition no_files : Files := ([], []).
Definition new_world : World := mkWorld 0 10000 0 0 no_files [].
Definition session : Shell := mkShell (Commands_new vault pool 2) new_world.

Definition node5 : Address := 5%N.

(** The reply of node 5 to a test message. *)
Definition a_reply : std_string := message_received (5%N, true) (numbered ">:< " " <:>" 1 (lit "data")).

Lemma a_reply_id : response_id a_reply = Ok node5.
Proof. vm_compute. reflexivity. Qed.

Lemma a_reply_no_table : PrintRoutingTable_response a_reply = Ok [].
Proof.
  unfold PrintRoutingTable_response.
  assert (find (lit "request_routing_table") a_reply = None) as -> by (vm_compute; reflexivity). done.
Qed.

Module Answering.
(** Every message is answered by node 5 while the sender waits. *)
#[local] Instance one_answer : ArrivalOps := {|
  send_time := λ _, 0%Z;
  arrivals_after := λ _, [];
  arrivals_waiting := λ _, [mkArrival 0 5000 a_reply];
  spurious_wakeup := λ _, None;
  functor_exception_caught := true;
  interrupted_after := 0
|}.

Lemma one_answer_good k seen : (0, node5) ∉ seen → 0 < k →
  good_answers k seen [mkArrival 0 5000 a_reply] ((0, node5) :: seen).
Proof.
  intros Hs Hk. eapply (good_text k seen _ node5 []); [exact Hk|exact a_reply_id|exact Hs|exact a_reply_no_table|constructor].
Qed.

Lemma RunPerformanceTest_completes_witness :
  ∃ s', RunPerformanceTest false session = (Ok (Some tt), s') ∧ data_size_ (commands s') = 2048000%Z.
Proof.
  apply (RunPerformanceTest_completes false). intros n _.
  exists [], [(0, node5)]. split_and!; [constructor| |done].
  apply one_answer_good; [apply not_elem_of_nil|lia].
Defined.

Lemma SendMessages_completes_witness :
  can_make 3 kDirect session ∧
  ∃ s', SendMessages 3 kDirect false 1 session = (Ok (Some tt), s') ∧
    sends (world s') = 0 + Z.to_nat 1 ∧ default_response_timeout (world s') = 10000%Z.
Proof.
  assert (can_make 3 kDirect session) as Hm by (split_and!; [lia|lia|cbn; lia|done]).
  split; [exact Hm|]. apply (SendMessages_completes 3 kDirect 1 session Hm).
  - unfold can_send. cbn. lia.
  - refine (good_send 0 0 0 [] [] 1 _ _); [constructor|].
    refine (good_wait 1 1 [] [(0, node5)] _). apply one_answer_good; [apply not_elem_of_nil|lia].
Defined.

Lemma Run_ends_at_exit_witness :
  (∀ cmdline more fuel, is_exit cmdline = true → 3 ≤ fuel →
     (Run fuel ([lit "datasize 5"] ++ cmdline :: more) session).1 = Ok (Some tt)) ∧
  (∀ fuel, (Run fuel [lit "datasize 5"] session).1 = Ok None).
Proof.
  eapply (Run_ends_at_exit session [lit "datasize 5"]); [done|done|done| |repeat constructor].
  eapply processed_cons; [|constructor].
  apply run_fst. vm_compute. reflexivity.
Defined.

Lemma CalculateClosests_spec_witness :
  ∃ closests farthest,
    (CalculateClosests (11%N : Address) 2 session).1 = Ok (closests, farthest) ∧ last closests = Some farthest ∧
    closest_others (11%N : Address) 2 (all_ids_ (commands session)) closests.
Proof.
  refine (CalculateClosests_spec session (11%N : Address) 2 _ _); [lia|].
  apply (bool_decide_unpack _). vm_compute. exact I.
Defined.

Lemma CalculateTimeToSleep_bounds_witness :
  ∃ t, CalculateTimeToSleep (commands session) = Ok t ∧ (0 ≤ t ≤ 1000)%Z ∧
    ((data_rate_ (commands session) < 1001 * data_size_ (commands session))%Z → (0 < t)%Z).
Proof.
  refine (CalculateTimeToSleep_bounds (commands session) _ _); unfold size_t_ok; cbn; lia.
Defined.

Definition no_response : SharedResponse := SharedResponse_new [] 1 0.

Lemma reply_recorded_witness :
  ∃ r1 out1,
    CollectResponse a_reply true 5000 10000 (no_response, []) = (Ok true, (r1, out1)) ∧
    (∀ a : Identity, map_find Identity_ltb a (responded_nodes_ r1) =
       if bool_decide (a = 5%N) then Some tt else map_find Identity_ltb a (responded_nodes_ no_response)) ∧
    (∀ message_id' now' out', (0 ≤ message_id')%Z →
       (total_milliseconds (now' - msg_send_time_ no_response) < 10000)%Z → ∃ out2,
       CollectResponse (message_received (5%N, true) (numbered ">:< " " <:>" message_id' (lit "data")))
         true now' 10000 (r1, out') = (Ok false, (r1, out2))).
Proof.
  refine (reply_recorded (5%N, true) (lit "data") no_response _ _ _ _ 1 true 5000 10000 [] _ _).
  - by_bool.
  - vm_compute. reflexivity.
  - constructor.
  - done.
  - lia.
  - vm_compute. reflexivity.
Defined.

Lemma GetPeer_sets_peer_witness :
  ∃ s', GetPeer (peer_text (lit "abcd") (lit "5483")) session = (Ok tt, s') ∧
    bootstrap_peer_ep_ (commands s') = (inl (97, 98, 99, 100)%Z, 5483%Z) ∧
    ReadBootstrapContacts OverrideBootstrapFilePath (files (world s')) =
      Ok [Endpoint_default; (inl (97, 98, 99, 100)%Z, 5483%Z)].
Proof.
  refine (GetPeer_sets_peer (lit "abcd") (lit "5483") (inl (97, 98, 99, 100)%Z) 5483 session _ _ _ _ _).
  - by_bool.
  - vm_compute. reflexivity.
  - vm_compute. reflexivity.
  - intros f. by do 2 eexists.
  - intros contacts f. by eexists.
Defined.
End Answering.

(** The bootstrap file tool with two contacts, asked to write them. *)
Definition two_contacts : list Endpoint := [(inl (1, 2, 3, 4)%Z, 5483%Z); (inl (5, 6, 7, 8)%Z, 5484%Z)].
Definition bootstrap_tool : Tool := mkTool two_contacts [lit "contacts.dat"] no_files [].

Lemma main_stops_witness : (main_loop 2 bootstrap_tool).1 ≠ Ok None.
Proof. apply (main_stops bootstrap_tool 2). cbn. lia. Defined.

Lemma WriteFile_ReadFile_witness :
  ∃ t1 t2, WriteFile bootstrap_tool = (Ok tt, t1) ∧
    ReadFile (set_input [lit "contacts.dat"] (set_contacts [] t1)) = (Ok tt, t2) ∧
    bootstrap_contacts t2 = two_contacts ∧ input t2 = [].
Proof.
  refine (WriteFile_ReadFile bootstrap_tool (lit "contacts.dat") (lit "contacts.dat") [] [] [] _ _ _ _).
  - vm_compute. reflexivity.
  - done.
  - done.
Defined.

(** [key_helper --create], then [routing_node --start --identity_index 3]. *)
Definition node_options : typed_options := [("start", VNone); ("identity_index", VInt 3)]%string.

Lemma start_checked_witness :
  gives (check_start (variables_map (node_defaults no_files) node_options) no_files []).1
    (λ start, match start with Some start => start_ok node_options start | None => True end)
    (start_error node_options).
Proof.
  apply (start_checked no_files).
  - intros text. by exists text.
  - intros path. done.
Defined.

Definition eight_keys : list AnmaidToPmid := [0; 1; 2; 3; 4; 5; 6; 7]%N.
Definition key_file : Files := ([], [(lit "pmids_list.dat", eight_keys)]).

Lemma created_keys_are_loaded_witness :
  ∃ out1 out2,
    key_helper_main [("create", VNone); ("pmids_count", VInt 8)]%string (no_files, []) =
      (Ok 0%Z, (key_file, out1)) ∧
    load_keys (variables_map (node_defaults key_file) node_options) key_file [] = (Ok (Some (eight_keys, 3%Z)), out2) ∧
    length eight_keys = Z.to_nat 8.
Proof.
  apply (created_keys_are_loaded 8 eight_keys (lit "pmids_list.dat") node_options 3 no_files key_file []);
    try done; lia.
Defined.
